(** * ReactiveEventSystem: a shallow embedding of the event bus

    The class [ReactiveEventSystem] (index.ts) is embedded as functions on an
    explicit [World]: the bus instances, the heap of the function objects the
    class creates itself (once-wrappers and the listeners of [stream],
    [waitFor] and [pipe]), the timers armed by [waitFor], the promises it
    returns, the stream cells, and a trace of the calls made and of the
    console.  The callbacks of the caller are a parameter: a callback is known
    by its number, and running it yields the calls it makes on the buses and
    the way it ends.

    JavaScript numbers that the class only ever increments are [nat];
    a [Map<string, V>] is an insertion-ordered association list; a [Set] of
    listeners is the entry list of the language specification, where a deleted
    entry leaves a hole, because [Set.prototype.forEach] walks the live list
    by index while listeners may add and delete. *)

From Stdlib Require Import List String ZArith Bool Arith Lia.
Import ListNotations.
Local Open Scope string_scope.
Local Open Scope list_scope.

(** Identities.  Functions are compared by reference: a function is either a
    callback of the caller or a function object created by the class, known by
    its index in the heap of the world. *)
Inductive fid :=
| User (u : nat)
| Internal (k : nat).

Definition fid_eqb (f g : fid) : bool :=
  match f, g with
  | User u, User v => Nat.eqb u v
  | Internal k, Internal j => Nat.eqb k j
  | _, _ => false
  end.

Definition bid := nat.
Definition tid := nat.
Definition pid := nat.
Definition cid := nat.

(** ** [Set<Function>] *)
Module JsSet.

Definition t := list (option fid).

Definition empty : t := [].

Definition is_entry (f : fid) (e : option fid) : bool :=
  match e with
  | Some g => fid_eqb f g
  | None => false
  end.

Definition has (s : t) (f : fid) : bool := existsb (is_entry f) s.

Definition add (s : t) (f : fid) : t :=
  if has s f then s else s ++ [Some f].

Definition delete (s : t) (f : fid) : t :=
  map (fun e => if is_entry f e then None else e) s.

Definition clear (s : t) : t := map (fun _ => None) s.

Fixpoint elements (s : t) : list fid :=
  match s with
  | [] => []
  | Some f :: r => f :: elements r
  | None :: r => elements r
  end.

Definition size (s : t) : nat := List.length (elements s).

(** [new Set(s)] *)
Definition copy (s : t) : t := map Some (elements s).

End JsSet.

(** ** [Map<string, V>] *)
Module JsMap.
Section WithValue.
Context {V : Type}.

Definition t := list (string * V).

Fixpoint get (m : t) (k : string) : option V :=
  match m with
  | [] => None
  | (k', v) :: r => if String.eqb k k' then Some v else get r k
  end.

Definition has (m : t) (k : string) : bool :=
  match get m k with Some _ => true | None => false end.

Fixpoint set (m : t) (k : string) (v : V) : t :=
  match m with
  | [] => [(k, v)]
  | (k', v') :: r =>
      if String.eqb k k' then (k', v) :: r else (k', v') :: set r k v
  end.

Fixpoint delete (m : t) (k : string) : t :=
  match m with
  | [] => []
  | (k', v') :: r =>
      if String.eqb k k' then r else (k', v') :: delete r k
  end.

(** [m.get(k)?.method(...)] for a method that mutates the value in
    place: the entry keeps its position. *)
Fixpoint update (m : t) (k : string) (f : V -> V) : t :=
  match m with
  | [] => []
  | (k', v') :: r =>
      if String.eqb k k' then (k', f v') :: r else (k', v') :: update r k f
  end.

Definition keys (m : t) : list string := map fst m.

End WithValue.
Arguments t : clear implicits.
End JsMap.

(** [Array.from(new Set(names))]: first occurrences, in order. *)
Fixpoint dedup (seen names : list string) : list string :=
  match names with
  | [] => []
  | n :: r =>
      if existsb (String.eqb n) seen then dedup seen r
      else n :: dedup (n :: seen) r
  end.

(** The double-quote character of the console messages. *)
Definition dquote : string :=
  String (Ascii.Ascii false true false false false true false false)
         EmptyString.

(** ** Values thrown and caught *)
Inductive thrown :=
| JsError (msg : string)
| JsTypeError (msg : string)
| JsOther (str : string).

(** [error instanceof Error ? error : new Error(String(error))] *)
Definition normalize (t : thrown) : thrown :=
  match t with
  | JsOther s => JsError s
  | _ => t
  end.

(** How a call ends. *)
Inductive completion (A : Type) :=
| Normal (a : A)
| Throw (t : thrown).
Arguments Normal {A} a.
Arguments Throw {A} t.

(** [interface EventSystemState] *)
Record EventSystemState := mkState {
  totalEventsEmitted : nat;
  lastEmittedEvent : option string;
  activeListeners : nat;
  errorCount : nat
}.

(** The two entries [setupMetrics] stores: lazy getters over the state. *)
Inductive computedRef := ComputedTotalEventsEmitted | ComputedErrorCount.

Inductive timerState := Armed | Cleared | Fired.

Section Model.

Context {payload : Type}.

(** What a function returns: [T | void], with [null] kept apart from
    [undefined] because [runMiddleware] tests both. *)
Inductive jsret :=
| RetUndefined
| RetNull
| RetVal (x : payload).

(** An argument where the signature asks for a function: the checks
    [typeof listener !== 'function'] can fail. *)
Inductive value :=
| VFun (f : fid)
| VNotFun.

(** What the caller can pass there: one of its callbacks, or something
    that is not a function. *)
Inductive supplied :=
| Callback (u : nat)
| NotCallable.

Definition value_of (v : supplied) : value :=
  match v with
  | Callback u => VFun (User u)
  | NotCallable => VNotFun
  end.

(** The calls a callback may make on a bus while it runs: it subscribes,
    unsubscribes and emits.  [AUnsubscribe] is a call of the closure that
    [on] or [once] returned.  A callback does not call [use],
    [removeAllListeners] or [destroy] while an emission is under way, so
    the set and the middleware arrays that the emission walks stay the
    objects that the maps hold. *)
Inductive action :=
| AOn (b : bid) (event : string) (listener : supplied) (reactive : bool)
| AOnce (b : bid) (event : string) (listener : supplied) (reactive : bool)
| AOff (b : bid) (event : string) (listener : supplied)
| AUnsubscribe (b : bid) (event : string) (listener : fid)
| AEmit (b : bid) (event : string) (data : payload).

(** A run of a user callback: the calls it makes, then how it ends. *)
Record behaviour := mkBehaviour {
  acts : list action;
  result : completion jsret
}.

(** The function objects the class creates and stores as listeners. *)
Inductive closure :=
| OnceWrapper (b : bid) (event : string) (listener : fid)
| StreamListener (c : cid)
| WaitListener (timeoutId : option tid) (p : pid)
| PipeListener (toBus : bid) (targetEvent : string).

Record Bus := mkBus {
  events : JsMap.t JsSet.t;
  onceEvents : JsMap.t JsSet.t;
  reactiveEffects : list fid;
  reactiveState : EventSystemState;
  computedMetrics : JsMap.t computedRef;
  middleware : JsMap.t (list fid);
  errorHandler : option (thrown -> string -> fid -> behaviour)
}.

Inductive promiseState :=
| Pending
| Fulfilled (x : payload)
| Rejected (err : thrown).

(** A timer of [waitFor]: its callback closes over the bus, the event, the
    listener and the promise. *)
Record timer := mkTimer {
  t_bus : bid;
  t_event : string;
  t_listener : fid;
  t_promise : pid;
  t_delay : Z;
  t_state : timerState
}.

Record streamState := mkStreamState {
  s_value : option payload;
  s_count : nat
}.

(** What the outside sees happen, in order. *)
Inductive entry :=
| Invoked (f : fid) (x : payload) (event : option string)
| HandlerInvoked (err : thrown) (event : string) (listener : fid)
| ConsoleError (msg : string) (err : thrown).

Record World := mkWorld {
  buses : list Bus;
  fns : list closure;
  timers : list timer;
  promises : list promiseState;
  cells : list streamState;
  trace : list entry
}.

(** *** State updates *)

Definition set_events (v : JsMap.t JsSet.t) (s : Bus) : Bus :=
  mkBus v (onceEvents s) (reactiveEffects s) (reactiveState s)
        (computedMetrics s) (middleware s) (errorHandler s).
Definition set_onceEvents (v : JsMap.t JsSet.t) (s : Bus) : Bus :=
  mkBus (events s) v (reactiveEffects s) (reactiveState s)
        (computedMetrics s) (middleware s) (errorHandler s).
Definition set_reactiveEffects (v : list fid) (s : Bus) : Bus :=
  mkBus (events s) (onceEvents s) v (reactiveState s)
        (computedMetrics s) (middleware s) (errorHandler s).
Definition set_reactiveState (v : EventSystemState) (s : Bus) : Bus :=
  mkBus (events s) (onceEvents s) (reactiveEffects s) v
        (computedMetrics s) (middleware s) (errorHandler s).
Definition set_computedMetrics (v : JsMap.t computedRef) (s : Bus) : Bus :=
  mkBus (events s) (onceEvents s) (reactiveEffects s) (reactiveState s)
        v (middleware s) (errorHandler s).
Definition set_middleware (v : JsMap.t (list fid)) (s : Bus) : Bus :=
  mkBus (events s) (onceEvents s) (reactiveEffects s) (reactiveState s)
        (computedMetrics s) v (errorHandler s).

Definition set_buses (v : list Bus) (w : World) : World :=
  mkWorld v (fns w) (timers w) (promises w) (cells w) (trace w).
Definition set_fns (v : list closure) (w : World) : World :=
  mkWorld (buses w) v (timers w) (promises w) (cells w) (trace w).
Definition set_timers (v : list timer) (w : World) : World :=
  mkWorld (buses w) (fns w) v (promises w) (cells w) (trace w).
Definition set_promises (v : list promiseState) (w : World) : World :=
  mkWorld (buses w) (fns w) (timers w) v (cells w) (trace w).
Definition set_cells (v : list streamState) (w : World) : World :=
  mkWorld (buses w) (fns w) (timers w) (promises w) v (trace w).
Definition log (e : entry) (w : World) : World :=
  mkWorld (buses w) (fns w) (timers w) (promises w) (cells w)
          (trace w ++ [e]).

Fixpoint update_nth {A : Type} (n : nat) (f : A -> A) (l : list A) : list A :=
  match l, n with
  | [], _ => []
  | a :: r, O => f a :: r
  | a :: r, S n' => a :: update_nth n' f r
  end.

(** *** The methods that touch one bus and call no user code *)

(** [setupReactiveEffect] / [cleanupReactiveEffect]: the effect itself
    only reads [totalEventsEmitted]; what the bus keeps is the key. *)
Definition setupReactiveEffect (listener : fid) (s : Bus) : Bus :=
  if existsb (fid_eqb listener) (reactiveEffects s) then s
  else set_reactiveEffects (reactiveEffects s ++ [listener]) s.

Definition cleanupReactiveEffect (listener : fid) (s : Bus) : Bus :=
  set_reactiveEffects
    (filter (fun g => negb (fid_eqb listener g)) (reactiveEffects s)) s.

Definition sizes (m : JsMap.t JsSet.t) : nat :=
  fold_left (fun total kv => total + JsSet.size (snd kv)) m 0.

Definition totalListeners (s : Bus) : nat :=
  fold_left (fun total kv => total + JsSet.size (snd kv)) (onceEvents s)
    (fold_left (fun total kv => total + JsSet.size (snd kv)) (events s) 0).

Definition updateMetrics (s : Bus) : Bus :=
  let st := reactiveState s in
  set_reactiveState
    (mkState (totalEventsEmitted st) (lastEmittedEvent st)
             (totalListeners s) (errorCount st)) s.

Definition setupMetrics (s : Bus) : Bus :=
  set_computedMetrics
    (JsMap.set
       (JsMap.set (computedMetrics s) "eventRate" ComputedTotalEventsEmitted)
       "errorRate" ComputedErrorCount) s.

(** [if (!m.has(event)) m.set(event, new Set()); m.get(event)!.add(l)] *)
Definition add_listener (m : JsMap.t JsSet.t) (event : string) (l : fid)
  : JsMap.t JsSet.t :=
  let m1 := if JsMap.has m event then m else JsMap.set m event JsSet.empty in
  JsMap.update m1 event (fun s => JsSet.add s l).

(** [on], [once] past the [typeof] check; [once] is given the identity of
    the wrapper it has just created. *)
Definition bus_on (event : string) (listener : fid) (reactive : bool)
                  (s : Bus) : Bus :=
  let s1 := set_events (add_listener (events s) event listener) s in
  let s2 := if reactive then setupReactiveEffect listener s1 else s1 in
  updateMetrics s2.

Definition bus_once (event : string) (onceWrapper : fid) (reactive : bool)
                    (s : Bus) : Bus :=
  let s1 := set_onceEvents (add_listener (onceEvents s) event onceWrapper) s in
  let s2 := if reactive then setupReactiveEffect onceWrapper s1 else s1 in
  updateMetrics s2.

Definition bus_off (event : string) (listener : fid) (s : Bus) : Bus :=
  let s1 := set_events
              (JsMap.update (events s) event
                 (fun l => JsSet.delete l listener)) s in
  let s2 := set_onceEvents
              (JsMap.update (onceEvents s1) event
                 (fun l => JsSet.delete l listener)) s1 in
  updateMetrics (cleanupReactiveEffect listener s2).

Definition listenerCount (event : string) (s : Bus) : nat :=
  let regularCount :=
    match JsMap.get (events s) event with
    | Some l => JsSet.size l | None => 0 end in
  let onceCount :=
    match JsMap.get (onceEvents s) event with
    | Some l => JsSet.size l | None => 0 end in
  regularCount + onceCount.

Definition hasListeners (event : string) (s : Bus) : bool :=
  Nat.ltb 0 (listenerCount event s).

Definition eventNames (s : Bus) : list string :=
  dedup [] (JsMap.keys (events s) ++ JsMap.keys (onceEvents s)).

Definition cleanupAll (ls : list fid) (s : Bus) : Bus :=
  fold_left (fun acc l => cleanupReactiveEffect l acc) ls s.

Definition all_listeners (m : JsMap.t JsSet.t) : list fid :=
  flat_map (fun kv => JsSet.elements (snd kv)) m.

(** [if (event)]: the empty string is falsy, like a missing argument. *)
Definition truthy_event (event : option string) : option string :=
  match event with
  | Some "" => None
  | other => other
  end.

Definition removeAllListeners (event : option string) (s : Bus) : Bus :=
  match truthy_event event with
  | Some e =>
      let s1 := match JsMap.get (events s) e with
                | Some l => cleanupAll (JsSet.elements l) s | None => s end in
      let s2 := match JsMap.get (onceEvents s1) e with
                | Some l => cleanupAll (JsSet.elements l) s1 | None => s1 end in
      let s3 := set_events (JsMap.delete (events s2) e) s2 in
      let s4 := set_onceEvents (JsMap.delete (onceEvents s3) e) s3 in
      updateMetrics s4
  | None =>
      let s1 := cleanupAll (all_listeners (events s)) s in
      let s2 := cleanupAll (all_listeners (onceEvents s1)) s1 in
      let s3 := set_events [] s2 in
      let s4 := set_onceEvents [] s3 in
      updateMetrics s4
  end.

Definition destroy (s : Bus) : Bus :=
  let s1 := removeAllListeners None s in
  let s2 := set_middleware [] s1 in
  set_computedMetrics [] s2.

(** [use] past the [typeof] check, and the closure it returns. *)
Definition bus_use (event : string) (mw : fid) (s : Bus) : Bus :=
  let m := middleware s in
  let m1 := if JsMap.has m event then m else JsMap.set m event [] in
  set_middleware (JsMap.update m1 event (fun l => l ++ [mw])) s.

(** [splice(indexOf(mw), 1)] *)
Fixpoint remove_first (mw : fid) (l : list fid) : list fid :=
  match l with
  | [] => []
  | m :: r => if fid_eqb mw m then r else m :: remove_first mw r
  end.

Definition bus_unregister (event : string) (mw : fid) (s : Bus) : Bus :=
  set_middleware (JsMap.update (middleware s) event (remove_first mw)) s.

(** The constructor. *)
Definition new_bus (enableMetrics : bool)
    (handler : option (thrown -> string -> fid -> behaviour)) : Bus :=
  let s := mkBus [] [] [] (mkState 0 None 0 0) [] [] handler in
  if enableMetrics then setupMetrics s else s.

(** *** Methods on a bus of the world *)

Definition the_bus (b : bid) (w : World) : Bus :=
  nth b (buses w) (new_bus false None).

Definition upd_bus (b : bid) (f : Bus -> Bus) (w : World) : World :=
  set_buses (update_nth b f (buses w)) w.

(** What the caller holds after a call: the closures and objects the
    methods return.  Their identity is never compared by the class. *)
Inductive handle :=
| HUnsubscribe (b : bid) (event : string) (listener : fid)
| HUnregister (b : bid) (event : string) (mw : fid)
| HStream (b : bid) (event : string) (listener : fid) (c : cid)
| HPromise (p : pid)
| HMetrics (b : bid)
| HBus (b : bid).

Definition on (b : bid) (event : string) (listener : value) (reactive : bool)
              (w : World) : World * completion handle :=
  match listener with
  | VNotFun => (w, Throw (JsTypeError "The listener must be a function"))
  | VFun l =>
      (upd_bus b (bus_on event l reactive) w,
       Normal (HUnsubscribe b event l))
  end.

Definition once (b : bid) (event : string) (listener : value)
                (reactive : bool) (w : World) : World * completion handle :=
  match listener with
  | VNotFun => (w, Throw (JsTypeError "The listener must be a function"))
  | VFun l =>
      let onceWrapper := Internal (List.length (fns w)) in
      let w1 := set_fns (fns w ++ [OnceWrapper b event l]) w in
      (upd_bus b (bus_once event onceWrapper reactive) w1,
       Normal (HUnsubscribe b event onceWrapper))
  end.

Definition off (b : bid) (event : string) (listener : value) (w : World)
  : World :=
  match listener with
  | VFun l => upd_bus b (bus_off event l) w
  | VNotFun => upd_bus b updateMetrics w
  end.

Definition use (b : bid) (event : string) (mw : value) (w : World)
  : World * completion handle :=
  match mw with
  | VNotFun => (w, Throw (JsTypeError "Middleware must be a function"))
  | VFun m => (upd_bus b (bus_use event m) w, Normal (HUnregister b event m))
  end.

(** [clearTimeout], [resolve], [reject] *)
Definition clearTimeout (t : tid) (w : World) : World :=
  set_timers
    (update_nth t
       (fun tm =>
          match t_state tm with
          | Armed => mkTimer (t_bus tm) (t_event tm) (t_listener tm)
                             (t_promise tm) (t_delay tm) Cleared
          | _ => tm
          end) (timers w)) w.

Definition settle (p : pid) (v : promiseState) (w : World) : World :=
  set_promises
    (update_nth p
       (fun st => match st with Pending => v | _ => st end) (promises w)) w.

Definition truthy_timeout (timeout : option Z) : option Z :=
  match timeout with
  | Some 0%Z => None
  | other => other
  end.

Definition waitFor (b : bid) (event : string) (timeout : option Z)
                   (w : World) : World * pid :=
  let p := List.length (promises w) in
  let w1 := set_promises (promises w ++ [Pending]) w in
  let listener := Internal (List.length (fns w1)) in
  let timeoutId :=
    match truthy_timeout timeout with
    | Some _ => Some (List.length (timers w1))
    | None => None
    end in
  let w2 := set_fns (fns w1 ++ [WaitListener timeoutId p]) w1 in
  let w3 :=
    match truthy_timeout timeout with
    | Some ms =>
        set_timers (timers w2 ++ [mkTimer b event listener p ms Armed]) w2
    | None => w2
    end in
  (fst (once b event (VFun listener) false w3), p).

(** The timer callback of [waitFor], run by the host when the timer is
    still armed. *)
Definition fireTimer (t : tid) (w : World) : World :=
  match nth_error (timers w) t with
  | Some tm =>
      match t_state tm with
      | Armed =>
          let w1 :=
            set_timers
              (update_nth t
                 (fun tm => mkTimer (t_bus tm) (t_event tm) (t_listener tm)
                                    (t_promise tm) (t_delay tm) Fired)
                 (timers w)) w in
          let w2 := off (t_bus tm) (t_event tm) (VFun (t_listener tm)) w1 in
          settle (t_promise tm)
            (Rejected
               (JsError ("Timeout waiting for event: " ++ t_event tm)%string))
            w2
      | _ => w
      end
  | None => w
  end.

Definition stream (b : bid) (event : string) (w : World) : World * handle :=
  let c := List.length (cells w) in
  let w1 := set_cells (cells w ++ [mkStreamState None 0]) w in
  let listener := Internal (List.length (fns w1)) in
  let w2 := set_fns (fns w1 ++ [StreamListener c]) w1 in
  (fst (on b event (VFun listener) true w2), HStream b event listener c).

Definition pipe (b : bid) (fromEvent : string) (toBus : bid)
                (toEvent : option string) (w : World) : World * handle :=
  let targetEvent := match toEvent with Some e => e | None => fromEvent end in
  let listener := Internal (List.length (fns w)) in
  let w1 := set_fns (fns w ++ [PipeListener toBus targetEvent]) w in
  (fst (on b fromEvent (VFun listener) false w1),
   HUnsubscribe b fromEvent listener).

Definition construct (enableMetrics : bool)
    (handler : option (thrown -> string -> fid -> behaviour)) (w : World)
  : World * handle :=
  (set_buses (buses w ++ [new_bus enableMetrics handler]) w,
   HBus (List.length (buses w))).

(** *** Dispatch

    Code that runs user callbacks may not return: a listener can emit the
    event it listens to.  [None] is a computation that has not finished
    within the fuel it was given. *)

Definition M (A : Type) : Type := World -> option (World * completion A).

Definition ret {A : Type} (a : A) : M A := fun w => Some (w, Normal a).

Definition bind {A B : Type} (m : M A) (k : A -> M B) : M B :=
  fun w =>
    match m w with
    | None => None
    | Some (w1, Normal a) => k a w1
    | Some (w1, Throw t) => Some (w1, Throw t)
    end.

Definition lift {A : Type} (f : World -> World * completion A) : M A :=
  fun w => Some (f w).

Definition modify (f : World -> World) : M unit :=
  fun w => Some (f w, Normal tt).

Notation "x <- m ;; k" := (bind m (fun x => k))
  (at level 61, m at next level, right associativity).
Notation "m ;;; k" := (bind m (fun _ => k))
  (at level 61, right associativity).

Definition bump_errorCount (s : Bus) : Bus :=
  let st := reactiveState s in
  set_reactiveState
    (mkState (totalEventsEmitted st) (lastEmittedEvent st)
             (activeListeners st) (S (errorCount st))) s.

Definition count_emission (event : string) (s : Bus) : Bus :=
  let st := reactiveState s in
  set_reactiveState
    (mkState (S (totalEventsEmitted st)) (Some event)
             (activeListeners st) (errorCount st)) s.

Definition listener_error_msg (event : string) : string :=
  ("[ReactiveEventSystem] Error in listener for " ++ dquote ++ event
     ++ dquote ++ ":")%string.

Definition global_middleware_error_msg (event : string) : string :=
  ("[ReactiveEventEmitter] Error in global middleware for " ++ dquote
     ++ event ++ dquote ++ ":")%string.

Definition middleware_error_msg (event : string) : string :=
  ("[ReactiveEventEmitter] Error in middleware for " ++ dquote ++ event
     ++ dquote ++ ":")%string.

Definition update_cell (c : cid) (data : payload) (w : World) : World :=
  set_cells
    (update_nth c (fun st => mkStreamState (Some data) (S (s_count st)))
       (cells w)) w.

Definition live_listeners (b : bid) (event : string) (w : World) : JsSet.t :=
  match JsMap.get (events (the_bus b w)) event with
  | Some l => l
  | None => JsSet.empty
  end.

Section Dispatch.

(** The callbacks of the caller. *)
Variable user : nat -> payload -> option string -> behaviour.

(** [emit] as it can be called from inside a callback. *)
Variable emit_ : bid -> string -> payload -> M bool.

Definition run_action (a : action) : M unit :=
  match a with
  | AOn b event listener reactive =>
      _ <- lift (on b event (value_of listener) reactive) ;; ret tt
  | AOnce b event listener reactive =>
      _ <- lift (once b event (value_of listener) reactive) ;; ret tt
  | AOff b event listener => modify (off b event (value_of listener))
  | AUnsubscribe b event listener => modify (off b event (VFun listener))
  | AEmit b event data => _ <- emit_ b event data ;; ret tt
  end.

Fixpoint run_actions (l : list action) : M unit :=
  match l with
  | [] => ret tt
  | a :: r => run_action a ;;; run_actions r
  end.

Definition perform (bh : behaviour) : M jsret :=
  run_actions (acts bh) ;;; (fun w => Some (w, result bh)).

(** The body of a function object of the class, called with [data];
    [self] is the object and [call] calls another function. *)
Definition run_closure (call : fid -> M jsret) (self : fid)
    (c : closure) (data : payload) : M jsret :=
  match c with
  | OnceWrapper b event listener =>
      modify (off b event (VFun self)) ;;; call listener
  | StreamListener c =>
      modify (update_cell c data) ;;; ret RetUndefined
  | WaitListener timeoutId p =>
      modify (match timeoutId with
              | Some t => clearTimeout t
              | None => fun w => w
              end) ;;;
      modify (settle p (Fulfilled data)) ;;;
      ret RetUndefined
  | PipeListener toBus targetEvent =>
      emit_ toBus targetEvent data ;;; ret RetUndefined
  end.

(** Calling the function [f] with [(data)] or, for middleware, with
    [(data, event, this)]. *)
Fixpoint invoke (depth : nat) (f : fid) (data : payload)
                (event : option string) : M jsret :=
  fun w =>
    match depth with
    | O => None
    | S depth' =>
        match f with
        | User u =>
            perform (user u data event) (log (Invoked f data event) w)
        | Internal k =>
            match nth_error (fns w) k with
            | None => Some (w, Throw (JsTypeError "not a function"))
            | Some c =>
                run_closure (fun g => invoke depth' g data None) f c data
                  (log (Invoked f data event) w)
            end
        end
    end.

(** The [catch] block of [callListeners]. *)
Definition recover (b : bid) (event : string) (listener : fid)
    (error : thrown) : M unit :=
  fun w =>
    let err := normalize error in
    let w1 := upd_bus b bump_errorCount w in
    match errorHandler (the_bus b w1) with
    | Some handler =>
        (perform (handler err event listener) ;;; ret tt)
          (log (HandlerInvoked err event listener) w1)
    | None =>
        Some (log (ConsoleError (listener_error_msg event) err) w1,
              Normal tt)
    end.

(** [callListeners]: [listeners] reads the set that [forEach] walks, the
    live set of the event or the private copy of the once-set. *)
Fixpoint callListeners (steps : nat) (b : bid)
    (listeners : World -> JsSet.t) (index : nat)
    (data : payload) (event : string) : M unit :=
  fun w =>
    match nth_error (listeners w) index with
    | None => Some (w, Normal tt)
    | Some e =>
        match steps with
        | O => None
        | S steps' =>
            match e with
            | None =>
                callListeners steps' b listeners (S index) data event w
            | Some listener =>
                match invoke steps' listener data None w with
                | None => None
                | Some (w1, Normal _) =>
                    callListeners steps' b listeners (S index) data event w1
                | Some (w1, Throw error) =>
                    (recover b event listener error ;;;
                     callListeners steps' b listeners (S index) data event)
                      w1
                end
            end
        end
    end.

(** One [for (const middleware of ...)] loop of [runMiddleware].  No
    callback changes a middleware array, so the loop walks the array as it
    was when the loop started. *)
Fixpoint run_chain (depth : nat) (msg : string) (mws : list fid)
    (event : string) (processedData : payload) : M payload :=
  match mws with
  | [] => ret processedData
  | mw :: rest =>
      fun w =>
        match invoke depth mw processedData (Some event) w with
        | None => None
        | Some (w1, Normal (RetVal result)) =>
            run_chain depth msg rest event result w1
        | Some (w1, Normal _) =>
            run_chain depth msg rest event processedData w1
        | Some (w1, Throw error) =>
            run_chain depth msg rest event processedData
              (log (ConsoleError msg error) w1)
        end
  end.

Definition middlewares (b : bid) (key : string) (w : World) : list fid :=
  match JsMap.get (middleware (the_bus b w)) key with
  | Some l => l
  | None => []
  end.

Definition runMiddleware (depth : nat) (b : bid) (event : string)
    (data : payload) : M payload :=
  processedData <-
    (fun w => run_chain depth (global_middleware_error_msg event)
                (middlewares b "*" w) event data w) ;;
  (fun w => run_chain depth (middleware_error_msg event)
              (middlewares b event w) event processedData w).

(** The two blocks of [emit] inside [batch]. *)
Definition call_regular (n : nat) (b : bid) (event : string)
    (processedData : payload) : M bool :=
  fun w =>
    match JsMap.get (events (the_bus b w)) event with
    | Some regularListeners =>
        if Nat.ltb 0 (JsSet.size regularListeners) then
          (callListeners n b (live_listeners b event) 0
             processedData event ;;; ret true) w
        else ret false w
    | None => ret false w
    end.

Definition clear_once (event : string) (s : Bus) : Bus :=
  set_onceEvents (JsMap.update (onceEvents s) event JsSet.clear) s.

Definition drain_once (n : nat) (b : bid) (event : string)
    (processedData : payload) : M bool :=
  fun w =>
    match JsMap.get (onceEvents (the_bus b w)) event with
    | Some onceListeners =>
        if Nat.ltb 0 (JsSet.size onceListeners) then
          let listenersToCall := JsSet.copy onceListeners in
          (modify (upd_bus b (clear_once event)) ;;;
           callListeners n b (fun _ => listenersToCall) 0
             processedData event ;;;
           modify (upd_bus b
                     (cleanupAll (JsSet.elements listenersToCall))) ;;;
           ret true) w
        else ret false w
    | None => ret false w
    end.

Definition emit_body (n : nat) (b : bid) (event : string) (data : payload)
  : M bool :=
  processedData <- runMiddleware n b event data ;;
  modify (upd_bus b (count_emission event)) ;;;
  regular <- call_regular n b event processedData ;;
  oneshot <- drain_once n b event processedData ;;
  ret (regular || oneshot).

End Dispatch.

Fixpoint emit (user : nat -> payload -> option string -> behaviour)
    (fuel : nat) (b : bid) (event : string) (data : payload) : M bool :=
  match fuel with
  | O => fun _ => None
  | S n => emit_body user (emit user n) n b event data
  end.

(** *** The public interface, one call at a time *)

Inductive op :=
| ONew (enableMetrics : bool)
       (handler : option (thrown -> string -> fid -> behaviour))
| OOn (b : bid) (event : string) (listener : supplied) (reactive : bool)
| OOnce (b : bid) (event : string) (listener : supplied) (reactive : bool)
| OOff (b : bid) (event : string) (listener : supplied)
| OEmit (b : bid) (event : string) (data : payload)
| OListenerCount (b : bid) (event : string)
| ORemoveAllListeners (b : bid) (event : option string)
| OEventNames (b : bid)
| OHasListeners (b : bid) (event : string)
| OUse (b : bid) (event : string) (mw : supplied)
| OStream (b : bid) (event : string)
| OGetMetrics (b : bid)
| OWaitFor (b : bid) (event : string) (timeout : option Z)
| OPipe (b : bid) (fromEvent : string) (toBus : bid) (toEvent : option string)
| ODestroy (b : bid)
| OCall (h : handle)
| OStreamSubscribe (h : handle) (callback : supplied)
| OStreamDestroy (h : handle)
| OStreamState (h : handle)
| OMetricsState (h : handle)
| OMetricsEvents (h : handle)
| OMetricsTotalListeners (h : handle)
| OSettled (h : handle)
| OTimeout (t : tid).

Inductive retval :=
| RVoid
| RBool (v : bool)
| RNumber (n : nat)
| RStrings (l : list string)
| RHandle (h : handle)
| RState (st : EventSystemState)
| RStream (st : option streamState)
| RPromise (st : option promiseState).

Definition not_a_function {A : Type} : M A :=
  fun w => Some (w, Throw (JsTypeError "not a function")).

Definition returning {A B : Type} (f : A -> B)
    (r : World * completion A) : World * completion B :=
  match r with
  | (w, Normal a) => (w, Normal (f a))
  | (w, Throw t) => (w, Throw t)
  end.

Definition exec (user : nat -> payload -> option string -> behaviour)
    (fuel : nat) (o : op) : M retval :=
  match o with
  | ONew enableMetrics handler =>
      fun w => let (w1, h) := construct enableMetrics handler w in
               Some (w1, Normal (RHandle h))
  | OOn b event listener reactive =>
      lift (fun w => returning RHandle
                       (on b event (value_of listener) reactive w))
  | OOnce b event listener reactive =>
      lift (fun w => returning RHandle
                       (once b event (value_of listener) reactive w))
  | OOff b event listener =>
      modify (off b event (value_of listener)) ;;; ret RVoid
  | OEmit b event data =>
      r <- emit user fuel b event data ;; ret (RBool r)
  | OListenerCount b event =>
      fun w => ret (RNumber (listenerCount event (the_bus b w))) w
  | ORemoveAllListeners b event =>
      modify (upd_bus b (removeAllListeners event)) ;;; ret RVoid
  | OEventNames b =>
      fun w => ret (RStrings (eventNames (the_bus b w))) w
  | OHasListeners b event =>
      fun w => ret (RBool (hasListeners event (the_bus b w))) w
  | OUse b event mw =>
      lift (fun w => returning RHandle (use b event (value_of mw) w))
  | OStream b event =>
      fun w => let (w1, h) := stream b event w in
               Some (w1, Normal (RHandle h))
  | OGetMetrics b => ret (RHandle (HMetrics b))
  | OWaitFor b event timeout =>
      fun w => let (w1, p) := waitFor b event timeout w in
               Some (w1, Normal (RHandle (HPromise p)))
  | OPipe b fromEvent toBus toEvent =>
      fun w => let (w1, h) := pipe b fromEvent toBus toEvent w in
               Some (w1, Normal (RHandle h))
  | ODestroy b => modify (upd_bus b destroy) ;;; ret RVoid
  | OCall (HUnsubscribe b event listener) =>
      modify (off b event (VFun listener)) ;;; ret RVoid
  | OCall (HUnregister b event mw) =>
      modify (upd_bus b (bus_unregister event mw)) ;;; ret RVoid
  | OCall _ => not_a_function
  | OStreamSubscribe (HStream b event _ _) callback =>
      lift (fun w => returning RHandle
                       (on b event (value_of callback) false w))
  | OStreamSubscribe _ _ => not_a_function
  | OStreamDestroy (HStream b event listener _) =>
      modify (off b event (VFun listener)) ;;; ret RVoid
  | OStreamDestroy _ => not_a_function
  | OStreamState (HStream _ _ _ c) =>
      fun w => ret (RStream (nth_error (cells w) c)) w
  | OStreamState _ => not_a_function
  | OMetricsState (HMetrics b) =>
      fun w => ret (RState (reactiveState (the_bus b w))) w
  | OMetricsState _ => not_a_function
  | OMetricsEvents (HMetrics b) =>
      fun w => ret (RStrings (eventNames (the_bus b w))) w
  | OMetricsEvents _ => not_a_function
  | OMetricsTotalListeners (HMetrics b) =>
      fun w => ret (RNumber (totalListeners (the_bus b w))) w
  | OMetricsTotalListeners _ => not_a_function
  | OSettled (HPromise p) =>
      fun w => ret (RPromise (nth_error (promises w) p)) w
  | OSettled _ => not_a_function
  | OTimeout t => modify (fireTimer t) ;;; ret RVoid
  end.

(** A session: the calls of a caller that catches what is thrown at it,
    with what each call gave back. *)
Fixpoint run (user : nat -> payload -> option string -> behaviour)
    (fuel : nat) (session : list op) (w : World)
  : option (World * list (completion retval)) :=
  match session with
  | [] => Some (w, [])
  | o :: rest =>
      match exec user fuel o w with
      | None => None
      | Some (w1, r) =>
          match run user fuel rest w1 with
          | None => None
          | Some (w2, rs) => Some (w2, r :: rs)
          end
      end
  end.

Definition start : World := mkWorld [] [] [] [] [] [].

(** * Properties *)

(** ** Sets and maps *)

Lemma fid_eqb_eq (f g : fid) : fid_eqb f g = true <-> f = g.
Proof.
  destruct f as [u|k], g as [v|j]; simpl;
    try (split; [discriminate | intros H; inversion H]);
    rewrite Nat.eqb_eq; split; intros H; [subst | inversion H | subst | inversion H];
    reflexivity.
Qed.

Lemma fid_eqb_refl (f : fid) : fid_eqb f f = true.
Proof. apply fid_eqb_eq. reflexivity. Qed.

Lemma fid_eqb_neq (f g : fid) : fid_eqb f g = false <-> f <> g.
Proof.
  split.
  - intros H E. apply fid_eqb_eq in E. congruence.
  - intros H. destruct (fid_eqb f g) eqn:E; [|reflexivity].
    apply fid_eqb_eq in E. contradiction.
Qed.

Lemma elements_app (s r : JsSet.t) :
  JsSet.elements (s ++ r) = JsSet.elements s ++ JsSet.elements r.
Proof.
  induction s as [|[f|] s IH]; simpl; [reflexivity | f_equal; exact IH | exact IH].
Qed.

Lemma has_elements (s : JsSet.t) (f : fid) :
  JsSet.has s f = true <-> In f (JsSet.elements s).
Proof.
  unfold JsSet.has. induction s as [|[g|] s IH]; simpl.
  - split; [discriminate | tauto].
  - rewrite orb_true_iff, IH, fid_eqb_eq. split; intros [H|H]; auto.
  - exact IH.
Qed.

Lemma delete_absent (s : JsSet.t) (f : fid) :
  JsSet.has s f = false -> JsSet.delete s f = s.
Proof.
  unfold JsSet.has, JsSet.delete. induction s as [|e s IH]; simpl; [reflexivity|].
  intros H. apply orb_false_iff in H. destruct H as [H1 H2].
  rewrite H1, IH by exact H2. reflexivity.
Qed.

Lemma size_delete_le (s : JsSet.t) (f : fid) :
  JsSet.size (JsSet.delete s f) <= JsSet.size s.
Proof.
  unfold JsSet.size, JsSet.delete.
  induction s as [|[g|] s IH]; simpl; [lia | | exact IH].
  destruct (fid_eqb f g); simpl; lia.
Qed.

Lemma size_delete_add (s : JsSet.t) (f : fid) :
  JsSet.size (JsSet.delete (JsSet.add s f) f) = JsSet.size (JsSet.delete s f).
Proof.
  unfold JsSet.add. destruct (JsSet.has s f) eqn:H; [reflexivity|].
  unfold JsSet.size, JsSet.delete. rewrite map_app, elements_app. simpl.
  rewrite fid_eqb_refl. simpl. rewrite length_app. simpl. lia.
Qed.

Lemma size_clear (s : JsSet.t) : JsSet.size (JsSet.clear s) = 0.
Proof.
  unfold JsSet.size, JsSet.clear. induction s as [|e s IH]; simpl; auto.
Qed.

Section MapFacts.
Context {V : Type}.
Implicit Types (m : JsMap.t V) (k : string).

Lemma get_update_same m k (f : V -> V) :
  JsMap.get (JsMap.update m k f) k = option_map f (JsMap.get m k).
Proof.
  induction m as [|[k' v] m IH]; simpl; [reflexivity|].
  destruct (String.eqb k k') eqn:E; simpl; rewrite E; [reflexivity | exact IH].
Qed.

Lemma get_update_other m k k' (f : V -> V) :
  k <> k' -> JsMap.get (JsMap.update m k f) k' = JsMap.get m k'.
Proof.
  intros N. induction m as [|[k0 v] m IH]; simpl; [reflexivity|].
  destruct (String.eqb k k0) eqn:E; simpl.
  - apply String.eqb_eq in E. subst k0.
    destruct (String.eqb k' k) eqn:E'; [|reflexivity].
    apply String.eqb_eq in E'. congruence.
  - rewrite IH. reflexivity.
Qed.

Lemma keys_update m k (f : V -> V) :
  JsMap.keys (JsMap.update m k f) = JsMap.keys m.
Proof.
  unfold JsMap.keys. induction m as [|[k' v] m IH]; simpl; [reflexivity|].
  destruct (String.eqb k k'); simpl; [reflexivity | f_equal; exact IH].
Qed.

Lemma get_set_same m k (v : V) : JsMap.get (JsMap.set m k v) k = Some v.
Proof.
  induction m as [|[k' v'] m IH]; simpl.
  - rewrite String.eqb_refl. reflexivity.
  - destruct (String.eqb k k') eqn:E; simpl; rewrite E; [reflexivity | exact IH].
Qed.

Lemma get_in_keys m k (v : V) :
  JsMap.get m k = Some v -> In k (JsMap.keys m).
Proof.
  unfold JsMap.keys. induction m as [|[k' v'] m IH]; simpl; [discriminate|].
  destruct (String.eqb k k') eqn:E.
  - apply String.eqb_eq in E. auto.
  - intros H. right. exact (IH H).
Qed.

End MapFacts.

Lemma in_dedup (x : string) (names seen : list string) :
  In x names -> existsb (String.eqb x) seen = false -> In x (dedup seen names).
Proof.
  revert seen. induction names as [|n names IH]; simpl; [tauto|].
  intros seen [E|H] S.
  - subst n. rewrite S. simpl. auto.
  - destruct (existsb (String.eqb n) seen) eqn:Sn; [apply IH; assumption|].
    destruct (String.eqb x n) eqn:E.
    + apply String.eqb_eq in E. subst. simpl. auto.
    + simpl. right. apply IH; [assumption|]. simpl. rewrite E, S. reflexivity.
Qed.

(** ** Membership after [on], [off], [destroy] *)

Lemma cleanupAll_frame (ls : list fid) (s : Bus) :
  events (cleanupAll ls s) = events s /\
  onceEvents (cleanupAll ls s) = onceEvents s /\
  reactiveState (cleanupAll ls s) = reactiveState s /\
  computedMetrics (cleanupAll ls s) = computedMetrics s /\
  middleware (cleanupAll ls s) = middleware s /\
  errorHandler (cleanupAll ls s) = errorHandler s.
Proof.
  unfold cleanupAll. revert s. induction ls as [|l ls IH]; intros s; simpl.
  - repeat split.
  - destruct (IH (cleanupReactiveEffect l s)) as (H1 & H2 & H3 & H4 & H5 & H6).
    rewrite H1, H2, H3, H4, H5, H6. repeat split.
Qed.

Lemma listenerCount_get (event : string) (s : Bus) :
  listenerCount event s = 0 ->
  (forall l, JsMap.get (events s) event = Some l -> JsSet.size l = 0) /\
  (forall l, JsMap.get (onceEvents s) event = Some l -> JsSet.size l = 0).
Proof.
  unfold listenerCount. intros H. split; intros l E; rewrite E in H; lia.
Qed.

Lemma has_add_listener (m : JsMap.t JsSet.t) (event : string) (l : fid) :
  exists s, JsMap.get (add_listener m event l) event = Some (JsSet.add s l) /\
            (JsMap.get m event = Some s \/
             JsMap.get m event = None /\ s = JsSet.empty).
Proof.
  unfold add_listener, JsMap.has.
  destruct (JsMap.get m event) as [s|] eqn:E.
  - exists s. rewrite get_update_same, E. simpl. auto.
  - exists JsSet.empty. rewrite get_update_same, get_set_same. simpl. auto.
Qed.

(** C7.  [destroy()] empties the listener maps and the middleware map:
    [eventNames()] is the empty sequence and [listenerCount(E)] is 0 (and
    [hasListeners(E)] false) for every name E, while [totalEventsEmitted],
    [lastEmittedEvent] and [errorCount] are what they were. *)
Theorem destroy_clears_membership_keeps_counters (s : Bus) :
  eventNames (destroy s) = [] /\
  (forall event, listenerCount event (destroy s) = 0) /\
  (forall event, hasListeners event (destroy s) = false) /\
  events (destroy s) = [] /\
  onceEvents (destroy s) = [] /\
  middleware (destroy s) = [] /\
  totalEventsEmitted (reactiveState (destroy s))
    = totalEventsEmitted (reactiveState s) /\
  lastEmittedEvent (reactiveState (destroy s))
    = lastEmittedEvent (reactiveState s) /\
  errorCount (reactiveState (destroy s)) = errorCount (reactiveState s).
Proof.
  unfold destroy, removeAllListeners. simpl truthy_event. cbv iota.
  set (s1 := cleanupAll (all_listeners (events s)) s).
  set (s2 := cleanupAll (all_listeners (onceEvents s1)) s1).
  assert (R : reactiveState s2 = reactiveState s).
  { unfold s2, s1.
    destruct (cleanupAll_frame (all_listeners (events s)) s)
      as (_ & _ & R1 & _).
    destruct (cleanupAll_frame
                (all_listeners
                   (onceEvents (cleanupAll (all_listeners (events s)) s)))
                (cleanupAll (all_listeners (events s)) s))
      as (_ & _ & R2 & _).
    congruence. }
  unfold eventNames, hasListeners, listenerCount. simpl. rewrite R.
  repeat split.
Qed.

(** C8.  From any state in which the event E has no listener (the fresh
    bus is one), [on(E, f)] followed by [off(E, f)] reaches a state where
    [eventNames()] lists E although [listenerCount(E)] is 0 and
    [hasListeners(E)] is false; [off] never changes the keys of the two
    maps. *)
Theorem off_leaves_empty_event_listed
    (s : Bus) (event : string) (f : fid) (reactive : bool) :
  listenerCount event s = 0 ->
  let s' := bus_off event f (bus_on event f reactive s) in
  In event (eventNames s') /\
  listenerCount event s' = 0 /\
  hasListeners event s' = false /\
  (forall (s0 : Bus) (e : string) (g : fid),
      JsMap.keys (events (bus_off e g s0)) = JsMap.keys (events s0) /\
      JsMap.keys (onceEvents (bus_off e g s0)) = JsMap.keys (onceEvents s0)).
Proof.
  intros Z s'.
  destruct (listenerCount_get event s Z) as [Zr Zo].
  destruct (has_add_listener (events s) event f) as (r & Hr & Hr0).
  assert (E1 : events s'
               = JsMap.update (add_listener (events s) event f) event
                   (fun l => JsSet.delete l f)).
  { unfold s', bus_off, bus_on.
    destruct reactive; unfold setupReactiveEffect;
      try destruct (existsb _ _); reflexivity. }
  assert (E2 : onceEvents s'
               = JsMap.update (onceEvents s) event
                   (fun l => JsSet.delete l f)).
  { unfold s', bus_off, bus_on.
    destruct reactive; unfold setupReactiveEffect;
      try destruct (existsb _ _); reflexivity. }
  assert (C : listenerCount event s' = 0).
  { unfold listenerCount. rewrite E1, E2, !get_update_same, Hr. simpl.
    rewrite size_delete_add.
    assert (JsSet.size (JsSet.delete r f) = 0) as ->.
    { pose proof (size_delete_le r f) as L.
      destruct Hr0 as [G|[_ ->]]; [rewrite (Zr _ G) in L; lia | reflexivity]. }
    destruct (JsMap.get (onceEvents s) event) as [o|] eqn:G; simpl;
      [|reflexivity].
    pose proof (size_delete_le o f) as L. rewrite (Zo _ eq_refl) in L. lia. }
  repeat split.
  - unfold eventNames. apply in_dedup; [|reflexivity].
    apply in_or_app. left. rewrite E1, keys_update.
    eapply get_in_keys. exact Hr.
  - exact C.
  - unfold hasListeners. rewrite C. reflexivity.
  - unfold bus_off. simpl. apply keys_update.
  - unfold bus_off. simpl. apply keys_update.
Qed.

(** The closure that [on] returns does what [off] does. *)
Lemma unsubscribe_is_off user fuel b event (u : nat) reactive (w : World) :
  snd (on b event (VFun (User u)) reactive w)
    = Normal (HUnsubscribe b event (User u)) /\
  forall w', exec user fuel (OCall (HUnsubscribe b event (User u))) w'
             = exec user fuel (OOff b event (Callback u)) w'.
Proof. split; reflexivity. Qed.

(** ** Invariants of dispatch

    A state invariant [I], a transition relation [R] and a class [Ok] of
    functions that may be called.  What holds of every elementary update
    holds of [emit], nested emissions included, once the drain of the
    once-listeners is shown to respect it. *)

Section Chain.

Variable user : nat -> payload -> option string -> behaviour.
Variable I : World -> Prop.
Variable R : World -> World -> Prop.
Variable Ok : fid -> Prop.

Definition step (f : World -> World) : Prop :=
  forall w, I w -> I (f w) /\ R w (f w).

Definition sound {A : Type} (m : M A) : Prop :=
  forall w w' c, I w -> m w = Some (w', c) -> I w' /\ R w w'.

Record elementary : Prop := {
  R_refl : forall w, R w w;
  R_trans : forall a b c, R a b -> R b c -> R a c;
  Ok_user : forall u, Ok (User u);
  log_invoked : forall f x ev w,
      Ok f -> (forall k, f = Internal k -> k < List.length (fns w)) ->
      I w -> I (log (Invoked f x ev) w) /\ R w (log (Invoked f x ev) w);
  log_handler : forall err e l, step (log (HandlerInvoked err e l));
  log_console : forall msg err, step (log (ConsoleError msg err));
  on_step : forall b e v r, step (fun w => fst (on b e (value_of v) r w));
  once_step :
    forall b e v r, step (fun w => fst (once b e (value_of v) r w));
  off_step : forall b e v, step (off b e v);
  cell_step : forall c x, step (update_cell c x);
  clearTimeout_step : forall t, step (clearTimeout t);
  fulfil_step : forall p x, step (settle p (Fulfilled x));
  bump_step : forall b, step (upd_bus b bump_errorCount);
  count_step : forall b e, step (upd_bus b (count_emission e));
  cleanup_step : forall b l, step (upd_bus b (cleanupAll l));
  heap_ok : forall w k b e l,
      I w -> nth_error (fns w) k = Some (OnceWrapper b e l) -> Ok l;
  live_ok : forall w b e i f,
      I w -> nth_error (live_listeners b e w) i = Some (Some f) -> Ok f;
  mw_ok : forall w b key f, I w -> In f (middlewares b key w) -> Ok f
}.

Hypothesis E : elementary.

Lemma sound_ret {A : Type} (a : A) : sound (ret a).
Proof.
  intros w w' c Hw H. inversion H; subst. split; [assumption | apply E].
Qed.

Lemma sound_bind {A B : Type} (m : M A) (k : A -> M B) :
  sound m -> (forall a, sound (k a)) -> sound (bind m k).
Proof.
  intros Hm Hk w w' c Hw H. unfold bind in H.
  destruct (m w) as [[w1 [a|t]]|] eqn:Em; [| |discriminate].
  - destruct (Hm _ _ _ Hw Em) as [I1 R1].
    destruct (Hk a _ _ _ I1 H) as [I2 R2].
    split; [assumption | eapply (R_trans E); eassumption].
  - inversion H; subst. exact (Hm _ _ _ Hw Em).
Qed.

Lemma sound_modify (f : World -> World) : step f -> sound (modify f).
Proof. intros Hf w w' c Hw H. inversion H; subst. exact (Hf w Hw). Qed.

Lemma sound_lift {A : Type} (f : World -> World * completion A) :
  step (fun w => fst (f w)) -> sound (lift f).
Proof.
  intros Hf w w' c Hw H. unfold lift in H. specialize (Hf w Hw).
  cbv beta in Hf. destruct (f w) as [w1 c1]. inversion H; subst. exact Hf.
Qed.

Lemma sound_after {A : Type} (f : World -> World) (m : M A) :
  step f -> sound m -> sound (fun w => m (f w)).
Proof.
  intros Hf Hm w w' c Hw H. destruct (Hf w Hw) as [I1 R1].
  destruct (Hm _ _ _ I1 H) as [I2 R2].
  split; [assumption | eapply (R_trans E); eassumption].
Qed.

Lemma sound_read {A B : Type} (rd : World -> B) (m : B -> M A) :
  (forall w, I w -> sound (m (rd w))) -> sound (fun w => m (rd w) w).
Proof. intros Hm w w' c Hw H. exact (Hm w Hw _ _ _ Hw H). Qed.

Section Step.

Variable emit_ : bid -> string -> payload -> M bool.

(** Where a nested emission can start: an [AEmit] of a callback or of
    the handler, and the listener of a pipe.  Each is either sound or
    absent. *)
Definition action_ok (a : action) : Prop :=
  match a with
  | AEmit b e x => sound (emit_ b e x)
  | _ => True
  end.

Definition closure_ok (c : closure) : Prop :=
  match c with
  | PipeListener toBus targetEvent =>
      forall x, sound (emit_ toBus targetEvent x)
  | _ => True
  end.

Record callable : Prop := {
  user_ok : forall u x ev, Forall action_ok (acts (user u x ev));
  handler_ok : forall w b h err e l,
      I w -> errorHandler (the_bus b w) = Some h ->
      Forall action_ok (acts (h err e l));
  closure_okay : forall w k c,
      I w -> nth_error (fns w) k = Some c -> closure_ok c
}.

Lemma callable_of_sound :
  (forall b e x, sound (emit_ b e x)) -> callable.
Proof.
  intros He. constructor.
  - intros u x ev. apply Forall_forall. intros [] _; simpl; auto.
  - intros w b h err e l _ _. apply Forall_forall.
    intros [] _; simpl; auto.
  - intros w k [] _ _; simpl; auto.
Qed.

Hypothesis C : callable.

Lemma run_action_sound (a : action) :
  action_ok a -> sound (run_action emit_ a).
Proof.
  destruct a; simpl; intros Ha.
  - apply sound_bind; [apply sound_lift, (on_step E) | intros; apply sound_ret].
  - apply sound_bind; [apply sound_lift, (once_step E) | intros; apply sound_ret].
  - apply sound_modify, (off_step E).
  - apply sound_modify, (off_step E).
  - apply sound_bind; [exact Ha | intros; apply sound_ret].
Qed.

Lemma run_actions_sound (l : list action) :
  Forall action_ok l -> sound (run_actions emit_ l).
Proof.
  induction 1 as [|a l Ha Hl IH]; simpl; [apply sound_ret|].
  apply sound_bind; [apply run_action_sound, Ha | intros; exact IH].
Qed.

Lemma perform_sound (bh : behaviour) :
  Forall action_ok (acts bh) -> sound (perform emit_ bh).
Proof.
  intros Hb. unfold perform.
  apply sound_bind; [apply run_actions_sound, Hb|].
  intros _ w w' c Hw H. inversion H; subst. split; [assumption | apply E].
Qed.

Lemma run_closure_sound (call : fid -> M jsret) (self : fid)
    (c : closure) (data : payload) :
  closure_ok c ->
  (forall b e l, c = OnceWrapper b e l -> sound (call l)) ->
  sound (run_closure emit_ call self c data).
Proof.
  intros Hp Hc. destruct c; simpl.
  - apply sound_bind; [apply sound_modify, (off_step E)|].
    intros _. eapply Hc. reflexivity.
  - apply sound_bind; [apply sound_modify, (cell_step E)|].
    intros; apply sound_ret.
  - apply sound_bind.
    + apply sound_modify. destruct timeoutId; [apply (clearTimeout_step E)|].
      intros w Hw. split; [assumption | apply E].
    + intros _. apply sound_bind; [apply sound_modify, (fulfil_step E)|].
      intros; apply sound_ret.
  - apply sound_bind; [apply Hp | intros; apply sound_ret].
Qed.

Lemma invoke_sound (depth : nat) (f : fid) (data : payload)
    (event : option string) :
  Ok f -> sound (invoke user emit_ depth f data event).
Proof.
  revert f event. induction depth as [|d IH]; intros f event Hf w w' c Hw H;
    simpl in H; [discriminate|].
  destruct f as [u|k].
  - assert (A : forall j, User u = Internal j -> j < List.length (fns w))
      by (intros j Hj; discriminate Hj).
    destruct (log_invoked E (User u) data event w Hf A Hw) as [I1 R1].
    destruct (perform_sound _ (user_ok C u data event) _ _ _ I1 H)
      as [I2 R2].
    split; [assumption | eapply (R_trans E); eassumption].
  - destruct (nth_error (fns w) k) as [cl|] eqn:Ek.
    + assert (A : forall j, Internal k = Internal j ->
                            j < List.length (fns w)).
      { intros j Hj. injection Hj as <-. apply nth_error_Some. congruence. }
      destruct (log_invoked E (Internal k) data event w Hf A Hw) as [I1 R1].
      assert (S : sound (run_closure emit_
                           (fun g => invoke user emit_ d g data None)
                           (Internal k) cl data)).
      { apply run_closure_sound; [exact (closure_okay C w k cl Hw Ek)|].
        intros b e l ->. apply IH. eapply (heap_ok E); eassumption. }
      destruct (S _ _ _ I1 H) as [I2 R2].
      split; [assumption | eapply (R_trans E); eassumption].
    + inversion H; subst. split; [assumption | apply E].
Qed.

Lemma recover_sound (b : bid) (event : string) (listener : fid)
    (error : thrown) : sound (recover emit_ b event listener error).
Proof.
  intros w w' c Hw H. unfold recover in H.
  destruct (bump_step E b w Hw) as [I1 R1].
  destruct (errorHandler (the_bus b (upd_bus b bump_errorCount w)))
    as [handler|] eqn:Eh.
  - assert (S : sound (fun w1 =>
              (perform emit_ (handler (normalize error) event listener)
                 ;;; ret tt)
                (log (HandlerInvoked (normalize error) event listener) w1))).
    { apply (sound_after (log _)); [apply (log_handler E)|].
      apply sound_bind; [|intros; apply sound_ret].
      apply perform_sound. exact (handler_ok C _ b handler _ _ _ I1 Eh). }
    destruct (S _ _ _ I1 H) as [I2 R2].
    split; [assumption | eapply (R_trans E); eassumption].
  - inversion H; subst.
    destruct (log_console E (listener_error_msg event) (normalize error)
                _ I1) as [I2 R2].
    split; [assumption | eapply (R_trans E); eassumption].
Qed.

Lemma callListeners_sound (steps : nat) (b : bid)
    (listeners : World -> JsSet.t) (index : nat) (data : payload)
    (event : string) :
  (forall w i f,
      I w -> nth_error (listeners w) i = Some (Some f) -> Ok f) ->
  sound (callListeners user emit_ steps b listeners index data event).
Proof.
  intros Hl. revert index.
  induction steps as [|n IH]; intros index w w' c Hw H; simpl in H.
  - destruct (nth_error (listeners w) index); [discriminate|].
    inversion H; subst. split; [assumption | apply E].
  - destruct (nth_error (listeners w) index) as [[f|]|] eqn:En.
    + pose proof (Hl _ _ _ Hw En) as Hf.
      destruct (invoke user emit_ n f data None w) as [[w1 [r|t]]|] eqn:Ei;
        [| |discriminate];
        destruct (invoke_sound _ _ _ _ Hf _ _ _ Hw Ei) as [I1 R1].
      * destruct (IH _ _ _ _ I1 H) as [I2 R2].
        split; [assumption | eapply (R_trans E); eassumption].
      * assert (S : sound (recover emit_ b event f t ;;;
                           callListeners user emit_ n b listeners
                             (S index) data event)).
        { apply sound_bind; [apply recover_sound | intros; apply IH]. }
        destruct (S _ _ _ I1 H) as [I2 R2].
        split; [assumption | eapply (R_trans E); eassumption].
    + exact (IH _ _ _ _ Hw H).
    + inversion H; subst. split; [assumption | apply E].
Qed.

Lemma run_chain_sound (depth : nat) (msg : string) (mws : list fid)
    (event : string) (data : payload) :
  Forall Ok mws -> sound (run_chain user emit_ depth msg mws event data).
Proof.
  intros Hm. revert data.
  induction Hm as [|mw rest Hmw Hrest IH]; intros data; simpl;
    [apply sound_ret|].
  intros w w' c Hw H.
  destruct (invoke user emit_ depth mw data (Some event) w)
    as [[w1 [r|t]]|] eqn:Ei; [| |discriminate];
    destruct (invoke_sound _ _ _ _ Hmw _ _ _ Hw Ei) as [I1 R1].
  - destruct r; destruct (IH _ _ _ _ I1 H) as [I2 R2];
      (split; [assumption | eapply (R_trans E); eassumption]).
  - destruct (log_console E msg t _ I1) as [I2 R2].
    destruct (IH _ _ _ _ I2 H) as [I3 R3].
    split; [assumption|].
    eapply (R_trans E); [eassumption|].
    eapply (R_trans E); eassumption.
Qed.

Lemma runMiddleware_sound (depth : nat) (b : bid) (event : string)
    (data : payload) : sound (runMiddleware user emit_ depth b event data).
Proof.
  unfold runMiddleware. apply sound_bind; [|intros processedData].
  - intros w w' c Hw H. revert H. apply run_chain_sound; [|assumption].
    apply Forall_forall. intros f. apply (mw_ok E). assumption.
  - intros w w' c Hw H. revert H. apply run_chain_sound; [|assumption].
    apply Forall_forall. intros f. apply (mw_ok E). assumption.
Qed.

Lemma call_regular_sound (n : nat) (b : bid) (event : string)
    (data : payload) : sound (call_regular user emit_ n b event data).
Proof.
  intros w w' c Hw H. unfold call_regular in H.
  destruct (JsMap.get (events (the_bus b w)) event) as [l|];
    [|exact (sound_ret false _ _ _ Hw H)].
  destruct (Nat.ltb 0 (JsSet.size l));
    [|exact (sound_ret false _ _ _ Hw H)].
  revert H. apply sound_bind; [|intros; apply sound_ret|assumption].
  apply callListeners_sound. intros w0 i f. apply (live_ok E).
Qed.

Lemma emit_body_sound (n : nat) (b : bid) (event : string)
    (data : payload) :
  (forall x, sound (drain_once user emit_ n b event x)) ->
  sound (emit_body user emit_ n b event data).
Proof.
  intros Hd. unfold emit_body.
  apply sound_bind; [apply runMiddleware_sound | intros x].
  apply sound_bind; [apply sound_modify, (count_step E) | intros _].
  apply sound_bind; [apply call_regular_sound | intros r].
  apply sound_bind; [apply Hd | intros o; apply sound_ret].
Qed.

(** The drain, when clearing the live set is itself harmless. *)
Lemma drain_once_sound_at (n : nat) (b : bid) (event : string)
    (data : payload) (w w' : World) (c : completion bool) :
  (forall b e, step (upd_bus b (clear_once e))) ->
  (forall l f,
      JsMap.get (onceEvents (the_bus b w)) event = Some l ->
      In f (JsSet.elements l) -> Ok f) ->
  I w -> drain_once user emit_ n b event data w = Some (w', c) ->
  I w' /\ R w w'.
Proof.
  intros Hc Hs Hw H. unfold drain_once in H.
  destruct (JsMap.get (onceEvents (the_bus b w)) event) as [l|] eqn:G;
    [|exact (sound_ret false _ _ _ Hw H)].
  destruct (Nat.ltb 0 (JsSet.size l));
    [|exact (sound_ret false _ _ _ Hw H)].
  revert H. apply sound_bind; [apply sound_modify, Hc | intros _ | assumption].
  apply sound_bind; [|intros _].
  - apply callListeners_sound. intros w0 i f _ Hi.
    apply (Hs l f eq_refl). apply nth_error_In in Hi.
    unfold JsSet.copy in Hi. apply in_map_iff in Hi.
    destruct Hi as (g & Eg & Hg). congruence.
  - apply sound_bind; [apply sound_modify, (cleanup_step E)|].
    intros; apply sound_ret.
Qed.

Lemma drain_once_sound_plain (n : nat) (b : bid) (event : string)
    (data : payload) :
  (forall b e, step (upd_bus b (clear_once e))) ->
  (forall w l f,
      I w -> JsMap.get (onceEvents (the_bus b w)) event = Some l ->
      In f (JsSet.elements l) -> Ok f) ->
  sound (drain_once user emit_ n b event data).
Proof.
  intros Hc Hs w w' c Hw H.
  exact (drain_once_sound_at n b event data w w' c Hc
           (fun l f => Hs w l f Hw) Hw H).
Qed.

End Step.

Hypothesis drain_sound :
  forall emit_ : bid -> string -> payload -> M bool,
    (forall b e x, sound (emit_ b e x)) ->
    forall n b e x, sound (drain_once user emit_ n b e x).

Lemma emit_sound (fuel : nat) (b : bid) (event : string) (data : payload) :
  sound (emit user fuel b event data).
Proof.
  revert b event data. induction fuel as [|n IH]; intros b event data; simpl.
  - intros w w' c _ H. discriminate.
  - apply emit_body_sound; [apply callable_of_sound; exact IH|].
    intros x. apply drain_sound. exact IH.
Qed.

(** The rest of the public interface. *)
Record public : Prop := {
  construct_step : forall m h, step (fun w => fst (construct m h w));
  use_step : forall b e v, step (fun w => fst (use b e (value_of v) w));
  unregister_step : forall b e m, step (upd_bus b (bus_unregister e m));
  removeAll_step : forall b e, step (upd_bus b (removeAllListeners e));
  destroy_step : forall b, step (upd_bus b destroy);
  stream_step : forall b e, step (fun w => fst (stream b e w));
  waitFor_step : forall b e t, step (fun w => fst (waitFor b e t w));
  pipe_step : forall b e tb te, step (fun w => fst (pipe b e tb te w));
  timeout_step : forall t, step (fireTimer t)
}.

Hypothesis Pub : public.

Lemma sound_fst {A B : Type} (f : World -> World * A) (g : A -> B) :
  step (fun w => fst (f w)) ->
  sound (fun w => let (w1, a) := f w in Some (w1, Normal (g a))).
Proof.
  intros Hf w w' c Hw H. specialize (Hf w Hw). cbv beta in Hf.
  destruct (f w) as [w1 a]. inversion H; subst. exact Hf.
Qed.

Lemma sound_returning {A B : Type} (f : World -> World * completion A)
    (g : A -> B) :
  step (fun w => fst (f w)) -> sound (lift (fun w => returning g (f w))).
Proof.
  intros Hf. apply sound_lift. intros w Hw. specialize (Hf w Hw).
  cbv beta in *. destruct (f w) as [w1 [a|t]]; exact Hf.
Qed.

Lemma sound_pure {A : Type} (m : M A) :
  (forall w, exists c, m w = Some (w, c)) -> sound m.
Proof.
  intros Hm w w' c Hw H. destruct (Hm w) as [c0 E0]. rewrite E0 in H.
  inversion H; subst. split; [assumption | apply E].
Qed.

Lemma exec_sound (fuel : nat) (o : op) : sound (exec user fuel o).
Proof.
  destruct o; simpl;
    try (destruct h; simpl);
    try (apply sound_pure; intros w; eexists; reflexivity).
  - apply (sound_fst (construct _ _)), (construct_step Pub).
  - apply sound_returning, (on_step E).
  - apply sound_returning, (once_step E).
  - apply sound_bind; [apply sound_modify, (off_step E) | intros; apply sound_ret].
  - apply sound_bind; [apply emit_sound | intros; apply sound_ret].
  - apply sound_bind; [apply sound_modify, (removeAll_step Pub)|].
    intros; apply sound_ret.
  - apply sound_returning, (use_step Pub).
  - apply (sound_fst (stream _ _)), (stream_step Pub).
  - apply (sound_fst (waitFor _ _ _) (fun p => RHandle (HPromise p))),
      (waitFor_step Pub).
  - apply (sound_fst (pipe _ _ _ _)), (pipe_step Pub).
  - apply sound_bind; [apply sound_modify, (destroy_step Pub)|].
    intros; apply sound_ret.
  - apply sound_bind; [apply sound_modify, (off_step E) | intros; apply sound_ret].
  - apply sound_bind; [apply sound_modify, (unregister_step Pub)|].
    intros; apply sound_ret.
  - apply sound_returning, (on_step E _ _ _ false).
  - apply sound_bind; [apply sound_modify, (off_step E) | intros; apply sound_ret].
  - apply sound_bind; [apply sound_modify, (timeout_step Pub)|].
    intros; apply sound_ret.
Qed.

Lemma run_sound (fuel : nat) (session : list op) (w w' : World)
    (rs : list (completion retval)) :
  I w -> run user fuel session w = Some (w', rs) -> I w' /\ R w w'.
Proof.
  revert w rs. induction session as [|o rest IH]; intros w rs Hw H;
    simpl in H.
  - inversion H; subst. split; [assumption | apply E].
  - destruct (exec user fuel o w) as [[w1 r]|] eqn:Eo; [|discriminate].
    destruct (run user fuel rest w1) as [[w2 rs2]|] eqn:Er; [|discriminate].
    inversion H; subst.
    destruct (exec_sound _ _ _ _ _ Hw Eo) as [I1 R1].
    destruct (IH _ _ I1 Er) as [I2 R2].
    split; [assumption | eapply (R_trans E); eassumption].
Qed.

End Chain.

Arguments sound_ret {I R Ok} E {A} a.
Arguments sound_bind {I R Ok} E {A B} m k.
Arguments sound_modify {I R} f.
Arguments invoke_sound user {I R Ok} E emit_.
Arguments recover_sound user {I R Ok} E emit_.
Arguments callListeners_sound user {I R Ok} E emit_.

(** ** Promises of [waitFor] *)

Lemma length_update_nth {A : Type} (n : nat) (f : A -> A) (l : list A) :
  List.length (update_nth n f l) = List.length l.
Proof.
  revert n. induction l as [|a l IH]; intros [|n]; simpl; auto.
Qed.

Lemma nth_error_update_nth {A : Type} (n m : nat) (f : A -> A) (l : list A) :
  nth_error (update_nth n f l) m
  = if Nat.eqb n m then option_map f (nth_error l m) else nth_error l m.
Proof.
  revert n m. induction l as [|a l IH]; intros [|n] [|m]; simpl; auto.
  - destruct (Nat.eqb n m); reflexivity.
Qed.

Lemma Forall_update_nth {A : Type} (P : A -> Prop) (n : nat) (f : A -> A)
    (l : list A) :
  (forall a, P a -> P (f a)) -> Forall P l -> Forall P (update_nth n f l).
Proof.
  intros Hf H. revert n. induction H as [|a l Ha Hl IH]; intros [|n]; simpl;
    constructor; auto.
Qed.

(** The promise [p] exists, no timer is bound to it, and it is not
    rejected. *)
Definition unrejectable (p : pid) (w : World) : Prop :=
  p < List.length (promises w) /\
  Forall (fun tm => t_promise tm <> p) (timers w) /\
  forall err, nth_error (promises w) p <> Some (Rejected err).

Definition whatever (w w' : World) : Prop := True.
Definition anyone (f : fid) : Prop := True.

Lemma unrejectable_frame (p : pid) (f : World -> World) :
  (forall w, promises (f w) = promises w /\ timers (f w) = timers w) ->
  step (unrejectable p) whatever f.
Proof.
  intros Hf w Hw. destruct (Hf w) as [Hp Ht]. unfold unrejectable.
  rewrite Hp, Ht. split; [exact Hw | exact Logic.I].
Qed.

Lemma unrejectable_off (p : pid) b e v :
  step (unrejectable p) whatever (off b e v).
Proof. apply unrejectable_frame. intros w. destruct v; split; reflexivity. Qed.

Lemma unrejectable_elementary (p : pid) :
  elementary (unrejectable p) whatever anyone.
Proof.
  constructor; try (intros; exact Logic.I);
    try (intros; apply unrejectable_frame; intros w; split; reflexivity).
  - intros f x ev w _ _. revert w. apply unrejectable_frame.
    intros w; split; reflexivity.
  - intros b e v r. apply unrejectable_frame. intros w.
    destruct v; split; reflexivity.
  - intros b e v r. apply unrejectable_frame. intros w.
    destruct v; split; reflexivity.
  - intros b e v. apply unrejectable_off.
  - intros t w (Hl & Ht & Hp). split; [|exact Logic.I].
    split; [exact Hl|]. split; [|exact Hp]. simpl.
    apply Forall_update_nth; [|exact Ht].
    intros tm Hm. destruct (t_state tm); exact Hm.
  - intros q x w (Hl & Ht & Hp). split; [|exact Logic.I].
    unfold unrejectable, settle. simpl. rewrite length_update_nth.
    split; [exact Hl|]. split; [exact Ht|].
    intros err. rewrite nth_error_update_nth.
    destruct (Nat.eqb q p); [|apply Hp].
    destruct (nth_error (promises w) p) as [[| |]|] eqn:Ep; simpl;
      try discriminate.
    intros _. exact (Hp err0 eq_refl).
Qed.

Lemma unrejectable_waitFor (p : pid) b e t :
  step (unrejectable p) whatever (fun w => fst (waitFor b e t w)).
Proof.
  intros w (Hl & Ht & Hp). split; [|exact Logic.I].
  unfold unrejectable, waitFor. simpl.
  assert (Hn : forall q, nth_error (promises w ++ [Pending]) p = q ->
                         nth_error (promises w) p = q).
  { intros q <-. symmetry. apply nth_error_app1. exact Hl. }
  destruct (truthy_timeout t); simpl; rewrite length_app; simpl.
  - split; [lia|]. split.
    + apply Forall_app. split; [exact Ht|]. constructor; [simpl; lia | constructor].
    + intros err Hr. exact (Hp err (Hn _ Hr)).
  - split; [lia|]. split; [exact Ht|].
    intros err Hr. exact (Hp err (Hn _ Hr)).
Qed.

Lemma unrejectable_timeout (p : pid) t :
  step (unrejectable p) whatever (fireTimer t).
Proof.
  intros w Hw. split; [|exact Logic.I]. unfold fireTimer.
  destruct (nth_error (timers w) t) as [tm|] eqn:Et; [|exact Hw].
  destruct (t_state tm); try exact Hw.
  destruct Hw as (Hl & Ht & Hp).
  assert (Hq : t_promise tm <> p).
  { rewrite Forall_forall in Ht. apply Ht. eapply nth_error_In. exact Et. }
  set (fired := update_nth t
                  (fun tm0 => mkTimer (t_bus tm0) (t_event tm0)
                                (t_listener tm0) (t_promise tm0)
                                (t_delay tm0) Fired) (timers w)).
  set (w2 := off (t_bus tm) (t_event tm) (VFun (t_listener tm))
               (set_timers fired w)).
  assert (P2 : promises w2 = promises w) by reflexivity.
  assert (T2 : timers w2 = fired) by reflexivity.
  unfold unrejectable, settle.
  cbn [promises timers set_promises]. rewrite P2, T2, length_update_nth.
  split; [exact Hl|]. split.
  - apply Forall_update_nth; [|exact Ht]. intros tm0 Hm. exact Hm.
  - intros err. rewrite nth_error_update_nth.
    destruct (Nat.eqb (t_promise tm) p) eqn:Eq; [|apply Hp].
    apply Nat.eqb_eq in Eq. contradiction.
Qed.

Lemma unrejectable_public (p : pid) : public (unrejectable p) whatever.
Proof.
  constructor;
    try (intros; apply unrejectable_frame; intros w; split; reflexivity).
  - intros b e v. apply unrejectable_frame. intros w.
    destruct v; split; reflexivity.
  - apply unrejectable_waitFor.
  - apply unrejectable_timeout.
Qed.

Lemma unrejectable_run user (p : pid) fuel session (w w' : World) rs :
  unrejectable p w -> run user fuel session w = Some (w', rs) ->
  unrejectable p w'.
Proof.
  intros Hw H.
  refine (proj1 (run_sound user (unrejectable p) whatever anyone
                   (unrejectable_elementary p) _ (unrejectable_public p)
                   fuel session w w' rs Hw H)).
  intros emit_ He n b e x.
  apply (drain_once_sound_plain user _ _ _ (unrejectable_elementary p));
    [apply callable_of_sound; exact He | | intros; exact Logic.I].
  intros b0 e0. apply unrejectable_frame. intros w0. split; reflexivity.
Qed.

(** Every timer belongs to a promise that exists: [waitFor] creates the
    promise before it arms the timer. *)
Definition timers_in_range (w : World) : Prop :=
  Forall (fun tm => t_promise tm < List.length (promises w)) (timers w).

Lemma range_frame (f : World -> World) :
  (forall w, promises (f w) = promises w /\ timers (f w) = timers w) ->
  step timers_in_range whatever f.
Proof.
  intros Hf w Hw. destruct (Hf w) as [Hp Ht]. unfold timers_in_range.
  rewrite Hp, Ht. split; [exact Hw | exact Logic.I].
Qed.

Lemma range_settle (p : pid) (v : promiseState) :
  step timers_in_range whatever (settle p v).
Proof.
  intros w Hw. split; [|exact Logic.I].
  unfold timers_in_range, settle. simpl. rewrite length_update_nth.
  exact Hw.
Qed.

Lemma range_marked (t : tid) (g : timer -> timer) :
  (forall tm, t_promise (g tm) = t_promise tm) ->
  step timers_in_range whatever
    (fun w => set_timers (update_nth t g (timers w)) w).
Proof.
  intros Hg w Hw. split; [|exact Logic.I].
  unfold timers_in_range. simpl.
  apply Forall_update_nth; [|exact Hw].
  intros tm Hm. rewrite Hg. exact Hm.
Qed.

Lemma range_elementary : elementary timers_in_range whatever anyone.
Proof.
  constructor; try (intros; exact Logic.I);
    try (intros; apply range_frame; intros w; split; reflexivity).
  - intros f x ev w _ _. revert w. apply range_frame.
    intros w; split; reflexivity.
  - intros b e v r. apply range_frame. intros w.
    destruct v; split; reflexivity.
  - intros b e v r. apply range_frame. intros w.
    destruct v; split; reflexivity.
  - intros b e v. apply range_frame. intros w.
    destruct v; split; reflexivity.
  - intros t. apply (range_marked t). intros tm.
    destruct (t_state tm); reflexivity.
  - intros p x. apply range_settle.
Qed.

Lemma range_waitFor b e t :
  step timers_in_range whatever (fun w => fst (waitFor b e t w)).
Proof.
  intros w Hw. split; [|exact Logic.I].
  assert (Old : Forall (fun tm => t_promise tm
                                  < List.length (promises w ++ [Pending]))
                  (timers w)).
  { eapply Forall_impl; [|exact Hw]. intros tm Hm. simpl in Hm.
    rewrite length_app. simpl. lia. }
  unfold timers_in_range, waitFor.
  destruct (truthy_timeout t); simpl.
  - apply Forall_app. split; [exact Old|].
    constructor; [simpl; rewrite length_app; simpl; lia | constructor].
  - exact Old.
Qed.

Lemma range_timeout t : step timers_in_range whatever (fireTimer t).
Proof.
  intros w Hw. split; [|exact Logic.I]. unfold fireTimer.
  destruct (nth_error (timers w) t) as [tm|]; [|exact Hw].
  destruct (t_state tm); try exact Hw.
  apply range_settle.
  apply (range_frame (off (t_bus tm) (t_event tm) (VFun (t_listener tm))));
    [intros w0; split; reflexivity|].
  apply (range_marked t
           (fun tm0 => mkTimer (t_bus tm0) (t_event tm0) (t_listener tm0)
                               (t_promise tm0) (t_delay tm0) Fired));
    [intros tm0; reflexivity | exact Hw].
Qed.

Lemma range_public : public timers_in_range whatever.
Proof.
  constructor;
    try (intros; apply range_frame; intros w; split; reflexivity).
  - intros b e v. apply range_frame. intros w.
    destruct v; split; reflexivity.
  - apply range_waitFor.
  - apply range_timeout.
Qed.

Lemma range_run user fuel session (w w' : World) rs :
  timers_in_range w -> run user fuel session w = Some (w', rs) ->
  timers_in_range w'.
Proof.
  intros Hw H.
  refine (proj1 (run_sound user timers_in_range whatever anyone
                   range_elementary _ range_public
                   fuel session w w' rs Hw H)).
  intros emit_ He n b e x.
  apply (drain_once_sound_plain user _ _ _ range_elementary);
    [apply callable_of_sound; exact He | | intros; exact Logic.I].
  intros b0 e0. apply range_frame. intros w0. split; reflexivity.
Qed.


(** ** [activeListeners] *)

Definition metrics_ok (s : Bus) : Prop :=
  activeListeners (reactiveState s) = totalListeners s.

(** Every member of a once-set is a wrapper that [once] made for that bus
    and that event. *)
Definition wrappers_in_place (w : World) : Prop :=
  forall b s e l f,
    nth_error (buses w) b = Some s ->
    In (e, l) (onceEvents s) ->
    In f (JsSet.elements l) ->
    exists k u, f = Internal k /\
                nth_error (fns w) k = Some (OnceWrapper b e u).

Definition consistent (w : World) : Prop :=
  Forall metrics_ok (buses w) /\ wrappers_in_place w.

(** The heap only grows. *)
Definition extends (w w' : World) : Prop :=
  forall k c, nth_error (fns w) k = Some c -> nth_error (fns w') k = Some c.

(** The once-sets of [s'] hold nothing that those of [s] do not. *)
Definition shrinks (s s' : Bus) : Prop :=
  forall e l f,
    In (e, l) (onceEvents s') -> In f (JsSet.elements l) ->
    exists l0, In (e, l0) (onceEvents s) /\ In f (JsSet.elements l0).

Lemma metrics_ok_updateMetrics (s : Bus) : metrics_ok (updateMetrics s).
Proof. reflexivity. Qed.

Lemma shrinks_same (s s' : Bus) : onceEvents s' = onceEvents s -> shrinks s s'.
Proof. intros E e l f G H. rewrite E in G. eauto. Qed.

Lemma elements_delete (s : JsSet.t) (f g : fid) :
  In g (JsSet.elements (JsSet.delete s f)) -> In g (JsSet.elements s).
Proof.
  unfold JsSet.delete. induction s as [|[h|] s IH]; simpl; auto.
  destruct (fid_eqb f h); simpl; intuition.
Qed.

Lemma elements_add (s : JsSet.t) (f g : fid) :
  In g (JsSet.elements (JsSet.add s f)) -> g = f \/ In g (JsSet.elements s).
Proof.
  unfold JsSet.add. destruct (JsSet.has s f); [auto|].
  rewrite elements_app. simpl. intros H. apply in_app_or in H.
  destruct H as [H|[H|[]]]; auto.
Qed.

Lemma elements_clear (s : JsSet.t) : JsSet.elements (JsSet.clear s) = [].
Proof. unfold JsSet.clear. induction s; simpl; auto. Qed.

Section MapEntries.
Context {V : Type}.
Implicit Types (m : JsMap.t V) (k : string).

Lemma get_in m k (v : V) : JsMap.get m k = Some v -> In (k, v) m.
Proof.
  induction m as [|[k' v'] m IH]; simpl; [discriminate|].
  destruct (String.eqb k k') eqn:E.
  - apply String.eqb_eq in E. intros H. inversion H; subst. auto.
  - auto.
Qed.

Lemma in_delete m k (x : string * V) : In x (JsMap.delete m k) -> In x m.
Proof.
  induction m as [|[k' v'] m IH]; simpl; [tauto|].
  destruct (String.eqb k k'); simpl; intuition.
Qed.

Lemma in_update m k (g : V -> V) (e : string) (v : V) :
  In (e, v) (JsMap.update m k g) ->
  In (e, v) m \/ exists v0, In (e, v0) m /\ v = g v0.
Proof.
  induction m as [|[k' v'] m IH]; simpl; [tauto|].
  destruct (String.eqb k k'); simpl.
  - intros [H|H]; [|auto]. inversion H; subst. right. eauto.
  - intros [H|H]; [auto|]. destruct (IH H) as [H'|(v0 & H' & ->)]; eauto.
Qed.

Lemma in_set m k (v : V) (e : string) (v' : V) :
  In (e, v') (JsMap.set m k v) -> In (e, v') m \/ v' = v.
Proof.
  induction m as [|[k' v0] m IH]; simpl.
  - intros [H|[]]. inversion H; subst. auto.
  - destruct (String.eqb k k'); simpl.
    + intros [H|H]; [|auto]. inversion H; subst. auto.
    + intros [H|H]; [auto|]. destruct (IH H); auto.
Qed.

End MapEntries.

Lemma in_add_listener (m : JsMap.t JsSet.t) (event : string) (x : fid)
    (e : string) (l : JsSet.t) (f : fid) :
  In (e, l) (add_listener m event x) -> In f (JsSet.elements l) ->
  f = x /\ e = event \/
  exists l0, In (e, l0) m /\ In f (JsSet.elements l0).
Proof.
  unfold add_listener. intros H Hf.
  assert (K : forall m1 : JsMap.t JsSet.t,
             In (e, l) (JsMap.update m1 event (fun s => JsSet.add s x)) ->
             (f = x /\ e = event) \/
             exists l0, In (e, l0) m1 /\ In f (JsSet.elements l0)).
  { clear H. intros m1. induction m1 as [|[k' v'] m1 IH]; simpl; [tauto|].
    destruct (String.eqb event k') eqn:Ek; simpl.
    - intros [H|H]; [|eauto]. inversion H; subst.
      apply String.eqb_eq in Ek. subst.
      destruct (elements_add _ _ _ Hf); eauto.
    - intros [H|H]; [inversion H; subst; eauto|].
      destruct (IH H) as [?|(l0 & ? & ?)]; eauto. }
  destruct (JsMap.has m event); [exact (K _ H)|].
  destruct (K _ H) as [?|(l0 & Hin & Hl0)]; [auto|].
  apply in_set in Hin. destruct Hin as [Hin| ->]; [eauto | destruct Hl0].
Qed.

Lemma shrinks_update (s s' : Bus) (event : string) (g : JsSet.t -> JsSet.t) :
  onceEvents s' = JsMap.update (onceEvents s) event g ->
  (forall l f, In f (JsSet.elements (g l)) -> In f (JsSet.elements l)) ->
  shrinks s s'.
Proof.
  intros E Hg e l f G H. rewrite E in G.
  destruct (in_update _ _ _ _ _ G) as [?|(l0 & ? & ->)]; eauto.
Qed.

Lemma shrinks_off (s : Bus) e f : shrinks s (bus_off e f s).
Proof.
  eapply shrinks_update; [reflexivity|]. intros l g. apply elements_delete.
Qed.

Lemma shrinks_clear_once (s : Bus) e : shrinks s (clear_once e s).
Proof.
  eapply shrinks_update; [reflexivity|]. intros l g.
  rewrite elements_clear. intros [].
Qed.

Lemma cleanupAll_metrics (ls : list fid) (s : Bus) :
  metrics_ok s -> metrics_ok (cleanupAll ls s).
Proof.
  unfold metrics_ok, totalListeners.
  destruct (cleanupAll_frame ls s) as (H1 & H2 & H3 & _).
  rewrite H1, H2, H3. auto.
Qed.

Lemma removeAll_once (s : Bus) (e : option string) :
  onceEvents (removeAllListeners e s)
  = match truthy_event e with
    | Some ev => JsMap.delete (onceEvents s) ev
    | None => []
    end.
Proof.
  unfold removeAllListeners. destruct (truthy_event e) as [ev|];
    [|reflexivity].
  simpl. f_equal.
  destruct (JsMap.get (events s) ev) as [l1|] eqn:G1.
  - destruct (cleanupAll_frame (JsSet.elements l1) s) as (_ & O1 & _).
    destruct (JsMap.get (onceEvents (cleanupAll (JsSet.elements l1) s)) ev)
      as [l2|]; [|exact O1].
    destruct (cleanupAll_frame (JsSet.elements l2)
                (cleanupAll (JsSet.elements l1) s)) as (_ & O2 & _).
    congruence.
  - destruct (JsMap.get (onceEvents s) ev) as [l2|]; [|reflexivity].
    apply cleanupAll_frame.
Qed.

Lemma shrinks_removeAll (s : Bus) e : shrinks s (removeAllListeners e s).
Proof.
  intros e0 l f G H. rewrite removeAll_once in G.
  destruct (truthy_event e); [|destruct G].
  apply in_delete in G. eauto.
Qed.

Lemma extends_refl (w : World) : extends w w.
Proof. intros k c H. exact H. Qed.

Lemma extends_trans (a b c : World) : extends a b -> extends b c -> extends a c.
Proof. intros H1 H2 k cl H. apply H2, H1, H. Qed.

Lemma step_comp (I : World -> Prop) (R : World -> World -> Prop)
    (f g : World -> World) :
  (forall a b c, R a b -> R b c -> R a c) ->
  step I R f -> step I R g -> step I R (fun w => g (f w)).
Proof.
  intros T Hf Hg w Hw. destruct (Hf w Hw) as [I1 R1].
  destruct (Hg _ I1) as [I2 R2]. split; [assumption | eapply T; eassumption].
Qed.

Lemma consistent_frame (f : World -> World) :
  (forall w, buses (f w) = buses w /\ fns (f w) = fns w) ->
  step consistent extends f.
Proof.
  intros Hf w [Hm Hw]. destruct (Hf w) as [Eb Ef].
  split; [split|].
  - rewrite Eb. exact Hm.
  - intros b s e l g Hb. rewrite Eb in Hb. rewrite Ef. eauto.
  - intros k c. rewrite Ef. auto.
Qed.

Lemma consistent_upd_bus (b : bid) (g : Bus -> Bus) :
  (forall s, metrics_ok s -> metrics_ok (g s)) ->
  (forall s, shrinks s (g s)) ->
  step consistent extends (upd_bus b g).
Proof.
  intros Hm Hs w [Mw Ww]. split; [split|intros k c Hk; exact Hk].
  - apply Forall_update_nth; assumption.
  - intros b' s' e l f Hb Hin Hf. simpl in Hb.
    rewrite nth_error_update_nth in Hb.
    destruct (Nat.eqb b b') eqn:Eb.
    + apply Nat.eqb_eq in Eb. subst b'.
      destruct (nth_error (buses w) b) as [s0|] eqn:E0; [|discriminate].
      inversion Hb; subst s'.
      destruct (Hs s0 e l f Hin Hf) as (l0 & Hin0 & Hf0).
      exact (Ww b s0 e l0 f E0 Hin0 Hf0).
    + exact (Ww b' s' e l f Hb Hin Hf).
Qed.

Lemma consistent_grow (cs : list closure) :
  step consistent extends (fun w => set_fns (fns w ++ cs) w).
Proof.
  intros w [Mw Ww]. split; [split|].
  - exact Mw.
  - intros b s e l f Hb Hin Hf.
    destruct (Ww b s e l f Hb Hin Hf) as (k & u & -> & Hk).
    exists k, u. split; [reflexivity|]. simpl.
    rewrite nth_error_app1; [exact Hk|]. apply nth_error_Some. congruence.
  - intros k c Hk. simpl.
    rewrite nth_error_app1; [exact Hk|]. apply nth_error_Some. congruence.
Qed.

Lemma consistent_on b e v r :
  step consistent extends (fun w => fst (on b e v r w)).
Proof.
  destruct v as [l|]; simpl;
    [|apply consistent_frame; intros; split; reflexivity].
  apply consistent_upd_bus.
  - intros s _. apply metrics_ok_updateMetrics.
  - intros s. apply shrinks_same. unfold bus_on.
    destruct r; unfold setupReactiveEffect; try destruct (existsb _ _);
      reflexivity.
Qed.

Lemma onceEvents_bus_once (s : Bus) e x r :
  onceEvents (bus_once e x r s) = add_listener (onceEvents s) e x.
Proof.
  unfold bus_once.
  destruct r; unfold setupReactiveEffect; try destruct (existsb _ _);
    reflexivity.
Qed.

Lemma consistent_once b e v r :
  step consistent extends (fun w => fst (once b e v r w)).
Proof.
  destruct v as [l|]; simpl;
    [|apply consistent_frame; intros; split; reflexivity].
  intros w [Mw Ww]. split; [split|].
  - apply Forall_update_nth; [|exact Mw].
    intros s _. apply metrics_ok_updateMetrics.
  - intros b' s' e' l' f Hb Hin Hf. simpl in Hb. simpl fns.
    rewrite nth_error_update_nth in Hb.
    assert (Old : forall s0 l0,
               nth_error (buses w) b' = Some s0 ->
               In (e', l0) (onceEvents s0) -> In f (JsSet.elements l0) ->
               exists k u, f = Internal k /\
                 nth_error (fns w ++ [OnceWrapper b e l]) k
                 = Some (OnceWrapper b' e' u)).
    { intros s0 l0 H0 Hin0 Hf0.
      destruct (Ww b' s0 e' l0 f H0 Hin0 Hf0) as (k & u & -> & Hk).
      exists k, u. split; [reflexivity|].
      rewrite nth_error_app1; [exact Hk|]. apply nth_error_Some. congruence. }
    destruct (Nat.eqb b b') eqn:Eb.
    + apply Nat.eqb_eq in Eb. subst b'.
      destruct (nth_error (buses w) b) as [s0|] eqn:E0; [|discriminate].
      inversion Hb; subst s'. rewrite onceEvents_bus_once in Hin.
      destruct (in_add_listener _ _ _ _ _ _ Hin Hf)
        as [[-> ->]|(l0 & Hin0 & Hf0)].
      * exists (List.length (fns w)), l. split; [reflexivity|].
        rewrite nth_error_app2, Nat.sub_diag by lia. reflexivity.
      * exact (Old s0 l0 eq_refl Hin0 Hf0).
    + exact (Old s' l' Hb Hin Hf).
  - intros k c Hk. simpl.
    rewrite nth_error_app1; [exact Hk|]. apply nth_error_Some. congruence.
Qed.

Lemma consistent_off b e v : step consistent extends (off b e v).
Proof.
  destruct v as [l|]; simpl; apply consistent_upd_bus.
  - intros s _. apply metrics_ok_updateMetrics.
  - intros s. apply shrinks_off.
  - intros s _. apply metrics_ok_updateMetrics.
  - intros s. apply shrinks_same. reflexivity.
Qed.

Lemma consistent_elementary : elementary consistent extends anyone.
Proof.
  constructor; try (intros; exact Logic.I);
    try (intros; apply consistent_frame; intros w; split; reflexivity).
  - apply extends_refl.
  - apply extends_trans.
  - intros f x ev w _ _. revert w. apply consistent_frame.
    intros w; split; reflexivity.
  - intros. apply consistent_on.
  - intros. apply consistent_once.
  - apply consistent_off.
  - intros b. apply consistent_upd_bus; [auto | intros; apply shrinks_same; reflexivity].
  - intros b e. apply consistent_upd_bus; [auto | intros; apply shrinks_same; reflexivity].
  - intros b l. apply consistent_upd_bus; [apply cleanupAll_metrics|].
    intros s. apply shrinks_same. apply cleanupAll_frame.
Qed.

Lemma the_bus_nth (b : bid) (w : World) (e : string) (l : JsSet.t) :
  JsMap.get (onceEvents (the_bus b w)) e = Some l ->
  nth_error (buses w) b = Some (the_bus b w).
Proof.
  unfold the_bus. intros G.
  destruct (nth_error (buses w) b) as [s|] eqn:Eb.
  - f_equal. symmetry. apply nth_error_nth. exact Eb.
  - apply nth_error_None in Eb. rewrite nth_overflow in G by exact Eb.
    discriminate.
Qed.

Lemma Forall_restore {A : Type} (P : A -> Prop) (n : nat) (g h : A -> A)
    (l : list A) :
  (forall a, P (g (h a))) -> Forall P l ->
  Forall P (update_nth n g (update_nth n h l)).
Proof.
  intros Hg H. revert n. induction H as [|a l Ha Hl IH]; intros [|n]; simpl;
    constructor; auto.
Qed.

Lemma wrappers_upd_bus (b : bid) (g : Bus -> Bus) (w : World) :
  (forall s, shrinks s (g s)) ->
  wrappers_in_place w -> wrappers_in_place (upd_bus b g w).
Proof.
  intros Hs Ww b' s' e l f Hb Hin Hf. simpl in Hb.
  rewrite nth_error_update_nth in Hb.
  destruct (Nat.eqb b b') eqn:Eb.
  - apply Nat.eqb_eq in Eb. subst b'.
    destruct (nth_error (buses w) b) as [s0|] eqn:E0; [|discriminate].
    inversion Hb; subst s'.
    destruct (Hs s0 e l f Hin Hf) as (l0 & Hin0 & Hf0).
    exact (Ww b s0 e l0 f E0 Hin0 Hf0).
  - exact (Ww b' s' e l f Hb Hin Hf).
Qed.

Lemma copy_nonempty (l : JsSet.t) :
  Nat.ltb 0 (JsSet.size l) = true ->
  exists f rest, JsSet.copy l = Some f :: rest /\ In f (JsSet.elements l).
Proof.
  unfold JsSet.size, JsSet.copy. destruct (JsSet.elements l) as [|f fs]; simpl.
  - discriminate.
  - intros _. exists f, (map Some fs). auto.
Qed.

Lemma callListeners_S user emit_ (n : nat) (b : bid)
    (listeners : World -> JsSet.t) (index : nat) (data : payload)
    (event : string) (w : World) :
  callListeners user emit_ (S n) b listeners index data event w
  = match nth_error (listeners w) index with
    | None => Some (w, Normal tt)
    | Some None =>
        callListeners user emit_ n b listeners (S index) data event w
    | Some (Some listener) =>
        match invoke user emit_ n listener data None w with
        | None => None
        | Some (w1, Normal _) =>
            callListeners user emit_ n b listeners (S index) data event w1
        | Some (w1, Throw error) =>
            (recover emit_ b event listener error ;;;
             callListeners user emit_ n b listeners (S index) data event) w1
        end
    end.
Proof. reflexivity. Qed.

Lemma invoke_S_internal user emit_ (d : nat) (k : nat) (c : closure)
    (data : payload) (event : option string) (w : World) :
  nth_error (fns w) k = Some c ->
  invoke user emit_ (S d) (Internal k) data event w
  = run_closure emit_ (fun g => invoke user emit_ d g data None)
      (Internal k) c data (log (Invoked (Internal k) data event) w).
Proof. intros H. simpl. rewrite H. reflexivity. Qed.

Lemma bind_modify {A : Type} (f : World -> World) (m : M A) (w : World) :
  (modify f ;;; m) w = m (f w).
Proof. reflexivity. Qed.

(** The drain leaves the count wrong only until the first wrapper runs:
    a wrapper starts with [off], which recomputes it. *)
Lemma consistent_drain user
    (emit_ : bid -> string -> payload -> M bool) :
  (forall b e x, sound consistent extends (emit_ b e x)) ->
  forall n b e x, sound consistent extends (drain_once user emit_ n b e x).
Proof.
  intros He0 n b e x w w' c Hw H. unfold drain_once in H.
  pose proof consistent_elementary as E.
  pose proof (callable_of_sound user consistent extends emit_ He0) as He.
  destruct (JsMap.get (onceEvents (the_bus b w)) e) as [l|] eqn:G;
    [|exact (sound_ret E false _ _ _ Hw H)].
  destruct (Nat.ltb 0 (JsSet.size l)) eqn:Sz;
    [|exact (sound_ret E false _ _ _ Hw H)].
  destruct (copy_nonempty l Sz) as (f & rest & Ec & Hf).
  pose proof (the_bus_nth b w e l G) as Hb.
  destruct Hw as [Mw Ww].
  destruct (Ww b _ e l f Hb (get_in _ _ _ G) Hf) as (k & u & -> & Hk).
  set (ls := JsSet.copy l) in *.
  set (wc := upd_bus b (clear_once e) w).
  change (((callListeners user emit_ n b (fun _ => ls) 0 x e ;;;
            modify (upd_bus b (cleanupAll (JsSet.elements ls))) ;;;
            ret true) wc) = Some (w', c)) in H.
  assert (Wc : wrappers_in_place wc).
  { apply (wrappers_upd_bus b (clear_once e) w);
      [intros s; apply shrinks_clear_once | exact Ww]. }
  assert (Tail : sound consistent extends
                   (modify (upd_bus b (cleanupAll (JsSet.elements ls))) ;;;
                    ret true)).
  { apply (sound_bind E);
      [apply sound_modify, (cleanup_step _ _ _ E)|].
    intros; apply (sound_ret E). }
  assert (Rest : forall m rd i, sound consistent extends
                   (callListeners user emit_ m b (fun _ => rd) i x e)).
  { intros m rd i. apply (callListeners_sound user E emit_ He).
    intros; exact Logic.I. }
  assert (Loop : forall w1 c1,
             callListeners user emit_ n b (fun _ => ls) 0 x e wc
             = Some (w1, c1) ->
             consistent w1 /\ extends wc w1).
  { intros w1 c1 H1. destruct n as [|n];
      [simpl in H1; rewrite Ec in H1; discriminate|].
    rewrite callListeners_S in H1. cbv beta in H1. rewrite Ec in H1.
    cbn [nth_error] in H1.
    destruct n as [|d]; [discriminate|].
    rewrite (invoke_S_internal user emit_ d k (OnceWrapper b e u)) in H1
      by exact Hk.
    cbn [run_closure] in H1. rewrite bind_modify in H1.
    set (wr := off b e (VFun (Internal k))
                 (log (Invoked (Internal k) x None) wc)) in H1.
    assert (Cr : consistent wr).
    { split.
      - apply (Forall_restore metrics_ok b (bus_off e (Internal k))
                 (clear_once e) (buses w)); [|exact Mw].
        intros s. apply metrics_ok_updateMetrics.
      - apply (wrappers_upd_bus b (bus_off e (Internal k))
                 (log (Invoked (Internal k) x None) wc));
          [intros s; apply shrinks_off | exact Wc]. }
    assert (Xr : extends wc wr) by (intros k0 c0 Hk0; exact Hk0).
    destruct (invoke user emit_ d u x None wr) as [[w2 [r|t]]|] eqn:Ei;
      [| |discriminate];
      destruct (invoke_sound user E emit_ He d u x None Logic.I
                  _ _ _ Cr Ei) as [C2 X2].
    - destruct (Rest _ _ _ _ _ _ C2 H1) as [C3 X3].
      split; [exact C3|].
      eapply extends_trans; [exact Xr|].
      eapply extends_trans; eassumption.
    - assert (S : forall rd, sound consistent extends
                    (recover emit_ b e (Internal k) t ;;;
                     callListeners user emit_ (S d) b (fun _ => rd) 1 x e)).
      { intros rd. apply (sound_bind E); [apply (recover_sound user E emit_ He)|].
        intros _. apply Rest. }
      destruct (S _ _ _ _ C2 H1) as [C3 X3].
      split; [exact C3|].
      eapply extends_trans; [exact Xr|].
      eapply extends_trans; eassumption. }
  unfold bind at 1 in H.
  destruct (callListeners user emit_ n b (fun _ => ls) 0 x e wc)
    as [[w1 [a|t]]|] eqn:E1; [| |discriminate];
    destruct (Loop _ _ eq_refl) as [C1 X1].
  - destruct (Tail _ _ _ C1 H) as [C2 X2]. split; [exact C2|].
    intros k0 c0 Hk0. apply X2, X1. exact Hk0.
  - inversion H; subst. split; [exact C1|].
    intros k0 c0 Hk0. apply X1. exact Hk0.
Qed.

Lemma metrics_ok_removeAll (s : Bus) e : metrics_ok (removeAllListeners e s).
Proof.
  unfold removeAllListeners. destruct (truthy_event e);
    apply metrics_ok_updateMetrics.
Qed.

Lemma metrics_ok_destroy (s : Bus) : metrics_ok (destroy s).
Proof. reflexivity. Qed.

Lemma metrics_ok_new_bus m h : metrics_ok (new_bus m h).
Proof. destruct m; reflexivity. Qed.

Lemma consistent_construct m h :
  step consistent extends (fun w => fst (construct m h w)).
Proof.
  intros w [Mw Ww]. split; [split|intros k c Hk; exact Hk].
  - simpl. apply Forall_app. split; [exact Mw|].
    constructor; [apply metrics_ok_new_bus | constructor].
  - intros b s e l f Hb Hin Hf. simpl in Hb.
    destruct (Nat.lt_ge_cases b (List.length (buses w))) as [L|L].
    + rewrite nth_error_app1 in Hb by exact L. exact (Ww b s e l f Hb Hin Hf).
    + rewrite nth_error_app2 in Hb by exact L.
      destruct (b - List.length (buses w)) as [|j]; simpl in Hb.
      * inversion Hb; subst s. destruct m; destruct Hin.
      * destruct j; discriminate.
Qed.

Lemma consistent_stream b e :
  step consistent extends (fun w => fst (stream b e w)).
Proof.
  intros w Hw. unfold stream. cbn [fst].
  destruct (consistent_frame
              (fun w => set_cells (cells w ++ [mkStreamState None 0]) w)
              (fun _ => conj eq_refl eq_refl) w Hw) as [C1 X1].
  destruct (consistent_grow [StreamListener (List.length (cells w))] _ C1)
    as [C2 X2].
  destruct (consistent_on b e (VFun (Internal (List.length (fns w)))) true
              _ C2) as [C3 X3].
  split; [exact C3|].
  eapply extends_trans; [exact X1|]. eapply extends_trans; [exact X2|].
  exact X3.
Qed.

Lemma consistent_pipe b e tb te :
  step consistent extends (fun w => fst (pipe b e tb te w)).
Proof.
  intros w Hw. unfold pipe. cbn [fst].
  destruct (consistent_grow
              [PipeListener tb (match te with Some e0 => e0 | None => e end)]
              _ Hw) as [C2 X2].
  destruct (consistent_on b e (VFun (Internal (List.length (fns w)))) false
              _ C2) as [C3 X3].
  split; [exact C3|]. eapply extends_trans; [exact X2 | exact X3].
Qed.

Lemma consistent_waitFor b e t :
  step consistent extends (fun w => fst (waitFor b e t w)).
Proof.
  intros w Hw. unfold waitFor. cbn [fst].
  destruct (consistent_frame
              (fun w => set_promises (promises w ++ [Pending]) w)
              (fun _ => conj eq_refl eq_refl) w Hw) as [C1 X1].
  destruct (truthy_timeout t) as [ms|].
  - destruct (consistent_grow
                [WaitListener (Some (List.length (timers w)))
                   (List.length (promises w))] _ C1) as [C2 X2].
    destruct (consistent_frame
                (fun w0 => set_timers
                   (timers w0 ++ [mkTimer b e (Internal (List.length (fns w)))
                                    (List.length (promises w)) ms Armed]) w0)
                (fun _ => conj eq_refl eq_refl) _ C2) as [C3 X3].
    destruct (consistent_once b e (VFun (Internal (List.length (fns w))))
                false _ C3) as [C4 X4].
    split; [exact C4|].
    eapply extends_trans; [exact X1|]. eapply extends_trans; [exact X2|].
    eapply extends_trans; [exact X3 | exact X4].
  - destruct (consistent_grow
                [WaitListener None (List.length (promises w))] _ C1)
      as [C2 X2].
    destruct (consistent_once b e (VFun (Internal (List.length (fns w))))
                false _ C2) as [C4 X4].
    split; [exact C4|].
    eapply extends_trans; [exact X1|]. eapply extends_trans; [exact X2|].
    exact X4.
Qed.

Lemma consistent_timeout t : step consistent extends (fireTimer t).
Proof.
  intros w Hw. unfold fireTimer.
  destruct (nth_error (timers w) t) as [tm|];
    [|split; [exact Hw | apply extends_refl]].
  destruct (t_state tm); try (split; [exact Hw | apply extends_refl]).
  destruct (consistent_frame
              (fun w0 => set_timers
                 (update_nth t
                    (fun tm0 => mkTimer (t_bus tm0) (t_event tm0)
                                  (t_listener tm0) (t_promise tm0)
                                  (t_delay tm0) Fired) (timers w0)) w0)
              (fun _ => conj eq_refl eq_refl) w Hw) as [C1 X1].
  destruct (consistent_off (t_bus tm) (t_event tm) (VFun (t_listener tm))
              _ C1) as [C2 X2].
  destruct (consistent_frame
              (settle (t_promise tm)
                 (Rejected
                    (JsError
                       ("Timeout waiting for event: " ++ t_event tm)%string)))
              (fun _ => conj eq_refl eq_refl) _ C2) as [C3 X3].
  split; [exact C3|].
  eapply extends_trans; [exact X1|]. eapply extends_trans; [exact X2|].
  exact X3.
Qed.

Lemma consistent_public : public consistent extends.
Proof.
  constructor.
  - apply consistent_construct.
  - intros b e v. destruct v; simpl;
      [|apply consistent_frame; intros; split; reflexivity].
    apply consistent_upd_bus; [auto | intros; apply shrinks_same; reflexivity].
  - intros b e m. apply consistent_upd_bus;
      [auto | intros; apply shrinks_same; reflexivity].
  - intros b e. apply consistent_upd_bus;
      [intros; apply metrics_ok_removeAll | intros; apply shrinks_removeAll].
  - intros b. apply consistent_upd_bus; [intros; apply metrics_ok_destroy|].
    intros s e l f Hin. destruct Hin.
  - apply consistent_stream.
  - apply consistent_waitFor.
  - apply consistent_pipe.
  - apply consistent_timeout.
Qed.

Lemma consistent_start : consistent start.
Proof.
  split; [constructor|]. intros b s e l f Hb. destruct b; discriminate.
Qed.

(** C6.  After [on], [once], [off], [removeAllListeners] and [destroy]
    the field [activeListeners] is the sum, over the entries of both maps,
    of the sizes of the sets, whatever the state before.  [emit] keeps the
    equality on every bus however it ends, the drain of the once-listeners
    included, in every world where the equality holds and the once-sets
    hold the wrappers that [once] made; every session of public calls that
    starts from the empty world ends in such a world. *)
Theorem activeListeners_is_the_sum_of_sizes :
  (forall s e f r, metrics_ok (bus_on e f r s)) /\
  (forall s e f r, metrics_ok (bus_once e f r s)) /\
  (forall s e f, metrics_ok (bus_off e f s)) /\
  (forall s e, metrics_ok (removeAllListeners e s)) /\
  (forall s, metrics_ok (destroy s)) /\
  (forall user fuel b e x w w' c,
      consistent w -> emit user fuel b e x w = Some (w', c) ->
      Forall metrics_ok (buses w')) /\
  (forall user fuel session w' rs,
      run user fuel session start = Some (w', rs) ->
      Forall metrics_ok (buses w') /\ consistent w').
Proof.
  refine (conj _ (conj _ (conj _ (conj _ (conj _ (conj _ _)))))).
  - intros. apply metrics_ok_updateMetrics.
  - intros. apply metrics_ok_updateMetrics.
  - intros. apply metrics_ok_updateMetrics.
  - intros. apply metrics_ok_removeAll.
  - intros. apply metrics_ok_destroy.
  - intros user fuel b e x w w' c Hw H.
    exact (proj1 (proj1 (emit_sound user consistent extends anyone
                           consistent_elementary (consistent_drain user)
                           fuel b e x w w' c Hw H))).
  - intros user fuel session w' rs H.
    pose proof (proj1 (run_sound user consistent extends anyone
                         consistent_elementary (consistent_drain user)
                         consistent_public fuel session start w' rs
                         consistent_start H)) as K.
    exact (conj (proj1 K) K).
Qed.

(** ** Emission with callbacks that make no calls on the bus

    When no callback calls back, an emission is a plain walk: its result
    is computed here without fuel, and [emit] is shown to reach it. *)

Definition no_calls (user : nat -> payload -> option string -> behaviour)
  : Prop :=
  forall u x ev, acts (user u x ev) = [].

(** The configured handler makes no calls and returns. *)
Definition handler_returns (s : Bus) : Prop :=
  match errorHandler s with
  | Some handler =>
      forall err e l, acts (handler err e l) = [] /\
                      exists r, result (handler err e l) = Normal r
  | None => True
  end.

Definition logs (es : list entry) (w : World) : World :=
  mkWorld (buses w) (fns w) (timers w) (promises w) (cells w)
          (trace w ++ es).

Section Quiet.

Variable user : nat -> payload -> option string -> behaviour.
Variable emit_ : bid -> string -> payload -> M bool.

(** The payload after the middleware [u], and after a list of them. *)
Definition mw_step (event : string) (x : payload) (u : nat) : payload :=
  match result (user u x (Some event)) with
  | Normal (RetVal v) => v
  | _ => x
  end.

Definition chain_payload (event : string) (us : list nat) (x : payload)
  : payload :=
  fold_left (mw_step event) us x.

(** What a chain leaves in the trace: each middleware with the payload
    it received, and a console line where it threw. *)
Fixpoint mw_trace (msg : string) (event : string) (us : list nat)
    (x : payload) : list entry :=
  match us with
  | [] => []
  | u :: rest =>
      Invoked (User u) x (Some event)
      :: match result (user u x (Some event)) with
         | Throw t => [ConsoleError msg t]
         | Normal _ => []
         end
      ++ mw_trace msg event rest (mw_step event x u)
  end.

Hypothesis quiet : no_calls user.

Lemma logs_nil (w : World) : logs [] w = w.
Proof. unfold logs. rewrite app_nil_r. destruct w; reflexivity. Qed.

Lemma logs_cons (e : entry) (es : list entry) (w : World) :
  logs es (log e w) = logs (e :: es) w.
Proof. unfold logs, log. simpl. rewrite <- app_assoc. reflexivity. Qed.

Lemma logs_app (es es' : list entry) (w : World) :
  logs es' (logs es w) = logs (es ++ es') w.
Proof. unfold logs. simpl. rewrite <- app_assoc. reflexivity. Qed.

Lemma perform_quiet (bh : behaviour) (w : World) :
  acts bh = [] -> perform emit_ bh w = Some (w, result bh).
Proof. unfold perform. intros ->. reflexivity. Qed.

Lemma invoke_user_quiet (d : nat) (u : nat) (x : payload)
    (ev : option string) (w : World) :
  invoke user emit_ (S d) (User u) x ev w
  = Some (log (Invoked (User u) x ev) w, result (user u x ev)).
Proof. simpl. apply perform_quiet, quiet. Qed.

Lemma run_chain_quiet (d : nat) (msg : string) (event : string)
    (us : list nat) (x : payload) (w : World) :
  run_chain user emit_ (S d) msg (map User us) event x w
  = Some (logs (mw_trace msg event us x) w,
          Normal (chain_payload event us x)).
Proof.
  revert x w. induction us as [|u us IH]; intros x w.
  - simpl. rewrite logs_nil. reflexivity.
  - cbn [map run_chain]. rewrite invoke_user_quiet.
    unfold chain_payload. cbn [mw_trace fold_left].
    fold (chain_payload event us (mw_step event x u)).
    assert (Hs : mw_step event x u
                 = match result (user u x (Some event)) with
                   | Normal (RetVal v) => v
                   | _ => x
                   end) by reflexivity.
    destruct (result (user u x (Some event))) as [[| |v]|t];
      rewrite Hs, IH, !logs_cons; reflexivity.
Qed.

(** The [catch] block when the handler, if any, returns. *)
Definition recovered (b : bid) (event : string) (l : fid) (t : thrown)
    (w : World) : World :=
  let w1 := upd_bus b bump_errorCount w in
  log (match errorHandler (the_bus b w1) with
       | Some _ => HandlerInvoked (normalize t) event l
       | None => ConsoleError (listener_error_msg event) (normalize t)
       end) w1.

Definition settled (b : bid) (event : string) (l : fid)
    (res : completion jsret) (w : World) : World :=
  match res with
  | Normal _ => w
  | Throw t => recovered b event l t w
  end.

(** A listener of the class: a callback, or the once-wrapper of one. *)
Definition plain (w : World) (l : fid) : Prop :=
  match l with
  | User _ => True
  | Internal k =>
      exists wb we u, nth_error (fns w) k = Some (OnceWrapper wb we (User u))
  end.

(** One turn of [forEach] on such a listener. *)
Definition delivered (b : bid) (event : string) (p : payload)
    (w : World) (l : fid) : World :=
  match l with
  | User u =>
      settled b event l (result (user u p None)) (log (Invoked l p None) w)
  | Internal k =>
      match nth_error (fns w) k with
      | Some (OnceWrapper wb we (User u)) =>
          settled b event l (result (user u p None))
            (log (Invoked (User u) p None)
               (off wb we (VFun l) (log (Invoked l p None) w)))
      | _ => w
      end
  end.

Lemma nth_update_nth {A : Type} (n m : nat) (g : A -> A) (l : list A)
    (d : A) :
  nth m (update_nth n g l) d
  = if Nat.eqb n m && Nat.ltb m (List.length l) then g (nth m l d)
    else nth m l d.
Proof.
  revert n m. induction l as [|a l IH]; intros [|n] [|m]; simpl;
    try reflexivity.
  - rewrite andb_false_r. reflexivity.
  - rewrite IH. reflexivity.
Qed.

Lemma the_bus_upd_bus (b b' : bid) (g : Bus -> Bus) (w : World) :
  the_bus b (upd_bus b' g w)
  = if Nat.eqb b' b && Nat.ltb b (List.length (buses w))
    then g (the_bus b w) else the_bus b w.
Proof. unfold the_bus, upd_bus. simpl. apply nth_update_nth. Qed.

Lemma handler_upd_bus (b b' : bid) (g : Bus -> Bus) (w : World) :
  (forall s, errorHandler (g s) = errorHandler s) ->
  errorHandler (the_bus b (upd_bus b' g w)) = errorHandler (the_bus b w).
Proof.
  intros Hg. rewrite the_bus_upd_bus.
  destruct (Nat.eqb b' b && Nat.ltb b (List.length (buses w))); auto.
Qed.

Lemma handler_off (b b' : bid) (e : string) (v : value) (w : World) :
  errorHandler (the_bus b (off b' e v w)) = errorHandler (the_bus b w).
Proof. destruct v; apply handler_upd_bus; reflexivity. Qed.

Lemma handler_recovered (b b' : bid) e l t (w : World) :
  errorHandler (the_bus b (recovered b' e l t w))
  = errorHandler (the_bus b w).
Proof.
  unfold recovered.
  change (the_bus b (log ?e0 ?w0)) with (the_bus b w0).
  apply handler_upd_bus. reflexivity.
Qed.

Lemma handler_delivered (b b' : bid) e p l (w : World) :
  errorHandler (the_bus b (delivered b' e p w l))
  = errorHandler (the_bus b w).
Proof.
  unfold delivered, settled. destruct l as [u|k].
  - destruct (result (user u p None)); [reflexivity|].
    rewrite handler_recovered. reflexivity.
  - destruct (nth_error (fns w) k) as [[wb we [u|j]| | |]|]; try reflexivity.
    destruct (result (user u p None)).
    + change (the_bus b (log ?e0 ?w0)) with (the_bus b w0).
      rewrite handler_off. reflexivity.
    + rewrite handler_recovered.
      change (the_bus b (log ?e0 ?w0)) with (the_bus b w0).
      rewrite handler_off. reflexivity.
Qed.

Lemma fns_delivered (b : bid) e p l (w : World) :
  fns (delivered b e p w l) = fns w.
Proof.
  unfold delivered, settled, recovered. destruct l as [u|k].
  - destruct (result (user u p None)); reflexivity.
  - destruct (nth_error (fns w) k) as [[wb we [u|j]| | |]|]; try reflexivity.
    destruct (result (user u p None)); reflexivity.
Qed.

Lemma recover_returns (b : bid) (event : string) (l : fid) (t : thrown)
    (w : World) :
  handler_returns (the_bus b w) ->
  recover emit_ b event l t w = Some (recovered b event l t w, Normal tt).
Proof.
  unfold handler_returns, recover, recovered. intros Hh.
  rewrite (handler_upd_bus b b bump_errorCount w) by reflexivity.
  destruct (errorHandler (the_bus b w)) as [handler|]; [|reflexivity].
  destruct (Hh (normalize t) event l) as (Ha & r & Hr).
  unfold bind. rewrite perform_quiet by exact Ha. rewrite Hr. reflexivity.
Qed.

(** One turn, whatever comes next. *)
Lemma turn (b : bid) (event : string) (p : payload) (l : fid) (d : nat)
    (K : M unit) (w : World) :
  plain w l -> handler_returns (the_bus b w) ->
  match invoke user emit_ (S (S d)) l p None w with
  | None => None
  | Some (w1, Normal _) => K w1
  | Some (w1, Throw error) => (recover emit_ b event l error ;;; K) w1
  end = K (delivered b event p w l).
Proof.
  intros Hl Hh. destruct l as [u|k].
  - rewrite invoke_user_quiet. unfold delivered, settled.
    destruct (result (user u p None)) as [r|t]; [reflexivity|].
    unfold bind. rewrite recover_returns; [reflexivity | exact Hh].
  - destruct Hl as (wb & we & u & Hk).
    rewrite (invoke_S_internal user emit_ (S d) k _ p None w Hk).
    cbn [run_closure]. rewrite bind_modify, invoke_user_quiet.
    unfold delivered, settled. rewrite Hk.
    destruct (result (user u p None)) as [r|t]; [reflexivity|].
    unfold bind. rewrite recover_returns; [reflexivity|].
    unfold handler_returns.
    change (the_bus b (log ?e0 ?w0)) with (the_bus b w0).
    rewrite handler_off. exact Hh.
Qed.

Lemma skipn_cons_nth {A : Type} (i : nat) (l : list A) (a : A)
    (r : list A) :
  skipn i l = a :: r -> nth_error l i = Some a /\ skipn (S i) l = r.
Proof.
  revert l. induction i as [|i IH]; intros [|b l]; simpl; try discriminate.
  - intros H. inversion H; subst. split; reflexivity.
  - intros H. destruct (IH l H) as [H1 H2]. split; [exact H1 | exact H2].
Qed.

Lemma skipn_nil_nth {A : Type} (i : nat) (l : list A) :
  skipn i l = [] -> nth_error l i = None.
Proof.
  revert l. induction i as [|i IH]; intros [|b l]; simpl;
    try discriminate; auto.
Qed.

Lemma in_elements (l : JsSet.t) (f : fid) :
  In (Some f) l -> In f (JsSet.elements l).
Proof.
  induction l as [|[g|] l IH]; simpl; [tauto | |].
  - intros [H|H]; [inversion H; auto | auto].
  - intros [H|H]; [discriminate | auto].
Qed.

(** The walk over a set that the turns leave alone. *)
Lemma callListeners_quiet (b : bid) (event : string) (p : payload)
    (rd : World -> JsSet.t) (l : JsSet.t) (Keeps : World -> Prop) :
  (forall w, Keeps w ->
             rd w = l /\ handler_returns (the_bus b w) /\
             forall f, In f (JsSet.elements l) -> plain w f) ->
  (forall w f, Keeps w -> In f (JsSet.elements l) ->
               Keeps (delivered b event p w f)) ->
  forall suffix i steps w,
    skipn i l = suffix -> Keeps w -> List.length suffix + 2 <= steps ->
    callListeners user emit_ steps b rd i p event w
    = Some (fold_left (delivered b event p) (JsSet.elements suffix) w,
            Normal tt).
Proof.
  intros HK HD suffix.
  induction suffix as [|a suffix IH]; intros i steps w Hs Kw Hn.
  - destruct (HK w Kw) as (Hr & _ & _).
    apply skipn_nil_nth in Hs.
    destruct steps; simpl; rewrite Hr, Hs; reflexivity.
  - destruct (HK w Kw) as (Hr & Hh & Hp).
    destruct (skipn_cons_nth _ _ _ _ Hs) as [Hnth Hs'].
    destruct steps as [|[|[|d]]]; simpl in Hn; try lia.
    rewrite callListeners_S, Hr, Hnth. destruct a as [f|].
    + assert (Hf : In f (JsSet.elements l)).
      { apply in_elements. eapply nth_error_In. exact Hnth. }
      rewrite (turn b event p f d
                 (callListeners user emit_ (S (S d)) b rd (S i) p event) w
                 (Hp f Hf) Hh).
      rewrite (IH (S i) (S (S d)) _ Hs' (HD w f Kw Hf)) by lia.
      reflexivity.
    + rewrite (IH (S i) (S (S d)) w Hs' Kw) by lia. reflexivity.
Qed.

(** What the turns leave alone. *)
Definition same_registry (w w' : World) : Prop :=
  fns w' = fns w /\
  List.length (buses w') = List.length (buses w) /\
  forall b, events (the_bus b w') = events (the_bus b w) /\
            onceEvents (the_bus b w') = onceEvents (the_bus b w) /\
            middleware (the_bus b w') = middleware (the_bus b w) /\
            errorHandler (the_bus b w') = errorHandler (the_bus b w).

Lemma same_registry_refl (w : World) : same_registry w w.
Proof. repeat split. Qed.

Lemma same_registry_trans (a b c : World) :
  same_registry a b -> same_registry b c -> same_registry a c.
Proof.
  intros (F1 & L1 & B1) (F2 & L2 & B2). split; [congruence|].
  split; [congruence|]. intros x.
  destruct (B1 x) as (? & ? & ? & ?), (B2 x) as (? & ? & ? & ?).
  repeat split; congruence.
Qed.

Lemma same_registry_upd (b : bid) (g : Bus -> Bus) (w : World) :
  (forall s, events (g s) = events s /\ onceEvents (g s) = onceEvents s /\
             middleware (g s) = middleware s /\
             errorHandler (g s) = errorHandler s) ->
  same_registry w (upd_bus b g w).
Proof.
  intros Hg. split; [reflexivity|]. split.
  - simpl. apply length_update_nth.
  - intros x. rewrite the_bus_upd_bus.
    destruct (Nat.eqb b x && Nat.ltb x (List.length (buses w)));
      [apply Hg | repeat split].
Qed.

Lemma same_registry_settled (b : bid) e l res (w : World) :
  same_registry w (settled b e l res w).
Proof.
  destruct res as [r|t]; [apply same_registry_refl|].
  unfold settled, recovered.
  apply (same_registry_trans _ (upd_bus b bump_errorCount w)).
  - apply same_registry_upd. intros s. repeat split.
  - repeat split.
Qed.

Lemma same_registry_user (b : bid) e p u (w : World) :
  same_registry w (delivered b e p w (User u)).
Proof.
  unfold delivered.
  apply (same_registry_trans _ (log (Invoked (User u) p None) w));
    [repeat split | apply same_registry_settled].
Qed.

Lemma same_registry_users (b : bid) e p (us : list nat) (w : World) :
  same_registry w (fold_left (delivered b e p) (map User us) w).
Proof.
  revert w. induction us as [|u us IH]; intros w; simpl.
  - apply same_registry_refl.
  - eapply same_registry_trans; [apply same_registry_user | apply IH].
Qed.

Definition once_listeners (b : bid) (event : string) (w : World)
  : JsSet.t :=
  match JsMap.get (onceEvents (the_bus b w)) event with
  | Some l => l
  | None => JsSet.empty
  end.

Lemma same_registry_reads (b : bid) (event : string) (w w' : World) :
  same_registry w w' ->
  live_listeners b event w' = live_listeners b event w /\
  once_listeners b event w' = once_listeners b event w /\
  (forall key, middlewares b key w' = middlewares b key w) /\
  (handler_returns (the_bus b w) -> handler_returns (the_bus b w')) /\
  (forall f, plain w f -> plain w' f).
Proof.
  intros (F & _ & B). destruct (B b) as (He & Ho & Hm & Hh).
  unfold live_listeners, once_listeners, middlewares, handler_returns, plain.
  rewrite He, Ho, Hm, Hh, F. repeat split; auto.
Qed.

Lemma call_regular_quiet (n : nat) (b : bid) (event : string)
    (p : payload) (us : list nat) (w : World) :
  JsSet.elements (live_listeners b event w) = map User us ->
  handler_returns (the_bus b w) ->
  List.length (live_listeners b event w) + 2 <= n ->
  call_regular user emit_ n b event p w
  = Some (fold_left (delivered b event p) (map User us) w,
          Normal (Nat.ltb 0 (List.length us))).
Proof.
  intros Hel Hh Hn.
  assert (Hsz : JsSet.size (live_listeners b event w) = List.length us).
  { unfold JsSet.size. rewrite Hel. apply length_map. }
  assert (Hwalk : callListeners user emit_ n b (live_listeners b event) 0
                    p event w
                  = Some (fold_left (delivered b event p) (map User us) w,
                          Normal tt)).
  { rewrite <- Hel.
    apply (callListeners_quiet b event p (live_listeners b event)
             (live_listeners b event w) (same_registry w));
      [| |reflexivity|apply same_registry_refl|exact Hn].
    - intros w' Kw.
      destruct (same_registry_reads b event w w' Kw) as (Hl & _ & _ & Hh' & _).
      split; [exact Hl|]. split; [exact (Hh' Hh)|].
      intros f Hf. rewrite Hel in Hf. apply in_map_iff in Hf.
      destruct Hf as (u & <- & _). exact Logic.I.
    - intros w' f Kw Hf. rewrite Hel in Hf. apply in_map_iff in Hf.
      destruct Hf as (u & <- & _).
      eapply same_registry_trans; [exact Kw | apply same_registry_user]. }
  unfold call_regular.
  destruct (JsMap.get (events (the_bus b w)) event) as [l|] eqn:G;
    unfold live_listeners in Hsz, Hel; rewrite G in Hsz, Hel.
  - rewrite Hsz. destruct (Nat.ltb 0 (List.length us)) eqn:Hz.
    + unfold bind. rewrite Hwalk. reflexivity.
    + destruct us; [reflexivity | discriminate].
  - destruct us; [reflexivity | discriminate].
Qed.

(** The state after the drain. *)
Definition drained (b : bid) (event : string) (p : payload) (w : World)
  : World :=
  if Nat.ltb 0 (JsSet.size (once_listeners b event w)) then
    upd_bus b (cleanupAll (JsSet.elements (once_listeners b event w)))
      (fold_left (delivered b event p)
         (JsSet.elements (once_listeners b event w))
         (upd_bus b (clear_once event) w))
  else w.

Lemma elements_copy (l : JsSet.t) :
  JsSet.elements (JsSet.copy l) = JsSet.elements l.
Proof.
  unfold JsSet.copy. induction (JsSet.elements l) as [|f fs IH]; simpl;
    [reflexivity | f_equal; exact IH].
Qed.

Lemma drain_once_quiet (n : nat) (b : bid) (event : string)
    (p : payload) (w : World) :
  (forall f, In f (JsSet.elements (once_listeners b event w)) -> plain w f) ->
  handler_returns (the_bus b w) ->
  JsSet.size (once_listeners b event w) + 2 <= n ->
  drain_once user emit_ n b event p w
  = Some (drained b event p w,
          Normal (Nat.ltb 0 (JsSet.size (once_listeners b event w)))).
Proof.
  intros Hp Hh Hn. unfold drain_once, drained.
  unfold once_listeners in *.
  destruct (JsMap.get (onceEvents (the_bus b w)) event) as [l|];
    [|reflexivity].
  destruct (Nat.ltb 0 (JsSet.size l)); [|reflexivity].
  assert (Hwalk :
            callListeners user emit_ n b (fun _ => JsSet.copy l) 0 p event
              (upd_bus b (clear_once event) w)
            = Some (fold_left (delivered b event p)
                      (JsSet.elements (JsSet.copy l))
                      (upd_bus b (clear_once event) w), Normal tt)).
  { apply (callListeners_quiet b event p (fun _ => JsSet.copy l)
             (JsSet.copy l)
             (fun w' => fns w' = fns w /\
                        errorHandler (the_bus b w')
                        = errorHandler (the_bus b w))).
    - intros w' [F H']. split; [reflexivity|]. split.
      + unfold handler_returns. rewrite H'. exact Hh.
      + intros f Hf. rewrite elements_copy in Hf. specialize (Hp f Hf).
        unfold plain in *. rewrite F. exact Hp.
    - intros w' f [F H'] _. split.
      + rewrite fns_delivered. exact F.
      + rewrite handler_delivered. exact H'.
    - reflexivity.
    - split; [reflexivity|]. apply handler_upd_bus. reflexivity.
    - unfold JsSet.copy. rewrite length_map. exact Hn. }
  rewrite bind_modify. unfold bind at 1. rewrite Hwalk.
  rewrite elements_copy. reflexivity.
Qed.

Definition emitted (b : bid) (event : string) (x : payload)
    (gs ms : list nat) (w : World) : World :=
  let p1 := chain_payload event gs x in
  let p := chain_payload event ms p1 in
  let w1 := logs (mw_trace (global_middleware_error_msg event) event gs x
                    ++ mw_trace (middleware_error_msg event) event ms p1)
              w in
  let w2 := upd_bus b (count_emission event) w1 in
  let w3 := fold_left (delivered b event p)
              (JsSet.elements (live_listeners b event w)) w2 in
  drained b event p w3.

Lemma same_registry_counted (b : bid) (event : string) (es : list entry)
    (w : World) :
  same_registry w (upd_bus b (count_emission event) (logs es w)).
Proof.
  apply (same_registry_trans _ (logs es w)); [repeat split|].
  apply same_registry_upd. intros s. repeat split.
Qed.

Lemma runMiddleware_quiet (d : nat) (b : bid) (event : string)
    (x : payload) (gs ms : list nat) (w : World) :
  middlewares b "*" w = map User gs ->
  middlewares b event w = map User ms ->
  runMiddleware user emit_ (S d) b event x w
  = Some (logs (mw_trace (global_middleware_error_msg event) event gs x
                  ++ mw_trace (middleware_error_msg event) event ms
                       (chain_payload event gs x)) w,
          Normal (chain_payload event ms (chain_payload event gs x))).
Proof.
  intros Hg Hm. unfold runMiddleware, bind.
  rewrite Hg, run_chain_quiet.
  change (middlewares b event (logs ?es w)) with (middlewares b event w).
  rewrite Hm, run_chain_quiet, logs_app. reflexivity.
Qed.

(** [emit] reaches that state, and returns. *)
Lemma emit_body_quiet (n : nat) (b : bid) (event : string) (x : payload)
    (gs ms us : list nat) (w : World) :
  middlewares b "*" w = map User gs ->
  middlewares b event w = map User ms ->
  JsSet.elements (live_listeners b event w) = map User us ->
  (forall f, In f (JsSet.elements (once_listeners b event w)) -> plain w f) ->
  handler_returns (the_bus b w) ->
  List.length (live_listeners b event w) + 2 <= n ->
  JsSet.size (once_listeners b event w) + 2 <= n ->
  emit_body user emit_ n b event x w
  = Some (emitted b event x gs ms w,
          Normal (Nat.ltb 0 (List.length us)
                  || Nat.ltb 0 (JsSet.size (once_listeners b event w)))).
Proof.
  intros Hg Hm Hu Ho Hh Hn1 Hn2.
  destruct n as [|d]; [lia|].
  unfold emit_body, emitted.
  unfold bind at 1. rewrite (runMiddleware_quiet d b event x gs ms w Hg Hm).
  set (p := chain_payload event ms (chain_payload event gs x)).
  set (es := mw_trace (global_middleware_error_msg event) event gs x
             ++ mw_trace (middleware_error_msg event) event ms
                  (chain_payload event gs x)).
  rewrite bind_modify.
  set (w2 := upd_bus b (count_emission event) (logs es w)).
  pose proof (same_registry_counted b event es w) as S2. fold w2 in S2.
  destruct (same_registry_reads b event w w2 S2) as (L2 & O2 & _ & H2 & P2).
  unfold bind at 1.
  rewrite (call_regular_quiet (S d) b event p us w2);
    [|rewrite L2; exact Hu | exact (H2 Hh) | rewrite L2; exact Hn1].
  rewrite Hu.
  set (w3 := fold_left (delivered b event p) (map User us) w2).
  assert (S3 : same_registry w w3).
  { eapply same_registry_trans; [exact S2 | apply same_registry_users]. }
  destruct (same_registry_reads b event w w3 S3) as (L3 & O3 & _ & H3 & P3).
  unfold bind at 1.
  rewrite (drain_once_quiet (S d) b event p w3);
    [|rewrite O3; intros f Hf; exact (P3 f (Ho f Hf))
     |exact (H3 Hh) | rewrite O3; exact Hn2].
  rewrite O3. reflexivity.
Qed.

(** *** What the emission leaves in the trace and in [errorCount] *)

Definition outcome_entries
    (h : option (thrown -> string -> fid -> behaviour))
    (event : string) (l : fid) (res : completion jsret) : list entry :=
  match res with
  | Throw t =>
      [match h with
       | Some _ => HandlerInvoked (normalize t) event l
       | None => ConsoleError (listener_error_msg event) (normalize t)
       end]
  | Normal _ => []
  end.

Definition listener_entries (heap : list closure)
    (h : option (thrown -> string -> fid -> behaviour))
    (event : string) (p : payload) (l : fid) : list entry :=
  match l with
  | User u =>
      Invoked l p None :: outcome_entries h event l (result (user u p None))
  | Internal k =>
      match nth_error heap k with
      | Some (OnceWrapper _ _ (User u)) =>
          Invoked l p None :: Invoked (User u) p None
          :: outcome_entries h event l (result (user u p None))
      | _ => []
      end
  end.

Definition throws (res : completion jsret) : nat :=
  match res with Throw _ => 1 | Normal _ => 0 end.

Definition listener_throws (heap : list closure) (p : payload) (l : fid)
  : nat :=
  match l with
  | User u => throws (result (user u p None))
  | Internal k =>
      match nth_error heap k with
      | Some (OnceWrapper _ _ (User u)) => throws (result (user u p None))
      | _ => 0
      end
  end.

Definition errors_of (b : bid) (w : World) : nat :=
  errorCount (reactiveState (the_bus b w)).

Lemma trace_settled (b : bid) e l res (w : World) :
  trace (settled b e l res w)
  = trace w ++ outcome_entries (errorHandler (the_bus b w)) e l res.
Proof.
  destruct res as [r|t]; simpl; [rewrite app_nil_r; reflexivity|].
  rewrite (handler_upd_bus b b bump_errorCount w) by reflexivity.
  reflexivity.
Qed.

Lemma trace_delivered (b : bid) e p l (w : World) :
  trace (delivered b e p w l)
  = trace w ++ listener_entries (fns w) (errorHandler (the_bus b w)) e p l.
Proof.
  unfold delivered, listener_entries. destruct l as [u|k].
  - rewrite trace_settled. simpl. rewrite <- app_assoc. reflexivity.
  - destruct (nth_error (fns w) k) as [[wb we [u|j]| | |]|];
      try (rewrite app_nil_r; reflexivity).
    rewrite trace_settled.
    change (the_bus b (log ?e0 ?w0)) with (the_bus b w0).
    rewrite handler_off.
    change (the_bus b (log ?e0 ?w0)) with (the_bus b w0).
    destruct (VFun (Internal k)); simpl; rewrite <- !app_assoc; reflexivity.
Qed.

Lemma trace_fold (b : bid) e p (ls : list fid) (w : World) :
  trace (fold_left (delivered b e p) ls w)
  = trace w
    ++ flat_map (listener_entries (fns w) (errorHandler (the_bus b w)) e p)
         ls.
Proof.
  revert w. induction ls as [|l ls IH]; intros w; simpl.
  - rewrite app_nil_r. reflexivity.
  - rewrite IH, trace_delivered, fns_delivered, handler_delivered.
    rewrite <- app_assoc. reflexivity.
Qed.

Lemma errors_upd (b b' : bid) (g : Bus -> Bus) (w : World) :
  (forall s, errorCount (reactiveState (g s))
             = errorCount (reactiveState s)) ->
  errors_of b (upd_bus b' g w) = errors_of b w.
Proof.
  intros Hg. unfold errors_of. rewrite the_bus_upd_bus.
  destruct (Nat.eqb b' b && Nat.ltb b (List.length (buses w))); auto.
Qed.

Lemma errors_off (b b' : bid) e v (w : World) :
  errors_of b (off b' e v w) = errors_of b w.
Proof. destruct v; apply errors_upd; reflexivity. Qed.

Lemma length_off (b : bid) e v (w : World) :
  List.length (buses (off b e v w)) = List.length (buses w).
Proof. destruct v; simpl; apply length_update_nth. Qed.

Lemma errors_settled (b : bid) e l res (w : World) :
  b < List.length (buses w) ->
  errors_of b (settled b e l res w) = errors_of b w + throws res.
Proof.
  intros Hb. destruct res as [r|t]; simpl; [lia|].
  unfold errors_of, recovered.
  change (the_bus b (log ?e0 ?w0)) with (the_bus b w0).
  rewrite the_bus_upd_bus, Nat.eqb_refl.
  apply Nat.ltb_lt in Hb. rewrite Hb. simpl. lia.
Qed.

Lemma length_settled (b : bid) e l res (w : World) :
  List.length (buses (settled b e l res w)) = List.length (buses w).
Proof.
  destruct res as [r|t]; [reflexivity|]. simpl. apply length_update_nth.
Qed.

Lemma length_delivered (b : bid) e p l (w : World) :
  List.length (buses (delivered b e p w l)) = List.length (buses w).
Proof.
  unfold delivered. destruct l as [u|k].
  - rewrite length_settled. reflexivity.
  - destruct (nth_error (fns w) k) as [[wb we [u|j]| | |]|];
      try reflexivity.
    rewrite length_settled.
    change (buses (log ?e0 ?w0)) with (buses w0). rewrite length_off.
    reflexivity.
Qed.

Lemma errors_delivered (b : bid) e p l (w : World) :
  b < List.length (buses w) ->
  errors_of b (delivered b e p w l)
  = errors_of b w + listener_throws (fns w) p l.
Proof.
  intros Hb. unfold delivered, listener_throws. destruct l as [u|k].
  - rewrite errors_settled by exact Hb. reflexivity.
  - destruct (nth_error (fns w) k) as [[wb we [u|j]| | |]|]; try lia.
    rewrite errors_settled.
    + f_equal. unfold errors_of.
      change (the_bus b (log ?e0 ?w0)) with (the_bus b w0).
      fold (errors_of b (off wb we (VFun (Internal k))
                           (log (Invoked (Internal k) p None) w))).
      rewrite errors_off. reflexivity.
    + change (buses (log ?e0 ?w0)) with (buses w0). rewrite length_off.
      exact Hb.
Qed.

Lemma errors_fold (b : bid) e p (ls : list fid) (w : World) :
  b < List.length (buses w) ->
  errors_of b (fold_left (delivered b e p) ls w)
  = errors_of b w + list_sum (map (listener_throws (fns w) p) ls).
Proof.
  revert w. induction ls as [|l ls IH]; intros w Hb; simpl; [lia|].
  rewrite IH by (rewrite length_delivered; exact Hb).
  rewrite errors_delivered, fns_delivered by exact Hb. lia.
Qed.

Lemma size_zero_elements (l : JsSet.t) :
  Nat.ltb 0 (JsSet.size l) = false -> JsSet.elements l = [].
Proof.
  unfold JsSet.size. destruct (JsSet.elements l); [reflexivity|discriminate].
Qed.

Section Emitted.

Variables (b : bid) (event : string) (x : payload) (gs ms us : list nat).
Variable w : World.
Hypothesis Hu : JsSet.elements (live_listeners b event w) = map User us.

Let p := chain_payload event ms (chain_payload event gs x).
Let es := mw_trace (global_middleware_error_msg event) event gs x
          ++ mw_trace (middleware_error_msg event) event ms
               (chain_payload event gs x).
Let w2 := upd_bus b (count_emission event) (logs es w).
Let w3 := fold_left (delivered b event p) (map User us) w2.

Lemma registry_w3 : same_registry w w3.
Proof.
  eapply same_registry_trans;
    [apply same_registry_counted | apply same_registry_users].
Qed.

Lemma trace_emitted :
  trace (emitted b event x gs ms w)
  = trace w ++ es
    ++ flat_map (listener_entries (fns w) (errorHandler (the_bus b w))
                   event p)
         (JsSet.elements (live_listeners b event w)
          ++ JsSet.elements (once_listeners b event w)).
Proof.
  pose proof registry_w3 as S3.
  destruct (same_registry_reads b event w w3 S3) as (_ & O3 & _).
  destruct S3 as (F3 & _ & B3). destruct (B3 b) as (_ & _ & _ & H3).
  assert (T3 : trace w3
               = (trace w ++ es)
                 ++ flat_map (listener_entries (fns w)
                                (errorHandler (the_bus b w)) event p)
                      (map User us)).
  { unfold w3. rewrite trace_fold. f_equal.
    change (fns w2) with (fns w).
    unfold w2. rewrite handler_upd_bus by reflexivity. reflexivity. }
  change (emitted b event x gs ms w)
    with (drained b event p
            (fold_left (delivered b event p)
               (JsSet.elements (live_listeners b event w)) w2)).
  rewrite Hu.
  change (fold_left (delivered b event p) (map User us) w2) with w3.
  unfold drained. rewrite O3, flat_map_app.
  destruct (Nat.ltb 0 (JsSet.size (once_listeners b event w))) eqn:Z.
  - change (trace (upd_bus b ?g ?w0)) with (trace w0).
    rewrite trace_fold.
    change (trace (upd_bus b ?g ?w0)) with (trace w0).
    change (fns (upd_bus b ?g ?w0)) with (fns w0).
    rewrite handler_upd_bus by reflexivity.
    rewrite T3, F3, H3, <- !app_assoc. reflexivity.
  - rewrite (size_zero_elements _ Z). simpl.
    rewrite T3, app_nil_r, <- !app_assoc. reflexivity.
Qed.

Lemma errors_emitted :
  b < List.length (buses w) ->
  errors_of b (emitted b event x gs ms w)
  = errors_of b w
    + list_sum (map (listener_throws (fns w) p)
                  (JsSet.elements (live_listeners b event w)
                   ++ JsSet.elements (once_listeners b event w))).
Proof.
  intros Hb.
  pose proof registry_w3 as S3.
  destruct (same_registry_reads b event w w3 S3) as (_ & O3 & _).
  destruct S3 as (F3 & L3 & _).
  assert (L2 : List.length (buses w2) = List.length (buses w)).
  { unfold w2. simpl. apply length_update_nth. }
  assert (E3 : errors_of b w3
               = errors_of b w
                 + list_sum (map (listener_throws (fns w) p)
                               (map User us))).
  { unfold w3. rewrite errors_fold by (rewrite L2; exact Hb).
    change (fns w2) with (fns w). f_equal.
    unfold w2. rewrite errors_upd by reflexivity. reflexivity. }
  change (emitted b event x gs ms w)
    with (drained b event p
            (fold_left (delivered b event p)
               (JsSet.elements (live_listeners b event w)) w2)).
  rewrite Hu.
  change (fold_left (delivered b event p) (map User us) w2) with w3.
  unfold drained. rewrite O3, map_app, list_sum_app.
  destruct (Nat.ltb 0 (JsSet.size (once_listeners b event w))) eqn:Z.
  - rewrite errors_upd
      by (intros s;
          destruct (cleanupAll_frame
                      (JsSet.elements (once_listeners b event w)) s)
            as (_ & _ & -> & _); reflexivity).
    rewrite errors_fold
      by (simpl; rewrite length_update_nth, L3; exact Hb).
    change (fns (upd_bus b ?g ?w0)) with (fns w0).
    rewrite errors_upd by reflexivity.
    rewrite E3, F3. lia.
  - rewrite (size_zero_elements _ Z). simpl. rewrite E3. lia.
Qed.

End Emitted.

End Quiet.

(** With callbacks that make no calls, a handler that returns, callbacks
    as middleware and as persistent listeners, and wrappers of callbacks
    as once-listeners, [emit] returns once it has the fuel to walk both
    sets. *)
Lemma emit_quiet user (fuel : nat) (b : bid) (event : string) (x : payload)
    (gs ms us : list nat) (w : World) :
  no_calls user ->
  handler_returns (the_bus b w) ->
  middlewares b "*" w = map User gs ->
  middlewares b event w = map User ms ->
  JsSet.elements (live_listeners b event w) = map User us ->
  (forall f, In f (JsSet.elements (once_listeners b event w)) -> plain w f) ->
  List.length (live_listeners b event w)
    + JsSet.size (once_listeners b event w) + 3 <= fuel ->
  emit user fuel b event x w
  = Some (emitted user b event x gs ms w,
          Normal (Nat.ltb 0 (List.length us)
                  || Nat.ltb 0 (JsSet.size (once_listeners b event w)))).
Proof.
  intros Hq Hh Hg Hm Hu Ho Hf. destruct fuel as [|n]; [lia|]. simpl.
  apply emit_body_quiet; try assumption; lia.
Qed.

(** ** Middleware and errors *)

Lemma chain_payload_app user (event : string) (gs ms : list nat)
    (x : payload) :
  chain_payload user event (gs ++ ms) x
  = chain_payload user event ms (chain_payload user event gs x).
Proof. unfold chain_payload. apply fold_left_app. Qed.

Lemma mw_trace_nth user (msg event : string) (us : list nat) (x : payload)
    (i u : nat) :
  nth_error us i = Some u ->
  In (Invoked (User u) (chain_payload user event (firstn i us) x)
        (Some event))
     (mw_trace user msg event us x).
Proof.
  revert x i. induction us as [|v us IH]; intros x [|i] H; simpl in H;
    try discriminate.
  - inversion H; subst. simpl. auto.
  - cbn [mw_trace firstn]. right. apply in_or_app. right.
    exact (IH _ _ H).
Qed.

Lemma mw_traces_nth user (gmsg mmsg event : string) (gs ms : list nat)
    (x : payload) (i u : nat) :
  nth_error (gs ++ ms) i = Some u ->
  In (Invoked (User u) (chain_payload user event (firstn i (gs ++ ms)) x)
        (Some event))
     (mw_trace user gmsg event gs x
      ++ mw_trace user mmsg event ms (chain_payload user event gs x)).
Proof.
  intros H. apply in_or_app.
  destruct (Nat.lt_ge_cases i (List.length gs)) as [L|L].
  - left. rewrite nth_error_app1 in H by exact L.
    rewrite firstn_app.
    replace (i - List.length gs) with 0 by lia.
    simpl. rewrite app_nil_r. apply mw_trace_nth. exact H.
  - right. rewrite nth_error_app2 in H by exact L.
    rewrite firstn_app, firstn_all2 by exact L.
    rewrite chain_payload_app. apply mw_trace_nth. exact H.
Qed.

Lemma invoked_listener user heap h (event : string) (p : payload)
    (l : fid) (w : World) :
  fns w = heap -> plain w l ->
  In (Invoked l p None) (listener_entries user heap h event p l).
Proof.
  intros <- Hl. destruct l as [u|k]; simpl; [auto|].
  destruct Hl as (wb & we & u & ->). simpl. auto.
Qed.

Lemma invoked_with user heap h (event : string) (p : payload)
    (ls : list fid) (f : fid) (y : payload) (ev : option string) :
  In (Invoked f y ev) (flat_map (listener_entries user heap h event p) ls) ->
  y = p /\ ev = None.
Proof.
  intros H. apply in_flat_map in H. destruct H as (l & _ & H).
  assert (O : forall res, In (Invoked f y ev) (outcome_entries h event l res)
                          -> y = p /\ ev = None).
  { intros [r|t]; simpl; [tauto|]. destruct h; intros [E|[]]; discriminate. }
  destruct l as [u|k]; simpl in H.
  - destruct H as [H|H]; [inversion H; auto | exact (O _ H)].
  - destruct (nth_error heap k) as [[wb we [u|j]| | |]|]; simpl in H;
      try tauto.
    destruct H as [H|[H|H]]; [inversion H; auto | inversion H; auto|].
    exact (O _ H).
Qed.

Lemma use_appends (event : string) (mw : fid) (s : Bus) :
  JsMap.get (middleware (bus_use event mw s)) event
  = Some (match JsMap.get (middleware s) event with
          | Some l => l
          | None => []
          end ++ [mw]).
Proof.
  unfold bus_use, JsMap.has. simpl.
  destruct (JsMap.get (middleware s) event) as [l|] eqn:G.
  - rewrite get_update_same, G. reflexivity.
  - rewrite get_update_same, get_set_same. reflexivity.
Qed.


(** ** [emit] does not throw

    With callbacks that do what they like: when the handler of the bus is
    absent, or makes no calls and returns, whatever a listener or a
    middleware throws stops inside [emit]. *)

Section Guarded.

Variable user : nat -> payload -> option string -> behaviour.
Variable b : bid.

Definition guarded (w : World) : Prop := handler_returns (the_bus b w).

Lemma guarded_frame (f : World -> World) :
  (forall w, errorHandler (the_bus b (f w)) = errorHandler (the_bus b w)) ->
  step guarded whatever f.
Proof.
  intros Hf w Hw. split; [|exact Logic.I].
  unfold guarded, handler_returns in *. rewrite Hf. exact Hw.
Qed.

Lemma guarded_upd_bus (b' : bid) (g : Bus -> Bus) :
  (forall s, errorHandler (g s) = errorHandler s) ->
  step guarded whatever (upd_bus b' g).
Proof.
  intros Hg. apply guarded_frame. intros w. apply handler_upd_bus, Hg.
Qed.

Lemma guarded_elementary : elementary guarded whatever anyone.
Proof.
  constructor; try (intros; exact Logic.I).
  - intros f x ev w _ _. revert w. apply guarded_frame. reflexivity.
  - intros err e l. apply guarded_frame. reflexivity.
  - intros msg err. apply guarded_frame. reflexivity.
  - intros b' e v r. apply guarded_frame. intros w.
    destruct v as [u|]; [|reflexivity]. simpl.
    apply handler_upd_bus. intros s. unfold bus_on.
    destruct r; unfold setupReactiveEffect; try destruct (existsb _ _);
      reflexivity.
  - intros b' e v r. apply guarded_frame. intros w.
    destruct v as [u|]; [|reflexivity]. simpl.
    rewrite handler_upd_bus; [reflexivity|]. intros s. unfold bus_once.
    destruct r; unfold setupReactiveEffect; try destruct (existsb _ _);
      reflexivity.
  - intros b' e v. apply guarded_frame. intros w. apply handler_off.
  - intros c x. apply guarded_frame. reflexivity.
  - intros t. apply guarded_frame. reflexivity.
  - intros p x. apply guarded_frame. reflexivity.
  - intros b'. apply guarded_upd_bus. reflexivity.
  - intros b' e. apply guarded_upd_bus. reflexivity.
  - intros b' l. apply guarded_upd_bus. intros s.
    apply (cleanupAll_frame l s).
Qed.

Lemma guarded_drain (emit_ : bid -> string -> payload -> M bool) :
  (forall b' e x, sound guarded whatever (emit_ b' e x)) ->
  forall n b' e x, sound guarded whatever (drain_once user emit_ n b' e x).
Proof.
  intros He n b' e x.
  apply (drain_once_sound_plain user guarded whatever anyone
           guarded_elementary emit_
           (callable_of_sound user guarded whatever emit_ He)).
  - intros b0 e0. apply guarded_upd_bus. reflexivity.
  - intros; exact Logic.I.
Qed.

Section Nested.

Variable emit_ : bid -> string -> payload -> M bool.
Hypothesis He : forall b' e x, sound guarded whatever (emit_ b' e x).

Lemma run_chain_returns (depth : nat) (msg : string) (mws : list fid)
    (event : string) (y : payload) (w w' : World) (c : completion payload) :
  run_chain user emit_ depth msg mws event y w = Some (w', c) ->
  exists p, c = Normal p.
Proof.
  revert y w. induction mws as [|mw rest IH]; intros y w H; simpl in H.
  - inversion H. eauto.
  - destruct (invoke user emit_ depth mw y (Some event) w)
      as [[w1 [[| |v]|t]]|]; [| | | |discriminate]; eauto.
Qed.

Lemma runMiddleware_returns (depth : nat) (event : string) (b' : bid)
    (x : payload) (w w' : World) (c : completion payload) :
  runMiddleware user emit_ depth b' event x w = Some (w', c) ->
  exists p, c = Normal p.
Proof.
  unfold runMiddleware, bind. intros H.
  destruct (run_chain user emit_ depth (global_middleware_error_msg event)
              (middlewares b' "*" w) event x w) as [[w1 [p|t]]|] eqn:G;
    [| |discriminate].
  - exact (run_chain_returns _ _ _ _ _ _ _ _ H).
  - destruct (run_chain_returns _ _ _ _ _ _ _ _ G) as [p Hp].
    discriminate Hp.
Qed.

Lemma recover_returns_normally (event : string) (l : fid) (err : thrown)
    (w w' : World) (c : completion unit) :
  guarded w -> recover emit_ b event l err w = Some (w', c) ->
  c = Normal tt.
Proof.
  intros Hw H. unfold recover in H.
  unfold guarded, handler_returns in Hw.
  rewrite (handler_upd_bus b b bump_errorCount w (fun s => eq_refl)) in H.
  destruct (errorHandler (the_bus b w)) as [h|].
  - destruct (Hw (normalize err) event l) as [Ha [r Hr]].
    unfold perform, bind in H. rewrite Ha, Hr in H. simpl in H.
    inversion H. reflexivity.
  - inversion H. reflexivity.
Qed.

Lemma callListeners_returns (steps : nat) (listeners : World -> JsSet.t)
    (index : nat) (data : payload) (event : string)
    (w w' : World) (c : completion unit) :
  guarded w ->
  callListeners user emit_ steps b listeners index data event w
  = Some (w', c) ->
  c = Normal tt.
Proof.
  revert index w. induction steps as [|n IH]; intros index w Hw H.
  - simpl in H. destruct (nth_error (listeners w) index); [discriminate|].
    inversion H. reflexivity.
  - rewrite callListeners_S in H.
    destruct (nth_error (listeners w) index) as [[f|]|] eqn:En.
    + destruct (invoke user emit_ n f data None w) as [[w1 [r|t]]|] eqn:Ei;
        [| |discriminate].
      * destruct (invoke_sound user guarded_elementary emit_
                    (callable_of_sound user guarded whatever emit_ He)
                    n f data None Logic.I w w1 _ Hw Ei) as [I1 _].
        exact (IH _ _ I1 H).
      * destruct (invoke_sound user guarded_elementary emit_
                    (callable_of_sound user guarded whatever emit_ He)
                    n f data None Logic.I w w1 _ Hw Ei) as [I1 _].
        unfold bind in H.
        destruct (recover emit_ b event f t w1) as [[w2 [[]|t2]]|] eqn:Er;
          [| |discriminate].
        -- destruct (recover_sound user guarded_elementary emit_
                       (callable_of_sound user guarded whatever emit_ He)
                       b event f t w1 w2 _ I1 Er) as [I2 _].
           exact (IH _ _ I2 H).
        -- pose proof (recover_returns_normally _ _ _ _ _ _ I1 Er) as N.
           discriminate N.
    + exact (IH _ _ Hw H).
    + inversion H. reflexivity.
Qed.

Lemma emit_body_returns (n : nat) (event : string) (x : payload)
    (w w' : World) (c : completion bool) :
  guarded w -> emit_body user emit_ n b event x w = Some (w', c) ->
  exists r, c = Normal r.
Proof.
  intros Hw H. unfold emit_body in H. unfold bind at 1 in H.
  destruct (runMiddleware user emit_ n b event x w) as [[w1 [p|t]]|] eqn:Em;
    [| |discriminate].
  2:{ destruct (runMiddleware_returns _ _ _ _ _ _ _ Em) as [p Hp].
      discriminate Hp. }
  destruct (runMiddleware_sound user guarded whatever anyone
              guarded_elementary emit_
              (callable_of_sound user guarded whatever emit_ He)
              n b event x w w1 _ Hw Em) as [I1 _].
  rewrite bind_modify in H.
  destruct (guarded_upd_bus b (count_emission event) (fun s => eq_refl)
              w1 I1) as [I2 _].
  set (w2 := upd_bus b (count_emission event) w1) in *.
  unfold bind at 1 in H.
  destruct (call_regular user emit_ n b event p w2) as [[w3 [r|t]]|] eqn:Ec;
    [| |discriminate].
  - destruct (call_regular_sound user guarded whatever anyone
                guarded_elementary emit_
                (callable_of_sound user guarded whatever emit_ He)
                n b event p w2 w3 _ I2 Ec) as [I3 _].
    unfold bind at 1 in H.
    destruct (drain_once user emit_ n b event p w3) as [[w4 [o|t]]|] eqn:Ed;
      [| |discriminate].
    + inversion H. eauto.
    + exfalso. unfold drain_once in Ed.
      destruct (JsMap.get (onceEvents (the_bus b w3)) event) as [l|];
        [|discriminate Ed].
      destruct (Nat.ltb 0 (JsSet.size l)); [|discriminate Ed].
      rewrite bind_modify in Ed. unfold bind at 1 in Ed.
      destruct (guarded_upd_bus b (clear_once event) (fun s => eq_refl)
                  w3 I3) as [I4 _].
      destruct (callListeners user emit_ n b (fun _ => JsSet.copy l) 0 p
                  event (upd_bus b (clear_once event) w3))
        as [[w5 [[]|t5]]|] eqn:El; [| |discriminate].
      * rewrite bind_modify in Ed. discriminate Ed.
      * pose proof (callListeners_returns _ _ _ _ _ _ _ _ I4 El) as N.
        discriminate N.
  - exfalso. unfold call_regular in Ec.
    destruct (JsMap.get (events (the_bus b w2)) event) as [l|];
      [|discriminate Ec].
    destruct (Nat.ltb 0 (JsSet.size l)); [|discriminate Ec].
    unfold bind in Ec.
    destruct (callListeners user emit_ n b (live_listeners b event) 0 p
                event w2) as [[w5 [[]|t5]]|] eqn:El; [| |discriminate].
    + discriminate Ec.
    + pose proof (callListeners_returns _ _ _ _ _ _ _ _ I2 El) as N.
      discriminate N.
Qed.

End Nested.

Lemma emit_returns_normally (fuel : nat) (event : string) (x : payload)
    (w w' : World) (c : completion bool) :
  guarded w -> emit user fuel b event x w = Some (w', c) ->
  exists r, c = Normal r.
Proof.
  destruct fuel as [|n]; intros Hw H; [discriminate H|].
  simpl in H. revert H. apply emit_body_returns; [|exact Hw].
  intros b' e y.
  apply (emit_sound user guarded whatever anyone guarded_elementary
           guarded_drain).
Qed.

End Guarded.


(** ** A once-wrapper is called at most once *)

Definition is_call (k : nat) (e : entry) : bool :=
  match e with
  | Invoked (Internal j) _ _ => Nat.eqb k j
  | _ => false
  end.

(** How often the function object [k] has been called. *)
Definition calls (k : nat) (w : World) : nat :=
  List.length (filter (is_call k) (trace w)).

Definition occurrences (k : nat) (l : JsSet.t) : nat :=
  List.length (filter (fid_eqb (Internal k)) (JsSet.elements l)).

Definition bus_pending (k : nat) (s : Bus) : nat :=
  list_sum (map (fun kv => occurrences k (snd kv)) (onceEvents s)).

(** How often [k] sits in a once-set. *)
Definition pending (k : nat) (w : World) : nat :=
  list_sum (map (bus_pending k) (buses w)).

Definition potential (k : nat) (w : World) : nat := calls k w + pending k w.

(** Nothing but once-sets refers to [k]. *)
Definition private (k : nat) (w : World) : Prop :=
  k < List.length (fns w) /\
  (forall b s e l, nth_error (buses w) b = Some s -> In (e, l) (events s) ->
                   ~ In (Internal k) (JsSet.elements l)) /\
  (forall b s e l, nth_error (buses w) b = Some s ->
                   In (e, l) (middleware s) -> ~ In (Internal k) l) /\
  (forall j b e, nth_error (fns w) j <> Some (OnceWrapper b e (Internal k))).

(** No set, list, wrapper or trace entry mentions the function object
    [k] yet. *)
Definition unreferenced (k : nat) (w : World) : Prop :=
  (forall b s e l, nth_error (buses w) b = Some s -> In (e, l) (events s) ->
                   ~ In (Internal k) (JsSet.elements l)) /\
  (forall b s e l, nth_error (buses w) b = Some s ->
                   In (e, l) (middleware s) -> ~ In (Internal k) l) /\
  (forall j b e, nth_error (fns w) j <> Some (OnceWrapper b e (Internal k))) /\
  pending k w = 0 /\
  calls k w = 0.

Definition settles (k : nat) (w w' : World) : Prop :=
  potential k w' <= potential k w.

Definition other (k : nat) (f : fid) : Prop := f <> Internal k.

Section Counting.

Variable k : nat.

Lemma occurrences_delete (l : JsSet.t) (f : fid) :
  occurrences k (JsSet.delete l f) <= occurrences k l.
Proof.
  unfold occurrences, JsSet.delete.
  induction l as [|[g|] l IH]; simpl; [lia | | exact IH].
  destruct (fid_eqb f g); destruct g as [u|j]; simpl;
    try destruct (Nat.eqb k j); simpl; lia.
Qed.

Lemma occurrences_add (l : JsSet.t) (f : fid) :
  other k f -> occurrences k (JsSet.add l f) = occurrences k l.
Proof.
  intros Hf. unfold occurrences, JsSet.add.
  destruct (JsSet.has l f); [reflexivity|].
  rewrite elements_app, filter_app, length_app.
  cbn [JsSet.elements filter].
  destruct (fid_eqb (Internal k) f) eqn:E; [|simpl; lia].
  apply fid_eqb_eq in E. symmetry in E. contradiction.
Qed.

Lemma occurrences_clear (l : JsSet.t) : occurrences k (JsSet.clear l) = 0.
Proof. unfold occurrences. rewrite elements_clear. reflexivity. Qed.

Lemma occurrences_zero (l : JsSet.t) :
  ~ In (Internal k) (JsSet.elements l) -> occurrences k l = 0.
Proof.
  unfold occurrences. induction (JsSet.elements l) as [|f fs IH];
    cbn [filter In]; [reflexivity|].
  intros H. destruct (fid_eqb (Internal k) f) eqn:E.
  - apply fid_eqb_eq in E. subst. exfalso. auto.
  - apply IH. intros H'. auto.
Qed.

Definition weight (m : JsMap.t JsSet.t) : nat :=
  list_sum (map (fun kv => occurrences k (snd kv)) m).

Lemma weight_update_le (m : JsMap.t JsSet.t) (e : string)
    (g : JsSet.t -> JsSet.t) :
  (forall l, occurrences k (g l) <= occurrences k l) ->
  weight (JsMap.update m e g) <= weight m.
Proof.
  intros Hg. unfold weight. induction m as [|[e' l] m IH]; simpl; [lia|].
  destruct (String.eqb e e'); simpl; [specialize (Hg l); lia | lia].
Qed.

Lemma weight_update_eq (m : JsMap.t JsSet.t) (e : string)
    (g : JsSet.t -> JsSet.t) :
  (forall l, occurrences k (g l) = occurrences k l) ->
  weight (JsMap.update m e g) = weight m.
Proof.
  intros Hg. unfold weight. induction m as [|[e' l] m IH]; simpl; [lia|].
  destruct (String.eqb e e'); simpl; [rewrite Hg; lia | lia].
Qed.

Lemma weight_set_fresh (m : JsMap.t JsSet.t) (e : string) :
  JsMap.has m e = false -> weight (JsMap.set m e JsSet.empty) = weight m.
Proof.
  unfold JsMap.has, weight. induction m as [|[e' l] m IH]; simpl;
    [reflexivity|].
  destruct (String.eqb e e'); [discriminate|]. simpl. intros H.
  rewrite IH by exact H. reflexivity.
Qed.

Lemma weight_add_listener (m : JsMap.t JsSet.t) (e : string) (f : fid) :
  other k f -> weight (add_listener m e f) = weight m.
Proof.
  intros Hf. unfold add_listener.
  rewrite weight_update_eq by (intros; apply occurrences_add, Hf).
  destruct (JsMap.has m e) eqn:H; [reflexivity|].
  apply weight_set_fresh, H.
Qed.

Lemma weight_delete (m : JsMap.t JsSet.t) (e : string) :
  weight (JsMap.delete m e) <= weight m.
Proof.
  unfold weight. induction m as [|[e' l] m IH]; simpl; [lia|].
  destruct (String.eqb e e'); simpl; lia.
Qed.

(** Clearing a set moves what it held out of the pending count. *)
Lemma weight_clear (m : JsMap.t JsSet.t) (e : string) (l : JsSet.t) :
  JsMap.get m e = Some l ->
  weight (JsMap.update m e JsSet.clear) + occurrences k l = weight m.
Proof.
  unfold weight. induction m as [|[e' l'] m IH]; simpl; [discriminate|].
  destruct (String.eqb e e'); simpl.
  - intros H. inversion H; subst. rewrite occurrences_clear. lia.
  - intros H. specialize (IH H). lia.
Qed.

Lemma pending_upd_le (b : bid) (g : Bus -> Bus) (w : World) :
  (forall s, bus_pending k (g s) <= bus_pending k s) ->
  pending k (upd_bus b g w) <= pending k w.
Proof.
  intros Hg. unfold pending. simpl. revert b.
  induction (buses w) as [|s l IH]; intros [|b]; simpl; try lia.
  - specialize (Hg s). lia.
  - specialize (IH b). lia.
Qed.

Lemma pending_upd_at (b : bid) (g : Bus -> Bus) (w : World) (s : Bus)
    (n : nat) :
  nth_error (buses w) b = Some s ->
  bus_pending k (g s) + n = bus_pending k s ->
  pending k (upd_bus b g w) + n = pending k w.
Proof.
  unfold pending. simpl. revert b.
  induction (buses w) as [|s0 l IH]; intros [|b]; simpl; try discriminate.
  - intros H Hn. inversion H; subst. lia.
  - intros H Hn. specialize (IH b H Hn). lia.
Qed.

Lemma calls_log (e : entry) (w : World) :
  calls k (log e w) = calls k w + (if is_call k e then 1 else 0).
Proof.
  unfold calls. simpl. rewrite filter_app, length_app. simpl.
  destruct (is_call k e); reflexivity.
Qed.

End Counting.

Section Private.

Variable k : nat.

(** An update of a bus that brings [k] into no persistent set and no
    middleware list, and adds it to no once-set. *)
Definition tame (g : Bus -> Bus) : Prop :=
  forall s,
    (forall e l, In (e, l) (events (g s)) ->
                 In (Internal k) (JsSet.elements l) ->
                 exists l0, In (e, l0) (events s) /\
                            In (Internal k) (JsSet.elements l0)) /\
    (forall e l, In (e, l) (middleware (g s)) -> In (Internal k) l ->
                 exists l0, In (e, l0) (middleware s) /\
                            In (Internal k) l0) /\
    bus_pending k (g s) <= bus_pending k s.

Lemma private_upd_bus (b : bid) (g : Bus -> Bus) :
  tame g -> step (private k) (settles k) (upd_bus b g).
Proof.
  intros Hg w (H1 & H2 & H3 & H4). split; [split; [|split; [|split]]|].
  - exact H1.
  - intros b' s' e l Hb Hin Hk. simpl in Hb.
    rewrite nth_error_update_nth in Hb.
    destruct (Nat.eqb b b') eqn:Eb; [|exact (H2 b' s' e l Hb Hin Hk)].
    destruct (nth_error (buses w) b') as [s0|] eqn:E0; [|discriminate].
    inversion Hb; subst s'.
    destruct (Hg s0) as (G1 & _ & _).
    destruct (G1 e l Hin Hk) as (l0 & Hin0 & Hk0).
    exact (H2 b' s0 e l0 E0 Hin0 Hk0).
  - intros b' s' e l Hb Hin Hk. simpl in Hb.
    rewrite nth_error_update_nth in Hb.
    destruct (Nat.eqb b b') eqn:Eb; [|exact (H3 b' s' e l Hb Hin Hk)].
    destruct (nth_error (buses w) b') as [s0|] eqn:E0; [|discriminate].
    inversion Hb; subst s'.
    destruct (Hg s0) as (_ & G2 & _).
    destruct (G2 e l Hin Hk) as (l0 & Hin0 & Hk0).
    exact (H3 b' s0 e l0 E0 Hin0 Hk0).
  - exact H4.
  - unfold settles, potential.
    assert (pending k (upd_bus b g w) <= pending k w).
    { apply pending_upd_le. intros s. apply Hg. }
    change (calls k (upd_bus b g w)) with (calls k w). lia.
Qed.

Lemma tame_same (g : Bus -> Bus) :
  (forall s, events (g s) = events s /\ onceEvents (g s) = onceEvents s /\
             middleware (g s) = middleware s) ->
  tame g.
Proof.
  intros Hg s. destruct (Hg s) as (E1 & E2 & E3).
  unfold bus_pending. rewrite E1, E2, E3. repeat split; eauto.
Qed.

Lemma tame_on e f r : other k f -> tame (bus_on e f r).
Proof.
  intros Hf s.
  assert (E1 : events (bus_on e f r s) = add_listener (events s) e f).
  { unfold bus_on. destruct r; unfold setupReactiveEffect;
      try destruct (existsb _ _); reflexivity. }
  assert (E2 : onceEvents (bus_on e f r s) = onceEvents s
               /\ middleware (bus_on e f r s) = middleware s).
  { unfold bus_on. destruct r; unfold setupReactiveEffect;
      try destruct (existsb _ _); split; reflexivity. }
  destruct E2 as [E2 E3]. unfold bus_pending. rewrite E1, E2, E3.
  split; [|split; [eauto | lia]].
  intros e0 l Hin Hk.
  destruct (in_add_listener _ _ _ _ _ _ Hin Hk) as [[E _]|H]; [|exact H].
  symmetry in E. contradiction.
Qed.

Lemma tame_once e f r : other k f -> tame (bus_once e f r).
Proof.
  intros Hf s.
  assert (E1 : events (bus_once e f r s) = events s
               /\ middleware (bus_once e f r s) = middleware s).
  { unfold bus_once. destruct r; unfold setupReactiveEffect;
      try destruct (existsb _ _); split; reflexivity. }
  destruct E1 as [E1 E3]. unfold bus_pending.
  rewrite E1, E3, onceEvents_bus_once.
  split; [eauto|]. split; [eauto|].
  fold (weight k (add_listener (onceEvents s) e f)).
  rewrite weight_add_listener by exact Hf. apply Nat.le_refl.
Qed.

Lemma tame_off e f : tame (bus_off e f).
Proof.
  intros s. split; [|split].
  - intros e0 l Hin Hk. unfold bus_off in Hin. simpl in Hin.
    destruct (in_update _ _ _ _ _ Hin) as [H|(l0 & H & ->)]; [eauto|].
    exists l0. split; [exact H|]. eapply elements_delete. exact Hk.
  - intros e0 l Hin Hk. eauto.
  - unfold bus_pending, bus_off. simpl.
    apply (weight_update_le k). intros l. apply occurrences_delete.
Qed.

Lemma tame_clear_once e : tame (clear_once e).
Proof.
  intros s. split; [eauto|]. split; [eauto|].
  unfold bus_pending, clear_once. simpl.
  apply (weight_update_le k). intros l. rewrite occurrences_clear. lia.
Qed.

Lemma private_frame (f : World -> World) :
  (forall w, buses (f w) = buses w /\ fns (f w) = fns w /\
             trace (f w) = trace w) ->
  step (private k) (settles k) f.
Proof.
  intros Hf w Hw. destruct (Hf w) as (Eb & Ef & Et).
  unfold private, settles, potential, calls, pending.
  rewrite Eb, Ef, Et. split; [exact Hw | apply Nat.le_refl].
Qed.

Lemma private_log (e : entry) :
  is_call k e = false -> step (private k) (settles k) (log e).
Proof.
  intros He w Hw. split; [exact Hw|].
  unfold settles, potential. rewrite calls_log, He.
  change (pending k (log e w)) with (pending k w). lia.
Qed.

Lemma private_grow (c : closure) :
  (forall b e, c <> OnceWrapper b e (Internal k)) ->
  step (private k) (settles k) (fun w => set_fns (fns w ++ [c]) w).
Proof.
  intros Hc w (H1 & H2 & H3 & H4).
  split; [split; [|split; [|split]]|apply Nat.le_refl].
  - simpl. rewrite length_app. lia.
  - exact H2.
  - exact H3.
  - intros j b e Hj. simpl in Hj.
    destruct (Nat.lt_ge_cases j (List.length (fns w))) as [L|L].
    + rewrite nth_error_app1 in Hj by exact L. exact (H4 j b e Hj).
    + rewrite nth_error_app2 in Hj by exact L.
      destruct (j - List.length (fns w)) as [|i]; simpl in Hj.
      * inversion Hj. exact (Hc b e H0).
      * destruct i; discriminate.
Qed.

Lemma settles_trans (a b c : World) :
  settles k a b -> settles k b c -> settles k a c.
Proof. unfold settles. lia. Qed.

Lemma private_on b e f r :
  other k f -> step (private k) (settles k) (fun w => fst (on b e (VFun f) r w)).
Proof. intros Hf. apply private_upd_bus, tame_on, Hf. Qed.

Lemma private_once b e f r :
  other k f ->
  step (private k) (settles k) (fun w => fst (once b e (VFun f) r w)).
Proof.
  intros Hf w Hw. simpl.
  assert (Hc : forall b0 e0, OnceWrapper b e f <> OnceWrapper b0 e0 (Internal k)).
  { intros b0 e0 H. inversion H. contradiction. }
  destruct (private_grow (OnceWrapper b e f) Hc w Hw) as [I1 R1].
  assert (Hn : other k (Internal (List.length (fns w)))).
  { intros H. inversion H as [Hk]. destruct Hw as (Hlt & _). lia. }
  destruct (private_upd_bus b
              (bus_once e (Internal (List.length (fns w))) r)
              (tame_once e _ r Hn) _ I1) as [I2 R2].
  split; [exact I2 | exact (settles_trans _ _ _ R1 R2)].
Qed.

Lemma private_off b e v : step (private k) (settles k) (off b e v).
Proof.
  destruct v as [f|]; simpl; apply private_upd_bus;
    [apply tame_off | apply tame_same; intros; repeat split].
Qed.

Lemma private_elementary : elementary (private k) (settles k) (other k).
Proof.
  constructor.
  - intros w. apply Nat.le_refl.
  - apply settles_trans.
  - intros u H. discriminate.
  - intros f x ev w Hf _. revert w. apply private_log.
    destruct f as [u|j]; simpl; [reflexivity|].
    apply Nat.eqb_neq. intros ->. apply Hf. reflexivity.
  - intros. apply private_log. reflexivity.
  - intros. apply private_log. reflexivity.
  - intros b e [u|] r; simpl;
      [apply private_on; discriminate
      |apply private_frame; intros; repeat split].
  - intros b e [u|] r;
      [apply private_once; discriminate
      |apply private_frame; intros; repeat split].
  - apply private_off.
  - intros. apply private_frame. intros; repeat split.
  - intros. apply private_frame. intros; repeat split.
  - intros. apply private_frame. intros; repeat split.
  - intros b. apply private_upd_bus, tame_same. intros; repeat split.
  - intros b e. apply private_upd_bus, tame_same. intros; repeat split.
  - intros b l. apply private_upd_bus, tame_same. intros s.
    destruct (cleanupAll_frame l s) as (E1 & E2 & _ & _ & E3 & _).
    auto.
  - intros w j b e l (_ & _ & _ & H4) Hj Hl. subst l. exact (H4 j b e Hj).
  - intros w b e i f (_ & H2 & _) Hi Hf. subst f.
    unfold live_listeners in Hi.
    destruct (JsMap.get (events (the_bus b w)) e) as [l|] eqn:G;
      [|destruct i; discriminate].
    assert (Hb : nth_error (buses w) b = Some (the_bus b w)).
    { unfold the_bus in *. destruct (nth_error (buses w) b) as [s|] eqn:Eb.
      - f_equal. symmetry. apply nth_error_nth. exact Eb.
      - apply nth_error_None in Eb. rewrite nth_overflow in G by exact Eb.
        discriminate. }
    apply (H2 b _ e l Hb (get_in _ _ _ G)).
    apply in_elements. eapply nth_error_In. exact Hi.
  - intros w b key f (_ & _ & H3 & _) Hin Hf. subst f.
    unfold middlewares in Hin.
    destruct (JsMap.get (middleware (the_bus b w)) key) as [l|] eqn:G;
      [|destruct Hin].
    assert (Hb : nth_error (buses w) b = Some (the_bus b w)).
    { unfold the_bus in *. destruct (nth_error (buses w) b) as [s|] eqn:Eb.
      - f_equal. symmetry. apply nth_error_nth. exact Eb.
      - apply nth_error_None in Eb. rewrite nth_overflow in G by exact Eb.
        discriminate. }
    exact (H3 b _ key l Hb (get_in _ _ _ G) Hin).
Qed.

Lemma removeAll_maps (s : Bus) (e : option string) :
  events (removeAllListeners e s)
  = match truthy_event e with
    | Some ev => JsMap.delete (events s) ev
    | None => []
    end /\
  middleware (removeAllListeners e s) = middleware s.
Proof.
  unfold removeAllListeners. destruct (truthy_event e) as [ev|]; simpl.
  - set (s1 := match JsMap.get (events s) ev with
               | Some l => cleanupAll (JsSet.elements l) s
               | None => s
               end).
    assert (F1 : events s1 = events s /\ middleware s1 = middleware s).
    { unfold s1. destruct (JsMap.get (events s) ev) as [l|];
        [|split; reflexivity].
      destruct (cleanupAll_frame (JsSet.elements l) s)
        as (A & _ & _ & _ & B & _). split; assumption. }
    destruct (JsMap.get (onceEvents s1) ev) as [l2|].
    + destruct (cleanupAll_frame (JsSet.elements l2) s1)
        as (A & _ & _ & _ & B & _).
      destruct F1 as [F1 F2]. rewrite A, B, F1, F2. split; reflexivity.
    + destruct F1 as [F1 F2]. rewrite F1, F2. split; reflexivity.
  - split; [reflexivity|].
    destruct (cleanupAll_frame
                (all_listeners
                   (onceEvents (cleanupAll (all_listeners (events s)) s)))
                (cleanupAll (all_listeners (events s)) s))
      as (_ & _ & _ & _ & B & _).
    destruct (cleanupAll_frame (all_listeners (events s)) s)
      as (_ & _ & _ & _ & B0 & _).
    congruence.
Qed.

Lemma tame_removeAll e : tame (removeAllListeners e).
Proof.
  intros s. destruct (removeAll_maps s e) as [E1 E3].
  unfold bus_pending. rewrite E1, E3, removeAll_once.
  split; [|split; [eauto|]].
  - intros e0 l Hin Hk. destruct (truthy_event e); [|destruct Hin].
    apply in_delete in Hin. eauto.
  - destruct (truthy_event e); [apply (weight_delete k) | simpl; lia].
Qed.

Lemma tame_destroy : tame destroy.
Proof.
  intros s. split; [|split].
  - intros e l Hin. destruct Hin.
  - intros e l Hin. destruct Hin.
  - unfold bus_pending. simpl. lia.
Qed.

Lemma in_remove_first (m f : fid) (l : list fid) :
  In f (remove_first m l) -> In f l.
Proof.
  induction l as [|g l IH]; simpl; [tauto|].
  destruct (fid_eqb m g); simpl; intuition.
Qed.

Lemma tame_use e m : other k m -> tame (bus_use e m).
Proof.
  intros Hm s. split; [eauto|]. split; [|apply Nat.le_refl].
  intros e0 l Hin Hk. unfold bus_use in Hin. simpl in Hin.
  destruct (in_update _ _ _ _ _ Hin) as [H|(l0 & H & ->)].
  - destruct (JsMap.has (middleware s) e); [eauto|].
    apply in_set in H. destruct H as [H| ->]; [eauto | destruct Hk].
  - apply in_app_or in Hk. destruct Hk as [Hk|[Hk|[]]];
      [|contradiction].
    destruct (JsMap.has (middleware s) e); [eauto|].
    apply in_set in H. destruct H as [H| ->]; [eauto | destruct Hk].
Qed.

Lemma tame_unregister e m : tame (bus_unregister e m).
Proof.
  intros s. split; [eauto|]. split; [|apply Nat.le_refl].
  intros e0 l Hin Hk. unfold bus_unregister in Hin. simpl in Hin.
  destruct (in_update _ _ _ _ _ Hin) as [H|(l0 & H & ->)]; [eauto|].
  exists l0. split; [exact H|]. eapply in_remove_first. exact Hk.
Qed.

Lemma private_construct m h :
  step (private k) (settles k) (fun w => fst (construct m h w)).
Proof.
  intros w (H1 & H2 & H3 & H4).
  assert (New : forall b s, nth_error (buses w ++ [new_bus m h]) b = Some s ->
                            nth_error (buses w) b = Some s \/
                            s = new_bus m h).
  { intros b s Hb.
    destruct (Nat.lt_ge_cases b (List.length (buses w))) as [L|L].
    - rewrite nth_error_app1 in Hb by exact L. auto.
    - rewrite nth_error_app2 in Hb by exact L.
      destruct (b - List.length (buses w)) as [|j]; simpl in Hb.
      + inversion Hb. auto.
      + destruct j; discriminate. }
  split; [split; [|split; [|split]]|].
  - exact H1.
  - intros b s e l Hb Hin. simpl in Hb.
    destruct (New b s Hb) as [O| ->]; [exact (H2 b s e l O Hin)|].
    destruct m; destruct Hin.
  - intros b s e l Hb Hin. simpl in Hb.
    destruct (New b s Hb) as [O| ->]; [exact (H3 b s e l O Hin)|].
    destruct m; destruct Hin.
  - exact H4.
  - unfold settles, potential, pending. simpl.
    rewrite map_app, list_sum_app. simpl.
    change (calls k (set_buses (buses w ++ [new_bus m h]) w))
      with (calls k w).
    assert (bus_pending k (new_bus m h) = 0) as -> by (destruct m; reflexivity).
    lia.
Qed.

Lemma fresh_other (w : World) (n : nat) :
  private k w -> List.length (fns w) <= n -> other k (Internal n).
Proof. intros (H1 & _) Hn H. inversion H. lia. Qed.

Lemma private_stream b e :
  step (private k) (settles k) (fun w => fst (stream b e w)).
Proof.
  intros w Hw. unfold stream. cbn [fst].
  destruct (private_frame
              (fun w => set_cells (cells w ++ [mkStreamState None 0]) w)
              (fun _ => conj eq_refl (conj eq_refl eq_refl)) w Hw)
    as [I1 R1].
  destruct (private_grow (StreamListener (List.length (cells w)))
              (fun _ _ H => ltac:(discriminate H)) _ I1) as [I2 R2].
  destruct (private_on b e (Internal (List.length (fns w))) true
              (fresh_other w _ Hw (Nat.le_refl _)) _ I2) as [I3 R3].
  split; [exact I3|].
  exact (settles_trans _ _ _ R1 (settles_trans _ _ _ R2 R3)).
Qed.

Lemma private_pipe b e tb te :
  step (private k) (settles k) (fun w => fst (pipe b e tb te w)).
Proof.
  intros w Hw. unfold pipe. cbn [fst].
  destruct (private_grow
              (PipeListener tb (match te with Some e0 => e0 | None => e end))
              (fun _ _ H => ltac:(discriminate H)) _ Hw) as [I2 R2].
  destruct (private_on b e (Internal (List.length (fns w))) false
              (fresh_other w _ Hw (Nat.le_refl _)) _ I2) as [I3 R3].
  split; [exact I3 | exact (settles_trans _ _ _ R2 R3)].
Qed.

Lemma private_waitFor b e t :
  step (private k) (settles k) (fun w => fst (waitFor b e t w)).
Proof.
  intros w Hw. unfold waitFor. cbn [fst].
  destruct (private_frame
              (fun w => set_promises (promises w ++ [Pending]) w)
              (fun _ => conj eq_refl (conj eq_refl eq_refl)) w Hw)
    as [I1 R1].
  destruct (truthy_timeout t) as [ms|].
  - destruct (private_grow
                (WaitListener (Some (List.length (timers w)))
                   (List.length (promises w)))
                (fun _ _ H => ltac:(discriminate H)) _ I1) as [I2 R2].
    destruct (private_frame
                (fun w0 => set_timers
                   (timers w0
                    ++ [mkTimer b e (Internal (List.length (fns w)))
                          (List.length (promises w)) ms Armed]) w0)
                (fun _ => conj eq_refl (conj eq_refl eq_refl)) _ I2)
      as [I3 R3].
    destruct (private_once b e (Internal (List.length (fns w))) false
                (fresh_other w _ Hw (Nat.le_refl _)) _ I3) as [I4 R4].
    split; [exact I4|].
    exact (settles_trans _ _ _ R1
             (settles_trans _ _ _ R2 (settles_trans _ _ _ R3 R4))).
  - destruct (private_grow
                (WaitListener None (List.length (promises w)))
                (fun _ _ H => ltac:(discriminate H)) _ I1) as [I2 R2].
    destruct (private_once b e (Internal (List.length (fns w))) false
                (fresh_other w _ Hw (Nat.le_refl _)) _ I2) as [I4 R4].
    split; [exact I4|].
    exact (settles_trans _ _ _ R1 (settles_trans _ _ _ R2 R4)).
Qed.

Lemma private_timeout t : step (private k) (settles k) (fireTimer t).
Proof.
  intros w Hw. unfold fireTimer.
  destruct (nth_error (timers w) t) as [tm|];
    [|split; [exact Hw | apply Nat.le_refl]].
  destruct (t_state tm); try (split; [exact Hw | apply Nat.le_refl]).
  destruct (private_frame
              (fun w0 => set_timers
                 (update_nth t
                    (fun tm0 => mkTimer (t_bus tm0) (t_event tm0)
                                  (t_listener tm0) (t_promise tm0)
                                  (t_delay tm0) Fired) (timers w0)) w0)
              (fun _ => conj eq_refl (conj eq_refl eq_refl)) w Hw)
    as [I1 R1].
  destruct (private_off (t_bus tm) (t_event tm) (VFun (t_listener tm))
              _ I1) as [I2 R2].
  destruct (private_frame
              (settle (t_promise tm)
                 (Rejected
                    (JsError
                       ("Timeout waiting for event: " ++ t_event tm)%string)))
              (fun _ => conj eq_refl (conj eq_refl eq_refl)) _ I2)
    as [I3 R3].
  split; [exact I3|].
  exact (settles_trans _ _ _ R1 (settles_trans _ _ _ R2 R3)).
Qed.

Lemma private_public : public (private k) (settles k).
Proof.
  constructor.
  - apply private_construct.
  - intros b e [u|]; simpl;
      [apply private_upd_bus, tame_use; discriminate
      |apply private_frame; intros; repeat split].
  - intros b e m. apply private_upd_bus, tame_unregister.
  - intros b e. apply private_upd_bus, tame_removeAll.
  - intros b. apply private_upd_bus, tame_destroy.
  - apply private_stream.
  - apply private_waitFor.
  - apply private_pipe.
  - apply private_timeout.
Qed.

Section Drain.

Variable user : nat -> payload -> option string -> behaviour.
Variable emit_ : bid -> string -> payload -> M bool.
Hypothesis C : callable user (private k) (settles k) emit_.

(** A call of [k] itself adds one to its count of calls, and no more. *)
Lemma private_invoke_self (d : nat) (x : payload) (ev : option string)
    (w w' : World) (c : completion jsret) :
  private k w ->
  invoke user emit_ d (Internal k) x ev w = Some (w', c) ->
  private k w' /\ potential k w' <= potential k w + 1.
Proof.
  intros Hw H. destruct d as [|d]; [discriminate|].
  destruct (nth_error (fns w) k) as [cl|] eqn:Ek.
  - rewrite (invoke_S_internal user emit_ d k cl x ev w Ek) in H.
    set (w0 := log (Invoked (Internal k) x ev) w) in H.
    assert (I0 : private k w0) by exact Hw.
    assert (P0 : potential k w0 = potential k w + 1).
    { unfold potential, w0. rewrite calls_log. simpl.
      rewrite Nat.eqb_refl.
      change (pending k (log ?e ?w1)) with (pending k w1). lia. }
    assert (S : sound (private k) (settles k)
                  (run_closure emit_
                     (fun g => invoke user emit_ d g x None)
                     (Internal k) cl x)).
    { apply (run_closure_sound _ _ _ (private_elementary)).
      - exact (closure_okay _ _ _ _ C w k cl Hw Ek).
      - intros b e l ->.
        apply (invoke_sound user (private_elementary) emit_ C).
        destruct Hw as (_ & _ & _ & H4). intros ->.
        exact (H4 k b e Ek). }
    destruct (S _ _ _ I0 H) as [I1 R1]. split; [exact I1|].
    unfold settles in R1. lia.
  - simpl in H. rewrite Ek in H. inversion H; subst.
    split; [exact Hw | lia].
Qed.

Lemma skipn_nth {A : Type} (i : nat) (l : list A) (a : A) :
  nth_error l i = Some a -> skipn i l = a :: skipn (S i) l.
Proof.
  revert l. induction i as [|i IH]; intros [|b l]; simpl;
    try discriminate.
  - intros H. inversion H. reflexivity.
  - intros H. rewrite (IH l H). destruct l; reflexivity.
Qed.

(** The walk over a private copy calls [k] as often as the copy
    holds it. *)
Lemma private_walk (steps : nat) (b : bid) (ls : JsSet.t) (i : nat)
    (x : payload) (e : string) (w w' : World) (c : completion unit) :
  private k w ->
  callListeners user emit_ steps b (fun _ => ls) i x e w = Some (w', c) ->
  private k w' /\
  potential k w' <= potential k w + occurrences k (skipn i ls).
Proof.
  revert i w. induction steps as [|n IH]; intros i w Hw H.
  - simpl in H. destruct (nth_error ls i); [discriminate|].
    inversion H; subst. split; [exact Hw | lia].
  - rewrite callListeners_S in H. cbv beta in H.
    destruct (nth_error ls i) as [[f|]|] eqn:En.
    + rewrite (skipn_nth _ _ _ En).
      assert (Hcall : forall w1 r,
                 invoke user emit_ n f x None w = Some (w1, r) ->
                 private k w1 /\
                 potential k w1
                 <= potential k w
                    + (occurrences k (Some f :: skipn (S i) ls)
                       - occurrences k (skipn (S i) ls))).
      { intros w1 r Hi. unfold occurrences. cbn [JsSet.elements filter].
        destruct (fid_eqb (Internal k) f) eqn:Ef.
        - apply fid_eqb_eq in Ef. subst f.
          destruct (private_invoke_self _ _ _ _ _ _ Hw Hi) as [I1 P1].
          split; [exact I1|]. cbn [List.length]. lia.
        - apply fid_eqb_neq in Ef.
          assert (Hf : other k f) by (intros ->; apply Ef; reflexivity).
          destruct (invoke_sound user (private_elementary) emit_ C
                      n f x None Hf _ _ _ Hw Hi) as [I1 R1].
          split; [exact I1|]. unfold settles in R1. lia. }
      assert (Hmono : occurrences k (skipn (S i) ls)
                      <= occurrences k (Some f :: skipn (S i) ls)).
      { unfold occurrences. cbn [JsSet.elements filter].
        destruct (fid_eqb (Internal k) f); simpl; lia. }
      destruct (invoke user emit_ n f x None w) as [[w1 [r|t]]|] eqn:Ei;
        [| |discriminate];
        destruct (Hcall _ _ eq_refl) as [I1 P1].
      * destruct (IH _ _ I1 H) as [I2 P2]. split; [exact I2 | lia].
      * unfold bind in H.
        destruct (recover emit_ b e f t w1) as [[w2 [u|t2]]|] eqn:Er;
          [| |discriminate];
          destruct (recover_sound user (private_elementary) emit_ C
                      b e f t _ _ _ I1 Er) as [I2 R2];
          unfold settles in R2.
        -- destruct (IH _ _ I2 H) as [I3 P3]. split; [exact I3 | lia].
        -- inversion H; subst. split; [exact I2 | lia].
    + rewrite (skipn_nth _ _ _ En).
      destruct (IH _ _ Hw H) as [I2 P2]. split; [exact I2|].
      unfold occurrences in *. cbn [JsSet.elements]. exact P2.
    + inversion H; subst. split; [exact Hw | lia].
Qed.

End Drain.

Lemma private_drain user (emit_ : bid -> string -> payload -> M bool) :
  (forall b e x, sound (private k) (settles k) (emit_ b e x)) ->
  forall n b e x,
    sound (private k) (settles k) (drain_once user emit_ n b e x).
Proof.
  intros He n b e x w w' c Hw H.
  pose proof (private_elementary) as E.
  pose proof (callable_of_sound user (private k) (settles k) emit_ He) as C.
  unfold drain_once in H.
  destruct (JsMap.get (onceEvents (the_bus b w)) e) as [l|] eqn:G;
    [|exact (sound_ret E false _ _ _ Hw H)].
  destruct (Nat.ltb 0 (JsSet.size l));
    [|exact (sound_ret E false _ _ _ Hw H)].
  rewrite bind_modify in H.
  set (wc := upd_bus b (clear_once e) w) in H.
  destruct (private_upd_bus b (clear_once e) (tame_clear_once e) w Hw)
    as [Ic _]. fold wc in Ic.
  assert (Pc : potential k wc + occurrences k l = potential k w).
  { unfold potential.
    change (calls k wc) with (calls k w).
    pose proof (pending_upd_at k b (clear_once e) w (the_bus b w)
                  (occurrences k l) (the_bus_nth b w e l G)
                  (weight_clear k _ e l G)) as Hp.
    fold wc in Hp. lia. }
  unfold bind at 1 in H.
  destruct (callListeners user emit_ n b (fun _ => JsSet.copy l) 0 x e wc)
    as [[w1 [u|t]]|] eqn:Ew; [| |discriminate];
    destruct (private_walk user emit_ C _ _ _ _ _ _ _ _ _ Ic Ew) as [I1 P1];
    assert (Oc : occurrences k (skipn 0 (JsSet.copy l)) = occurrences k l)
      by (unfold occurrences; simpl; rewrite elements_copy; reflexivity);
    rewrite Oc in P1.
  - assert (T : sound (private k) (settles k)
                  (modify (upd_bus b
                             (cleanupAll (JsSet.elements (JsSet.copy l))))
                   ;;; ret true)).
    { apply (sound_bind E);
        [apply sound_modify, (cleanup_step _ _ _ E)|].
      intros; apply (sound_ret E). }
    destruct (T _ _ _ I1 H) as [I2 R2]. split; [exact I2|].
    unfold settles in *. lia.
  - inversion H; subst. split; [exact I1|]. unfold settles. lia.
Qed.

Lemma private_run user fuel session (w w' : World) rs :
  private k w -> run user fuel session w = Some (w', rs) ->
  potential k w' <= potential k w.
Proof.
  intros Hw H.
  exact (proj2 (run_sound user (private k) (settles k) (other k)
                  private_elementary (private_drain user) private_public
                  fuel session w w' rs Hw H)).
Qed.

(** *** Function objects that do not exist yet

    As long as the heap has not reached [k], nothing refers to [k]: ids are
    handed out in order, and a function is stored or called only once it
    exists. *)

Definition vacant (w : World) : Prop :=
  List.length (fns w) <= k -> unreferenced k w.

Lemma unreferenced_upd_bus (b : bid) (g : Bus -> Bus) (w : World) :
  tame g -> unreferenced k w -> unreferenced k (upd_bus b g w).
Proof.
  intros Hg (H2 & H3 & H4 & Hp & Hc).
  refine (conj _ (conj _ (conj H4 (conj _ Hc)))).
  - intros b' s' e l Hb Hin Hk. simpl in Hb.
    rewrite nth_error_update_nth in Hb.
    destruct (Nat.eqb b b'); [|exact (H2 b' s' e l Hb Hin Hk)].
    destruct (nth_error (buses w) b') as [s0|] eqn:E0; [|discriminate].
    inversion Hb; subst s'.
    destruct (Hg s0) as (G1 & _ & _).
    destruct (G1 e l Hin Hk) as (l0 & Hin0 & Hk0).
    exact (H2 b' s0 e l0 E0 Hin0 Hk0).
  - intros b' s' e l Hb Hin Hk. simpl in Hb.
    rewrite nth_error_update_nth in Hb.
    destruct (Nat.eqb b b'); [|exact (H3 b' s' e l Hb Hin Hk)].
    destruct (nth_error (buses w) b') as [s0|] eqn:E0; [|discriminate].
    inversion Hb; subst s'.
    destruct (Hg s0) as (_ & G2 & _).
    destruct (G2 e l Hin Hk) as (l0 & Hin0 & Hk0).
    exact (H3 b' s0 e l0 E0 Hin0 Hk0).
  - assert (pending k (upd_bus b g w) <= pending k w).
    { apply pending_upd_le. intros s. apply Hg. }
    lia.
Qed.

Lemma unreferenced_frame (w w' : World) :
  buses w' = buses w -> fns w' = fns w -> trace w' = trace w ->
  unreferenced k w -> unreferenced k w'.
Proof.
  intros Eb Ef Et. unfold unreferenced, pending, calls.
  rewrite Eb, Ef, Et. exact (fun H => H).
Qed.

Lemma unreferenced_log (e : entry) (w : World) :
  is_call k e = false -> unreferenced k w -> unreferenced k (log e w).
Proof.
  intros He (H2 & H3 & H4 & Hp & Hc).
  refine (conj H2 (conj H3 (conj H4 (conj Hp _)))).
  rewrite calls_log, He. lia.
Qed.

Lemma unreferenced_grow (c : closure) (w : World) :
  (forall b e, c <> OnceWrapper b e (Internal k)) ->
  unreferenced k w -> unreferenced k (set_fns (fns w ++ [c]) w).
Proof.
  intros Hc (H2 & H3 & H4 & Hp & Hcl).
  refine (conj H2 (conj H3 (conj _ (conj Hp Hcl)))).
  intros j b e Hj. simpl in Hj.
  destruct (Nat.lt_ge_cases j (List.length (fns w))) as [L|L].
  - rewrite nth_error_app1 in Hj by exact L. exact (H4 j b e Hj).
  - rewrite nth_error_app2 in Hj by exact L.
    destruct (j - List.length (fns w)) as [|i]; simpl in Hj.
    + inversion Hj. exact (Hc b e H0).
    + destruct i; discriminate.
Qed.

Lemma unreferenced_on b e f r (w : World) :
  other k f -> unreferenced k w ->
  unreferenced k (fst (on b e (VFun f) r w)).
Proof. intros Hf. apply unreferenced_upd_bus, tame_on, Hf. Qed.

Lemma unreferenced_once b e f r (w : World) :
  other k f -> List.length (fns w) <> k -> unreferenced k w ->
  unreferenced k (fst (once b e (VFun f) r w)).
Proof.
  intros Hf Hn Hw. simpl.
  apply unreferenced_upd_bus.
  - apply tame_once. intros H. inversion H. contradiction.
  - apply unreferenced_grow; [|exact Hw].
    intros b0 e0 H. inversion H. contradiction.
Qed.

Lemma unreferenced_off b e v (w : World) :
  unreferenced k w -> unreferenced k (off b e v w).
Proof.
  destruct v as [f|]; simpl; apply unreferenced_upd_bus;
    [apply tame_off | apply tame_same; intros; repeat split].
Qed.

Lemma unreferenced_construct m h (w : World) :
  unreferenced k w -> unreferenced k (fst (construct m h w)).
Proof.
  intros (H2 & H3 & H4 & Hp & Hc).
  assert (New : forall b s, nth_error (buses w ++ [new_bus m h]) b = Some s ->
                            nth_error (buses w) b = Some s \/
                            s = new_bus m h).
  { intros b s Hb.
    destruct (Nat.lt_ge_cases b (List.length (buses w))) as [L|L].
    - rewrite nth_error_app1 in Hb by exact L. auto.
    - rewrite nth_error_app2 in Hb by exact L.
      destruct (b - List.length (buses w)) as [|j]; simpl in Hb.
      + inversion Hb. auto.
      + destruct j; discriminate. }
  refine (conj _ (conj _ (conj H4 (conj _ Hc)))).
  - intros b s e l Hb Hin. simpl in Hb.
    destruct (New b s Hb) as [O| ->]; [exact (H2 b s e l O Hin)|].
    destruct m; destruct Hin.
  - intros b s e l Hb Hin. simpl in Hb.
    destruct (New b s Hb) as [O| ->]; [exact (H3 b s e l O Hin)|].
    destruct m; destruct Hin.
  - unfold pending in *. simpl. rewrite map_app, list_sum_app. simpl.
    assert (bus_pending k (new_bus m h) = 0) as -> by (destruct m; reflexivity).
    lia.
Qed.

(** A step that only lets the heap grow keeps [vacant] when it keeps
    [unreferenced] below [k]. *)
Lemma vacant_step (f : World -> World) :
  (forall w, List.length (fns w) <= List.length (fns (f w))) ->
  (forall w, List.length (fns (f w)) <= k -> unreferenced k w ->
             unreferenced k (f w)) ->
  step vacant whatever f.
Proof.
  intros Hg Hf w Hw. split; [|exact Logic.I]. intros L.
  apply Hf; [exact L|]. apply Hw. specialize (Hg w). lia.
Qed.

Lemma vacant_upd_bus (b : bid) (g : Bus -> Bus) :
  tame g -> step vacant whatever (upd_bus b g).
Proof.
  intros Hg. apply vacant_step; [intros w; apply Nat.le_refl|].
  intros w _. apply unreferenced_upd_bus, Hg.
Qed.

Lemma vacant_frame (f : World -> World) :
  (forall w, buses (f w) = buses w /\ fns (f w) = fns w /\
             trace (f w) = trace w) ->
  step vacant whatever f.
Proof.
  intros Hf. apply vacant_step.
  - intros w. destruct (Hf w) as (_ & -> & _). apply Nat.le_refl.
  - intros w _. destruct (Hf w) as (Eb & Ef & Et).
    apply unreferenced_frame; assumption.
Qed.

Lemma vacant_on b e v r :
  step vacant whatever (fun w => fst (on b e (value_of v) r w)).
Proof.
  apply vacant_step; [intros w; destruct v; apply Nat.le_refl|].
  intros w _ Hw. destruct v as [u|]; [|exact Hw].
  apply unreferenced_on; [discriminate | exact Hw].
Qed.

Lemma vacant_once b e v r :
  step vacant whatever (fun w => fst (once b e (value_of v) r w)).
Proof.
  apply vacant_step.
  - intros w. destruct v; simpl; [rewrite length_app; lia | lia].
  - intros w L Hw. destruct v as [u|]; [|exact Hw].
    apply unreferenced_once; [discriminate | | exact Hw].
    simpl in L. rewrite length_app in L. simpl in L. lia.
Qed.

Lemma vacant_off b e v : step vacant whatever (off b e v).
Proof.
  apply vacant_step; [intros w; destruct v; apply Nat.le_refl|].
  intros w _. apply unreferenced_off.
Qed.

Lemma vacant_elementary : elementary vacant whatever anyone.
Proof.
  constructor; try (intros; exact Logic.I).
  - intros f x ev w _ A Hw. split; [|exact Logic.I]. intros L.
    apply unreferenced_log; [|exact (Hw L)].
    destruct f as [u|j]; [reflexivity|]. simpl. apply Nat.eqb_neq.
    intros ->. specialize (A j eq_refl). simpl in L. lia.
  - intros err e l. apply vacant_step; [intros w; apply Nat.le_refl|].
    intros w _. apply unreferenced_log. reflexivity.
  - intros msg err. apply vacant_step; [intros w; apply Nat.le_refl|].
    intros w _. apply unreferenced_log. reflexivity.
  - apply vacant_on.
  - apply vacant_once.
  - apply vacant_off.
  - intros c x. apply vacant_frame. intros w; repeat split.
  - intros t. apply vacant_frame. intros w; repeat split.
  - intros p x. apply vacant_frame. intros w; repeat split.
  - intros b. apply vacant_upd_bus, tame_same. intros; repeat split.
  - intros b e. apply vacant_upd_bus, tame_same. intros; repeat split.
  - intros b l. apply vacant_upd_bus, tame_same. intros s.
    destruct (cleanupAll_frame l s) as (E1 & E2 & _ & _ & E3 & _).
    auto.
Qed.

Lemma vacant_stream b e :
  step vacant whatever (fun w => fst (stream b e w)).
Proof.
  apply vacant_step.
  - intros w. simpl. rewrite length_app. lia.
  - intros w L Hw. simpl in L. rewrite length_app in L. simpl in L.
    unfold stream. cbn [fst].
    apply unreferenced_on; [intros H; inversion H; simpl in *; lia|].
    apply unreferenced_grow; [intros b0 e0 H; discriminate H|].
    revert Hw. apply unreferenced_frame; reflexivity.
Qed.

Lemma vacant_pipe b e tb te :
  step vacant whatever (fun w => fst (pipe b e tb te w)).
Proof.
  apply vacant_step.
  - intros w. simpl. rewrite length_app. lia.
  - intros w L Hw. simpl in L. rewrite length_app in L. simpl in L.
    unfold pipe. cbn [fst].
    apply unreferenced_on; [intros H; inversion H; lia|].
    apply unreferenced_grow; [intros b0 e0 H; discriminate H | exact Hw].
Qed.

Lemma vacant_waitFor b e t :
  step vacant whatever (fun w => fst (waitFor b e t w)).
Proof.
  apply vacant_step.
  - intros w. unfold waitFor. destruct (truthy_timeout t); simpl;
      rewrite !length_app; simpl; lia.
  - intros w L Hw. unfold waitFor in *. cbn [fst] in *.
    assert (W1 : unreferenced k (set_promises (promises w ++ [Pending]) w))
      by (revert Hw; apply unreferenced_frame; reflexivity).
    destruct (truthy_timeout t) as [ms|]; simpl in L;
      rewrite !length_app in L; simpl in L.
    + apply unreferenced_once;
        [intros H; inversion H; simpl in *; lia
        |simpl; rewrite length_app; simpl; lia|].
      match goal with
      | |- unreferenced k (set_timers ?ts ?w2) =>
          apply (unreferenced_frame w2); try reflexivity
      end.
      apply unreferenced_grow; [intros b0 e0 H; discriminate H | exact W1].
    + apply unreferenced_once;
        [intros H; inversion H; simpl in *; lia
        |simpl; rewrite length_app; simpl; lia|].
      apply unreferenced_grow; [intros b0 e0 H; discriminate H | exact W1].
Qed.

Lemma vacant_timeout t : step vacant whatever (fireTimer t).
Proof.
  apply vacant_step.
  - intros w. unfold fireTimer.
    destruct (nth_error (timers w) t) as [tm|]; [|apply Nat.le_refl].
    destruct (t_state tm); try apply Nat.le_refl.
  - intros w _ Hw. unfold fireTimer.
    destruct (nth_error (timers w) t) as [tm|]; [|exact Hw].
    destruct (t_state tm); try exact Hw.
    match goal with
    | |- unreferenced k (settle ?p ?v ?w2) =>
        apply (unreferenced_frame w2); try reflexivity
    end.
    apply unreferenced_off.
    revert Hw. apply unreferenced_frame; reflexivity.
Qed.

Lemma vacant_public : public vacant whatever.
Proof.
  constructor.
  - intros m h. apply vacant_step; [intros w; apply Nat.le_refl|].
    intros w _. apply unreferenced_construct.
  - intros b e [u|]; simpl;
      [apply vacant_upd_bus, tame_use; discriminate
      |apply vacant_frame; intros; repeat split].
  - intros b e m. apply vacant_upd_bus, tame_unregister.
  - intros b e. apply vacant_upd_bus, tame_removeAll.
  - intros b. apply vacant_upd_bus, tame_destroy.
  - apply vacant_stream.
  - apply vacant_waitFor.
  - apply vacant_pipe.
  - apply vacant_timeout.
Qed.

Lemma vacant_drain user (emit_ : bid -> string -> payload -> M bool) :
  (forall b e x, sound vacant whatever (emit_ b e x)) ->
  forall n b e x,
    sound vacant whatever (drain_once user emit_ n b e x).
Proof.
  intros He n b e x.
  apply (drain_once_sound_plain user vacant whatever anyone
           vacant_elementary emit_
           (callable_of_sound user vacant whatever emit_ He)).
  - intros b0 e0. apply vacant_upd_bus, tame_clear_once.
  - intros; exact Logic.I.
Qed.

Lemma vacant_start : vacant start.
Proof.
  intros _. refine (conj _ (conj _ (conj _ (conj eq_refl eq_refl)))).
  - intros [|b] s e l Hb; discriminate Hb.
  - intros [|b] s e l Hb; discriminate Hb.
  - intros [|j] b e H; discriminate H.
Qed.

Lemma vacant_run user fuel session (w w' : World) rs :
  vacant w -> run user fuel session w = Some (w', rs) -> vacant w'.
Proof.
  intros Hw H.
  exact (proj1 (run_sound user vacant whatever anyone
                  vacant_elementary (vacant_drain user) vacant_public
                  fuel session w w' rs Hw H)).
Qed.

End Private.

(** ** What the drain calls *)

Definition emits (a : action) : bool :=
  match a with
  | AEmit _ _ _ => true
  | _ => false
  end.

Definition never_emits (user : nat -> payload -> option string -> behaviour)
  : Prop :=
  forall u x ev a, In a (acts (user u x ev)) -> emits a = false.

Section Old.

(** The function objects that exist when the drain starts. *)
Variable N : nat.

Definition old (f : fid) : Prop :=
  match f with
  | User _ => True
  | Internal j => j < N
  end.

Definition old_entry (e : entry) : Prop :=
  match e with
  | Invoked f _ _ => old f
  | _ => True
  end.

(** Persistent sets, middleware lists and wrappers hold old functions
    only, no pipe is installed and no handler emits. *)
Definition settled_heap (w : World) : Prop :=
  (forall b s e l f, nth_error (buses w) b = Some s ->
                     In (e, l) (events s) -> In f (JsSet.elements l) ->
                     old f) /\
  (forall b s e l f, nth_error (buses w) b = Some s ->
                     In (e, l) (middleware s) -> In f l -> old f) /\
  (forall j b e l, nth_error (fns w) j = Some (OnceWrapper b e l) -> old l) /\
  (forall j tb te, nth_error (fns w) j <> Some (PipeListener tb te)) /\
  (forall b s h err e l a, nth_error (buses w) b = Some s ->
                           errorHandler s = Some h ->
                           In a (acts (h err e l)) -> emits a = false).

Definition only_old (w w' : World) : Prop :=
  exists es, trace w' = trace w ++ es /\ Forall old_entry es.

Lemma only_old_refl (w : World) : only_old w w.
Proof. exists []. rewrite app_nil_r. split; [reflexivity | constructor]. Qed.

Lemma only_old_trans (a b c : World) :
  only_old a b -> only_old b c -> only_old a c.
Proof.
  intros (es1 & E1 & F1) (es2 & E2 & F2). exists (es1 ++ es2).
  rewrite E2, E1, app_assoc. split; [reflexivity|].
  apply Forall_app. split; assumption.
Qed.

Lemma settled_upd_bus (b : bid) (g : Bus -> Bus) :
  (forall s, errorHandler (g s) = errorHandler s /\
             (forall e l f, In (e, l) (events (g s)) ->
                            In f (JsSet.elements l) ->
                            old f \/
                            exists l0, In (e, l0) (events s) /\
                                       In f (JsSet.elements l0)) /\
             (forall e l f, In (e, l) (middleware (g s)) -> In f l ->
                            exists l0, In (e, l0) (middleware s) /\
                                       In f l0)) ->
  step settled_heap only_old (upd_bus b g).
Proof.
  intros Hg w (H1 & H2 & H3 & H4 & H5).
  split; [|exists []; simpl; rewrite app_nil_r; split;
           [reflexivity | constructor]].
  assert (Nth : forall b' s', nth_error (update_nth b g (buses w)) b'
                              = Some s' ->
                              nth_error (buses w) b' = Some s' \/
                              exists s0, nth_error (buses w) b' = Some s0 /\
                                         s' = g s0).
  { intros b' s' Hb. rewrite nth_error_update_nth in Hb.
    destruct (Nat.eqb b b'); [|auto].
    destruct (nth_error (buses w) b') as [s0|]; [|discriminate].
    inversion Hb. eauto. }
  split; [|split; [|split; [|split]]].
  - intros b' s' e l f Hb Hin Hf. simpl in Hb.
    destruct (Nth b' s' Hb) as [O|(s0 & O & ->)]; [eauto|].
    destruct (Hg s0) as (_ & G1 & _).
    destruct (G1 e l f Hin Hf) as [?|(l0 & ? & ?)]; eauto.
  - intros b' s' e l f Hb Hin Hf. simpl in Hb.
    destruct (Nth b' s' Hb) as [O|(s0 & O & ->)]; [eauto|].
    destruct (Hg s0) as (_ & _ & G2).
    destruct (G2 e l f Hin Hf) as (l0 & ? & ?); eauto.
  - exact H3.
  - exact H4.
  - intros b' s' h err e l a Hb Hh. simpl in Hb.
    destruct (Nth b' s' Hb) as [O|(s0 & O & ->)]; [eauto|].
    destruct (Hg s0) as (G0 & _ & _). rewrite G0 in Hh. eauto.
Qed.

Lemma settled_same (b : bid) (g : Bus -> Bus) :
  (forall s, errorHandler (g s) = errorHandler s /\
             events (g s) = events s /\ middleware (g s) = middleware s) ->
  step settled_heap only_old (upd_bus b g).
Proof.
  intros Hg. apply settled_upd_bus. intros s.
  destruct (Hg s) as (E0 & E1 & E2). rewrite E1, E2. split; [exact E0|].
  split; intros; eauto.
Qed.

Lemma settled_frame (f : World -> World) :
  (forall w, buses (f w) = buses w /\ fns (f w) = fns w /\
             trace (f w) = trace w) ->
  step settled_heap only_old f.
Proof.
  intros Hf w Hw. destruct (Hf w) as (Eb & Ef & Et).
  unfold settled_heap, only_old. rewrite Eb, Ef, Et.
  split; [exact Hw|]. exists []. rewrite app_nil_r.
  split; [reflexivity | constructor].
Qed.

Lemma settled_log (e : entry) :
  old_entry e -> step settled_heap only_old (log e).
Proof.
  intros He w Hw. split; [exact Hw|]. exists [e].
  split; [reflexivity | constructor; [exact He | constructor]].
Qed.

Lemma settled_on b e u r :
  step settled_heap only_old (fun w => fst (on b e (VFun (User u)) r w)).
Proof.
  apply settled_upd_bus. intros s.
  assert (E1 : events (bus_on e (User u) r s)
               = add_listener (events s) e (User u)
               /\ middleware (bus_on e (User u) r s) = middleware s
               /\ errorHandler (bus_on e (User u) r s) = errorHandler s).
  { unfold bus_on. destruct r; unfold setupReactiveEffect;
      try destruct (existsb _ _); repeat split. }
  destruct E1 as (E1 & E2 & E0). rewrite E1, E2. split; [exact E0|].
  split; [|eauto].
  intros e0 l f Hin Hf.
  destruct (in_add_listener _ _ _ _ _ _ Hin Hf) as [[-> _]|H];
    [left; exact Logic.I | right; exact H].
Qed.

Lemma settled_once b e u r :
  step settled_heap only_old (fun w => fst (once b e (VFun (User u)) r w)).
Proof.
  intros w Hw. simpl.
  assert (G : settled_heap (set_fns (fns w ++ [OnceWrapper b e (User u)]) w)).
  { destruct Hw as (H1 & H2 & H3 & H4 & H5).
    assert (Nth : forall j c,
               nth_error (fns w ++ [OnceWrapper b e (User u)]) j = Some c ->
               nth_error (fns w) j = Some c \/
               c = OnceWrapper b e (User u)).
    { intros j c Hj.
      destruct (Nat.lt_ge_cases j (List.length (fns w))) as [L|L].
      - rewrite nth_error_app1 in Hj by exact L. auto.
      - rewrite nth_error_app2 in Hj by exact L.
        destruct (j - List.length (fns w)) as [|i]; simpl in Hj.
        + inversion Hj. auto.
        + destruct i; discriminate. }
    split; [exact H1|]. split; [exact H2|]. split; [|split; [|exact H5]].
    - intros j b0 e0 l Hj. simpl in Hj.
      destruct (Nth _ _ Hj) as [O|O]; [eauto|].
      inversion O. exact Logic.I.
    - intros j tb te Hj. simpl in Hj.
      destruct (Nth _ _ Hj) as [O|O]; [exact (H4 _ _ _ O) | discriminate]. }
  refine (settled_same b
            (bus_once e (Internal (List.length (fns w))) r) _ _ G).
  intros s. unfold bus_once. destruct r; unfold setupReactiveEffect;
    try destruct (existsb _ _); repeat split.
Qed.

Lemma settled_off b e v : step settled_heap only_old (off b e v).
Proof.
  destruct v as [f|]; simpl;
    [|apply settled_same; intros; repeat split].
  apply settled_upd_bus. intros s. split; [reflexivity|]. split.
  - intros e0 l g Hin Hg. right. unfold bus_off in Hin. simpl in Hin.
    destruct (in_update _ _ _ _ _ Hin) as [H|(l0 & H & ->)]; [eauto|].
    exists l0. split; [exact H|]. eapply elements_delete. exact Hg.
  - intros e0 l g Hin Hg. eauto.
Qed.

Lemma settled_elementary : elementary settled_heap only_old old.
Proof.
  constructor.
  - apply only_old_refl.
  - apply only_old_trans.
  - intros u. exact Logic.I.
  - intros f x ev w Hf _. revert w. apply settled_log. exact Hf.
  - intros. apply settled_log. exact Logic.I.
  - intros. apply settled_log. exact Logic.I.
  - intros b e [u|] r; simpl;
      [apply settled_on | apply settled_frame; intros; repeat split].
  - intros b e [u|] r;
      [apply settled_once | apply settled_frame; intros; repeat split].
  - apply settled_off.
  - intros. apply settled_frame. intros; repeat split.
  - intros. apply settled_frame. intros; repeat split.
  - intros. apply settled_frame. intros; repeat split.
  - intros b. apply settled_same. intros; repeat split.
  - intros b e. apply settled_same. intros; repeat split.
  - intros b l. apply settled_same. intros s.
    destruct (cleanupAll_frame l s) as (E1 & _ & _ & _ & E3 & E0). auto.
  - intros w j b e l (_ & _ & H3 & _) Hj. exact (H3 j b e l Hj).
  - intros w b e i f (H1 & _) Hi.
    unfold live_listeners in Hi.
    destruct (JsMap.get (events (the_bus b w)) e) as [l|] eqn:G;
      [|destruct i; discriminate].
    assert (Hb : nth_error (buses w) b = Some (the_bus b w)).
    { unfold the_bus in *. destruct (nth_error (buses w) b) as [s|] eqn:Eb.
      - f_equal. symmetry. apply nth_error_nth. exact Eb.
      - apply nth_error_None in Eb. rewrite nth_overflow in G by exact Eb.
        discriminate. }
    apply (H1 b _ e l f Hb (get_in _ _ _ G)).
    apply in_elements. eapply nth_error_In. exact Hi.
  - intros w b key f (_ & H2 & _) Hin.
    unfold middlewares in Hin.
    destruct (JsMap.get (middleware (the_bus b w)) key) as [l|] eqn:G;
      [|destruct Hin].
    assert (Hb : nth_error (buses w) b = Some (the_bus b w)).
    { unfold the_bus in *. destruct (nth_error (buses w) b) as [s|] eqn:Eb.
      - f_equal. symmetry. apply nth_error_nth. exact Eb.
      - apply nth_error_None in Eb. rewrite nth_overflow in G by exact Eb.
        discriminate. }
    exact (H2 b _ key l f Hb (get_in _ _ _ G) Hin).
Qed.

(** Under [settled_heap] no nested emission can start, whatever [emit]
    would do. *)
Lemma settled_callable user
    (emit_ : bid -> string -> payload -> M bool) :
  never_emits user -> callable user settled_heap only_old emit_.
Proof.
  intros Hu. constructor.
  - intros u x ev. apply Forall_forall. intros a Ha.
    specialize (Hu u x ev a Ha). destruct a; try exact Logic.I.
    discriminate.
  - intros w b h err e l (_ & _ & _ & _ & H5) Hh. apply Forall_forall.
    intros a Ha.
    assert (Hb : nth_error (buses w) b = Some (the_bus b w)).
    { unfold the_bus in *. destruct (nth_error (buses w) b) as [s|] eqn:Eb.
      - f_equal. symmetry. apply nth_error_nth. exact Eb.
      - apply nth_error_None in Eb. rewrite nth_overflow in Hh by exact Eb.
        discriminate. }
    specialize (H5 b _ h err e l a Hb Hh Ha).
    destruct a; try exact Logic.I. discriminate.
  - intros w j c (_ & _ & _ & H4 & _) Hj. destruct c; try exact Logic.I.
    exfalso. exact (H4 j _ _ Hj).
Qed.

End Old.

Lemma occurrences_add_le (k : nat) (l : JsSet.t) (f : fid) :
  occurrences k (JsSet.add l f) <= occurrences k l + 1.
Proof.
  unfold occurrences, JsSet.add. destruct (JsSet.has l f); [lia|].
  rewrite elements_app, filter_app, length_app.
  cbn [JsSet.elements filter]. destruct (fid_eqb (Internal k) f); simpl; lia.
Qed.

Lemma weight_add_listener_le (k : nat) (m : JsMap.t JsSet.t) (e : string)
    (f : fid) :
  weight k (add_listener m e f) <= weight k m + 1.
Proof.
  unfold add_listener.
  assert (U : forall m1 : JsMap.t JsSet.t,
             weight k (JsMap.update m1 e (fun s => JsSet.add s f))
             <= weight k m1 + 1).
  { intros m1. unfold weight. induction m1 as [|[e' l] m1 IH]; simpl; [lia|].
    destruct (String.eqb e e'); simpl;
      [pose proof (occurrences_add_le k l f); lia | lia]. }
  destruct (JsMap.has m e) eqn:H; [apply U|].
  rewrite <- (weight_set_fresh k m e H). apply U.
Qed.

Lemma pending_upd_le1 (k : nat) (b : bid) (g : Bus -> Bus) (w : World) :
  (forall s, bus_pending k (g s) <= bus_pending k s + 1) ->
  pending k (upd_bus b g w) <= pending k w + 1.
Proof.
  intros Hg. unfold pending. simpl. revert b.
  induction (buses w) as [|s l IH]; intros [|b]; simpl; try lia.
  - specialize (Hg s). lia.
  - specialize (IH b). lia.
Qed.

Lemma once_makes_private (k : nat) b event u reactive (w : World) :
  k = List.length (fns w) -> unreferenced k w ->
  private k (fst (once b event (VFun (User u)) reactive w)) /\
  potential k (fst (once b event (VFun (User u)) reactive w)) <= 1.
Proof.
  intros Ek (U2 & U3 & U4 & Up & Uc). simpl. split.
  - split; [|split; [|split]].
    + simpl. rewrite length_app. simpl. lia.
    + intros b' s' e l Hb Hin. simpl in Hb.
      rewrite nth_error_update_nth in Hb.
      destruct (Nat.eqb b b'); [|exact (U2 b' s' e l Hb Hin)].
      destruct (nth_error (buses w) b') as [s0|] eqn:E0; [|discriminate].
      inversion Hb; subst s'. apply (U2 b' s0 e l E0).
      revert Hin. unfold bus_once. destruct reactive;
        unfold setupReactiveEffect; try destruct (existsb _ _); exact (fun H => H).
    + intros b' s' e l Hb Hin. simpl in Hb.
      rewrite nth_error_update_nth in Hb.
      destruct (Nat.eqb b b'); [|exact (U3 b' s' e l Hb Hin)].
      destruct (nth_error (buses w) b') as [s0|] eqn:E0; [|discriminate].
      inversion Hb; subst s'. apply (U3 b' s0 e l E0).
      revert Hin. unfold bus_once. destruct reactive;
        unfold setupReactiveEffect; try destruct (existsb _ _); exact (fun H => H).
    + intros j b0 e0 Hj. simpl in Hj.
      destruct (Nat.lt_ge_cases j (List.length (fns w))) as [L|L].
      * rewrite nth_error_app1 in Hj by exact L. exact (U4 j b0 e0 Hj).
      * rewrite nth_error_app2 in Hj by exact L.
        destruct (j - List.length (fns w)) as [|i]; simpl in Hj;
          [discriminate | destruct i; discriminate].
  - unfold potential.
    change (calls k (upd_bus b ?g ?w0)) with (calls k w). rewrite Uc.
    pose proof (pending_upd_le1 k b
                  (bus_once event (Internal (List.length (fns w))) reactive)
                  (set_fns (fns w ++ [OnceWrapper b event (User u)]) w)) as P.
    change (pending k (set_fns ?f w)) with (pending k w) in P.
    rewrite Up in P. apply P. intros s. unfold bus_pending.
    rewrite onceEvents_bus_once. apply weight_add_listener_le.
Qed.


(** ** [enableMetrics] *)

(** A bus, a world and a result without what [setupMetrics] stored. *)
Definition forget (s : Bus) : Bus := set_computedMetrics [] s.

Definition forgetW (w : World) : World :=
  set_buses (map forget (buses w)) w.

Definition forgetR {A : Type} (r : option (World * completion A))
  : option (World * completion A) :=
  match r with
  | Some (w, c) => Some (forgetW w, c)
  | None => None
  end.

(** A computation that does not read it. *)
Definition blind {A : Type} (m : M A) : Prop :=
  forall w, m (forgetW w) = forgetR (m w).

Definition blind_update (f : World -> World) : Prop :=
  forall w, f (forgetW w) = forgetW (f w).

Definition blind_bus (g : Bus -> Bus) : Prop :=
  forall s, g (forget s) = forget (g s).

Lemma blind_ret {A : Type} (a : A) : blind (ret a).
Proof. intros w. reflexivity. Qed.

Lemma blind_bind {A B : Type} (m : M A) (k : A -> M B) :
  blind m -> (forall a, blind (k a)) -> blind (bind m k).
Proof.
  intros Hm Hk w. unfold bind. rewrite Hm.
  destruct (m w) as [[w1 [a|t]]|]; simpl; [apply Hk | reflexivity | reflexivity].
Qed.

Lemma blind_modify (f : World -> World) : blind_update f -> blind (modify f).
Proof. intros Hf w. unfold modify. rewrite Hf. reflexivity. Qed.

Lemma blind_lift {A : Type} (f : World -> World * completion A) :
  (forall w, f (forgetW w) = (forgetW (fst (f w)), snd (f w))) ->
  blind (lift f).
Proof.
  intros Hf w. unfold lift. rewrite Hf. destruct (f w); reflexivity.
Qed.

Lemma update_nth_map {A : Type} (n : nat) (g h : A -> A) (l : list A) :
  (forall a, g (h a) = h (g a)) ->
  update_nth n g (map h l) = map h (update_nth n g l).
Proof.
  intros Hg. revert n. induction l as [|a l IH]; intros [|n]; simpl;
    try reflexivity.
  - rewrite Hg. reflexivity.
  - rewrite IH. reflexivity.
Qed.

Lemma blind_upd_bus (b : bid) (g : Bus -> Bus) :
  blind_bus g -> blind_update (upd_bus b g).
Proof.
  intros Hg w. unfold upd_bus, forgetW. simpl.
  rewrite update_nth_map by exact Hg. reflexivity.
Qed.

Lemma the_bus_forget (b : bid) (w : World) :
  the_bus b (forgetW w) = forget (the_bus b w).
Proof.
  exact (map_nth forget (buses w) (new_bus false None) b).
Qed.

Lemma blind_cleanup (l : fid) : blind_bus (cleanupReactiveEffect l).
Proof. intros s. reflexivity. Qed.

Lemma blind_cleanupAll (ls : list fid) : blind_bus (cleanupAll ls).
Proof.
  intros s. unfold cleanupAll. revert s.
  induction ls as [|l ls IH]; intros s; simpl; [reflexivity|].
  rewrite <- IH. reflexivity.
Qed.

Lemma blind_setup (l : fid) : blind_bus (setupReactiveEffect l).
Proof.
  intros s. unfold setupReactiveEffect. simpl.
  destruct (existsb (fid_eqb l) (reactiveEffects s)); reflexivity.
Qed.

Lemma blind_bus_on e l r : blind_bus (bus_on e l r).
Proof.
  intros s. unfold bus_on. destruct r; [|reflexivity].
  unfold setupReactiveEffect. simpl.
  destruct (existsb (fid_eqb l) (reactiveEffects s)); reflexivity.
Qed.

Lemma blind_bus_once e l r : blind_bus (bus_once e l r).
Proof.
  intros s. unfold bus_once. destruct r; [|reflexivity].
  unfold setupReactiveEffect. simpl.
  destruct (existsb (fid_eqb l) (reactiveEffects s)); reflexivity.
Qed.

Lemma blind_removeAll e : blind_bus (removeAllListeners e).
Proof.
  intros s. unfold removeAllListeners.
  destruct (truthy_event e) as [ev|].
  - change (events (forget s)) with (events s).
    assert (B1 : match JsMap.get (events s) ev with
                 | Some l => cleanupAll (JsSet.elements l) (forget s)
                 | None => forget s
                 end
                 = forget match JsMap.get (events s) ev with
                          | Some l => cleanupAll (JsSet.elements l) s
                          | None => s
                          end).
    { destruct (JsMap.get (events s) ev); [apply blind_cleanupAll | reflexivity]. }
    rewrite B1.
    set (s1 := match JsMap.get (events s) ev with
               | Some l => cleanupAll (JsSet.elements l) s
               | None => s
               end).
    change (onceEvents (forget s1)) with (onceEvents s1).
    assert (B2 : match JsMap.get (onceEvents s1) ev with
                 | Some l => cleanupAll (JsSet.elements l) (forget s1)
                 | None => forget s1
                 end
                 = forget match JsMap.get (onceEvents s1) ev with
                          | Some l => cleanupAll (JsSet.elements l) s1
                          | None => s1
                          end).
    { destruct (JsMap.get (onceEvents s1) ev);
        [apply blind_cleanupAll | reflexivity]. }
    rewrite B2. reflexivity.
  - change (events (forget s)) with (events s).
    rewrite (blind_cleanupAll (all_listeners (events s)) s).
    set (s1 := cleanupAll (all_listeners (events s)) s).
    change (onceEvents (forget s1)) with (onceEvents s1).
    rewrite (blind_cleanupAll (all_listeners (onceEvents s1)) s1).
    reflexivity.
Qed.

Lemma blind_destroy : blind_bus destroy.
Proof.
  intros s. unfold destroy. rewrite blind_removeAll. reflexivity.
Qed.

Lemma forget_setupMetrics (s : Bus) : forget (setupMetrics s) = forget s.
Proof. reflexivity. Qed.

Lemma blind_on b e v r :
  forall w, on b e v r (forgetW w)
            = (forgetW (fst (on b e v r w)), snd (on b e v r w)).
Proof.
  intros w. destruct v as [l|]; simpl; [|reflexivity].
  rewrite (blind_upd_bus b _ (blind_bus_on e l r)). reflexivity.
Qed.

Lemma blind_once b e v r :
  forall w, once b e v r (forgetW w)
            = (forgetW (fst (once b e v r w)), snd (once b e v r w)).
Proof.
  intros w. destruct v as [l|]; simpl; [|reflexivity].
  change (set_fns (fns w ++ [OnceWrapper b e l]) (forgetW w))
    with (forgetW (set_fns (fns w ++ [OnceWrapper b e l]) w)).
  rewrite (blind_upd_bus b _ (blind_bus_once e _ r)). reflexivity.
Qed.

Lemma blind_off b e v : blind_update (off b e v).
Proof.
  destruct v as [l|]; simpl; apply blind_upd_bus; intros s; reflexivity.
Qed.

Section BlindDispatch.

Variable user : nat -> payload -> option string -> behaviour.
Variable emit_ : bid -> string -> payload -> M bool.
Hypothesis emit_blind : forall b e x, blind (emit_ b e x).

Lemma run_action_blind (a : action) : blind (run_action emit_ a).
Proof.
  destruct a; simpl.
  - apply blind_bind; [apply blind_lift, blind_on | intros; apply blind_ret].
  - apply blind_bind; [apply blind_lift, blind_once | intros; apply blind_ret].
  - apply blind_modify, blind_off.
  - apply blind_modify, blind_off.
  - apply blind_bind; [apply emit_blind | intros; apply blind_ret].
Qed.

Lemma run_actions_blind (l : list action) : blind (run_actions emit_ l).
Proof.
  induction l as [|a l IH]; simpl; [apply blind_ret|].
  apply blind_bind; [apply run_action_blind | intros; exact IH].
Qed.

Lemma perform_blind (bh : behaviour) : blind (perform emit_ bh).
Proof.
  unfold perform. apply blind_bind; [apply run_actions_blind|].
  intros _ w. reflexivity.
Qed.

Lemma run_closure_blind (call : fid -> M jsret) (self : fid) (c : closure)
    (data : payload) :
  (forall l, blind (call l)) -> blind (run_closure emit_ call self c data).
Proof.
  intros Hc. destruct c; simpl.
  - apply blind_bind; [apply blind_modify, blind_off | intros; apply Hc].
  - apply blind_bind; [apply blind_modify | intros; apply blind_ret].
    intros w. reflexivity.
  - apply blind_bind.
    + apply blind_modify. destruct timeoutId; intros w; reflexivity.
    + intros _. apply blind_bind; [apply blind_modify | intros; apply blind_ret].
      intros w. reflexivity.
  - apply blind_bind; [apply emit_blind | intros; apply blind_ret].
Qed.

Lemma invoke_blind (depth : nat) (f : fid) (data : payload)
    (event : option string) : blind (invoke user emit_ depth f data event).
Proof.
  revert f event. induction depth as [|d IH]; intros f event w;
    [reflexivity|].
  simpl. destruct f as [u|k].
  - change (log (Invoked (User u) data event) (forgetW w))
      with (forgetW (log (Invoked (User u) data event) w)).
    apply perform_blind.
  - change (fns (forgetW w)) with (fns w).
    destruct (nth_error (fns w) k) as [c|]; [|reflexivity].
    change (log (Invoked (Internal k) data event) (forgetW w))
      with (forgetW (log (Invoked (Internal k) data event) w)).
    apply run_closure_blind. intros l. apply IH.
Qed.

Lemma recover_blind (b : bid) (event : string) (listener : fid)
    (error : thrown) : blind (recover emit_ b event listener error).
Proof.
  intros w. unfold recover.
  rewrite (blind_upd_bus b bump_errorCount (fun s => eq_refl) w).
  rewrite the_bus_forget.
  change (errorHandler (forget ?s)) with (errorHandler s).
  destruct (errorHandler (the_bus b (upd_bus b bump_errorCount w)))
    as [handler|]; [|reflexivity].
  change (log ?e (forgetW ?w0)) with (forgetW (log e w0)).
  apply (blind_bind (perform emit_ _) (fun _ => ret tt));
    [apply perform_blind | intros; apply blind_ret].
Qed.

Lemma callListeners_blind (steps : nat) (b : bid)
    (listeners : World -> JsSet.t) (index : nat) (data : payload)
    (event : string) :
  (forall w, listeners (forgetW w) = listeners w) ->
  blind (callListeners user emit_ steps b listeners index data event).
Proof.
  intros Hl. revert index. induction steps as [|n IH]; intros index w.
  - simpl. rewrite Hl. destruct (nth_error (listeners w) index); reflexivity.
  - rewrite !callListeners_S, Hl.
    destruct (nth_error (listeners w) index) as [[f|]|]; [| apply IH | reflexivity].
    rewrite invoke_blind.
    destruct (invoke user emit_ n f data None w) as [[w1 [r|t]]|]; simpl;
      [apply IH | | reflexivity].
    apply (blind_bind (recover emit_ b event f t)
             (fun _ => callListeners user emit_ n b listeners (S index)
                         data event));
      [apply recover_blind | intros; apply IH].
Qed.

Lemma run_chain_blind (depth : nat) (msg : string) (mws : list fid)
    (event : string) (data : payload) :
  blind (run_chain user emit_ depth msg mws event data).
Proof.
  revert data. induction mws as [|mw rest IH]; intros data w; simpl;
    [reflexivity|].
  rewrite invoke_blind.
  destruct (invoke user emit_ depth mw data (Some event) w)
    as [[w1 [[| |v]|t]]|]; simpl; try apply IH; [|reflexivity].
  change (log ?e (forgetW ?w0)) with (forgetW (log e w0)). apply IH.
Qed.

Lemma middlewares_forget (b : bid) (key : string) (w : World) :
  middlewares b key (forgetW w) = middlewares b key w.
Proof. unfold middlewares. rewrite the_bus_forget. reflexivity. Qed.

Lemma runMiddleware_blind (depth : nat) (b : bid) (event : string)
    (data : payload) : blind (runMiddleware user emit_ depth b event data).
Proof.
  unfold runMiddleware. apply blind_bind.
  - intros w. rewrite middlewares_forget. apply run_chain_blind.
  - intros x w. rewrite middlewares_forget. apply run_chain_blind.
Qed.

Lemma live_listeners_forget (b : bid) (event : string) (w : World) :
  live_listeners b event (forgetW w) = live_listeners b event w.
Proof. unfold live_listeners. rewrite the_bus_forget. reflexivity. Qed.

Lemma call_regular_blind (n : nat) (b : bid) (event : string)
    (data : payload) : blind (call_regular user emit_ n b event data).
Proof.
  intros w. unfold call_regular. rewrite the_bus_forget.
  change (events (forget ?s)) with (events s).
  destruct (JsMap.get (events (the_bus b w)) event) as [l|]; [|reflexivity].
  destruct (Nat.ltb 0 (JsSet.size l)); [|reflexivity].
  apply (blind_bind (callListeners user emit_ n b (live_listeners b event)
                       0 data event) (fun _ => ret true));
    [|intros; apply blind_ret].
  apply callListeners_blind. intros w0. apply live_listeners_forget.
Qed.

Lemma drain_once_blind (n : nat) (b : bid) (event : string)
    (data : payload) : blind (drain_once user emit_ n b event data).
Proof.
  intros w. unfold drain_once. rewrite the_bus_forget.
  change (onceEvents (forget ?s)) with (onceEvents s).
  destruct (JsMap.get (onceEvents (the_bus b w)) event) as [l|];
    [|reflexivity].
  destruct (Nat.ltb 0 (JsSet.size l)); [|reflexivity].
  apply (blind_bind (modify (upd_bus b (clear_once event)))
           (fun _ => callListeners user emit_ n b (fun _ => JsSet.copy l) 0
                       data event ;;;
                     modify (upd_bus b
                               (cleanupAll
                                  (JsSet.elements (JsSet.copy l)))) ;;;
                     ret true)).
  - apply blind_modify, blind_upd_bus. intros s. reflexivity.
  - intros _. apply blind_bind;
      [apply callListeners_blind; reflexivity | intros _].
    apply blind_bind; [|intros; apply blind_ret].
    apply blind_modify, blind_upd_bus, blind_cleanupAll.
Qed.

Lemma emit_body_blind (n : nat) (b : bid) (event : string)
    (data : payload) : blind (emit_body user emit_ n b event data).
Proof.
  unfold emit_body.
  apply blind_bind; [apply runMiddleware_blind | intros x].
  apply blind_bind; [|intros _].
  - apply blind_modify, blind_upd_bus. intros s. reflexivity.
  - apply blind_bind; [apply call_regular_blind | intros r].
    apply blind_bind; [apply drain_once_blind | intros; apply blind_ret].
Qed.

End BlindDispatch.

Lemma emit_blind user (fuel : nat) (b : bid) (event : string)
    (data : payload) : blind (emit user fuel b event data).
Proof.
  revert b event data. induction fuel as [|n IH]; intros b event data.
  - intros w. reflexivity.
  - simpl. apply emit_body_blind. exact IH.
Qed.

Lemma blind_returning {A B : Type} (g : A -> B)
    (f : World -> World * completion A) :
  (forall w, f (forgetW w) = (forgetW (fst (f w)), snd (f w))) ->
  blind (lift (fun w => returning g (f w))).
Proof.
  intros Hf. apply blind_lift. intros w. rewrite Hf.
  destruct (f w) as [w1 [a|t]]; reflexivity.
Qed.

Lemma blind_use b e v :
  forall w, use b e v (forgetW w)
            = (forgetW (fst (use b e v w)), snd (use b e v w)).
Proof.
  intros w. destruct v as [m|]; simpl; [|reflexivity].
  rewrite (blind_upd_bus b (bus_use e m) (fun s => eq_refl)). reflexivity.
Qed.

Lemma blind_settle p v : blind_update (settle p v).
Proof. intros w. reflexivity. Qed.

Lemma blind_fireTimer t : blind_update (fireTimer t).
Proof.
  intros w. unfold fireTimer. change (timers (forgetW w)) with (timers w).
  destruct (nth_error (timers w) t) as [tm|]; [|reflexivity].
  destruct (t_state tm); try reflexivity.
  match goal with
  | |- settle ?p ?v (off ?b ?e ?l ?w1) = _ =>
      change w1 with (forgetW (set_timers (timers w1) w))
  end.
  rewrite blind_off. apply blind_settle.
Qed.

Lemma blind_waitFor b e t (w : World) :
  waitFor b e t (forgetW w)
  = (forgetW (fst (waitFor b e t w)), snd (waitFor b e t w)).
Proof.
  unfold waitFor. cbv zeta.
  destruct (truthy_timeout t) as [ms|].
  - match goal with
    | |- (fst (once b e ?l ?r ?w3), _) = _ =>
        change w3 with
          (forgetW
             (set_timers
                (timers w ++
                   [mkTimer b e (Internal (List.length (fns w)))
                      (List.length (promises w)) ms Armed])
                (set_fns
                   (fns w ++
                      [WaitListener (Some (List.length (timers w)))
                         (List.length (promises w))])
                   (set_promises (promises w ++ [Pending]) w))))
    end.
    rewrite blind_once. reflexivity.
  - match goal with
    | |- (fst (once b e ?l ?r ?w3), _) = _ =>
        change w3 with
          (forgetW
             (set_fns
                (fns w ++ [WaitListener None (List.length (promises w))])
                (set_promises (promises w ++ [Pending]) w)))
    end.
    rewrite blind_once. reflexivity.
Qed.

Lemma blind_stream b e (w : World) :
  stream b e (forgetW w)
  = (forgetW (fst (stream b e w)), snd (stream b e w)).
Proof.
  unfold stream. cbv zeta.
  match goal with
  | |- (fst (on b e ?l ?r ?w2), _) = _ =>
      change w2 with
        (forgetW
           (set_fns (fns w ++ [StreamListener (List.length (cells w))])
              (set_cells (cells w ++ [mkStreamState None 0]) w)))
  end.
  rewrite blind_on. reflexivity.
Qed.

Lemma blind_pipe b e b' e' (w : World) :
  pipe b e b' e' (forgetW w)
  = (forgetW (fst (pipe b e b' e' w)), snd (pipe b e b' e' w)).
Proof.
  unfold pipe. cbv zeta.
  match goal with
  | |- (fst (on b e ?l ?r ?w1), _) = _ =>
      change w1 with
        (forgetW
           (set_fns
              (fns w ++
                 [PipeListener b' match e' with Some x => x | None => e end])
              w))
  end.
  rewrite blind_on. reflexivity.
Qed.

(** The same call on a bus built without the flag. *)
Definition with_metrics (flag : bool) (o : op) : op :=
  match o with
  | ONew _ handler => ONew flag handler
  | _ => o
  end.

Lemma forget_new_bus flag handler :
  forget (new_bus flag handler) = new_bus false handler.
Proof. destruct flag; reflexivity. Qed.

Lemma blind_pair {A : Type} (g : A -> retval) (f : World -> World * A) :
  (forall w, f (forgetW w) = (forgetW (fst (f w)), snd (f w))) ->
  blind (fun w => let (w1, h) := f w in Some (w1, Normal (g h))).
Proof.
  intros Hf w. rewrite Hf. destruct (f w); reflexivity.
Qed.

Lemma blind_read {A : Type} (g : A -> retval) (rd : World -> A) :
  (forall w, rd (forgetW w) = rd w) ->
  blind (fun w => ret (g (rd w)) w).
Proof. intros Hr w. rewrite Hr. reflexivity. Qed.

Lemma blind_exec user (fuel : nat) (o : op) :
  (forall flag handler, o <> ONew flag handler) ->
  blind (exec user fuel o).
Proof.
  intros Hn. destruct o; simpl.
  - exfalso. exact (Hn _ _ eq_refl).
  - apply blind_returning, blind_on.
  - apply blind_returning, blind_once.
  - apply blind_bind; [apply blind_modify, blind_off | intros; apply blind_ret].
  - apply blind_bind; [apply emit_blind | intros; apply blind_ret].
  - apply (blind_read RNumber (fun w => listenerCount event (the_bus b w))).
    intros w. rewrite the_bus_forget. reflexivity.
  - apply blind_bind; [|intros; apply blind_ret].
    apply blind_modify, blind_upd_bus, blind_removeAll.
  - apply (blind_read RStrings (fun w => eventNames (the_bus b w))).
    intros w. rewrite the_bus_forget. reflexivity.
  - apply (blind_read RBool (fun w => hasListeners event (the_bus b w))).
    intros w. rewrite the_bus_forget. reflexivity.
  - apply blind_returning, blind_use.
  - apply (blind_pair RHandle (stream b event)). apply blind_stream.
  - apply blind_ret.
  - apply (blind_pair (fun p => RHandle (HPromise p))
             (waitFor b event timeout)). apply blind_waitFor.
  - apply (blind_pair RHandle (pipe b fromEvent toBus toEvent)).
    apply blind_pipe.
  - apply blind_bind; [|intros; apply blind_ret].
    apply blind_modify, blind_upd_bus, blind_destroy.
  - destruct h; try (intros w; reflexivity).
    + apply blind_bind; [apply blind_modify, blind_off | intros; apply blind_ret].
    + apply blind_bind; [|intros; apply blind_ret].
      apply blind_modify, blind_upd_bus. intros s. reflexivity.
  - destruct h; try (intros w; reflexivity).
    apply blind_returning, blind_on.
  - destruct h; try (intros w; reflexivity).
    apply blind_bind; [apply blind_modify, blind_off | intros; apply blind_ret].
  - destruct h; intros w; reflexivity.
  - destruct h; try (intros w; reflexivity).
    apply (blind_read RState (fun w => reactiveState (the_bus b w))).
    intros w. rewrite the_bus_forget. reflexivity.
  - destruct h; try (intros w; reflexivity).
    apply (blind_read RStrings (fun w => eventNames (the_bus b w))).
    intros w. rewrite the_bus_forget. reflexivity.
  - destruct h; try (intros w; reflexivity).
    apply (blind_read RNumber (fun w => totalListeners (the_bus b w))).
    intros w. rewrite the_bus_forget. reflexivity.
  - destruct h; intros w; reflexivity.
  - apply blind_bind; [|intros; apply blind_ret].
    apply blind_modify, blind_fireTimer.
Qed.

Lemma exec_without_metrics user (fuel : nat) (o : op) (w : World) :
  exec user fuel (with_metrics false o) (forgetW w)
  = forgetR (exec user fuel o w).
Proof.
  destruct o;
    try (apply (blind_exec user fuel); intros flag h0 H; discriminate H).
  simpl. unfold forgetW at 2. simpl.
  rewrite length_map, map_app. simpl. rewrite forget_new_bus. reflexivity.
Qed.

Definition forgetS {A : Type} (r : option (World * A)) : option (World * A) :=
  match r with
  | Some (w, a) => Some (forgetW w, a)
  | None => None
  end.

Lemma run_without_metrics user (fuel : nat) (session : list op) (w : World) :
  run user fuel (map (with_metrics false) session) (forgetW w)
  = forgetS (run user fuel session w).
Proof.
  revert w. induction session as [|o rest IH]; intros w; simpl;
    [reflexivity|].
  rewrite exec_without_metrics.
  destruct (exec user fuel o w) as [[w1 r]|]; simpl; [|reflexivity].
  rewrite IH. destruct (run user fuel rest w1) as [[w2 rs]|]; reflexivity.
Qed.

Lemma with_metrics_idem (flag : bool) (session : list op) :
  map (with_metrics false) (map (with_metrics flag) session)
  = map (with_metrics false) session.
Proof.
  rewrite map_map. apply map_ext. intros []; reflexivity.
Qed.

Definition outputs {A : Type} (r : option (World * A)) : option A :=
  match r with
  | Some (_, a) => Some a
  | None => None
  end.

Definition visible {A : Type} (r : option (World * A)) : option World :=
  match r with
  | Some (w, _) => Some (forgetW w)
  | None => None
  end.

Lemma forgetS_outputs {A : Type} (r r' : option (World * A)) :
  forgetS r = forgetS r' -> outputs r = outputs r' /\ visible r = visible r'.
Proof.
  destruct r as [[w a]|], r' as [[w' a']|]; simpl; intros H;
    inversion H; split; congruence.
Qed.

(** C10.  The [enableMetrics] option of the constructor has no observable
    effect.  Run any session of public calls (constructions, subscriptions,
    emissions, [getMetrics] and the reads of the object it returns, timer
    expirations, ...) from any world, once with every bus constructed with
    [enableMetrics: true] and once with every bus constructed with
    [enableMetrics: false], with the same callbacks and the same fuel: the
    two runs finish or run out of fuel together, every call returns the
    same value or throws the same error in both, and the two final worlds
    agree on everything but the [computedMetrics] maps.  The flag only
    fills that map: a bus constructed with it is the bus constructed
    without it once the map is emptied, the map is empty without the flag
    and holds the two entries "eventRate" and "errorRate" with it. *)
Theorem enableMetrics_is_unobservable :
  (forall user fuel session w,
     outputs (run user fuel (map (with_metrics true) session) w)
     = outputs (run user fuel (map (with_metrics false) session) w)
     /\ visible (run user fuel (map (with_metrics true) session) w)
        = visible (run user fuel (map (with_metrics false) session) w))
  /\ (forall user fuel session w,
        outputs (run user fuel (map (with_metrics false) session) w)
        = outputs (run user fuel session w))
  /\ (forall handler,
        forget (new_bus true handler) = new_bus false handler
        /\ computedMetrics (new_bus false handler) = []
        /\ JsMap.keys (computedMetrics (new_bus true handler))
           = ["eventRate"; "errorRate"]).
Proof.
  refine (conj _ (conj _ _)).
  - intros user fuel session w. apply forgetS_outputs.
    rewrite <- !run_without_metrics, !with_metrics_idem. reflexivity.
  - intros user fuel session w.
    apply (forgetS_outputs
             (run user fuel (map (with_metrics false) session) w)
             (run user fuel session w)).
    rewrite <- !run_without_metrics, with_metrics_idem. reflexivity.
  - intros handler. refine (conj _ (conj _ _)); reflexivity.
Qed.

Lemma has_add (l : JsSet.t) (f : fid) : JsSet.has (JsSet.add l f) f = true.
Proof.
  unfold JsSet.add. destruct (JsSet.has l f) eqn:E; [exact E|].
  apply has_elements. rewrite elements_app. apply in_or_app. right.
  left. reflexivity.
Qed.

Lemma has_delete_other (l : JsSet.t) (f g : fid) :
  fid_eqb f g = false -> JsSet.has (JsSet.delete l f) g = JsSet.has l g.
Proof.
  intros N. unfold JsSet.has, JsSet.delete.
  induction l as [|[h|] l IH]; simpl; [reflexivity | | exact IH].
  destruct (fid_eqb f h) eqn:E; simpl; rewrite IH; [|reflexivity].
  apply fid_eqb_eq in E. subst h.
  destruct (fid_eqb g f) eqn:E'; [|reflexivity].
  apply fid_eqb_eq in E'. subst g. rewrite fid_eqb_refl in N. discriminate N.
Qed.

(** [off] deletes by identity: a function in the once-set survives the
    [off] of any other function, the one it wraps included. *)
Lemma once_survives_off (s : Bus) (event : string) (f g : fid)
    (reactive : bool) :
  fid_eqb f g = false ->
  exists l,
    JsMap.get (onceEvents (bus_off event f (bus_once event g reactive s)))
      event = Some l
    /\ JsSet.has l g = true.
Proof.
  intros N.
  destruct (has_add_listener (onceEvents s) event g) as (l0 & G & _).
  exists (JsSet.delete (JsSet.add l0 g) f). split.
  - change (onceEvents (bus_off event f ?s0))
      with (JsMap.update (onceEvents s0) event
              (fun l => JsSet.delete l f)).
    rewrite get_update_same, onceEvents_bus_once, G. reflexivity.
  - rewrite has_delete_other by exact N. apply has_add.
Qed.

(** The callback of the timer that [waitFor] arms rejects the promise
    with the message that names the event. *)
Lemma timeout_rejects (b : bid) (event : string) (q : positive)
    (w : World) :
  nth_error
    (promises
       (fireTimer (List.length (timers w))
          (fst (waitFor b event (Some (Z.pos q)) w))))
    (snd (waitFor b event (Some (Z.pos q)) w))
  = Some (Rejected
            (JsError ("Timeout waiting for event: " ++ event)%string)).
Proof.
  unfold waitFor, fireTimer. cbn [fst snd truthy_timeout].
  set (w3 := fst (once b event _ false _)).
  assert (T : timers w3
              = timers w
                ++ [mkTimer b event (Internal (List.length (fns w)))
                      (List.length (promises w)) (Z.pos q) Armed])
    by reflexivity.
  assert (P : promises w3 = promises w ++ [Pending]) by reflexivity.
  rewrite T, nth_error_app2, Nat.sub_diag by apply Nat.le_refl.
  cbn [nth_error t_state t_bus t_event t_listener t_promise].
  unfold settle. cbn [promises set_promises].
  rewrite nth_error_update_nth, Nat.eqb_refl.
  change (promises (off b event ?v ?w0)) with (promises w0).
  cbn [promises set_timers]. rewrite P.
  rewrite nth_error_app2, Nat.sub_diag by apply Nat.le_refl. reflexivity.
Qed.

(** * More of the class

    ** Registration *)

(** The sets of an event, empty when the map has no entry. *)
Definition registered (event : string) (s : Bus) : JsSet.t :=
  match JsMap.get (events s) event with
  | Some l => l
  | None => JsSet.empty
  end.

Definition registered_once (event : string) (s : Bus) : JsSet.t :=
  match JsMap.get (onceEvents s) event with
  | Some l => l
  | None => JsSet.empty
  end.

Definition middleware_of (event : string) (s : Bus) : list fid :=
  match JsMap.get (middleware s) event with
  | Some l => l
  | None => []
  end.

Lemma listenerCount_sizes (event : string) (s : Bus) :
  listenerCount event s
  = JsSet.size (registered event s) + JsSet.size (registered_once event s).
Proof.
  unfold listenerCount, registered, registered_once.
  destruct (JsMap.get (events s) event), (JsMap.get (onceEvents s) event);
    reflexivity.
Qed.

Section MoreMapFacts.
Context {V : Type}.
Implicit Types (m : JsMap.t V) (k : string).

Lemma get_set_other m k k' (v : V) :
  String.eqb k' k = false ->
  JsMap.get (JsMap.set m k v) k' = JsMap.get m k'.
Proof.
  intros N. induction m as [|[k0 v0] m IH]; simpl.
  - rewrite N. reflexivity.
  - destruct (String.eqb k k0) eqn:E; simpl.
    + apply String.eqb_eq in E. subst k0. rewrite N. reflexivity.
    + rewrite IH. reflexivity.
Qed.

Lemma get_update m k k' (g : V -> V) :
  JsMap.get (JsMap.update m k g) k'
  = if String.eqb k' k then option_map g (JsMap.get m k')
    else JsMap.get m k'.
Proof.
  destruct (String.eqb k' k) eqn:E.
  - apply String.eqb_eq in E. subst k'. apply get_update_same.
  - apply get_update_other. intros ->. rewrite String.eqb_refl in E.
    discriminate E.
Qed.

Lemma update_fixed m k (g : V -> V) :
  (forall v, JsMap.get m k = Some v -> g v = v) ->
  JsMap.update m k g = m.
Proof.
  induction m as [|[k0 v0] m IH]; simpl; [reflexivity|].
  destruct (String.eqb k k0); intros H.
  - rewrite (H v0 eq_refl). reflexivity.
  - rewrite IH by exact H. reflexivity.
Qed.

Lemma get_none_keys m k : JsMap.get m k = None <-> ~ In k (JsMap.keys m).
Proof.
  unfold JsMap.keys. induction m as [|[k0 v0] m IH]; simpl; [tauto|].
  destruct (String.eqb k k0) eqn:E.
  - apply String.eqb_eq in E. subst. split; [discriminate | tauto].
  - apply String.eqb_neq in E. rewrite IH. split; [|tauto].
    intros H [H'|H']; [congruence | tauto].
Qed.

Lemma get_delete_other m k k' :
  String.eqb k' k = false ->
  JsMap.get (JsMap.delete m k) k' = JsMap.get m k'.
Proof.
  intros N. induction m as [|[k0 v0] m IH]; simpl; [reflexivity|].
  destruct (String.eqb k k0) eqn:E; simpl.
  - apply String.eqb_eq in E. subst k0. rewrite N. reflexivity.
  - rewrite IH. reflexivity.
Qed.

Lemma keys_delete m k k' :
  In k' (JsMap.keys (JsMap.delete m k)) -> In k' (JsMap.keys m).
Proof.
  unfold JsMap.keys. induction m as [|[k0 v0] m IH]; simpl; [tauto|].
  destruct (String.eqb k k0); simpl; intuition.
Qed.

Lemma keys_delete_other m k k' :
  k' <> k -> In k' (JsMap.keys m) -> In k' (JsMap.keys (JsMap.delete m k)).
Proof.
  unfold JsMap.keys. intros N.
  induction m as [|[k0 v0] m IH]; simpl; [tauto|].
  destruct (String.eqb k k0) eqn:E; simpl.
  - apply String.eqb_eq in E. subst k0. intros [H|H]; [congruence | exact H].
  - intros [H|H]; auto.
Qed.

Lemma keys_delete_unique m k :
  NoDup (JsMap.keys m) -> ~ In k (JsMap.keys (JsMap.delete m k)).
Proof.
  unfold JsMap.keys. induction m as [|[k0 v0] m IH]; simpl; [tauto|].
  intros N. inversion N as [|x xs Hx Hxs]; subst.
  destruct (String.eqb k k0) eqn:E; simpl.
  - apply String.eqb_eq in E. subst k0. exact Hx.
  - apply String.eqb_neq in E. intros [H|H]; [congruence|].
    exact (IH Hxs H).
Qed.

Lemma NoDup_keys_delete m k :
  NoDup (JsMap.keys m) -> NoDup (JsMap.keys (JsMap.delete m k)).
Proof.
  unfold JsMap.keys. induction m as [|[k0 v0] m IH]; simpl; [auto|].
  intros N. inversion N as [|x xs Hx Hxs]; subst.
  destruct (String.eqb k k0); simpl; [exact Hxs|].
  constructor; [|exact (IH Hxs)].
  intros H. apply Hx. exact (keys_delete m k k0 H).
Qed.

Lemma keys_set_fresh m k (v : V) :
  JsMap.get m k = None -> JsMap.keys (JsMap.set m k v) = JsMap.keys m ++ [k].
Proof.
  unfold JsMap.keys. induction m as [|[k0 v0] m IH]; simpl; [reflexivity|].
  destruct (String.eqb k k0); [discriminate|]. simpl. intros H.
  rewrite IH by exact H. reflexivity.
Qed.

End MoreMapFacts.

Lemma elements_add_exact (l : JsSet.t) (f : fid) :
  JsSet.elements (JsSet.add l f)
  = if JsSet.has l f then JsSet.elements l else JsSet.elements l ++ [f].
Proof.
  unfold JsSet.add. destruct (JsSet.has l f); [reflexivity|].
  apply elements_app.
Qed.

Lemma delete_app (l r : JsSet.t) (f : fid) :
  JsSet.delete (l ++ r) f = JsSet.delete l f ++ JsSet.delete r f.
Proof. unfold JsSet.delete. apply map_app. Qed.

Lemma elements_delete_add (l : JsSet.t) (f : fid) :
  JsSet.has l f = false ->
  JsSet.elements (JsSet.delete (JsSet.add l f) f) = JsSet.elements l.
Proof.
  intros H. unfold JsSet.add. rewrite H, delete_app, elements_app.
  rewrite (delete_absent l f H). simpl. rewrite fid_eqb_refl. simpl.
  apply app_nil_r.
Qed.

Lemma get_add_listener (m : JsMap.t JsSet.t) (event e' : string) (f : fid) :
  JsMap.get (add_listener m event f) e'
  = if String.eqb e' event
    then Some (JsSet.add (match JsMap.get m event with
                          | Some l => l
                          | None => JsSet.empty
                          end) f)
    else JsMap.get m e'.
Proof.
  unfold add_listener, JsMap.has. rewrite get_update.
  destruct (String.eqb e' event) eqn:E.
  - apply String.eqb_eq in E. subst e'.
    destruct (JsMap.get m event) as [l|] eqn:G.
    + rewrite G. reflexivity.
    + rewrite get_set_same. reflexivity.
  - destruct (JsMap.get m event); [reflexivity|].
    apply get_set_other. exact E.
Qed.

Lemma events_bus_on (s : Bus) e x r :
  events (bus_on e x r s) = add_listener (events s) e x /\
  onceEvents (bus_on e x r s) = onceEvents s /\
  middleware (bus_on e x r s) = middleware s.
Proof.
  unfold bus_on.
  destruct r; unfold setupReactiveEffect; try destruct (existsb _ _);
    repeat split.
Qed.

Lemma events_bus_once (s : Bus) e x r :
  events (bus_once e x r s) = events s /\
  middleware (bus_once e x r s) = middleware s.
Proof.
  unfold bus_once.
  destruct r; unfold setupReactiveEffect; try destruct (existsb _ _);
    repeat split.
Qed.

Lemma registered_bus_on (s : Bus) (event e : string) (f : fid)
    (reactive : bool) :
  registered e (bus_on event f reactive s)
  = (if String.eqb e event then JsSet.add (registered event s) f
     else registered e s) /\
  registered_once e (bus_on event f reactive s) = registered_once e s.
Proof.
  destruct (events_bus_on s event f reactive) as (E1 & E2 & E3).
  unfold registered, registered_once. rewrite E1, E2, get_add_listener.
  destruct (String.eqb e event); split; reflexivity.
Qed.

(** X1.  [on(E, f)] puts f at the end of the set of E unless the set holds it
    already, and touches no other set: [listenerCount(E)] grows by one or
    not at all, the other counts and the once-sets stay. *)
Theorem on_registers_at_most_once
    (s : Bus) (event : string) (f : fid) (reactive : bool) :
  let s' := bus_on event f reactive s in
  let known := JsSet.has (registered event s) f in
  JsSet.elements (registered event s')
  = (if known then JsSet.elements (registered event s)
     else JsSet.elements (registered event s) ++ [f]) /\
  (forall e,
      listenerCount e s'
      = listenerCount e s
        + (if String.eqb e event && negb known then 1 else 0)) /\
  (forall e,
      registered e s'
      = if String.eqb e event then JsSet.add (registered event s) f
        else registered e s) /\
  onceEvents s' = onceEvents s.
Proof.
  intros s' known.
  destruct (events_bus_on s event f reactive) as (E1 & E2 & E3).
  assert (G : forall e,
             registered e s'
             = if String.eqb e event
               then JsSet.add (registered event s) f
               else registered e s).
  { intros e. unfold registered, s'. rewrite E1, get_add_listener.
    destruct (String.eqb e event); reflexivity. }
  assert (Ge : registered event s' = JsSet.add (registered event s) f).
  { rewrite G, String.eqb_refl. reflexivity. }
  refine (conj _ (conj _ (conj _ E2))).
  - rewrite Ge. apply elements_add_exact.
  - intros e. rewrite !listenerCount_sizes.
    unfold registered_once. fold s'. unfold s' at 2. rewrite E2.
    fold (registered_once e s). rewrite G.
    destruct (String.eqb e event) eqn:E; simpl; [|lia].
    apply String.eqb_eq in E. subst e. unfold JsSet.size.
    rewrite elements_add_exact. fold known.
    destruct known; simpl; [lia | rewrite length_app; simpl; lia].
  - exact G.
Qed.


Lemma events_bus_off (s : Bus) e f :
  events (bus_off e f s)
  = JsMap.update (events s) e (fun l => JsSet.delete l f) /\
  onceEvents (bus_off e f s)
  = JsMap.update (onceEvents s) e (fun l => JsSet.delete l f) /\
  middleware (bus_off e f s) = middleware s.
Proof. repeat split. Qed.

Lemma registered_bus_off (s : Bus) (event e : string) (f : fid) :
  registered e (bus_off event f s)
  = (if String.eqb e event then JsSet.delete (registered event s) f
     else registered e s) /\
  registered_once e (bus_off event f s)
  = (if String.eqb e event then JsSet.delete (registered_once event s) f
     else registered_once e s).
Proof.
  unfold registered, registered_once.
  destruct (events_bus_off s event f) as (E1 & E2 & _).
  rewrite E1, E2, !get_update.
  destruct (String.eqb e event) eqn:E.
  - apply String.eqb_eq in E. subst e.
    destruct (JsMap.get (events s) event),
             (JsMap.get (onceEvents s) event); split; reflexivity.
  - split; reflexivity.
Qed.

Lemma on_then_off_restores (s : Bus) (event : string) (f : fid)
    (reactive : bool) :
  JsSet.has (registered event s) f = false ->
  JsSet.has (registered_once event s) f = false ->
  let s' := bus_off event f (bus_on event f reactive s) in
  (forall e, JsSet.elements (registered e s')
             = JsSet.elements (registered e s)) /\
  (forall e, registered_once e s' = registered_once e s).
Proof.
  intros H1 H2 s'. split; intros e; unfold s'.
  - rewrite (proj1 (registered_bus_off _ event e f)).
    rewrite !(proj1 (registered_bus_on s event _ f reactive)).
    rewrite String.eqb_refl.
    destruct (String.eqb e event) eqn:E; [|reflexivity].
    apply String.eqb_eq in E. subst e. apply elements_delete_add, H1.
  - rewrite (proj2 (registered_bus_off _ event e f)).
    rewrite !(proj2 (registered_bus_on s event _ f reactive)).
    destruct (String.eqb e event) eqn:E; [|reflexivity].
    apply String.eqb_eq in E. subst e. apply delete_absent. exact H2.
Qed.

(** X2.  [on(E, f)] followed by [off(E, f)], when f was not registered for E:
    every set holds what it held, in the same order, and every count is
    what it was. *)
Theorem on_then_off_restores_registrations
    (s : Bus) (event : string) (f : fid) (reactive : bool) :
  JsSet.has (registered event s) f = false ->
  JsSet.has (registered_once event s) f = false ->
  let s' := bus_off event f (bus_on event f reactive s) in
  (forall e, JsSet.elements (registered e s')
             = JsSet.elements (registered e s)) /\
  (forall e, registered_once e s' = registered_once e s) /\
  (forall e, listenerCount e s' = listenerCount e s) /\
  (forall e, hasListeners e s' = hasListeners e s) /\
  middleware s' = middleware s.
Proof.
  intros H1 H2 s'.
  destruct (on_then_off_restores s event f reactive H1 H2) as (A & B).
  fold s' in A, B.
  assert (C : forall e, listenerCount e s' = listenerCount e s).
  { intros e. rewrite !listenerCount_sizes. unfold JsSet.size.
    rewrite A, B. reflexivity. }
  refine (conj A (conj B (conj C (conj _ _)))).
  - intros e. unfold hasListeners. rewrite C. reflexivity.
  - unfold s'. rewrite (proj2 (proj2 (events_bus_off _ event f))).
    apply (events_bus_on s event f reactive).
Qed.

(** X3.  [off(E, f)] for a function that is registered nowhere under E, an
    event the bus has never seen included, changes no set and no map. *)
Theorem off_of_unregistered_changes_nothing
    (s : Bus) (event : string) (f : fid) :
  JsSet.has (registered event s) f = false ->
  JsSet.has (registered_once event s) f = false ->
  events (bus_off event f s) = events s /\
  onceEvents (bus_off event f s) = onceEvents s /\
  middleware (bus_off event f s) = middleware s /\
  eventNames (bus_off event f s) = eventNames s /\
  (forall e, listenerCount e (bus_off event f s) = listenerCount e s).
Proof.
  intros H1 H2.
  destruct (events_bus_off s event f) as (E1 & E2 & E3).
  assert (A : events (bus_off event f s) = events s).
  { rewrite E1. apply update_fixed. intros l G. apply delete_absent.
    unfold registered in H1. rewrite G in H1. exact H1. }
  assert (B : onceEvents (bus_off event f s) = onceEvents s).
  { rewrite E2. apply update_fixed. intros l G. apply delete_absent.
    unfold registered_once in H2. rewrite G in H2. exact H2. }
  refine (conj A (conj B (conj E3 (conj _ _)))).
  - unfold eventNames. rewrite A, B. reflexivity.
  - intros e. unfold listenerCount. rewrite A, B. reflexivity.
Qed.

(** ** [eventNames] *)

Lemma dedup_spec (names seen : list string) :
  NoDup (dedup seen names) /\
  forall x, In x (dedup seen names)
            <-> In x names /\ existsb (String.eqb x) seen = false.
Proof.
  revert seen. induction names as [|n names IH]; intros seen; simpl.
  - split; [constructor | intros x; tauto].
  - destruct (existsb (String.eqb n) seen) eqn:S.
    + destruct (IH seen) as [N M]. split; [exact N|].
      intros x. rewrite M. split; [tauto|].
      intros [[E|H] Hx]; [|tauto]. subst x. congruence.
    + destruct (IH (n :: seen)) as [N M]. split.
      * constructor; [|exact N]. intros H. apply M in H.
        destruct H as [_ H]. simpl in H. rewrite String.eqb_refl in H.
        discriminate H.
      * intros x. simpl. rewrite M. simpl.
        destruct (String.eqb x n) eqn:E.
        -- apply String.eqb_eq in E. subst x. simpl.
           split; [intros [_|[_ H]]; [tauto | discriminate H] | tauto].
        -- apply String.eqb_neq in E. simpl. split.
           ++ intros [H|H]; [congruence | tauto].
           ++ intros [[H|H] Hx]; [congruence | tauto].
Qed.

Lemma eventNames_keys (s : Bus) (e : string) :
  In e (eventNames s)
  <-> In e (JsMap.keys (events s)) \/ In e (JsMap.keys (onceEvents s)).
Proof.
  unfold eventNames.
  destruct (dedup_spec (JsMap.keys (events s) ++ JsMap.keys (onceEvents s))
              []) as [_ M].
  rewrite M, in_app_iff. simpl. tauto.
Qed.

(** X4.  [eventNames()] lists every key of the two maps once, whatever the
    sets hold, and nothing else. *)
Theorem eventNames_lists_each_key_once (s : Bus) :
  NoDup (eventNames s) /\
  forall e, In e (eventNames s)
            <-> In e (JsMap.keys (events s))
                \/ In e (JsMap.keys (onceEvents s)).
Proof.
  unfold eventNames.
  destruct (dedup_spec (JsMap.keys (events s) ++ JsMap.keys (onceEvents s))
              []) as [N M].
  split; [exact N|]. intros e. rewrite M, in_app_iff. simpl. tauto.
Qed.

(** ** [removeAllListeners] *)

(** Each map has one entry for a key. *)
Definition keyed (s : Bus) : Prop :=
  NoDup (JsMap.keys (events s)) /\ NoDup (JsMap.keys (onceEvents s)).

Lemma NoDup_keys_add_listener (m : JsMap.t JsSet.t) (e : string) (f : fid) :
  NoDup (JsMap.keys m) -> NoDup (JsMap.keys (add_listener m e f)).
Proof.
  intros N. unfold add_listener, JsMap.has. rewrite keys_update.
  destruct (JsMap.get m e) eqn:G; [exact N|].
  rewrite keys_set_fresh by exact G.
  apply NoDup_app; [exact N | repeat constructor; intros [] |].
  intros x Hx [<-|[]]. apply get_none_keys in G. contradiction.
Qed.

Lemma keyed_new_bus m h : keyed (new_bus m h).
Proof. destruct m; split; constructor. Qed.

Lemma keyed_bus_on e f r (s : Bus) : keyed s -> keyed (bus_on e f r s).
Proof.
  intros [N1 N2]. destruct (events_bus_on s e f r) as (E1 & E2 & _).
  unfold keyed. rewrite E1, E2.
  split; [apply NoDup_keys_add_listener, N1 | exact N2].
Qed.

Lemma keyed_bus_once e f r (s : Bus) : keyed s -> keyed (bus_once e f r s).
Proof.
  intros [N1 N2]. destruct (events_bus_once s e f r) as (E1 & _).
  unfold keyed. rewrite E1, onceEvents_bus_once.
  split; [exact N1 | apply NoDup_keys_add_listener, N2].
Qed.

Lemma keyed_bus_off e f (s : Bus) : keyed s -> keyed (bus_off e f s).
Proof.
  intros [N1 N2]. destruct (events_bus_off s e f) as (E1 & E2 & _).
  unfold keyed. rewrite E1, E2, !keys_update. split; assumption.
Qed.

Lemma keyed_removeAll e (s : Bus) :
  keyed s -> keyed (removeAllListeners e s).
Proof.
  intros [N1 N2]. unfold keyed.
  rewrite (proj1 (removeAll_maps s e)), removeAll_once.
  destruct (truthy_event e); [|split; constructor].
  split; apply NoDup_keys_delete; assumption.
Qed.

Lemma keyed_same (g : Bus -> Bus) :
  (forall s, events (g s) = events s /\ onceEvents (g s) = onceEvents s) ->
  forall s, keyed s -> keyed (g s).
Proof.
  intros Hg s Hs. destruct (Hg s) as [E1 E2]. unfold keyed.
  rewrite E1, E2. exact Hs.
Qed.

Definition all_keyed (w : World) : Prop := Forall keyed (buses w).

Lemma all_keyed_upd_bus (b : bid) (g : Bus -> Bus) :
  (forall s, keyed s -> keyed (g s)) ->
  step all_keyed whatever (upd_bus b g).
Proof.
  intros Hg w Hw. split; [|exact Logic.I].
  unfold all_keyed. simpl. apply Forall_update_nth; assumption.
Qed.

Lemma all_keyed_frame (f : World -> World) :
  (forall w, buses (f w) = buses w) -> step all_keyed whatever f.
Proof.
  intros Hf w Hw. split; [|exact Logic.I].
  unfold all_keyed. rewrite Hf. exact Hw.
Qed.

Lemma all_keyed_on b e v r :
  step all_keyed whatever (fun w => fst (on b e v r w)).
Proof.
  destruct v as [f|]; simpl;
    [|apply all_keyed_frame; reflexivity].
  apply all_keyed_upd_bus. intros s. apply keyed_bus_on.
Qed.

Lemma all_keyed_once b e v r :
  step all_keyed whatever (fun w => fst (once b e v r w)).
Proof.
  destruct v as [f|]; simpl;
    [|apply all_keyed_frame; reflexivity].
  intros w Hw. split; [|exact Logic.I].
  apply (all_keyed_upd_bus b
           (bus_once e (Internal (List.length (fns w))) r)
           (fun s => keyed_bus_once e _ r s)
           (set_fns (fns w ++ [OnceWrapper b e f]) w)).
  exact Hw.
Qed.

Lemma all_keyed_off b e v : step all_keyed whatever (off b e v).
Proof.
  destruct v as [f|]; simpl; apply all_keyed_upd_bus; intros s;
    [apply keyed_bus_off | apply keyed_same; intros; split; reflexivity].
Qed.

Lemma all_keyed_elementary : elementary all_keyed whatever anyone.
Proof.
  constructor; try (intros; exact Logic.I).
  - intros f x ev w _ _. revert w. apply all_keyed_frame. reflexivity.
  - intros err e l. apply all_keyed_frame. reflexivity.
  - intros msg err. apply all_keyed_frame. reflexivity.
  - intros b e v r. apply all_keyed_on.
  - intros b e v r. apply all_keyed_once.
  - apply all_keyed_off.
  - intros c x. apply all_keyed_frame. reflexivity.
  - intros t. apply all_keyed_frame. reflexivity.
  - intros p x. apply all_keyed_frame. reflexivity.
  - intros b. apply all_keyed_upd_bus, keyed_same. intros; split; reflexivity.
  - intros b e. apply all_keyed_upd_bus, keyed_same.
    intros; split; reflexivity.
  - intros b l. apply all_keyed_upd_bus, keyed_same. intros s.
    destruct (cleanupAll_frame l s) as (E1 & E2 & _). split; assumption.
Qed.

Lemma all_keyed_public : public all_keyed whatever.
Proof.
  constructor.
  - intros m h w Hw. split; [|exact Logic.I]. unfold all_keyed. simpl.
    apply Forall_app. split; [exact Hw|].
    constructor; [apply keyed_new_bus | constructor].
  - intros b e [u|]; simpl;
      [apply all_keyed_upd_bus, keyed_same; intros; split; reflexivity
      |apply all_keyed_frame; reflexivity].
  - intros b e m. apply all_keyed_upd_bus, keyed_same.
    intros; split; reflexivity.
  - intros b e. apply all_keyed_upd_bus. intros s. apply keyed_removeAll.
  - intros b. apply all_keyed_upd_bus. intros s _. split; constructor.
  - intros b e w Hw. split; [|exact Logic.I]. unfold stream. cbn [fst].
    refine (proj1 (all_keyed_on b e _ true _ _)). exact Hw.
  - intros b e t w Hw. split; [|exact Logic.I]. unfold waitFor. cbn [fst].
    refine (proj1 (all_keyed_once b e _ false _ _)).
    destruct (truthy_timeout t); exact Hw.
  - intros b e tb te w Hw. split; [|exact Logic.I]. unfold pipe. cbn [fst].
    refine (proj1 (all_keyed_on b e _ false _ _)). exact Hw.
  - intros t w Hw. split; [|exact Logic.I]. unfold fireTimer.
    destruct (nth_error (timers w) t) as [tm|]; [|exact Hw].
    destruct (t_state tm); try exact Hw.
    refine (proj1 (all_keyed_frame (settle _ _) (fun _ => eq_refl) _ _)).
    refine (proj1 (all_keyed_off _ _ _ _ _)). exact Hw.
Qed.

Lemma all_keyed_run user fuel session (w w' : World) rs :
  all_keyed w -> run user fuel session w = Some (w', rs) -> all_keyed w'.
Proof.
  intros Hw H.
  refine (proj1 (run_sound user all_keyed whatever anyone
                   all_keyed_elementary _ all_keyed_public
                   fuel session w w' rs Hw H)).
  intros emit_ He n b e x.
  apply (drain_once_sound_plain user _ _ _ all_keyed_elementary);
    [apply callable_of_sound; exact He | | intros; exact Logic.I].
  intros b0 e0. apply all_keyed_upd_bus. intros s [N1 N2].
  split; [exact N1|]. unfold clear_once. simpl. rewrite keys_update.
  exact N2.
Qed.

Lemma truthy_named (event : string) :
  event <> "" -> truthy_event (Some event) = Some event.
Proof. destruct event; [congruence | reflexivity]. Qed.

(** X5.  [removeAllListeners(E)] for a name E other than the empty string
    deletes the two entries of E: afterwards [listenerCount(E)] is 0 and
    [eventNames()] no longer lists E, unlike after [off]; the sets and the
    listing of every other event, and the middleware, are untouched.  The
    maps of every bus that public calls build have one entry for a key. *)
Theorem removeAllListeners_forgets_the_event :
  (forall (s : Bus) (event : string),
      event <> "" -> keyed s ->
      let s' := removeAllListeners (Some event) s in
      listenerCount event s' = 0 /\
      hasListeners event s' = false /\
      ~ In event (eventNames s') /\
      (forall e, e <> event ->
                 registered e s' = registered e s /\
                 registered_once e s' = registered_once e s /\
                 listenerCount e s' = listenerCount e s /\
                 (In e (eventNames s') <-> In e (eventNames s))) /\
      middleware s' = middleware s) /\
  (forall user fuel session (w : World) rs,
      run user fuel session start = Some (w, rs) -> Forall keyed (buses w)).
Proof.
  split.
  - intros s event Hn [N1 N2] s'.
    destruct (removeAll_maps s (Some event)) as [E1 E3].
    pose proof (removeAll_once s (Some event)) as E2.
    rewrite (truthy_named event Hn) in E1, E2. fold s' in E1, E2, E3.
    assert (G1 : JsMap.get (events s') event = None).
    { rewrite E1. apply get_none_keys. apply keys_delete_unique, N1. }
    assert (G2 : JsMap.get (onceEvents s') event = None).
    { rewrite E2. apply get_none_keys. apply keys_delete_unique, N2. }
    assert (C : listenerCount event s' = 0).
    { unfold listenerCount. rewrite G1, G2. reflexivity. }
    refine (conj C (conj _ (conj _ (conj _ E3)))).
    + unfold hasListeners. rewrite C. reflexivity.
    + intros H. apply eventNames_keys in H.
      destruct H as [H|H].
      * apply get_none_keys in G1. contradiction.
      * apply get_none_keys in G2. contradiction.
    + intros e Ne.
      assert (Eb : String.eqb e event = false) by (apply String.eqb_neq, Ne).
      assert (A : registered e s' = registered e s).
      { unfold registered. rewrite E1, get_delete_other by exact Eb.
        reflexivity. }
      assert (B : registered_once e s' = registered_once e s).
      { unfold registered_once. rewrite E2, get_delete_other by exact Eb.
        reflexivity. }
      refine (conj A (conj B (conj _ _))).
      * rewrite !listenerCount_sizes, A, B. reflexivity.
      * rewrite !eventNames_keys, E1, E2.
        split; (intros [H|H];
                [left | right]);
          first [exact (keys_delete _ _ _ H)
                |exact (keys_delete_other _ _ _ Ne H)].
  - intros user fuel session w rs H.
    apply (all_keyed_run user fuel session start w rs); [constructor | exact H].
Qed.

(** X6.  Without a name, and with the empty string, which the test
    [if (event)] takes for no name, [removeAllListeners] empties both maps:
    no event is listed and every count is 0.  With or without a name it
    leaves the middleware, the counters and the handler alone. *)
Theorem removeAllListeners_without_name_clears_all (s : Bus) :
  removeAllListeners (Some "") s = removeAllListeners None s /\
  events (removeAllListeners None s) = [] /\
  onceEvents (removeAllListeners None s) = [] /\
  eventNames (removeAllListeners None s) = [] /\
  (forall e, listenerCount e (removeAllListeners None s) = 0) /\
  activeListeners (reactiveState (removeAllListeners None s)) = 0 /\
  (forall arg,
      middleware (removeAllListeners arg s) = middleware s /\
      errorHandler (removeAllListeners arg s) = errorHandler s /\
      totalEventsEmitted (reactiveState (removeAllListeners arg s))
      = totalEventsEmitted (reactiveState s) /\
      lastEmittedEvent (reactiveState (removeAllListeners arg s))
      = lastEmittedEvent (reactiveState s) /\
      errorCount (reactiveState (removeAllListeners arg s))
      = errorCount (reactiveState s)).
Proof.
  refine (conj eq_refl (conj eq_refl (conj eq_refl (conj eq_refl
            (conj _ (conj eq_refl _)))))).
  - intros e. reflexivity.
  - intros arg. unfold removeAllListeners.
    destruct (truthy_event arg) as [ev|].
    + set (s1 := match JsMap.get (events s) ev with
                 | Some l => cleanupAll (JsSet.elements l) s
                 | None => s
                 end).
      assert (F1 : middleware s1 = middleware s /\
                   errorHandler s1 = errorHandler s /\
                   reactiveState s1 = reactiveState s).
      { unfold s1. destruct (JsMap.get (events s) ev) as [l|];
          [|repeat split].
        destruct (cleanupAll_frame (JsSet.elements l) s)
          as (_ & _ & A & _ & B & C). repeat split; assumption. }
      set (s2 := match JsMap.get (onceEvents s1) ev with
                 | Some l => cleanupAll (JsSet.elements l) s1
                 | None => s1
                 end).
      assert (F2 : middleware s2 = middleware s1 /\
                   errorHandler s2 = errorHandler s1 /\
                   reactiveState s2 = reactiveState s1).
      { unfold s2. destruct (JsMap.get (onceEvents s1) ev) as [l|];
          [|repeat split].
        destruct (cleanupAll_frame (JsSet.elements l) s1)
          as (_ & _ & A & _ & B & C). repeat split; assumption. }
      destruct F1 as (M1 & H1 & R1), F2 as (M2 & H2 & R2). simpl.
      rewrite M2, M1, H2, H1, R2, R1. repeat split.
    + set (s1 := cleanupAll (all_listeners (events s)) s).
      destruct (cleanupAll_frame (all_listeners (events s)) s)
        as (_ & _ & R1 & _ & M1 & H1). fold s1 in R1, M1, H1.
      destruct (cleanupAll_frame (all_listeners (onceEvents s1)) s1)
        as (_ & _ & R2 & _ & M2 & H2).
      simpl. rewrite M2, M1, H2, H1, R2, R1. repeat split.
Qed.

(** ** Middleware registration *)

Lemma remove_first_absent (m : fid) (l : list fid) :
  existsb (fid_eqb m) l = false -> remove_first m l = l.
Proof.
  induction l as [|g l IH]; simpl; [reflexivity|].
  destruct (fid_eqb m g); simpl; [discriminate|].
  intros H. rewrite IH by exact H. reflexivity.
Qed.

Lemma remove_first_app (m : fid) (l r : list fid) :
  remove_first m (l ++ r)
  = if existsb (fid_eqb m) l then remove_first m l ++ r
    else l ++ remove_first m r.
Proof.
  induction l as [|g l IH]; simpl; [reflexivity|].
  destruct (fid_eqb m g); simpl; [reflexivity|].
  rewrite IH. destruct (existsb (fid_eqb m) l); reflexivity.
Qed.

Lemma length_remove_first (m : fid) (l : list fid) :
  List.length (remove_first m l)
  = List.length l - (if existsb (fid_eqb m) l then 1 else 0).
Proof.
  induction l as [|g l IH]; simpl; [reflexivity|].
  destruct (fid_eqb m g); simpl; [lia|].
  rewrite IH. destruct (existsb (fid_eqb m) l) eqn:E; [|lia].
  destruct l; [discriminate E | simpl; lia].
Qed.

Lemma middleware_of_use (s : Bus) (event e : string) (m : fid) :
  middleware_of e (bus_use event m s)
  = if String.eqb e event then middleware_of event s ++ [m]
    else middleware_of e s.
Proof.
  unfold middleware_of, bus_use, JsMap.has. simpl. rewrite get_update.
  destruct (String.eqb e event) eqn:E.
  - apply String.eqb_eq in E. subst e.
    destruct (JsMap.get (middleware s) event) as [l|] eqn:G.
    + rewrite G. reflexivity.
    + rewrite get_set_same. reflexivity.
  - destruct (JsMap.get (middleware s) event); [reflexivity|].
    rewrite get_set_other by exact E. reflexivity.
Qed.

Lemma middleware_of_unregister (s : Bus) (event e : string) (m : fid) :
  middleware_of e (bus_unregister event m s)
  = if String.eqb e event then remove_first m (middleware_of event s)
    else middleware_of e s.
Proof.
  unfold middleware_of, bus_unregister. simpl. rewrite get_update.
  destruct (String.eqb e event) eqn:E; [|reflexivity].
  apply String.eqb_eq in E. subst e.
  destruct (JsMap.get (middleware s) event); reflexivity.
Qed.

(** X7.  [use(E, m)] appends m to the array of E and to no other.  The closure
    it returns takes out the first m of the array, which is an earlier
    registration of m when there is one: the array is as long as before
    [use], and it is the array before [use] when m was not in it.  Called
    again, the closure takes out a further m if there is one and does
    nothing otherwise; it never touches the listeners. *)
Theorem unregister_removes_first_occurrence
    (s : Bus) (event : string) (m : fid) :
  let before := middleware_of event s in
  let s1 := bus_use event m s in
  let s2 := bus_unregister event m s1 in
  (forall e, middleware_of e s1
             = if String.eqb e event then before ++ [m]
               else middleware_of e s) /\
  (forall e, middleware_of e s2
             = if String.eqb e event
               then (if existsb (fid_eqb m) before
                     then remove_first m before ++ [m]
                     else before)
               else middleware_of e s) /\
  List.length (middleware_of event s2) = List.length before /\
  (forall e, middleware_of e (bus_unregister event m s2)
             = if String.eqb e event
               then remove_first m (middleware_of event s2)
               else middleware_of e s) /\
  JsMap.has (middleware s2) event = true /\
  events s2 = events s /\ onceEvents s2 = onceEvents s.
Proof.
  intros before s1 s2.
  assert (A : forall e, middleware_of e s1
                        = if String.eqb e event then before ++ [m]
                          else middleware_of e s).
  { intros e. apply middleware_of_use. }
  assert (B : forall e, middleware_of e s2
                        = if String.eqb e event
                          then (if existsb (fid_eqb m) before
                                then remove_first m before ++ [m]
                                else before)
                          else middleware_of e s).
  { intros e. unfold s2. rewrite middleware_of_unregister, !A.
    rewrite String.eqb_refl.
    destruct (String.eqb e event); [|reflexivity].
    rewrite remove_first_app. simpl. rewrite fid_eqb_refl.
    destruct (existsb (fid_eqb m) before); [reflexivity | apply app_nil_r]. }
  refine (conj A (conj B (conj _ (conj _ (conj _ (conj eq_refl eq_refl)))))).
  - rewrite B, String.eqb_refl.
    destruct (existsb (fid_eqb m) before) eqn:E; [|reflexivity].
    rewrite length_app, length_remove_first, E. simpl.
    destruct before; [discriminate E | simpl; lia].
  - intros e. rewrite middleware_of_unregister.
    destruct (String.eqb e event) eqn:E; [reflexivity|].
    rewrite B, E. reflexivity.
  - unfold s2, s1, bus_unregister, bus_use, JsMap.has. simpl.
    rewrite get_update_same.
    destruct (JsMap.get (middleware s) event) as [l|] eqn:G.
    + rewrite get_update_same, G. reflexivity.
    + rewrite get_update_same, get_set_same. reflexivity.
Qed.

(** ** Arguments that are not functions *)

(** X8.  [on], [once], [use] and the [subscribe] of a stream throw a
    [TypeError] when they are handed something that is not a function, and
    leave the world as it was: nothing is registered, no function object
    is created and the metrics are not recomputed.  [off] takes anything
    and returns. *)
Theorem non_function_arguments_are_rejected
    user (fuel : nat) (b : bid) (event : string) (reactive : bool)
    (l : fid) (c : cid) (w : World) :
  exec user fuel (OOn b event NotCallable reactive) w
  = Some (w, Throw (JsTypeError "The listener must be a function")) /\
  exec user fuel (OOnce b event NotCallable reactive) w
  = Some (w, Throw (JsTypeError "The listener must be a function")) /\
  exec user fuel (OUse b event NotCallable) w
  = Some (w, Throw (JsTypeError "Middleware must be a function")) /\
  exec user fuel (OStreamSubscribe (HStream b event l c) NotCallable) w
  = Some (w, Throw (JsTypeError "The listener must be a function")) /\
  (exists w', exec user fuel (OOff b event NotCallable) w
              = Some (w', Normal RVoid) /\
              forall b',
                events (the_bus b' w') = events (the_bus b' w) /\
                onceEvents (the_bus b' w') = onceEvents (the_bus b' w)).
Proof.
  refine (conj eq_refl (conj eq_refl (conj eq_refl (conj eq_refl _)))).
  eexists. split; [reflexivity|].
  intros b'. simpl. rewrite the_bus_upd_bus.
  destruct (Nat.eqb b b' && Nat.ltb b' (List.length (buses w)));
    split; reflexivity.
Qed.

(** ** The closures that [once], [pipe] and [stream] return *)

Lemma once_then_off_restores (s : Bus) (event : string) (f : fid)
    (reactive : bool) :
  JsSet.has (registered event s) f = false ->
  JsSet.has (registered_once event s) f = false ->
  let s' := bus_off event f (bus_once event f reactive s) in
  (forall e, JsSet.elements (registered e s')
             = JsSet.elements (registered e s)) /\
  (forall e, JsSet.elements (registered_once e s')
             = JsSet.elements (registered_once e s)).
Proof.
  intros H1 H2 s'.
  destruct (events_bus_once s event f reactive) as (E1 & _).
  pose proof (onceEvents_bus_once s event f reactive) as E2.
  split; intros e; unfold s'.
  - rewrite (proj1 (registered_bus_off _ event e f)).
    unfold registered. rewrite E1.
    destruct (String.eqb e event) eqn:E; [|reflexivity].
    apply String.eqb_eq in E. subst e.
    fold (registered event s). rewrite delete_absent by exact H1.
    reflexivity.
  - rewrite (proj2 (registered_bus_off _ event e f)).
    unfold registered_once. rewrite E2, !get_add_listener.
    rewrite String.eqb_refl.
    destruct (String.eqb e event) eqn:E; [|reflexivity].
    apply String.eqb_eq in E. subst e.
    fold (registered_once event s). apply elements_delete_add, H2.
Qed.

Lemma list_sum_zero (l : list nat) (n : nat) :
  list_sum l = 0 -> In n l -> n = 0.
Proof.
  induction l as [|a l IH]; simpl; [tauto|].
  intros H [<-|Hn]; [lia | apply IH; [lia | exact Hn]].
Qed.

Lemma occurrences_none (k : nat) (l : JsSet.t) :
  occurrences k l = 0 -> JsSet.has l (Internal k) = false.
Proof.
  intros H. destruct (JsSet.has l (Internal k)) eqn:E; [|reflexivity].
  apply has_elements in E. unfold occurrences in H.
  assert (In (Internal k)
             (filter (fid_eqb (Internal k)) (JsSet.elements l))).
  { apply filter_In. split; [exact E | apply fid_eqb_refl]. }
  destruct (filter (fid_eqb (Internal k)) (JsSet.elements l));
    [contradiction | discriminate H].
Qed.

(** Nothing is registered under an id that does not exist yet. *)
Lemma unreferenced_unregistered (k : nat) (w : World) (b : bid)
    (e : string) :
  unreferenced k w ->
  JsSet.has (registered e (the_bus b w)) (Internal k) = false /\
  JsSet.has (registered_once e (the_bus b w)) (Internal k) = false.
Proof.
  intros (U1 & _ & _ & Up & _).
  unfold the_bus.
  destruct (nth_error (buses w) b) as [s|] eqn:Eb.
  - rewrite (nth_error_nth _ _ _ Eb). split.
    + unfold registered.
      destruct (JsMap.get (events s) e) as [l|] eqn:G; [|reflexivity].
      destruct (JsSet.has l (Internal k)) eqn:H; [|reflexivity].
      exfalso. apply (U1 b s e l Eb (get_in _ _ _ G)).
      apply has_elements. exact H.
    + unfold registered_once.
      destruct (JsMap.get (onceEvents s) e) as [l|] eqn:G; [|reflexivity].
      apply occurrences_none.
      assert (Bs : bus_pending k s = 0).
      { apply (list_sum_zero _ _ Up). apply in_map. eapply nth_error_In.
        exact Eb. }
      apply (list_sum_zero _ _ Bs).
      apply (in_map (fun kv => occurrences k (snd kv)) _ (e, l)).
      exact (get_in _ _ _ G).
  - apply nth_error_None in Eb. rewrite nth_overflow by exact Eb.
    split; reflexivity.
Qed.

(** The registrations of a world: what each set of each bus holds. *)
Definition same_listeners (w w' : World) : Prop :=
  forall b e,
    JsSet.elements (live_listeners b e w')
    = JsSet.elements (live_listeners b e w) /\
    JsSet.elements (once_listeners b e w')
    = JsSet.elements (once_listeners b e w) /\
    listenerCount e (the_bus b w') = listenerCount e (the_bus b w).

Lemma undone (b : bid) (g : Bus -> Bus) (w w1 : World) :
  buses w1 = buses w ->
  (forall e,
      JsSet.elements (registered e (g (the_bus b w)))
      = JsSet.elements (registered e (the_bus b w)) /\
      JsSet.elements (registered_once e (g (the_bus b w)))
      = JsSet.elements (registered_once e (the_bus b w))) ->
  same_listeners w (upd_bus b g w1).
Proof.
  intros Eb Hg b' e.
  assert (T : the_bus b' w1 = the_bus b' w)
    by (unfold the_bus; rewrite Eb; reflexivity).
  assert (A : JsSet.elements (registered e (the_bus b' (upd_bus b g w1)))
              = JsSet.elements (registered e (the_bus b' w)) /\
              JsSet.elements
                (registered_once e (the_bus b' (upd_bus b g w1)))
              = JsSet.elements (registered_once e (the_bus b' w))).
  { rewrite the_bus_upd_bus, T.
    destruct (Nat.eqb b b') eqn:E; simpl; [|split; reflexivity].
    apply Nat.eqb_eq in E. subst b'.
    destruct (Nat.ltb b (List.length (buses w1)));
      [apply Hg | split; reflexivity]. }
  destruct A as [A1 A2].
  refine (conj A1 (conj A2 _)).
  rewrite !listenerCount_sizes. unfold JsSet.size. rewrite A1, A2.
  reflexivity.
Qed.

Lemma update_nth_twice {A : Type} (n : nat) (g h : A -> A) (l : list A) :
  update_nth n h (update_nth n g l) = update_nth n (fun a => h (g a)) l.
Proof.
  revert n. induction l as [|a l IH]; intros [|n]; simpl; try reflexivity.
  rewrite IH. reflexivity.
Qed.

Lemma upd_bus_twice (b : bid) (g h : Bus -> Bus) (w : World) :
  upd_bus b h (upd_bus b g w) = upd_bus b (fun s => h (g s)) w.
Proof.
  unfold upd_bus. simpl. rewrite update_nth_twice. reflexivity.
Qed.

(** X9.  In a world that public calls have built, the closure that [once]
    returns, the closure that [pipe] returns and the [destroy] of a stream
    take out what the call put in: every set of every bus holds what it
    held before the call, in the same order. *)
Theorem returned_closures_undo_registrations
    user (fuel : nat) (session : list op) (w : World)
    (rs : list (completion retval))
    (b : bid) (event : string) (u : nat) (reactive : bool)
    (toBus : bid) (toEvent : option string) :
  run user fuel session start = Some (w, rs) ->
  (exists h w1 w2,
      exec user fuel (OOnce b event (Callback u) reactive) w
      = Some (w1, Normal (RHandle h)) /\
      exec user fuel (OCall h) w1 = Some (w2, Normal RVoid) /\
      same_listeners w w2) /\
  (exists h w1 w2,
      exec user fuel (OPipe b event toBus toEvent) w
      = Some (w1, Normal (RHandle h)) /\
      exec user fuel (OCall h) w1 = Some (w2, Normal RVoid) /\
      same_listeners w w2) /\
  (exists h w1 w2,
      exec user fuel (OStream b event) w = Some (w1, Normal (RHandle h)) /\
      exec user fuel (OStreamDestroy h) w1 = Some (w2, Normal RVoid) /\
      same_listeners w w2).
Proof.
  intros H.
  assert (U : unreferenced (List.length (fns w)) w).
  { apply (vacant_run (List.length (fns w)) user fuel session start w rs);
      [apply vacant_start | exact H | apply Nat.le_refl]. }
  destruct (unreferenced_unregistered _ w b event U) as [U1 U2].
  set (k := Internal (List.length (fns w))) in *.
  refine (conj _ (conj _ _)).
  - eexists. eexists. eexists.
    split; [reflexivity|]. split; [reflexivity|].
    cbn [fst once value_of off]. rewrite upd_bus_twice.
    apply undone; [reflexivity|].
    destruct (once_then_off_restores (the_bus b w) event k reactive U1 U2)
      as (A & B).
    intros e. split; [apply A | apply B].
  - eexists. eexists. eexists.
    split; [reflexivity|]. split; [reflexivity|].
    cbn [fst pipe on off]. rewrite upd_bus_twice.
    apply undone; [reflexivity|].
    destruct (on_then_off_restores (the_bus b w) event k false U1 U2)
      as (A & B).
    intros e. split; [apply A | rewrite B; reflexivity].
  - eexists. eexists. eexists.
    split; [reflexivity|]. split; [reflexivity|].
    cbn [fst stream on off]. rewrite upd_bus_twice.
    apply undone; [reflexivity|].
    destruct (on_then_off_restores (the_bus b w) event k true U1 U2)
      as (A & B).
    intros e. split; [apply A | rewrite B; reflexivity].
Qed.

(** ** Emission over streams and waiting promises

    The listeners the class makes itself for [stream] and [waitFor] call
    nothing back.  With callbacks that make no calls, an emission whose
    sets hold such listeners too is still a plain walk. *)

Section Served.

Variable user : nat -> payload -> option string -> behaviour.
Variable emit_ : bid -> string -> payload -> M bool.
Hypothesis quiet : no_calls user.

(** The body of a stream listener or of the listener of [waitFor]. *)
Definition ran (p : payload) (c : closure) (w : World) : World :=
  match c with
  | StreamListener cell => update_cell cell p w
  | WaitListener timeoutId q =>
      settle q (Fulfilled p)
        (match timeoutId with
         | Some t => clearTimeout t w
         | None => w
         end)
  | _ => w
  end.

Definition inert (c : closure) : Prop :=
  match c with
  | StreamListener _ | WaitListener _ _ => True
  | _ => False
  end.

(** What a persistent set may hold: callbacks and stream listeners. *)
Definition steady (w : World) (l : fid) : Prop :=
  match l with
  | User _ => True
  | Internal k => exists c, nth_error (fns w) k = Some c /\ inert c
  end.

(** What a once-set may hold as well: the wrapper of a callback, of a
    stream listener or of the listener of [waitFor]. *)
Definition simple (w : World) (l : fid) : Prop :=
  match l with
  | User _ => True
  | Internal k =>
      exists c, nth_error (fns w) k = Some c /\
                match c with
                | OnceWrapper _ _ (User _) => True
                | OnceWrapper _ _ (Internal j) =>
                    exists c', nth_error (fns w) j = Some c' /\ inert c'
                | other => inert other
                end
  end.

Lemma steady_simple (w : World) (l : fid) : steady w l -> simple w l.
Proof.
  destruct l as [u|k]; [exact (fun H => H)|].
  intros (c & Hc & Hi). exists c. split; [exact Hc|].
  destruct c; try exact Hi; destruct Hi.
Qed.

Lemma plain_simple (w : World) (l : fid) : plain w l -> simple w l.
Proof.
  destruct l as [u|k]; [exact (fun H => H)|].
  intros (wb & we & u & Hk). eexists. split; [exact Hk | exact Logic.I].
Qed.

(** One turn of [forEach] on a simple listener. *)
Definition served (b : bid) (event : string) (p : payload)
    (w : World) (l : fid) : World :=
  match l with
  | User u =>
      settled b event l (result (user u p None)) (log (Invoked l p None) w)
  | Internal k =>
      match nth_error (fns w) k with
      | Some (OnceWrapper wb we (User u)) =>
          settled b event l (result (user u p None))
            (log (Invoked (User u) p None)
               (off wb we (VFun l) (log (Invoked l p None) w)))
      | Some (OnceWrapper wb we (Internal j)) =>
          match nth_error (fns w) j with
          | Some c =>
              ran p c
                (log (Invoked (Internal j) p None)
                   (off wb we (VFun l) (log (Invoked l p None) w)))
          | None => w
          end
      | Some c => ran p c (log (Invoked l p None) w)
      | None => w
      end
  end.

Lemma served_delivered (b : bid) (event : string) (p : payload)
    (w : World) (l : fid) :
  plain w l -> served b event p w l = delivered user b event p w l.
Proof.
  destruct l as [u|k]; [reflexivity|].
  intros (wb & we & u & Hk). unfold served, delivered. rewrite Hk.
  reflexivity.
Qed.

Lemma run_inert (call : fid -> M jsret) (self : fid) (c : closure)
    (p : payload) (w : World) :
  inert c ->
  run_closure emit_ call self c p w = Some (ran p c w, Normal RetUndefined).
Proof.
  destruct c as [| cell |[t|] q|]; intros H; try destruct H; reflexivity.
Qed.

Lemma invoke_inert (d : nat) (k : nat) (c : closure) (p : payload)
    (ev : option string) (w : World) :
  nth_error (fns w) k = Some c -> inert c ->
  invoke user emit_ (S d) (Internal k) p ev w
  = Some (ran p c (log (Invoked (Internal k) p ev) w), Normal RetUndefined).
Proof.
  intros Hk Hi. rewrite (invoke_S_internal user emit_ d k c p ev w Hk).
  apply run_inert. exact Hi.
Qed.

(** One turn, whatever comes next. *)
Lemma turn_served (b : bid) (event : string) (p : payload) (l : fid)
    (d : nat) (K : M unit) (w : World) :
  simple w l -> handler_returns (the_bus b w) ->
  match invoke user emit_ (S (S d)) l p None w with
  | None => None
  | Some (w1, Normal _) => K w1
  | Some (w1, Throw error) => (recover emit_ b event l error ;;; K) w1
  end = K (served b event p w l).
Proof.
  intros Hl Hh. destruct l as [u|k].
  - exact (turn user emit_ quiet b event p (User u) d K w Logic.I Hh).
  - destruct Hl as (c & Hk & Hc). unfold served. rewrite Hk.
    destruct c as [wb we [u|j] | cell | t q | tb te].
    + assert (P : plain w (Internal k)) by (exists wb, we, u; exact Hk).
      rewrite (turn user emit_ quiet b event p (Internal k) d K w P Hh).
      unfold delivered. rewrite Hk. reflexivity.
    + destruct Hc as (c' & Hj & Hi). rewrite Hj.
      rewrite (invoke_S_internal user emit_ (S d) k _ p None w Hk).
      cbn [run_closure]. rewrite bind_modify. cbv beta.
      rewrite (invoke_inert d j c' p None
                 (off wb we (VFun (Internal k))
                    (log (Invoked (Internal k) p None) w)) Hj Hi).
      reflexivity.
    + rewrite (invoke_inert (S d) k _ p None w Hk Logic.I). reflexivity.
    + rewrite (invoke_inert (S d) k _ p None w Hk Logic.I). reflexivity.
    + destruct Hc.
Qed.

Lemma fns_ran (p : payload) (c : closure) (w : World) :
  fns (ran p c w) = fns w.
Proof. destruct c as [| |[t|] q|]; reflexivity. Qed.

Lemma buses_ran (p : payload) (c : closure) (w : World) :
  buses (ran p c w) = buses w.
Proof. destruct c as [| |[t|] q|]; reflexivity. Qed.

Lemma trace_ran (p : payload) (c : closure) (w : World) :
  trace (ran p c w) = trace w.
Proof. destruct c as [| |[t|] q|]; reflexivity. Qed.

Lemma the_bus_ran (b : bid) (p : payload) (c : closure) (w : World) :
  the_bus b (ran p c w) = the_bus b w.
Proof. unfold the_bus. rewrite buses_ran. reflexivity. Qed.

Lemma fns_settled (b : bid) e l res (w : World) :
  fns (settled b e l res w) = fns w.
Proof. destruct res; reflexivity. Qed.

Lemma fns_served (b : bid) e p l (w : World) :
  fns (served b e p w l) = fns w.
Proof.
  unfold served. destruct l as [u|k]; [rewrite fns_settled; reflexivity|].
  destruct (nth_error (fns w) k) as [[wb we [u|j]| | |]|];
    try (rewrite fns_ran; reflexivity); try reflexivity.
  - rewrite fns_settled. reflexivity.
  - destruct (nth_error (fns w) j); [rewrite fns_ran|]; reflexivity.
Qed.

Lemma handler_settled (b b' : bid) e l res (w : World) :
  errorHandler (the_bus b (settled b' e l res w))
  = errorHandler (the_bus b w).
Proof.
  destruct res as [r|t]; [reflexivity|]. apply handler_recovered.
Qed.

Lemma handler_served (b b' : bid) e p l (w : World) :
  errorHandler (the_bus b (served b' e p w l))
  = errorHandler (the_bus b w).
Proof.
  unfold served.
  destruct l as [u|k]; [rewrite handler_settled; reflexivity|].
  destruct (nth_error (fns w) k) as [[wb we [u|j]| | |]|];
    try (rewrite the_bus_ran; reflexivity); try reflexivity.
  - rewrite handler_settled.
    change (the_bus b (log ?e0 ?w0)) with (the_bus b w0).
    rewrite handler_off. reflexivity.
  - destruct (nth_error (fns w) j); [|reflexivity].
    rewrite the_bus_ran.
    change (the_bus b (log ?e0 ?w0)) with (the_bus b w0).
    rewrite handler_off. reflexivity.
Qed.

Lemma same_registry_ran (p : payload) (c : closure) (w : World) :
  same_registry w (ran p c w).
Proof.
  split; [apply fns_ran|]. split; [rewrite buses_ran; reflexivity|].
  intros b. rewrite the_bus_ran. repeat split.
Qed.

Lemma same_registry_steady (b : bid) e p l (w : World) :
  steady w l -> same_registry w (served b e p w l).
Proof.
  destruct l as [u|k]; [intros _; apply same_registry_user|].
  intros (c & Hk & Hi). unfold served. rewrite Hk.
  assert (S : same_registry w (ran p c (log (Invoked (Internal k) p None) w))).
  { apply (same_registry_trans _ (log (Invoked (Internal k) p None) w));
      [repeat split | apply same_registry_ran]. }
  destruct c; try exact S; destruct Hi.
Qed.

(** The walk over a set that the turns leave alone. *)
Lemma callListeners_served (b : bid) (event : string) (p : payload)
    (rd : World -> JsSet.t) (l : JsSet.t) (Keeps : World -> Prop) :
  (forall w, Keeps w ->
             rd w = l /\ handler_returns (the_bus b w) /\
             forall f, In f (JsSet.elements l) -> simple w f) ->
  (forall w f, Keeps w -> In f (JsSet.elements l) ->
               Keeps (served b event p w f)) ->
  forall suffix i steps w,
    skipn i l = suffix -> Keeps w -> List.length suffix + 2 <= steps ->
    callListeners user emit_ steps b rd i p event w
    = Some (fold_left (served b event p) (JsSet.elements suffix) w,
            Normal tt).
Proof.
  intros HK HD suffix.
  induction suffix as [|a suffix IH]; intros i steps w Hs Kw Hn.
  - destruct (HK w Kw) as (Hr & _ & _).
    apply skipn_nil_nth in Hs.
    destruct steps; simpl; rewrite Hr, Hs; reflexivity.
  - destruct (HK w Kw) as (Hr & Hh & Hp).
    destruct (skipn_cons_nth _ _ _ _ Hs) as [Hnth Hs'].
    destruct steps as [|[|[|d]]]; simpl in Hn; try lia.
    rewrite callListeners_S, Hr, Hnth. destruct a as [f|].
    + assert (Hf : In f (JsSet.elements l)).
      { apply in_elements. eapply nth_error_In. exact Hnth. }
      rewrite (turn_served b event p f d
                 (callListeners user emit_ (S (S d)) b rd (S i) p event) w
                 (Hp f Hf) Hh).
      rewrite (IH (S i) (S (S d)) _ Hs' (HD w f Kw Hf)) by lia.
      reflexivity.
    + rewrite (IH (S i) (S (S d)) w Hs' Kw) by lia. reflexivity.
Qed.

Lemma steady_kept (w w' : World) (l : fid) :
  fns w' = fns w -> steady w l -> steady w' l.
Proof. intros F. unfold steady. rewrite F. exact (fun H => H). Qed.

Lemma simple_kept (w w' : World) (l : fid) :
  fns w' = fns w -> simple w l -> simple w' l.
Proof. intros F. unfold simple. rewrite F. exact (fun H => H). Qed.

Lemma same_registry_steadies (b : bid) e p (ls : list fid) (w : World) :
  (forall f, In f ls -> steady w f) ->
  same_registry w (fold_left (served b e p) ls w).
Proof.
  revert w. induction ls as [|l ls IH]; intros w Hs; simpl.
  - apply same_registry_refl.
  - pose proof (same_registry_steady b e p l w (Hs l (or_introl eq_refl)))
      as S1.
    eapply same_registry_trans; [exact S1|]. apply IH.
    intros f Hf. apply (steady_kept w); [apply S1|].
    apply Hs. right. exact Hf.
Qed.

Lemma call_regular_served (n : nat) (b : bid) (event : string)
    (p : payload) (w : World) :
  (forall f, In f (JsSet.elements (live_listeners b event w)) ->
             steady w f) ->
  handler_returns (the_bus b w) ->
  List.length (live_listeners b event w) + 2 <= n ->
  call_regular user emit_ n b event p w
  = Some (fold_left (served b event p)
            (JsSet.elements (live_listeners b event w)) w,
          Normal (Nat.ltb 0 (JsSet.size (live_listeners b event w)))).
Proof.
  intros Hs Hh Hn.
  assert (Hwalk : callListeners user emit_ n b (live_listeners b event) 0
                    p event w
                  = Some (fold_left (served b event p)
                            (JsSet.elements (live_listeners b event w)) w,
                          Normal tt)).
  { apply (callListeners_served b event p (live_listeners b event)
             (live_listeners b event w) (same_registry w));
      [| |reflexivity|apply same_registry_refl|exact Hn].
    - intros w' Kw.
      destruct (same_registry_reads b event w w' Kw)
        as (Hl & _ & _ & Hh' & _).
      split; [exact Hl|]. split; [exact (Hh' Hh)|].
      intros f Hf. apply steady_simple. apply (steady_kept w); [apply Kw|].
      exact (Hs f Hf).
    - intros w' f Kw Hf.
      eapply same_registry_trans; [exact Kw|].
      apply same_registry_steady. apply (steady_kept w); [apply Kw|].
      exact (Hs f Hf). }
  set (ll := live_listeners b event w) in *.
  assert (El : ll = match JsMap.get (events (the_bus b w)) event with
                    | Some l => l
                    | None => JsSet.empty
                    end) by reflexivity.
  unfold call_regular.
  destruct (JsMap.get (events (the_bus b w)) event) as [l|] eqn:G.
  - subst l. destruct (Nat.ltb 0 (JsSet.size ll)) eqn:Hz.
    + unfold bind. rewrite Hwalk. reflexivity.
    + rewrite (size_zero_elements _ Hz). reflexivity.
  - rewrite El. reflexivity.
Qed.

(** The state after the drain. *)
Definition drained_served (b : bid) (event : string) (p : payload)
    (w : World) : World :=
  if Nat.ltb 0 (JsSet.size (once_listeners b event w)) then
    upd_bus b (cleanupAll (JsSet.elements (once_listeners b event w)))
      (fold_left (served b event p)
         (JsSet.elements (once_listeners b event w))
         (upd_bus b (clear_once event) w))
  else w.

Lemma drain_once_served (n : nat) (b : bid) (event : string)
    (p : payload) (w : World) :
  (forall f, In f (JsSet.elements (once_listeners b event w)) ->
             simple w f) ->
  handler_returns (the_bus b w) ->
  JsSet.size (once_listeners b event w) + 2 <= n ->
  drain_once user emit_ n b event p w
  = Some (drained_served b event p w,
          Normal (Nat.ltb 0 (JsSet.size (once_listeners b event w)))).
Proof.
  intros Hp Hh Hn. unfold drain_once, drained_served.
  unfold once_listeners in *.
  destruct (JsMap.get (onceEvents (the_bus b w)) event) as [l|];
    [|reflexivity].
  destruct (Nat.ltb 0 (JsSet.size l)); [|reflexivity].
  assert (Hwalk :
            callListeners user emit_ n b (fun _ => JsSet.copy l) 0 p event
              (upd_bus b (clear_once event) w)
            = Some (fold_left (served b event p)
                      (JsSet.elements (JsSet.copy l))
                      (upd_bus b (clear_once event) w), Normal tt)).
  { apply (callListeners_served b event p (fun _ => JsSet.copy l)
             (JsSet.copy l)
             (fun w' => fns w' = fns w /\
                        errorHandler (the_bus b w')
                        = errorHandler (the_bus b w))).
    - intros w' [F H']. split; [reflexivity|]. split.
      + unfold handler_returns. rewrite H'. exact Hh.
      + intros f Hf. rewrite elements_copy in Hf.
        apply (simple_kept w); [exact F | exact (Hp f Hf)].
    - intros w' f [F H'] _. split.
      + rewrite fns_served. exact F.
      + rewrite handler_served. exact H'.
    - reflexivity.
    - split; [reflexivity|]. apply handler_upd_bus. reflexivity.
    - unfold JsSet.copy. rewrite length_map. exact Hn. }
  rewrite bind_modify. unfold bind at 1. rewrite Hwalk.
  rewrite elements_copy. reflexivity.
Qed.

Definition emitted_served (b : bid) (event : string) (x : payload)
    (gs ms : list nat) (w : World) : World :=
  let p1 := chain_payload user event gs x in
  let p := chain_payload user event ms p1 in
  let w1 := logs (mw_trace user (global_middleware_error_msg event)
                    event gs x
                  ++ mw_trace user (middleware_error_msg event)
                       event ms p1)
              w in
  let w2 := upd_bus b (count_emission event) w1 in
  let w3 := fold_left (served b event p)
              (JsSet.elements (live_listeners b event w)) w2 in
  drained_served b event p w3.

Lemma emit_body_served (n : nat) (b : bid) (event : string) (x : payload)
    (gs ms : list nat) (w : World) :
  middlewares b "*" w = map User gs ->
  middlewares b event w = map User ms ->
  (forall f, In f (JsSet.elements (live_listeners b event w)) ->
             steady w f) ->
  (forall f, In f (JsSet.elements (once_listeners b event w)) ->
             simple w f) ->
  handler_returns (the_bus b w) ->
  List.length (live_listeners b event w) + 2 <= n ->
  JsSet.size (once_listeners b event w) + 2 <= n ->
  emit_body user emit_ n b event x w
  = Some (emitted_served b event x gs ms w,
          Normal (Nat.ltb 0 (JsSet.size (live_listeners b event w))
                  || Nat.ltb 0 (JsSet.size (once_listeners b event w)))).
Proof.
  intros Hg Hm Hu Ho Hh Hn1 Hn2.
  destruct n as [|d]; [lia|].
  unfold emit_body, emitted_served.
  unfold bind at 1.
  rewrite (runMiddleware_quiet user emit_ quiet d b event x gs ms w Hg Hm).
  set (p := chain_payload user event ms (chain_payload user event gs x)).
  set (es := mw_trace user (global_middleware_error_msg event) event gs x
             ++ mw_trace user (middleware_error_msg event) event ms
                  (chain_payload user event gs x)).
  rewrite bind_modify.
  set (w2 := upd_bus b (count_emission event) (logs es w)).
  pose proof (same_registry_counted b event es w) as S2. fold w2 in S2.
  destruct (same_registry_reads b event w w2 S2)
    as (L2 & O2 & _ & H2 & _).
  unfold bind at 1.
  rewrite (call_regular_served (S d) b event p w2);
    [|rewrite L2; intros f Hf; apply (steady_kept w);
      [apply S2 | exact (Hu f Hf)]
     |exact (H2 Hh) | rewrite L2; exact Hn1].
  rewrite L2.
  set (w3 := fold_left (served b event p)
               (JsSet.elements (live_listeners b event w)) w2).
  assert (S3 : same_registry w w3).
  { eapply same_registry_trans; [exact S2|].
    apply same_registry_steadies. intros f Hf.
    apply (steady_kept w); [apply S2 | exact (Hu f Hf)]. }
  destruct (same_registry_reads b event w w3 S3)
    as (L3 & O3 & _ & H3 & _).
  unfold bind at 1.
  rewrite (drain_once_served (S d) b event p w3);
    [|rewrite O3; intros f Hf; apply (simple_kept w);
      [apply S3 | exact (Ho f Hf)]
     |exact (H3 Hh) | rewrite O3; exact Hn2].
  rewrite O3. reflexivity.
Qed.

End Served.

(** An emission that calls nothing back: callbacks that make no calls, a
    handler that returns, callbacks as middleware, callbacks and stream
    listeners in the persistent set, and in the once-set the wrappers that
    [once] and [waitFor] make. *)
Definition calm (user : nat -> payload -> option string -> behaviour)
    (b : bid) (event : string) (gs ms : list nat) (w : World) : Prop :=
  no_calls user /\
  handler_returns (the_bus b w) /\
  middlewares b "*" w = map User gs /\
  middlewares b event w = map User ms /\
  (forall f, In f (JsSet.elements (live_listeners b event w)) ->
             steady w f) /\
  (forall f, In f (JsSet.elements (once_listeners b event w)) ->
             simple w f).

(** The fuel that walks both sets. *)
Definition walk_fuel (b : bid) (event : string) (w : World) : nat :=
  List.length (live_listeners b event w)
  + JsSet.size (once_listeners b event w) + 3.

Lemma ltb_0_add (a c : nat) :
  Nat.ltb 0 (a + c) = Nat.ltb 0 a || Nat.ltb 0 c.
Proof. destruct a, c; reflexivity. Qed.

Lemma emit_served user (fuel : nat) (b : bid) (event : string)
    (x : payload) (gs ms : list nat) (w : World) :
  calm user b event gs ms w -> walk_fuel b event w <= fuel ->
  emit user fuel b event x w
  = Some (emitted_served user b event x gs ms w,
          Normal (hasListeners event (the_bus b w))).
Proof.
  intros (Hq & Hh & Hg & Hm & Hu & Ho) Hf. unfold walk_fuel in Hf.
  destruct fuel as [|n]; [lia|]. simpl.
  rewrite (emit_body_served user (emit user n) Hq n b event x gs ms w
             Hg Hm Hu Ho Hh) by lia.
  unfold hasListeners. rewrite listenerCount_sizes, ltb_0_add. reflexivity.
Qed.

(** *** What a turn does to the cells, the promises and the timers *)

(** The stream or wait listener that a listener runs, itself or through
    its wrapper. *)
Definition body_of (heap : list closure) (l : fid) : option closure :=
  match l with
  | User _ => None
  | Internal k =>
      match nth_error heap k with
      | Some (OnceWrapper _ _ (User _)) => None
      | Some (OnceWrapper _ _ (Internal j)) => nth_error heap j
      | other => other
      end
  end.

Definition fed (p : payload) (st : streamState) : streamState :=
  mkStreamState (Some p) (S (s_count st)).

Definition fulfilled (p : payload) (st : promiseState) : promiseState :=
  match st with
  | Pending => Fulfilled p
  | _ => st
  end.

Definition disarmed (tm : timer) : timer :=
  match t_state tm with
  | Armed => mkTimer (t_bus tm) (t_event tm) (t_listener tm)
                     (t_promise tm) (t_delay tm) Cleared
  | _ => tm
  end.

Definition cells_turn (p : payload) (c : option closure)
    (cs : list streamState) : list streamState :=
  match c with
  | Some (StreamListener cell) => update_nth cell (fed p) cs
  | _ => cs
  end.

Definition promises_turn (p : payload) (c : option closure)
    (ps : list promiseState) : list promiseState :=
  match c with
  | Some (WaitListener _ q) => update_nth q (fulfilled p) ps
  | _ => ps
  end.

Definition timers_turn (c : option closure) (ts : list timer)
  : list timer :=
  match c with
  | Some (WaitListener (Some t) _) => update_nth t disarmed ts
  | _ => ts
  end.

Lemma stores_settled (b : bid) e l res (w : World) :
  cells (settled b e l res w) = cells w /\
  promises (settled b e l res w) = promises w /\
  timers (settled b e l res w) = timers w.
Proof. destruct res; repeat split. Qed.

Lemma stores_ran (p : payload) (c : closure) (w : World) :
  cells (ran p c w) = cells_turn p (Some c) (cells w) /\
  promises (ran p c w) = promises_turn p (Some c) (promises w) /\
  timers (ran p c w) = timers_turn (Some c) (timers w).
Proof. destruct c as [| |[t|] q|]; repeat split. Qed.

Lemma stores_served user (b : bid) e p l (w : World) :
  cells (served user b e p w l)
  = cells_turn p (body_of (fns w) l) (cells w) /\
  promises (served user b e p w l)
  = promises_turn p (body_of (fns w) l) (promises w) /\
  timers (served user b e p w l)
  = timers_turn (body_of (fns w) l) (timers w).
Proof.
  unfold served, body_of. destruct l as [u|k]; [apply stores_settled|].
  destruct (nth_error (fns w) k) as [[wb we [u|j]|cell|t q|tb te]|];
    try (repeat split; fail).
  - apply stores_settled.
  - destruct (nth_error (fns w) j) as [c|]; [|repeat split].
    destruct (stores_ran p c
                (log (Invoked (Internal j) p None)
                   (off wb we (VFun (Internal k))
                      (log (Invoked (Internal k) p None) w))))
      as (A & B & C).
    rewrite A, B, C. destruct (VFun (Internal k)); repeat split.
  - destruct t; repeat split.
Qed.

Lemma stores_fold user (b : bid) e p (ls : list fid) (w : World) :
  cells (fold_left (served user b e p) ls w)
  = fold_left (fun cs l => cells_turn p (body_of (fns w) l) cs) ls
      (cells w) /\
  promises (fold_left (served user b e p) ls w)
  = fold_left (fun ps l => promises_turn p (body_of (fns w) l) ps) ls
      (promises w) /\
  timers (fold_left (served user b e p) ls w)
  = fold_left (fun ts l => timers_turn (body_of (fns w) l) ts) ls
      (timers w).
Proof.
  revert w. induction ls as [|l ls IH]; intros w; simpl; [repeat split|].
  destruct (IH (served user b e p w l)) as (A & B & C).
  destruct (stores_served user b e p l w) as (A1 & B1 & C1).
  rewrite A, B, C, fns_served, A1, B1, C1. repeat split.
Qed.

(** How many of the listeners feed the cell [c], resolve the promise
    [q], clear the timer [t]. *)
Definition feeds (heap : list closure) (c : cid) (l : fid) : bool :=
  match body_of heap l with
  | Some (StreamListener cell) => Nat.eqb cell c
  | _ => false
  end.

Definition resolves (heap : list closure) (q : pid) (l : fid) : bool :=
  match body_of heap l with
  | Some (WaitListener _ q') => Nat.eqb q' q
  | _ => false
  end.

Definition clears (heap : list closure) (t : tid) (l : fid) : bool :=
  match body_of heap l with
  | Some (WaitListener (Some t') _) => Nat.eqb t' t
  | _ => false
  end.

Fixpoint fed_times (p : payload) (n : nat) (st : streamState)
  : streamState :=
  match n with
  | O => st
  | S n' => fed p (fed_times p n' st)
  end.

Lemma fed_times_shift (p : payload) (n : nat) (st : streamState) :
  fed_times p n (fed p st) = fed p (fed_times p n st).
Proof. induction n as [|n IH]; simpl; [reflexivity | rewrite IH; reflexivity]. Qed.

Lemma cell_fold (heap : list closure) (p : payload) (c : cid)
    (ls : list fid) (cs : list streamState) :
  nth_error
    (fold_left (fun cs l => cells_turn p (body_of heap l) cs) ls cs) c
  = option_map (fed_times p (List.length (filter (feeds heap c) ls)))
      (nth_error cs c).
Proof.
  revert cs. induction ls as [|l ls IH]; intros cs; simpl.
  - destruct (nth_error cs c); reflexivity.
  - rewrite IH. unfold feeds at 2, cells_turn.
    destruct (body_of heap l) as [[wb we f|cell|t q|tb te]|]; try reflexivity.
    rewrite nth_error_update_nth.
    destruct (Nat.eqb cell c); [|reflexivity].
    destruct (nth_error cs c); simpl; [|reflexivity].
    rewrite fed_times_shift. reflexivity.
Qed.

Lemma promise_fold (heap : list closure) (p : payload) (q : pid)
    (ls : list fid) (ps : list promiseState) :
  nth_error
    (fold_left (fun ps l => promises_turn p (body_of heap l) ps) ls ps) q
  = option_map (if existsb (resolves heap q) ls then fulfilled p
                else fun st => st)
      (nth_error ps q).
Proof.
  assert (I : forall st, fulfilled p (fulfilled p st) = fulfilled p st)
    by (intros []; reflexivity).
  revert ps. induction ls as [|l ls IH]; intros ps; simpl.
  - destruct (nth_error ps q); reflexivity.
  - rewrite IH. unfold resolves at 2, promises_turn.
    destruct (body_of heap l) as [[wb we f|cell|t q'|tb te]|]; try reflexivity.
    rewrite nth_error_update_nth.
    destruct (Nat.eqb q' q); [|reflexivity]. simpl.
    destruct (nth_error ps q) as [st|]; simpl; [|reflexivity].
    destruct (existsb (resolves heap q) ls); [rewrite I|]; reflexivity.
Qed.

Lemma timer_fold (heap : list closure) (t : tid) (ls : list fid)
    (ts : list timer) :
  nth_error
    (fold_left (fun ts l => timers_turn (body_of heap l) ts) ls ts) t
  = option_map (if existsb (clears heap t) ls then disarmed
                else fun tm => tm)
      (nth_error ts t).
Proof.
  assert (I : forall tm, disarmed (disarmed tm) = disarmed tm).
  { intros tm. unfold disarmed. destruct (t_state tm) eqn:E; simpl;
      try rewrite E; reflexivity. }
  revert ts. induction ls as [|l ls IH]; intros ts; simpl.
  - destruct (nth_error ts t); reflexivity.
  - rewrite IH. unfold clears at 2, timers_turn.
    destruct (body_of heap l) as [[wb we f|cell|[t'|] q'|tb te]|];
      try reflexivity.
    rewrite nth_error_update_nth.
    destruct (Nat.eqb t' t); [|reflexivity]. simpl.
    destruct (nth_error ts t) as [tm|]; simpl; [|reflexivity].
    destruct (existsb (clears heap t) ls); [rewrite I|]; reflexivity.
Qed.

(** *** What a turn does to a bus *)

Lemma kept_upd_bus (P : Bus -> Prop) (b b' : bid) (g : Bus -> Bus)
    (w : World) :
  (forall s, P s -> P (g s)) ->
  P (the_bus b w) -> P (the_bus b (upd_bus b' g w)).
Proof.
  intros Hg H. rewrite the_bus_upd_bus.
  destruct (Nat.eqb b' b && Nat.ltb b (List.length (buses w))); auto.
Qed.

Lemma kept_settled (P : Bus -> Prop) (b b' : bid) e l res (w : World) :
  (forall s, P s -> P (bump_errorCount s)) ->
  P (the_bus b w) -> P (the_bus b (settled b' e l res w)).
Proof.
  intros Hb H. destruct res as [r|t]; [exact H|]. unfold settled, recovered.
  change (the_bus b (log ?e0 ?w0)) with (the_bus b w0).
  apply kept_upd_bus; assumption.
Qed.

(** A property of a bus that the [catch] block and the [off] of a
    once-wrapper keep is kept by a turn. *)
Lemma kept_served user (P : Bus -> Prop) (b b' : bid) e p l (w : World) :
  (forall s, P s -> P (bump_errorCount s)) ->
  (forall k wb we f s,
      nth_error (fns w) k = Some (OnceWrapper wb we f) ->
      P s -> P (bus_off we (Internal k) s)) ->
  P (the_bus b w) -> P (the_bus b (served user b' e p w l)).
Proof.
  intros Hb Ho H. unfold served.
  destruct l as [u|k]; [apply kept_settled; assumption|].
  destruct (nth_error (fns w) k) as [[wb we [u|j]| | |]|] eqn:Ek;
    try (rewrite the_bus_ran; exact H); try exact H.
  - apply kept_settled; [exact Hb|].
    change (the_bus b (log ?e0 ?w0)) with (the_bus b w0).
    unfold off. apply kept_upd_bus; [|exact H].
    intros s. apply (Ho k wb we (User u) s Ek).
  - destruct (nth_error (fns w) j); [|exact H].
    rewrite the_bus_ran.
    change (the_bus b (log ?e0 ?w0)) with (the_bus b w0).
    unfold off. apply kept_upd_bus; [|exact H].
    intros s. apply (Ho k wb we (Internal j) s Ek).
Qed.

Lemma kept_fold user (P : Bus -> Prop) (b b' : bid) e p (ls : list fid)
    (w : World) :
  (forall s, P s -> P (bump_errorCount s)) ->
  (forall k wb we f s,
      nth_error (fns w) k = Some (OnceWrapper wb we f) ->
      P s -> P (bus_off we (Internal k) s)) ->
  P (the_bus b w) ->
  P (the_bus b (fold_left (served user b' e p) ls w)).
Proof.
  intros Hb. revert w. induction ls as [|l ls IH]; intros w Ho H; simpl;
    [exact H|].
  apply IH.
  - intros k wb we f s Hk. rewrite fns_served in Hk.
    exact (Ho k wb we f s Hk).
  - apply kept_served; assumption.
Qed.

Lemma fns_fold user (b : bid) e p (ls : list fid) (w : World) :
  fns (fold_left (served user b e p) ls w) = fns w.
Proof.
  revert w. induction ls as [|l ls IH]; intros w; simpl; [reflexivity|].
  rewrite IH. apply fns_served.
Qed.

Lemma kept_cleanupAll (P : Bus -> Prop) (ls : list fid) (s : Bus) :
  (forall l s, P s -> P (cleanupReactiveEffect l s)) ->
  P s -> P (cleanupAll ls s).
Proof.
  intros Hc. unfold cleanupAll. revert s.
  induction ls as [|l ls IH]; intros s H; simpl; auto.
Qed.

(** A property that the steps of an emission keep holds of the bus when
    the emission is over. *)
Lemma kept_emitted user (P : Bus -> Prop) (b : bid) (event : string)
    (x : payload) (gs ms : list nat) (w : World) :
  (forall s, P s -> P (bump_errorCount s)) ->
  (forall k wb we f s,
      nth_error (fns w) k = Some (OnceWrapper wb we f) ->
      P s -> P (bus_off we (Internal k) s)) ->
  (forall s, P s -> P (clear_once event s)) ->
  (forall l s, P s -> P (cleanupReactiveEffect l s)) ->
  P (the_bus b (upd_bus b (count_emission event) w)) ->
  P (the_bus b (emitted_served user b event x gs ms w)).
Proof.
  intros Hb Ho Hc Hr H. unfold emitted_served. cbv zeta.
  set (p := chain_payload user event ms (chain_payload user event gs x)).
  set (w2 := upd_bus b (count_emission event) (logs _ w)).
  assert (F2 : fns w2 = fns w) by reflexivity.
  assert (H2 : P (the_bus b w2)) by exact H.
  clearbody w2.
  set (w3 := fold_left (served user b event p)
               (JsSet.elements (live_listeners b event w)) w2).
  assert (F3 : fns w3 = fns w) by (unfold w3; rewrite fns_fold; exact F2).
  assert (H3 : P (the_bus b w3)).
  { apply kept_fold; [exact Hb | rewrite F2; exact Ho | exact H2]. }
  clearbody w3. unfold drained_served.
  destruct (Nat.ltb 0 (JsSet.size (once_listeners b event w3)));
    [|exact H3].
  apply kept_upd_bus; [intros s; apply kept_cleanupAll, Hr|].
  apply kept_fold; [exact Hb | | apply kept_upd_bus; [exact Hc | exact H3]].
  change (fns (upd_bus b (clear_once event) w3)) with (fns w3).
  rewrite F3. exact Ho.
Qed.

Lemma elements_delete_nil (l : JsSet.t) (f : fid) :
  JsSet.elements l = [] -> JsSet.elements (JsSet.delete l f) = [].
Proof.
  intros H. destruct (JsSet.elements (JsSet.delete l f)) as [|g r] eqn:E;
    [reflexivity|].
  assert (In g (JsSet.elements l))
    by (apply (elements_delete l f); rewrite E; left; reflexivity).
  rewrite H in *. contradiction.
Qed.

Lemma once_cleared (event : string) (s : Bus) :
  JsSet.elements (registered_once event (clear_once event s)) = [].
Proof.
  unfold registered_once, clear_once. simpl. rewrite get_update.
  rewrite String.eqb_refl.
  destruct (JsMap.get (onceEvents s) event); [apply elements_clear|];
    reflexivity.
Qed.

Lemma the_bus_absent (b : bid) (w : World) :
  Nat.ltb b (List.length (buses w)) = false ->
  the_bus b w = new_bus false None.
Proof.
  intros H. apply Nat.ltb_ge in H. unfold the_bus. apply nth_overflow, H.
Qed.

(** The once-set of the event is empty when the drain is over. *)
Lemma drained_emptied user (b : bid) (event : string) (p : payload)
    (w : World) :
  JsSet.elements (registered_once event
                    (the_bus b (drained_served user b event p w))) = [].
Proof.
  unfold drained_served.
  destruct (Nat.ltb 0 (JsSet.size (once_listeners b event w))) eqn:Z;
    [|exact (size_zero_elements _ Z)].
  pose (P := fun s => JsSet.elements (registered_once event s) = []).
  apply (kept_upd_bus P);
    [intros s; apply (kept_cleanupAll P); intros l s0 H0; exact H0|].
  apply (kept_fold user P); unfold P.
  - intros s H0. exact H0.
  - intros k wb we f s _ H0.
    rewrite (proj2 (registered_bus_off s we event (Internal k))).
    destruct (String.eqb event we) eqn:E; [|exact H0].
    apply String.eqb_eq in E. subst we. apply elements_delete_nil, H0.
  - rewrite the_bus_upd_bus, Nat.eqb_refl. simpl.
    destruct (Nat.ltb b (List.length (buses w))) eqn:L;
      [apply once_cleared|].
    rewrite (the_bus_absent b w L). reflexivity.
Qed.


(** *** The stores when the emission is over *)

Lemma fns_emitted user (b : bid) (event : string) (x : payload)
    (gs ms : list nat) (w : World) :
  fns (emitted_served user b event x gs ms w) = fns w.
Proof.
  unfold emitted_served, drained_served. cbv zeta.
  match goal with
  | |- fns (if ?c then _ else _) = _ => destruct c
  end.
  - change (fns (upd_bus ?b0 ?g ?w0)) with (fns w0). rewrite fns_fold.
    change (fns (upd_bus ?b0 ?g ?w0)) with (fns w0). rewrite fns_fold.
    reflexivity.
  - rewrite fns_fold. reflexivity.
Qed.

(** The listeners of both sets take their turn on the cells, the
    promises and the timers, the persistent set first. *)
Lemma stores_emitted user (b : bid) (event : string) (x : payload)
    (gs ms : list nat) (w : World) :
  (forall f, In f (JsSet.elements (live_listeners b event w)) ->
             steady w f) ->
  let p := chain_payload user event ms (chain_payload user event gs x) in
  let ls := JsSet.elements (live_listeners b event w)
            ++ JsSet.elements (once_listeners b event w) in
  let w' := emitted_served user b event x gs ms w in
  cells w'
  = fold_left (fun cs l => cells_turn p (body_of (fns w) l) cs) ls
      (cells w) /\
  promises w'
  = fold_left (fun ps l => promises_turn p (body_of (fns w) l) ps) ls
      (promises w) /\
  timers w'
  = fold_left (fun ts l => timers_turn (body_of (fns w) l) ts) ls
      (timers w).
Proof.
  intros Hu p ls w'. unfold w', ls, emitted_served. cbv zeta. fold p.
  set (es := mw_trace user (global_middleware_error_msg event) event gs x
             ++ mw_trace user (middleware_error_msg event) event ms
                  (chain_payload user event gs x)).
  set (w2 := upd_bus b (count_emission event) (logs es w)).
  pose proof (same_registry_counted b event es w) as S2. fold w2 in S2.
  set (w3 := fold_left (served user b event p)
               (JsSet.elements (live_listeners b event w)) w2).
  assert (S3 : same_registry w w3).
  { eapply same_registry_trans; [exact S2|].
    apply same_registry_steadies. intros f Hf.
    apply (steady_kept w); [apply S2 | exact (Hu f Hf)]. }
  destruct (same_registry_reads b event w w3 S3) as (_ & O3 & _).
  destruct (stores_fold user b event p
              (JsSet.elements (live_listeners b event w)) w2)
    as (A & B & C).
  fold w3 in A, B, C.
  change (fns w2) with (fns w) in A, B, C.
  change (cells w2) with (cells w) in A.
  change (promises w2) with (promises w) in B.
  change (timers w2) with (timers w) in C.
  rewrite !fold_left_app, <- A, <- B, <- C.
  unfold drained_served. rewrite O3.
  destruct (Nat.ltb 0 (JsSet.size (once_listeners b event w))) eqn:Z.
  - destruct (stores_fold user b event p
                (JsSet.elements (once_listeners b event w))
                (upd_bus b (clear_once event) w3))
      as (A' & B' & C').
    change (fns (upd_bus b (clear_once event) w3)) with (fns w3)
      in A', B', C'.
    assert (F3 : fns w3 = fns w) by apply S3.
    rewrite F3 in A', B', C'.
    repeat split; [exact A' | exact B' | exact C'].
  - rewrite (size_zero_elements _ Z). repeat split.
Qed.

(** The persistent set of the event is the same set afterwards. *)
Lemma emitted_keeps_live user (b : bid) (event : string) (x : payload)
    (gs ms : list nat) (w : World) :
  (forall f, In f (JsSet.elements (live_listeners b event w)) ->
             steady w f) ->
  live_listeners b event (emitted_served user b event x gs ms w)
  = live_listeners b event w.
Proof.
  intros Hs.
  apply (kept_emitted user
           (fun s => registered event s = registered event (the_bus b w)));
    try (intros; assumption).
  - intros k wb we f s Hk H0.
    rewrite (proj1 (registered_bus_off s we event (Internal k))).
    destruct (String.eqb event we) eqn:E; [|exact H0].
    apply String.eqb_eq in E. subst we.
    rewrite delete_absent; [exact H0|].
    destruct (JsSet.has (registered event s) (Internal k)) eqn:Hh;
      [|reflexivity].
    apply has_elements in Hh. rewrite H0 in Hh.
    destruct (Hs _ Hh) as (c & Hc' & Hi). rewrite Hk in Hc'.
    inversion Hc'; subst c. destruct Hi.
  - apply (kept_upd_bus
             (fun s => registered event s = registered event (the_bus b w)));
      [intros s H0; exact H0 | reflexivity].
Qed.

(** A calm bus is calm after the emission. *)
Lemma calm_emitted user (b : bid) (event : string) (x : payload)
    (gs ms : list nat) (w : World) :
  calm user b event gs ms w ->
  calm user b event gs ms (emitted_served user b event x gs ms w).
Proof.
  intros (Hq & Hh & Hg & Hm & Hu & Ho).
  assert (M : middleware (the_bus b (emitted_served user b event x gs ms w))
              = middleware (the_bus b w)).
  { apply (kept_emitted user
             (fun s => middleware s = middleware (the_bus b w)));
      try (intros; assumption).
    apply (kept_upd_bus (fun s => middleware s = middleware (the_bus b w)));
      [intros s H0; exact H0 | reflexivity]. }
  assert (H : errorHandler
                (the_bus b (emitted_served user b event x gs ms w))
              = errorHandler (the_bus b w)).
  { apply (kept_emitted user
             (fun s => errorHandler s = errorHandler (the_bus b w)));
      try (intros; assumption).
    apply (kept_upd_bus
             (fun s => errorHandler s = errorHandler (the_bus b w)));
      [intros s H0; exact H0 | reflexivity]. }
  split; [exact Hq|]. split; [unfold handler_returns; rewrite H; exact Hh|].
  unfold middlewares in *. rewrite M.
  split; [exact Hg|]. split; [exact Hm|]. split.
  - rewrite (emitted_keeps_live user b event x gs ms w Hu). intros f Hf.
    apply (steady_kept w); [apply fns_emitted | exact (Hu f Hf)].
  - intros f Hf. exfalso.
    change (once_listeners b event ?w0)
      with (registered_once event (the_bus b w0)) in Hf.
    unfold emitted_served in Hf. cbv zeta in Hf.
    rewrite drained_emptied in Hf. exact Hf.
Qed.

(** ** Every stream listener has its cell

    [stream] creates the state object before the listener that closes
    over it, and nothing removes a state object. *)

Definition cells_allocated (w : World) : Prop :=
  forall k c, nth_error (fns w) k = Some (StreamListener c) ->
              c < List.length (cells w).

Lemma allocated_frame (f : World -> World) :
  (forall w, fns (f w) = fns w /\
             List.length (cells (f w)) = List.length (cells w)) ->
  step cells_allocated whatever f.
Proof.
  intros Hf w Hw. destruct (Hf w) as [F C]. split; [|exact Logic.I].
  intros k c. rewrite F, C. apply Hw.
Qed.

Lemma allocated_grow (f : World -> World) :
  (forall w, exists cs,
      fns (f w) = fns w ++ cs /\
      List.length (cells w) <= List.length (cells (f w)) /\
      forall c, In (StreamListener c) cs ->
                c < List.length (cells (f w))) ->
  step cells_allocated whatever f.
Proof.
  intros Hf w Hw. destruct (Hf w) as (cs & F & C & N).
  split; [|exact Logic.I]. intros k c Hk. rewrite F in Hk.
  destruct (nth_error (fns w) k) as [c0|] eqn:E.
  - rewrite nth_error_app1 in Hk
      by (apply nth_error_Some; rewrite E; discriminate).
    rewrite E in Hk. inversion Hk; subst c0.
    specialize (Hw k c E). lia.
  - rewrite nth_error_app2 in Hk by (apply nth_error_None; exact E).
    apply N. eapply nth_error_In. exact Hk.
Qed.

Lemma allocated_once b e v r :
  step cells_allocated whatever (fun w => fst (once b e (value_of v) r w)).
Proof.
  apply allocated_grow. intros w. destruct (value_of v) as [l|]; simpl.
  - exists [OnceWrapper b e l]. split; [reflexivity|].
    split; [apply Nat.le_refl|]. intros c [H|[]]. discriminate H.
  - exists []. rewrite app_nil_r. split; [reflexivity|].
    split; [apply Nat.le_refl|]. intros c [].
Qed.

Lemma allocated_elementary : elementary cells_allocated whatever anyone.
Proof.
  constructor; try (intros; exact Logic.I).
  - intros f x ev w _ _. revert w. apply allocated_frame.
    intros w; split; reflexivity.
  - intros err e l. apply allocated_frame. intros w; split; reflexivity.
  - intros msg err. apply allocated_frame. intros w; split; reflexivity.
  - intros b e v r. apply allocated_frame. intros w.
    destruct (value_of v); split; reflexivity.
  - apply allocated_once.
  - intros b e v. apply allocated_frame. intros w.
    destruct v; split; reflexivity.
  - intros c x. apply allocated_frame. intros w. split; [reflexivity|].
    apply length_update_nth.
  - intros t. apply allocated_frame. intros w; split; reflexivity.
  - intros p x. apply allocated_frame. intros w; split; reflexivity.
  - intros b. apply allocated_frame. intros w; split; reflexivity.
  - intros b e. apply allocated_frame. intros w; split; reflexivity.
  - intros b l. apply allocated_frame. intros w; split; reflexivity.
Qed.

Lemma allocated_public : public cells_allocated whatever.
Proof.
  constructor.
  - intros m h. apply allocated_frame. intros w; split; reflexivity.
  - intros b e v. apply allocated_frame. intros w.
    destruct (value_of v); split; reflexivity.
  - intros b e m. apply allocated_frame. intros w; split; reflexivity.
  - intros b e. apply allocated_frame. intros w; split; reflexivity.
  - intros b. apply allocated_frame. intros w; split; reflexivity.
  - intros b e. apply allocated_grow. intros w.
    exists [StreamListener (List.length (cells w))]. simpl.
    split; [reflexivity|]. rewrite length_app. simpl.
    split; [lia|]. intros c [H|[]]. inversion H. lia.
  - intros b e t. apply allocated_grow. intros w.
    exists [WaitListener
              (match truthy_timeout t with
               | Some _ => Some (List.length (timers w))
               | None => None
               end) (List.length (promises w));
            OnceWrapper b e (Internal (List.length (fns w)))].
    unfold waitFor. destruct (truthy_timeout t); simpl;
      rewrite <- app_assoc; simpl;
      (split; [reflexivity|]); (split; [apply Nat.le_refl|]);
      intros c [H|[H|[]]]; discriminate H.
  - intros b e tb te. apply allocated_grow. intros w.
    exists [PipeListener tb (match te with Some e' => e' | None => e end)].
    simpl. split; [reflexivity|]. split; [apply Nat.le_refl|].
    intros c [H|[]]. discriminate H.
  - intros t. apply allocated_frame. intros w. unfold fireTimer.
    destruct (nth_error (timers w) t) as [tm|]; [|split; reflexivity].
    destruct (t_state tm); split; try reflexivity;
      destruct (VFun (t_listener tm)); reflexivity.
Qed.

Lemma allocated_run user fuel session (w w' : World) rs :
  cells_allocated w -> run user fuel session w = Some (w', rs) ->
  cells_allocated w'.
Proof.
  intros Hw H.
  refine (proj1 (run_sound user cells_allocated whatever anyone
                   allocated_elementary _ allocated_public
                   fuel session w w' rs Hw H)).
  intros emit_ He n b e x.
  apply (drain_once_sound_plain user _ _ _ allocated_elementary);
    [apply callable_of_sound; exact He | | intros; exact Logic.I].
  intros b0 e0. apply allocated_frame. intros w0; split; reflexivity.
Qed.

Lemma allocated_start : cells_allocated start.
Proof. intros [|k] c H; discriminate H. Qed.

(** ** A stream over its emissions *)

Lemma nth_error_grow {A : Type} (l cs : list A) (k : nat) (a : A) :
  nth_error l k = Some a -> nth_error (l ++ cs) k = Some a.
Proof.
  intros H. rewrite nth_error_app1; [exact H|].
  apply nth_error_Some. rewrite H. discriminate.
Qed.

Lemma steady_grow (w w' : World) (cs : list closure) (l : fid) :
  fns w' = fns w ++ cs -> steady w l -> steady w' l.
Proof.
  intros F. destruct l as [u|k]; [trivial|]. intros (c & Hk & Hi).
  exists c. rewrite F. split; [apply nth_error_grow, Hk | exact Hi].
Qed.

Lemma simple_grow (w w' : World) (cs : list closure) (l : fid) :
  fns w' = fns w ++ cs -> simple w l -> simple w' l.
Proof.
  intros F. destruct l as [u|k]; [trivial|]. intros (c & Hk & Hi).
  exists c. rewrite F. split; [apply nth_error_grow, Hk|].
  destruct c as [wb we [u|j]| | |]; try exact Hi.
  destruct Hi as (c' & Hj & Hi'). exists c'.
  split; [apply nth_error_grow, Hj | exact Hi'].
Qed.

Lemma filter_none {A : Type} (f : A -> bool) (l : list A) :
  (forall a, In a l -> f a = false) -> filter f l = [].
Proof.
  induction l as [|a l IH]; simpl; intros H; [reflexivity|].
  rewrite (H a (or_introl eq_refl)). apply IH. intros a' Ha.
  apply H. right. exact Ha.
Qed.

(** No listener that exists feeds a cell that does not. *)
Lemma not_fed_steady (w : World) (cs : list closure) (l : fid) :
  cells_allocated w -> steady w l ->
  feeds (fns w ++ cs) (List.length (cells w)) l = false.
Proof.
  intros A. destruct l as [u|k]; [reflexivity|]. intros (c & Hk & Hi).
  unfold feeds, body_of. rewrite (nth_error_grow _ cs _ _ Hk).
  destruct c as [wb we f|c|t q|tb te]; try destruct Hi; [|reflexivity].
  apply Nat.eqb_neq. specialize (A _ _ Hk). lia.
Qed.

Lemma not_fed_simple (w : World) (cs : list closure) (l : fid) :
  cells_allocated w -> simple w l ->
  feeds (fns w ++ cs) (List.length (cells w)) l = false.
Proof.
  intros A. destruct l as [u|k]; [reflexivity|]. intros (c & Hk & Hi).
  unfold feeds, body_of. rewrite (nth_error_grow _ cs _ _ Hk).
  destruct c as [wb we [u|j]|c|t q|tb te]; try reflexivity;
    try (destruct Hi; fail).
  - destruct Hi as (c' & Hj & Hi'). rewrite (nth_error_grow _ cs _ _ Hj).
    destruct c' as [wb' we' f'|c|t q|tb te]; try destruct Hi';
      [|reflexivity].
    apply Nat.eqb_neq. specialize (A _ _ Hj). lia.
  - apply Nat.eqb_neq. specialize (A _ _ Hk). lia.
Qed.

(** What [stream] leaves: a new cell, a new listener for it at the end of
    the persistent set, and the rest as it was. *)
Lemma stream_registers (b : bid) (event : string) (w : World) :
  b < List.length (buses w) ->
  let w1 := fst (stream b event w) in
  fns w1 = fns w ++ [StreamListener (List.length (cells w))] /\
  cells w1 = cells w ++ [mkStreamState None 0] /\
  live_listeners b event w1
  = JsSet.add (live_listeners b event w)
      (Internal (List.length (fns w))) /\
  once_listeners b event w1 = once_listeners b event w /\
  middleware (the_bus b w1) = middleware (the_bus b w) /\
  errorHandler (the_bus b w1) = errorHandler (the_bus b w).
Proof.
  intros Hb w1. unfold w1, stream. cbn [fst on].
  split; [reflexivity|]. split; [reflexivity|].
  set (l := Internal _).
  set (w2 := set_fns _ _).
  assert (T : the_bus b (upd_bus b (bus_on event l true) w2)
              = bus_on event l true (the_bus b w)).
  { rewrite the_bus_upd_bus, Nat.eqb_refl.
    change (buses w2) with (buses w).
    apply Nat.ltb_lt in Hb. rewrite Hb. reflexivity. }
  unfold live_listeners, once_listeners. rewrite T.
  destruct (registered_bus_on (the_bus b w) event event l true) as [G1 G2].
  rewrite String.eqb_refl in G1.
  split; [exact G1|]. split; [exact G2|].
  split; [apply (events_bus_on (the_bus b w) event l true)|].
  unfold bus_on, setupReactiveEffect. simpl.
  destruct (existsb _ _); reflexivity.
Qed.

(** The stream of the cell [c] is in place: the bus is calm, the fuel
    walks its sets, and one listener of the persistent set, none of the
    once-set, feeds [c], which holds [st]. *)
Definition tracked (user : nat -> payload -> option string -> behaviour)
    (b : bid) (event : string) (gs ms : list nat) (c : cid)
    (fuel : nat) (st : streamState) (w : World) : Prop :=
  calm user b event gs ms w /\
  walk_fuel b event w <= fuel /\
  nth_error (cells w) c = Some st /\
  List.length (filter (feeds (fns w) c)
                 (JsSet.elements (live_listeners b event w))) = 1 /\
  filter (feeds (fns w) c)
    (JsSet.elements (once_listeners b event w)) = [].

Lemma length_add (s : JsSet.t) (f : fid) :
  List.length (JsSet.add s f) <= S (List.length s).
Proof.
  unfold JsSet.add. destruct (JsSet.has s f); [lia|].
  rewrite length_app. simpl. lia.
Qed.

Lemma tracked_stream user (b : bid) (event : string) (gs ms : list nat)
    (fuel : nat) (w : World) :
  cells_allocated w ->
  b < List.length (buses w) ->
  calm user b event gs ms w ->
  walk_fuel b event w < fuel ->
  tracked user b event gs ms (List.length (cells w)) fuel
    (mkStreamState None 0) (fst (stream b event w)).
Proof.
  intros A Hb (Hq & Hh & Hg & Hm & Hu & Ho) Hf.
  destruct (stream_registers b event w Hb) as (F & C & L & O & M & H).
  set (w1 := fst (stream b event w)) in *.
  set (l := Internal (List.length (fns w))) in *.
  assert (N : JsSet.has (live_listeners b event w) l = false).
  { destruct (JsSet.has (live_listeners b event w) l) eqn:E;
      [|reflexivity].
    apply has_elements in E. destruct (Hu _ E) as (c & Hc & _).
    assert (nth_error (fns w) (List.length (fns w)) = None)
      by (apply nth_error_None; apply Nat.le_refl).
    congruence. }
  assert (El : JsSet.elements (live_listeners b event w1)
               = JsSet.elements (live_listeners b event w) ++ [l]).
  { rewrite L, elements_add_exact, N. reflexivity. }
  split; [|split; [|split; [|split]]].
  - split; [exact Hq|]. split; [unfold handler_returns; rewrite H; exact Hh|].
    unfold middlewares in *. rewrite M.
    split; [exact Hg|]. split; [exact Hm|]. split.
    + rewrite El. intros f Hf'. apply in_app_or in Hf'.
      destruct Hf' as [Hf'|[<-|[]]].
      * apply (steady_grow w w1 _ f F), Hu, Hf'.
      * exists (StreamListener (List.length (cells w))). rewrite F.
        split; [|exact Logic.I].
        rewrite nth_error_app2, Nat.sub_diag by apply Nat.le_refl.
        reflexivity.
    + rewrite O. intros f Hf'. apply (simple_grow w w1 _ f F), Ho, Hf'.
  - unfold walk_fuel in *. rewrite L, O.
    pose proof (length_add (live_listeners b event w) l). lia.
  - rewrite C, nth_error_app2, Nat.sub_diag by apply Nat.le_refl.
    reflexivity.
  - rewrite El, F, filter_app, length_app.
    rewrite (filter_none _ (JsSet.elements (live_listeners b event w)))
      by (intros f Hf'; apply not_fed_steady; [exact A | exact (Hu f Hf')]).
    simpl. unfold feeds at 1, body_of. unfold l.
    rewrite nth_error_app2, Nat.sub_diag by apply Nat.le_refl.
    simpl. rewrite Nat.eqb_refl. reflexivity.
  - rewrite O, F. apply filter_none. intros f Hf'.
    apply not_fed_simple; [exact A | exact (Ho f Hf')].
Qed.

Lemma tracked_emit user (b : bid) (event : string) (gs ms : list nat)
    (c : cid) (fuel : nat) (st : streamState) (x : payload) (w : World) :
  tracked user b event gs ms c fuel st w ->
  exists w',
    emit user fuel b event x w = Some (w', Normal true) /\
    tracked user b event gs ms c fuel
      (fed (chain_payload user event ms (chain_payload user event gs x)) st)
      w'.
Proof.
  intros (Hc & Hf & Hst & H1 & H0).
  exists (emitted_served user b event x gs ms w).
  assert (Hu : forall f, In f (JsSet.elements (live_listeners b event w)) ->
                         steady w f) by apply Hc.
  assert (Z : JsSet.elements
                (once_listeners b event
                   (emitted_served user b event x gs ms w)) = []).
  { change (once_listeners b event ?w0)
      with (registered_once event (the_bus b w0)).
    unfold emitted_served. cbv zeta. apply drained_emptied. }
  split.
  - rewrite (emit_served user fuel b event x gs ms w Hc Hf). f_equal. f_equal.
    f_equal. unfold hasListeners. rewrite listenerCount_sizes.
    apply Nat.ltb_lt.
    change (registered event (the_bus b w)) with (live_listeners b event w).
    unfold JsSet.size at 1.
    pose proof (filter_length_le (feeds (fns w) c)
                  (JsSet.elements (live_listeners b event w))).
    lia.
  - split; [apply calm_emitted, Hc|]. split; [|split; [|split]].
    + unfold walk_fuel in *. unfold JsSet.size in *.
      rewrite (emitted_keeps_live user b event x gs ms w Hu), Z.
      simpl. lia.
    + destruct (stores_emitted user b event x gs ms w Hu) as (A & _).
      rewrite A, cell_fold, Hst, filter_app, length_app, H1, H0.
      reflexivity.
    + rewrite fns_emitted, (emitted_keeps_live user b event x gs ms w Hu).
      exact H1.
    + rewrite Z. reflexivity.
Qed.

(** What the cell holds after the payloads [xs], one emission each. *)
Definition stream_after
    (user : nat -> payload -> option string -> behaviour)
    (event : string) (gs ms : list nat) (xs : list payload)
    (st : streamState) : streamState :=
  fold_left
    (fun st x =>
       fed (chain_payload user event ms (chain_payload user event gs x)) st)
    xs st.

Lemma tracked_run user (b : bid) (event : string) (gs ms : list nat)
    (c : cid) (fuel : nat) (xs : list payload) :
  forall (st : streamState) (w : World),
    tracked user b event gs ms c fuel st w ->
    exists w',
      run user fuel (map (OEmit b event) xs) w
      = Some (w', map (fun _ => Normal (RBool true)) xs) /\
      tracked user b event gs ms c fuel
        (stream_after user event gs ms xs st) w'.
Proof.
  induction xs as [|x xs IH]; intros st w T.
  - exists w. split; [reflexivity | exact T].
  - destruct (tracked_emit user b event gs ms c fuel st x w T)
      as (w1 & E1 & T1).
    destruct (IH _ w1 T1) as (w' & E' & T').
    exists w'. split; [|exact T'].
    simpl. unfold bind. rewrite E1. unfold ret.
    rewrite E'. reflexivity.
Qed.

Lemma last_cons {A : Type} (a d : A) (l : list A) :
  last (a :: l) d = last l a.
Proof.
  revert a d. induction l as [|a' l IH]; intros a d; [reflexivity|].
  change (last (a :: a' :: l) d) with (last (a' :: l) d).
  rewrite !IH. reflexivity.
Qed.

Lemma stream_after_closed user (event : string) (gs ms : list nat)
    (xs : list payload) (st : streamState) :
  stream_after user event gs ms xs st
  = mkStreamState
      (last (map (fun x =>
                    Some (chain_payload user event ms
                            (chain_payload user event gs x))) xs)
            (s_value st))
      (s_count st + List.length xs).
Proof.
  unfold stream_after. revert st.
  induction xs as [|x xs IH]; intros st.
  - simpl. rewrite Nat.add_0_r. destruct st; reflexivity.
  - cbn [fold_left map List.length]. rewrite IH, last_cons. simpl.
    f_equal. lia.
Qed.


(** ** A waiting promise and the next emission *)

Lemma registered_bus_once (s : Bus) (event e : string) (f : fid)
    (reactive : bool) :
  registered e (bus_once event f reactive s) = registered e s /\
  registered_once e (bus_once event f reactive s)
  = (if String.eqb e event then JsSet.add (registered_once event s) f
     else registered_once e s).
Proof.
  destruct (events_bus_once s event f reactive) as (E1 & _).
  pose proof (onceEvents_bus_once s event f reactive) as E2.
  unfold registered, registered_once. rewrite E1, E2, get_add_listener.
  destruct (String.eqb e event); split; reflexivity.
Qed.

(** What [waitFor] leaves: a pending promise, its listener and the
    wrapper of the listener at the end of the once-set, a timer when the
    timeout is neither missing nor 0, and the rest as it was. *)
Lemma waitFor_registers (b : bid) (event : string) (timeout : option Z)
    (w : World) :
  b < List.length (buses w) ->
  let w1 := fst (waitFor b event timeout w) in
  let k := List.length (fns w) in
  let p := List.length (promises w) in
  let timeoutId := match truthy_timeout timeout with
                   | Some _ => Some (List.length (timers w))
                   | None => None
                   end in
  fns w1 = fns w ++ [WaitListener timeoutId p;
                     OnceWrapper b event (Internal k)] /\
  promises w1 = promises w ++ [Pending] /\
  timers w1 = timers w ++ match truthy_timeout timeout with
                          | Some ms => [mkTimer b event (Internal k) p ms
                                          Armed]
                          | None => []
                          end /\
  live_listeners b event w1 = live_listeners b event w /\
  once_listeners b event w1
  = JsSet.add (once_listeners b event w) (Internal (S k)) /\
  middleware (the_bus b w1) = middleware (the_bus b w) /\
  errorHandler (the_bus b w1) = errorHandler (the_bus b w).
Proof.
  intros Hb w1 k p timeoutId. unfold w1, waitFor. cbn zeta.
  fold k p timeoutId. unfold once. cbn [fst].
  set (w3 := match truthy_timeout timeout with
             | Some ms => _
             | None => _
             end).
  assert (F3 : fns w3 = fns w ++ [WaitListener timeoutId p])
    by (unfold w3; destruct (truthy_timeout timeout); reflexivity).
  assert (B3 : buses w3 = buses w)
    by (unfold w3; destruct (truthy_timeout timeout); reflexivity).
  assert (P3 : promises w3 = promises w ++ [Pending])
    by (unfold w3; destruct (truthy_timeout timeout); reflexivity).
  assert (T3 : timers w3
               = timers w ++ match truthy_timeout timeout with
                             | Some ms => [mkTimer b event (Internal k) p ms
                                             Armed]
                             | None => []
                             end).
  { unfold w3. destruct (truthy_timeout timeout); simpl;
      [reflexivity | rewrite app_nil_r; reflexivity]. }
  set (l := Internal (List.length (fns w3))).
  assert (El : l = Internal (S k)).
  { unfold l. rewrite F3, length_app. simpl. f_equal. unfold k. lia. }
  set (w4 := set_fns _ w3).
  assert (T : the_bus b (upd_bus b (bus_once event l false) w4)
              = bus_once event l false (the_bus b w)).
  { rewrite the_bus_upd_bus, Nat.eqb_refl.
    change (buses w4) with (buses w3). rewrite B3.
    apply Nat.ltb_lt in Hb. rewrite Hb.
    unfold the_bus. change (buses w4) with (buses w3). rewrite B3.
    reflexivity. }
  split.
  { change (fns (upd_bus ?b0 ?g ?w0)) with (fns w0). unfold w4. simpl.
    rewrite F3, <- app_assoc. reflexivity. }
  split; [exact P3|]. split; [exact T3|].
  unfold live_listeners, once_listeners. rewrite T.
  destruct (registered_bus_once (the_bus b w) event event l false)
    as [G1 G2].
  rewrite String.eqb_refl in G2. rewrite <- El.
  split; [exact G1|]. split; [exact G2|].
  split; [apply (events_bus_once (the_bus b w) event l false)|].
  reflexivity.
Qed.

Lemma size_add (s : JsSet.t) (f : fid) :
  JsSet.size (JsSet.add s f) <= S (JsSet.size s).
Proof.
  unfold JsSet.size. rewrite elements_add_exact.
  destruct (JsSet.has s f); [lia|]. rewrite length_app. simpl. lia.
Qed.

Lemma in_add (s : JsSet.t) (f : fid) :
  In f (JsSet.elements (JsSet.add s f)).
Proof.
  rewrite elements_add_exact. destruct (JsSet.has s f) eqn:E.
  - apply has_elements, E.
  - apply in_or_app. right. left. reflexivity.
Qed.


(** ** What no call takes back

    Whatever the callbacks do, a session removes no bus, replaces no error
    handler, lowers neither [totalEventsEmitted] nor [errorCount], and
    lowers the count of no stream. *)

Definition bus_kept (s s' : Bus) : Prop :=
  errorHandler s' = errorHandler s /\
  totalEventsEmitted (reactiveState s)
  <= totalEventsEmitted (reactiveState s') /\
  errorCount (reactiveState s) <= errorCount (reactiveState s').

Definition grown (w w' : World) : Prop :=
  (forall b s, nth_error (buses w) b = Some s ->
               exists s', nth_error (buses w') b = Some s' /\
                          bus_kept s s') /\
  (forall c st, nth_error (cells w) c = Some st ->
                exists st', nth_error (cells w') c = Some st' /\
                            s_count st <= s_count st').

Definition always (w : World) : Prop := True.

Lemma bus_kept_refl (s : Bus) : bus_kept s s.
Proof. repeat split; apply Nat.le_refl. Qed.

Lemma bus_kept_trans (a b c : Bus) :
  bus_kept a b -> bus_kept b c -> bus_kept a c.
Proof.
  intros (H1 & T1 & E1) (H2 & T2 & E2).
  split; [congruence|]. split; lia.
Qed.

Lemma grown_refl (w : World) : grown w w.
Proof.
  split. 
  - intros b s H. exists s. split; [exact H | apply bus_kept_refl].
  - intros c st H. exists st. split; [exact H | apply Nat.le_refl].
Qed.

Lemma grown_trans (a b c : World) : grown a b -> grown b c -> grown a c.
Proof.
  intros (B1 & C1) (B2 & C2). split.
  - intros i s H. destruct (B1 i s H) as (s1 & H1 & K1).
    destruct (B2 i s1 H1) as (s2 & H2 & K2).
    exists s2. split; [exact H2 | exact (bus_kept_trans _ _ _ K1 K2)].
  - intros i st H. destruct (C1 i st H) as (st1 & H1 & K1).
    destruct (C2 i st1 H1) as (st2 & H2 & K2).
    exists st2. split; [exact H2 | lia].
Qed.

Lemma grown_same (w w' : World) :
  buses w' = buses w -> cells w' = cells w -> grown w w'.
Proof. intros B C. unfold grown. rewrite B, C. apply grown_refl. Qed.

Lemma grown_frame (f : World -> World) :
  (forall w, buses (f w) = buses w /\ cells (f w) = cells w) ->
  step always grown f.
Proof.
  intros Hf w _. split; [exact Logic.I|]. destruct (Hf w) as [B C].
  unfold grown. rewrite B, C. apply grown_refl.
Qed.

Lemma grown_upd_bus (b : bid) (g : Bus -> Bus) :
  (forall s, bus_kept s (g s)) -> step always grown (upd_bus b g).
Proof.
  intros Hg w _. split; [exact Logic.I|]. split.
  - intros i s H. simpl. rewrite nth_error_update_nth, H.
    destruct (Nat.eqb b i); simpl.
    + exists (g s). split; [reflexivity | apply Hg].
    + exists s. split; [reflexivity | apply bus_kept_refl].
  - intros c st H. exists st. split; [exact H | apply Nat.le_refl].
Qed.

Lemma grown_comp (f g : World -> World) :
  step always grown f -> step always grown g ->
  step always grown (fun w => g (f w)).
Proof.
  intros Hf Hg w Hw. split; [exact Logic.I|].
  apply (grown_trans _ (f w)); [apply Hf, Hw | apply Hg; exact Logic.I].
Qed.

Lemma bus_kept_on e l r (s : Bus) : bus_kept s (bus_on e l r s).
Proof.
  unfold bus_on. destruct r; unfold setupReactiveEffect;
    try destruct (existsb _ _); repeat split; apply Nat.le_refl.
Qed.

Lemma bus_kept_once e l r (s : Bus) : bus_kept s (bus_once e l r s).
Proof.
  unfold bus_once. destruct r; unfold setupReactiveEffect;
    try destruct (existsb _ _); repeat split; apply Nat.le_refl.
Qed.

Lemma bus_kept_off e l (s : Bus) : bus_kept s (bus_off e l s).
Proof. repeat split; apply Nat.le_refl. Qed.

Lemma bus_kept_cleanupAll ls (s : Bus) : bus_kept s (cleanupAll ls s).
Proof.
  destruct (cleanupAll_frame ls s) as (_ & _ & R & _ & _ & H).
  unfold bus_kept. rewrite R, H. repeat split; apply Nat.le_refl.
Qed.

Lemma bus_kept_removeAll e (s : Bus) :
  bus_kept s (removeAllListeners e s).
Proof.
  unfold removeAllListeners. destruct (truthy_event e) as [ev|].
  - set (s1 := match JsMap.get (events s) ev with
               | Some l => cleanupAll (JsSet.elements l) s
               | None => s
               end).
    assert (K1 : bus_kept s s1)
      by (unfold s1; destruct (JsMap.get (events s) ev);
          [apply bus_kept_cleanupAll | apply bus_kept_refl]).
    set (s2 := match JsMap.get (onceEvents s1) ev with
               | Some l => cleanupAll (JsSet.elements l) s1
               | None => s1
               end).
    assert (K2 : bus_kept s1 s2)
      by (unfold s2; destruct (JsMap.get (onceEvents s1) ev);
          [apply bus_kept_cleanupAll | apply bus_kept_refl]).
    apply (bus_kept_trans _ s2); [exact (bus_kept_trans _ _ _ K1 K2)|].
    repeat split; apply Nat.le_refl.
  - set (s1 := cleanupAll (all_listeners (events s)) s).
    set (s2 := cleanupAll (all_listeners (onceEvents s1)) s1).
    apply (bus_kept_trans _ s2).
    + apply (bus_kept_trans _ s1); apply bus_kept_cleanupAll.
    + repeat split; apply Nat.le_refl.
Qed.

Lemma bus_kept_destroy (s : Bus) : bus_kept s (destroy s).
Proof.
  unfold destroy.
  apply (bus_kept_trans _ (removeAllListeners None s));
    [apply bus_kept_removeAll | repeat split; apply Nat.le_refl].
Qed.

Lemma grown_on b e v r :
  step always grown (fun w => fst (on b e (value_of v) r w)).
Proof.
  destruct (value_of v) as [l|]; simpl.
  - apply grown_upd_bus. intros s. apply bus_kept_on.
  - apply grown_frame. intros w; split; reflexivity.
Qed.

Lemma grown_once_fun b e l r :
  step always grown (fun w => fst (once b e (VFun l) r w)).
Proof.
  intros w _. split; [exact Logic.I|]. unfold once. cbn [fst].
  refine (proj2 (grown_upd_bus b _ _ _ Logic.I)).
  intros s. apply bus_kept_once.
Qed.

Lemma grown_off b e v : step always grown (off b e v).
Proof.
  destruct v; simpl; apply grown_upd_bus; intros s;
    [apply bus_kept_off | repeat split; apply Nat.le_refl].
Qed.

Lemma grown_elementary : elementary always grown anyone.
Proof.
  constructor; try (intros; exact Logic.I).
  - apply grown_refl.
  - apply grown_trans.
  - intros f x ev w _ _. revert w. apply grown_frame.
    intros w; split; reflexivity.
  - intros err e l. apply grown_frame. intros w; split; reflexivity.
  - intros msg err. apply grown_frame. intros w; split; reflexivity.
  - apply grown_on.
  - intros b e v r. destruct (value_of v) as [l|].
    + apply grown_once_fun.
    + apply grown_frame. intros w; split; reflexivity.
  - apply grown_off.
  - intros c x w _. split; [exact Logic.I|]. split.
    + intros b s H. exists s. split; [exact H | apply bus_kept_refl].
    + intros i st H. unfold update_cell. simpl.
      rewrite nth_error_update_nth, H. destruct (Nat.eqb c i); simpl.
      * eexists. split; [reflexivity | simpl; lia].
      * exists st. split; [reflexivity | apply Nat.le_refl].
  - intros t. apply grown_frame. intros w; split; reflexivity.
  - intros p x. apply grown_frame. intros w; split; reflexivity.
  - intros b. apply grown_upd_bus. intros s. repeat split; simpl; lia.
  - intros b e. apply grown_upd_bus. intros s. repeat split; simpl; lia.
  - intros b l. apply grown_upd_bus. intros s. apply bus_kept_cleanupAll.
Qed.

Lemma grown_public : public always grown.
Proof.
  constructor.
  - intros m h w _. split; [exact Logic.I|]. split.
    + intros b s H. exists s. simpl.
      split; [apply nth_error_grow, H | apply bus_kept_refl].
    + intros c st H. exists st. split; [exact H | apply Nat.le_refl].
  - intros b e v. destruct (value_of v) as [m|]; simpl.
    + apply grown_upd_bus. intros s. repeat split; apply Nat.le_refl.
    + apply grown_frame. intros w; split; reflexivity.
  - intros b e m. apply grown_upd_bus. intros s.
    repeat split; apply Nat.le_refl.
  - intros b e. apply grown_upd_bus. intros s. apply bus_kept_removeAll.
  - intros b. apply grown_upd_bus. intros s. apply bus_kept_destroy.
  - intros b e w _. split; [exact Logic.I|]. unfold stream. cbn [fst on].
    apply (grown_trans _
             (set_fns (fns w ++ [StreamListener (List.length (cells w))])
                (set_cells (cells w ++ [mkStreamState None 0]) w))).
    + split.
      * intros i s H. exists s. split; [exact H | apply bus_kept_refl].
      * intros c st H. exists st. simpl.
        split; [apply nth_error_grow, H | apply Nat.le_refl].
    + refine (proj2 (grown_upd_bus b _ _ _ Logic.I)).
      intros s. apply bus_kept_on.
  - intros b e t w _. split; [exact Logic.I|]. unfold waitFor. cbn [fst once].
    refine (grown_trans _ _ _ _ (proj2 (grown_upd_bus b _ _ _ Logic.I)));
      [|intros s; apply bus_kept_once].
    destruct (truthy_timeout t); apply grown_same; reflexivity.
  - intros b e tb te w _. split; [exact Logic.I|]. unfold pipe.
    cbn [fst on].
    refine (grown_trans _ _ _ _ (proj2 (grown_upd_bus b _ _ _ Logic.I)));
      [|intros s; apply bus_kept_on].
    apply grown_same; reflexivity.
  - intros t w _. split; [exact Logic.I|]. unfold fireTimer.
    destruct (nth_error (timers w) t) as [tm|]; [|apply grown_refl].
    destruct (t_state tm); try apply grown_refl.
    match goal with
    | |- grown w (settle ?p ?v (off ?b ?e ?l ?w1)) =>
        apply (grown_trans _ w1); [apply grown_same; reflexivity|];
        apply (grown_trans _ (off b e l w1));
          [apply grown_off; exact Logic.I | apply grown_same; reflexivity]
    end.
Qed.

(** X14.  Whatever the callbacks do, at the end of a session every bus that
    was there is still there with the error handler it had, with
    [totalEventsEmitted] and [errorCount] no lower than they were, and
    every stream state is still there with a count no lower than it
    was. *)
Theorem counters_never_decrease user (fuel : nat) (session : list op)
    (w w' : World) (rs : list (completion retval)) :
  run user fuel session w = Some (w', rs) ->
  (forall b s,
      nth_error (buses w) b = Some s ->
      exists s',
        nth_error (buses w') b = Some s' /\
        errorHandler s' = errorHandler s /\
        totalEventsEmitted (reactiveState s)
        <= totalEventsEmitted (reactiveState s') /\
        errorCount (reactiveState s) <= errorCount (reactiveState s')) /\
  (forall c st,
      nth_error (cells w) c = Some st ->
      exists st',
        nth_error (cells w') c = Some st' /\ s_count st <= s_count st').
Proof.
  intros H.
  assert (G : grown w w').
  { refine (proj2 (run_sound user always grown anyone
                     grown_elementary _ grown_public
                     fuel session w w' rs Logic.I H)).
    intros emit_ He n b e x.
    apply (drain_once_sound_plain user _ _ _ grown_elementary);
      [apply callable_of_sound; exact He | | intros; exact Logic.I].
    intros b0 e0. apply grown_upd_bus. intros s.
    repeat split; apply Nat.le_refl. }
  exact G.
Qed.

(** ** The total of [getMetrics] and the counts of the events *)

Lemma fold_sizes (m : JsMap.t JsSet.t) (a : nat) :
  fold_left (fun total kv => total + JsSet.size (snd kv)) m a
  = a + list_sum (map (fun kv => JsSet.size (snd kv)) m).
Proof.
  revert a. induction m as [|kv m IH]; intros a; simpl; [lia|].
  rewrite IH. lia.
Qed.

Definition size_at (m : JsMap.t JsSet.t) (e : string) : nat :=
  JsSet.size (match JsMap.get m e with
              | Some l => l
              | None => JsSet.empty
              end).

Lemma sum_keys (m : JsMap.t JsSet.t) :
  NoDup (JsMap.keys m) ->
  list_sum (map (fun kv => JsSet.size (snd kv)) m)
  = list_sum (map (size_at m) (JsMap.keys m)).
Proof.
  unfold JsMap.keys. induction m as [|[k v] m IH]; intros N;
    [reflexivity|].
  inversion N as [|k0 ks Nk Nr]; subst.
  change (JsSet.size v
          + list_sum (map (fun kv => JsSet.size (snd kv)) m)
          = size_at ((k, v) :: m) k
            + list_sum (map (size_at ((k, v) :: m)) (map fst m))).
  rewrite (IH Nr). unfold size_at at 2. cbn [JsMap.get].
  rewrite String.eqb_refl.
  f_equal. f_equal. apply map_ext_in. intros e He. unfold size_at. simpl.
  destruct (String.eqb e k) eqn:E; [|reflexivity].
  apply String.eqb_eq in E. subst e. contradiction.
Qed.

Lemma sum_support (f : string -> nat) (L : list string) :
  forall K, NoDup K -> NoDup L -> incl K L ->
            (forall e, In e L -> ~ In e K -> f e = 0) ->
            list_sum (map f L) = list_sum (map f K).
Proof.
  induction L as [|a L IH]; intros K NK NL HI HZ.
  - destruct K as [|k K]; [reflexivity|].
    destruct (HI k (or_introl eq_refl)).
  - inversion NL as [|a0 L0 Na NL']; subst.
    destruct (in_dec string_dec a K) as [Ha|Ha].
    + destruct (in_split _ _ Ha) as (K1 & K2 & ->).
      destruct (NoDup_remove _ _ _ NK) as [NK' Na'].
      rewrite map_app, list_sum_app.
      change (list_sum (map f (a :: L))) with (f a + list_sum (map f L)).
      change (list_sum (map f (a :: K2))) with (f a + list_sum (map f K2)).
      rewrite (IH (K1 ++ K2) NK' NL').
      * rewrite map_app, list_sum_app. lia.
      * intros e He.
        assert (In e (K1 ++ a :: K2))
          by (apply in_app_or in He; apply in_or_app; simpl; tauto).
        destruct (HI e H) as [<-|H']; [contradiction | exact H'].
      * intros e He Hn. apply HZ; [right; exact He|].
        intros H. apply in_app_or in H. destruct H as [H|[H|H]].
        -- apply Hn, in_or_app. left. exact H.
        -- subst e. contradiction.
        -- apply Hn, in_or_app. right. exact H.
    + change (list_sum (map f (a :: L))) with (f a + list_sum (map f L)).
      rewrite (HZ a (or_introl eq_refl) Ha).
      apply (IH K NK NL').
      * intros e He. destruct (HI e He) as [<-|H']; [contradiction|exact H'].
      * intros e He. apply HZ. right. exact He.
Qed.

Lemma sum_add (f g : string -> nat) (L : list string) :
  list_sum (map (fun e => f e + g e) L)
  = list_sum (map f L) + list_sum (map g L).
Proof. induction L as [|a L IH]; simpl; lia. Qed.

Lemma size_at_absent (m : JsMap.t JsSet.t) (e : string) :
  ~ In e (JsMap.keys m) -> size_at m e = 0.
Proof.
  intros H. apply get_none_keys in H. unfold size_at. rewrite H.
  reflexivity.
Qed.

Lemma totalListeners_keyed (s : Bus) :
  keyed s ->
  totalListeners s
  = list_sum (map (fun e => listenerCount e s) (eventNames s)).
Proof.
  intros [N1 N2]. unfold totalListeners. rewrite !fold_sizes.
  rewrite (sum_keys _ N1), (sum_keys _ N2). simpl.
  assert (E : map (fun e => listenerCount e s) (eventNames s)
              = map (fun e => size_at (events s) e
                              + size_at (onceEvents s) e)
                  (eventNames s))
    by (apply map_ext; intros e; apply listenerCount_sizes).
  rewrite E, sum_add.
  assert (ND : NoDup (eventNames s)).
  { unfold eventNames.
    apply (dedup_spec (JsMap.keys (events s) ++ JsMap.keys (onceEvents s))
             []). }
  rewrite (sum_support (size_at (events s)) (eventNames s)
             (JsMap.keys (events s)) N1 ND),
          (sum_support (size_at (onceEvents s)) (eventNames s)
             (JsMap.keys (onceEvents s)) N2 ND);
    try reflexivity.
  - intros e He. apply eventNames_keys. right. exact He.
  - intros e _. apply size_at_absent.
  - intros e He. apply eventNames_keys. left. exact He.
  - intros e _. apply size_at_absent.
Qed.

(** X15.  On every bus that public calls have built, what
    [getMetrics().totalListeners()] returns is the sum of
    [listenerCount(E)] over the names E of [eventNames()], and it is the
    [activeListeners] of [getMetrics().state]. *)
Theorem metrics_total_is_the_sum_over_eventNames user (fuel : nat)
    (session : list op) (w : World) (rs : list (completion retval))
    (b : bid) :
  run user fuel session start = Some (w, rs) ->
  exec user fuel (OMetricsTotalListeners (HMetrics b)) w
  = Some (w,
          Normal
            (RNumber
               (list_sum
                  (map (fun e => listenerCount e (the_bus b w))
                     (eventNames (the_bus b w)))))) /\
  activeListeners (reactiveState (the_bus b w))
  = list_sum (map (fun e => listenerCount e (the_bus b w))
                (eventNames (the_bus b w))).
Proof.
  intros H.
  assert (K : keyed (the_bus b w)).
  { pose proof (all_keyed_run user fuel session start w rs
                  (Forall_nil _) H) as A.
    unfold the_bus. destruct (nth_error (buses w) b) as [s|] eqn:E.
    - rewrite (nth_error_nth _ _ _ E).
      exact (proj1 (Forall_forall _ _) A s (nth_error_In _ _ E)).
    - rewrite nth_overflow by (apply nth_error_None; exact E).
      apply keyed_new_bus. }
  assert (M : metrics_ok (the_bus b w)).
  { pose proof (proj1 (run_sound user consistent extends anyone
                         consistent_elementary (consistent_drain user)
                         consistent_public fuel session start w rs
                         consistent_start H)) as C.
    destruct C as [C _].
    unfold the_bus. destruct (nth_error (buses w) b) as [s|] eqn:E.
    - rewrite (nth_error_nth _ _ _ E).
      exact (proj1 (Forall_forall _ _) C s (nth_error_In _ _ E)).
    - rewrite nth_overflow by (apply nth_error_None; exact E).
      reflexivity. }
  split.
  - cbn [exec]. unfold ret. rewrite (totalListeners_keyed _ K). reflexivity.
  - rewrite <- (totalListeners_keyed _ K). exact M.
Qed.

(** ** A pipe and the emission it forwards *)

Lemma calm_same_registry user (b : bid) (event : string)
    (gs ms : list nat) (w w' : World) :
  same_registry w w' -> calm user b event gs ms w ->
  calm user b event gs ms w' /\
  walk_fuel b event w' = walk_fuel b event w.
Proof.
  intros S (Hq & Hh & Hg & Hm & Hu & Ho).
  destruct (same_registry_reads b event w w' S) as (L & O & M & H & _).
  assert (F : fns w' = fns w) by apply S.
  split.
  - split; [exact Hq|]. split; [exact (H Hh)|]. rewrite !M.
    split; [exact Hg|]. split; [exact Hm|]. rewrite L, O. split.
    + intros f Hf. apply (steady_kept w); [exact F | exact (Hu f Hf)].
    + intros f Hf. apply (simple_kept w); [exact F | exact (Ho f Hf)].
  - unfold walk_fuel. rewrite L, O. reflexivity.
Qed.

(** A property of any bus that the steps of an emission keep. *)
Lemma kept_emitted_at user (P : Bus -> Prop) (b0 b : bid)
    (event : string) (x : payload) (gs ms : list nat) (w : World) :
  (forall s, P s -> P (bump_errorCount s)) ->
  (forall k wb we f s,
      nth_error (fns w) k = Some (OnceWrapper wb we f) ->
      P s -> P (bus_off we (Internal k) s)) ->
  (forall s, P s -> P (count_emission event s)) ->
  (forall s, P s -> P (clear_once event s)) ->
  (forall l s, P s -> P (cleanupReactiveEffect l s)) ->
  P (the_bus b0 w) ->
  P (the_bus b0 (emitted_served user b event x gs ms w)).
Proof.
  intros Hb Ho Hn Hc Hr H. unfold emitted_served. cbv zeta.
  set (p := chain_payload user event ms (chain_payload user event gs x)).
  set (w2 := upd_bus b (count_emission event) (logs _ w)).
  assert (F2 : fns w2 = fns w) by reflexivity.
  assert (H2 : P (the_bus b0 w2))
    by (unfold w2; apply kept_upd_bus; [exact Hn | exact H]).
  clearbody w2.
  set (w3 := fold_left (served user b event p)
               (JsSet.elements (live_listeners b event w)) w2).
  assert (F3 : fns w3 = fns w) by (unfold w3; rewrite fns_fold; exact F2).
  assert (H3 : P (the_bus b0 w3)).
  { apply kept_fold; [exact Hb | rewrite F2; exact Ho | exact H2]. }
  clearbody w3. unfold drained_served.
  destruct (Nat.ltb 0 (JsSet.size (once_listeners b event w3)));
    [|exact H3].
  apply kept_upd_bus; [intros s; apply kept_cleanupAll, Hr|].
  apply kept_fold; [exact Hb | | apply kept_upd_bus; [exact Hc | exact H3]].
  change (fns (upd_bus b (clear_once event) w3)) with (fns w3).
  rewrite F3. exact Ho.
Qed.

(** [forEach] over entries that have been deleted. *)
Lemma walk_tombstones user emit_ (b : bid) (rd : World -> JsSet.t)
    (p : payload) (event : string) (w : World) :
  forall suffix i steps,
    skipn i (rd w) = suffix -> JsSet.elements suffix = [] ->
    List.length suffix <= steps ->
    callListeners user emit_ steps b rd i p event w = Some (w, Normal tt).
Proof.
  induction suffix as [|a suffix IH]; intros i steps Hs He Hn.
  - apply skipn_nil_nth in Hs. destruct steps; simpl; rewrite Hs;
      reflexivity.
  - destruct (skipn_cons_nth _ _ _ _ Hs) as [Hnth Hs'].
    destruct a as [f|]; [discriminate He|].
    destruct steps as [|steps]; [simpl in Hn; lia|].
    rewrite callListeners_S, Hnth. apply IH; [exact Hs' | exact He|].
    simpl in Hn. lia.
Qed.

(** [forEach] over a set whose one listener is a pipe to a calm bus. *)
Lemma walk_pipe user (n : nat) (b : bid) (e : string) (p : payload)
    (k : nat) (tb : bid) (te : string) (gs' ms' : list nat) (w : World) :
  nth_error (fns w) k = Some (PipeListener tb te) ->
  calm user tb te gs' ms' (log (Invoked (Internal k) p None) w) ->
  walk_fuel tb te (log (Invoked (Internal k) p None) w) <= n ->
  live_listeners b e
    (emitted_served user tb te p gs' ms'
       (log (Invoked (Internal k) p None) w))
  = live_listeners b e w ->
  forall suffix i steps,
    skipn i (live_listeners b e w) = suffix ->
    JsSet.elements suffix = [Internal k] ->
    List.length suffix + 1 <= steps ->
    callListeners user (emit user n) steps b (live_listeners b e) i p e w
    = Some (emitted_served user tb te p gs' ms'
              (log (Invoked (Internal k) p None) w), Normal tt).
Proof.
  intros Hk Hc Hf Hl.
  induction suffix as [|a suffix IH]; intros i steps Hs He Hn;
    [discriminate He|].
  destruct (skipn_cons_nth _ _ _ _ Hs) as [Hnth Hs'].
  destruct steps as [|[|d]]; simpl in Hn; try lia.
  rewrite callListeners_S, Hnth. destruct a as [f|].
  - simpl in He. inversion He as [[Ef En]]. subst f.
    rewrite (invoke_S_internal user (emit user n) d k _ p None w Hk).
    unfold run_closure, bind.
    rewrite (emit_served user n tb te p gs' ms' _ Hc Hf). unfold ret.
    apply (walk_tombstones user (emit user n) b (live_listeners b e) p e _
             suffix (S i) (S d)); [|exact En | lia].
    rewrite Hl. exact Hs'.
  - apply IH; [exact Hs' | exact He | simpl; lia].
Qed.

Lemma once_kept_clear (event e : string) (s : Bus) :
  JsSet.elements (registered_once e s) = [] ->
  JsSet.elements (registered_once e (clear_once event s)) = [].
Proof.
  intros H. unfold registered_once, clear_once in *. simpl.
  rewrite get_update. destruct (String.eqb e event) eqn:E; [|exact H].
  apply String.eqb_eq in E. subst e.
  destruct (JsMap.get (onceEvents s) event); [apply elements_clear | exact H].
Qed.

(** The emission of an event whose one listener is a pipe: the
    middleware of the event run, the emission is counted, and the rest is
    the emission of the payload on the target. *)
Lemma emit_piped user (n : nat) (b : bid) (e : string) (x : payload)
    (gs ms : list nat) (k : nat) (tb : bid) (te : string)
    (gs' ms' : list nat) (w : World) :
  nth_error (fns w) k = Some (PipeListener tb te) ->
  JsSet.elements (live_listeners b e w) = [Internal k] ->
  JsSet.elements (once_listeners b e w) = [] ->
  middlewares b "*" w = map User gs ->
  middlewares b e w = map User ms ->
  calm user tb te gs' ms' w ->
  List.length (live_listeners b e w) + 2 <= n ->
  walk_fuel tb te w <= n ->
  emit user (S n) b e x w
  = Some (emitted_served user tb te
            (chain_payload user e ms (chain_payload user e gs x)) gs' ms'
            (log (Invoked (Internal k)
                    (chain_payload user e ms (chain_payload user e gs x))
                    None)
               (upd_bus b (count_emission e)
                  (logs (mw_trace user (global_middleware_error_msg e) e
                           gs x
                         ++ mw_trace user (middleware_error_msg e) e ms
                              (chain_payload user e gs x)) w))),
          Normal true).
Proof.
  intros Hk Hl Ho Hg Hm Hc Hn1 Hn2.
  assert (Hq : no_calls user) by apply Hc.
  destruct n as [|d]; [lia|].
  change (emit user (S (S d)) b e x w)
    with (emit_body user (emit user (S d)) (S d) b e x w).
  unfold emit_body. unfold bind at 1.
  rewrite (runMiddleware_quiet user (emit user (S d)) Hq d b e x gs ms w
             Hg Hm).
  set (p := chain_payload user e ms (chain_payload user e gs x)).
  set (es := mw_trace user (global_middleware_error_msg e) e gs x
             ++ mw_trace user (middleware_error_msg e) e ms
                  (chain_payload user e gs x)).
  rewrite bind_modify.
  set (w2 := upd_bus b (count_emission e) (logs es w)).
  pose proof (same_registry_counted b e es w) as S2. fold w2 in S2.
  set (W := log (Invoked (Internal k) p None) w2).
  assert (SW : same_registry w W).
  { apply (same_registry_trans _ w2); [exact S2 | repeat split]. }
  destruct (calm_same_registry user tb te gs' ms' w W SW Hc) as [CW FW].
  destruct (same_registry_reads b e w w2 S2) as (L2 & O2 & _).
  assert (F2 : fns w2 = fns w) by apply S2.
  assert (Hk2 : nth_error (fns w2) k = Some (PipeListener tb te))
    by (rewrite F2; exact Hk).
  set (W1 := emitted_served user tb te p gs' ms' W).
  assert (L1 : live_listeners b e W1 = live_listeners b e w2).
  { apply (kept_emitted_at user
             (fun s => registered e s = registered e (the_bus b W)));
      try (intros; assumption); [|reflexivity].
    intros k' wb we f s Hk' H0.
    rewrite (proj1 (registered_bus_off s we e (Internal k'))).
    destruct (String.eqb e we) eqn:E; [|exact H0].
    apply String.eqb_eq in E. subst we.
    rewrite delete_absent; [exact H0|].
    destruct (JsSet.has (registered e s) (Internal k')) eqn:Hh;
      [|reflexivity].
    apply has_elements in Hh. rewrite H0 in Hh.
    change (registered e (the_bus b W)) with (live_listeners b e w2) in Hh.
    rewrite L2, Hl in Hh. destruct Hh as [Hh|[]]. inversion Hh; subst k'.
    change (fns W) with (fns w2) in Hk'. rewrite Hk2 in Hk'.
    discriminate Hk'. }
  assert (O1 : JsSet.elements (once_listeners b e W1) = []).
  { apply (kept_emitted_at user
             (fun s => JsSet.elements (registered_once e s) = []));
      try (intros; assumption).
    - intros k' wb we f s _ H0.
      rewrite (proj2 (registered_bus_off s we e (Internal k'))).
      destruct (String.eqb e we) eqn:E; [|exact H0].
      apply String.eqb_eq in E. subst we. apply elements_delete_nil, H0.
    - intros s. apply once_kept_clear.
    - change (registered_once e (the_bus b W))
        with (once_listeners b e w2).
      rewrite O2. exact Ho. }
  unfold bind at 1. unfold call_regular.
  assert (G : exists ll, JsMap.get (events (the_bus b w2)) e = Some ll /\
                         ll = live_listeners b e w2).
  { unfold live_listeners in *.
    destruct (JsMap.get (events (the_bus b w2)) e) as [ll|] eqn:G.
    - exists ll. split; reflexivity.
    - rewrite <- L2 in Hl. discriminate Hl. }
  destruct G as (ll & G & Ell). rewrite G, Ell.
  unfold JsSet.size at 1. rewrite L2, Hl. cbn [List.length Nat.ltb Nat.leb].
  unfold bind at 1.
  assert (FW' : walk_fuel tb te W <= S d) by (rewrite FW; exact Hn2).
  assert (Hl2 : JsSet.elements (live_listeners b e w2) = [Internal k])
    by (rewrite L2; exact Hl).
  assert (Hn2' : List.length (live_listeners b e w2) + 1 <= S d)
    by (rewrite L2; lia).
  rewrite (walk_pipe user (S d) b e p k tb te gs' ms' w2 Hk2 CW FW' L1
             (live_listeners b e w2) 0 (S d) eq_refl Hl2 Hn2').
  fold W W1. unfold ret at 1. unfold bind at 1.
  assert (D : drain_once user (emit user (S d)) (S d) b e p W1
              = Some (W1, Normal false)).
  { unfold drain_once, once_listeners in *.
    destruct (JsMap.get (onceEvents (the_bus b W1)) e) as [l|];
      [|reflexivity].
    unfold JsSet.size. rewrite O1. reflexivity. }
  rewrite D. reflexivity.
Qed.

Lemma on_elsewhere (b : bid) (e : string) (l : fid) (r : bool)
    (b' : bid) (e' : string) (w : World) :
  b' <> b \/ e' <> e ->
  live_listeners b' e' (upd_bus b (bus_on e l r) w)
  = live_listeners b' e' w /\
  once_listeners b' e' (upd_bus b (bus_on e l r) w)
  = once_listeners b' e' w.
Proof.
  intros N. unfold live_listeners, once_listeners.
  rewrite the_bus_upd_bus.
  destruct (Nat.eqb b b') eqn:Eb; simpl; [|split; reflexivity].
  destruct (Nat.ltb b' (List.length (buses w))); [|split; reflexivity].
  apply Nat.eqb_eq in Eb. subst b'.
  destruct N as [N|N]; [congruence|].
  destruct (registered_bus_on (the_bus b w) e e' l r) as [G1 G2].
  apply String.eqb_neq in N. rewrite N in G1.
  split; [exact G1 | exact G2].
Qed.

Lemma once_elsewhere (b : bid) (e : string) (l : fid) (r : bool)
    (b' : bid) (e' : string) (w : World) :
  live_listeners b' e' (upd_bus b (bus_once e l r) w)
  = live_listeners b' e' w /\
  (b' <> b \/ e' <> e ->
   once_listeners b' e' (upd_bus b (bus_once e l r) w)
   = once_listeners b' e' w).
Proof.
  unfold live_listeners, once_listeners.
  rewrite the_bus_upd_bus.
  destruct (Nat.eqb b b') eqn:Eb; simpl; [|split; reflexivity].
  destruct (Nat.ltb b' (List.length (buses w))); [|split; reflexivity].
  apply Nat.eqb_eq in Eb. subst b'.
  destruct (registered_bus_once (the_bus b w) e e' l r) as [G1 G2].
  split; [exact G1|]. intros [N|N]; [congruence|].
  apply String.eqb_neq in N. rewrite N in G2. exact G2.
Qed.

Lemma registry_upd_bus (b b' : bid) (g : Bus -> Bus) (w : World) :
  (forall s, middleware (g s) = middleware s /\
             errorHandler (g s) = errorHandler s) ->
  middleware (the_bus b' (upd_bus b g w)) = middleware (the_bus b' w) /\
  errorHandler (the_bus b' (upd_bus b g w)) = errorHandler (the_bus b' w).
Proof.
  intros Hg. rewrite the_bus_upd_bus.
  destruct (Nat.eqb b b' && Nat.ltb b' (List.length (buses w)));
    [apply Hg | split; reflexivity].
Qed.

Lemma registry_bus_on e l r (s : Bus) :
  middleware (bus_on e l r s) = middleware s /\
  errorHandler (bus_on e l r s) = errorHandler s.
Proof.
  unfold bus_on. destruct r; unfold setupReactiveEffect;
    try destruct (existsb _ _); split; reflexivity.
Qed.

Lemma registry_bus_once e l r (s : Bus) :
  middleware (bus_once e l r s) = middleware s /\
  errorHandler (bus_once e l r s) = errorHandler s.
Proof.
  unfold bus_once. destruct r; unfold setupReactiveEffect;
    try destruct (existsb _ _); split; reflexivity.
Qed.

(** A bus that is calm for an event stays so when the heap grows and
    its sets, its middleware and its handler stay. *)
Lemma calm_grown user (b : bid) (event : string) (gs ms : list nat)
    (cs : list closure) (w w' : World) :
  fns w' = fns w ++ cs ->
  live_listeners b event w' = live_listeners b event w ->
  once_listeners b event w' = once_listeners b event w ->
  middleware (the_bus b w') = middleware (the_bus b w) ->
  errorHandler (the_bus b w') = errorHandler (the_bus b w) ->
  calm user b event gs ms w ->
  calm user b event gs ms w' /\
  walk_fuel b event w' = walk_fuel b event w.
Proof.
  intros F L O M H (Hq & Hh & Hg & Hm & Hu & Ho). split.
  - split; [exact Hq|].
    split; [unfold handler_returns; rewrite H; exact Hh|].
    unfold middlewares in *. rewrite M.
    split; [exact Hg|]. split; [exact Hm|]. rewrite L, O. split.
    + intros f Hf. apply (steady_grow w w' cs f F), Hu, Hf.
    + intros f Hf. apply (simple_grow w w' cs f F), Ho, Hf.
  - unfold walk_fuel. rewrite L, O. reflexivity.
Qed.

(** A calm bus with a new waiting promise. *)
Lemma waitFor_calm user (b : bid) (event : string) (gs ms : list nat)
    (timeout : option Z) (w : World) :
  b < List.length (buses w) ->
  calm user b event gs ms w ->
  let w1 := fst (waitFor b event timeout w) in
  let k := List.length (fns w) in
  let p := List.length (promises w) in
  calm user b event gs ms w1 /\
  walk_fuel b event w1 <= S (walk_fuel b event w) /\
  In (Internal (S k)) (JsSet.elements (once_listeners b event w1)) /\
  (exists timeoutId,
      body_of (fns w1) (Internal (S k))
      = Some (WaitListener timeoutId p)) /\
  nth_error (promises w1) p = Some Pending.
Proof.
  intros Hb (Hq & Hh & Hg & Hm & Hu & Ho).
  destruct (waitFor_registers b event timeout w Hb)
    as (F & P & T & L & O & M & H).
  intros w1 k p. fold w1 k p in F, P, T, L, O, M, H.
  set (timeoutId := match truthy_timeout timeout with
                    | Some _ => Some (List.length (timers w))
                    | None => None
                    end) in *.
  split; [|split; [|split; [|split]]].
  - split; [exact Hq|].
    split; [unfold handler_returns; rewrite H; exact Hh|].
    unfold middlewares in *. rewrite M.
    split; [exact Hg|]. split; [exact Hm|]. split.
    + rewrite L. intros f Hf'. apply (steady_grow w w1 _ f F), Hu, Hf'.
    + rewrite O. intros f Hf'. apply elements_add in Hf'.
      destruct Hf' as [->|Hf'];
        [|apply (simple_grow w w1 _ f F), Ho, Hf'].
      exists (OnceWrapper b event (Internal k)). rewrite F. split.
      * rewrite nth_error_app2 by (unfold k; lia).
        replace (S k - List.length (fns w)) with 1 by (unfold k; lia).
        reflexivity.
      * exists (WaitListener timeoutId p). split; [|exact Logic.I].
        rewrite nth_error_app2, Nat.sub_diag by apply Nat.le_refl.
        reflexivity.
  - unfold walk_fuel in *. rewrite L, O.
    pose proof (size_add (once_listeners b event w) (Internal (S k))).
    lia.
  - rewrite O. apply in_add.
  - exists timeoutId. unfold body_of. rewrite F.
    rewrite nth_error_app2 by (unfold k; lia).
    replace (S k - List.length (fns w)) with 1 by (unfold k; lia).
    cbn [nth_error].
    rewrite nth_error_app2, Nat.sub_diag by apply Nat.le_refl.
    reflexivity.
  - rewrite P, nth_error_app2, Nat.sub_diag by apply Nat.le_refl.
    reflexivity.
Qed.


(** ** A listener that subscribes or unsubscribes while it is called

    [callListeners] walks the live set of the persistent listeners with
    [forEach]: what a listener does to that set during its call shows in
    the same emission. *)

Section Acting.

Variable user : nat -> payload -> option string -> behaviour.
Variable emit_ : bid -> string -> payload -> M bool.

(** The callback [u] makes no call on a bus. *)
Definition silent_callback (u : nat) : Prop :=
  forall x ev, acts (user u x ev) = [].

Lemma invoke_user_tame (d u : nat) (x : payload) (ev : option string)
    (w : World) :
  silent_callback u ->
  invoke user emit_ (S d) (User u) x ev w
  = Some (log (Invoked (User u) x ev) w, result (user u x ev)).
Proof. intros H. simpl. apply perform_quiet, H. Qed.

Lemma run_chain_tame (d : nat) (msg event : string) (us : list nat)
    (x : payload) (w : World) :
  Forall silent_callback us ->
  run_chain user emit_ (S d) msg (map User us) event x w
  = Some (logs (mw_trace user msg event us x) w,
          Normal (chain_payload user event us x)).
Proof.
  intros H. revert x w. induction H as [|u us Hu Hus IH]; intros x w.
  - simpl. rewrite logs_nil. reflexivity.
  - cbn [map run_chain]. rewrite (invoke_user_tame _ _ _ _ _ Hu).
    unfold chain_payload. cbn [mw_trace fold_left].
    fold (chain_payload user event us (mw_step user event x u)).
    assert (Hs : mw_step user event x u
                 = match result (user u x (Some event)) with
                   | Normal (RetVal v) => v
                   | _ => x
                   end) by reflexivity.
    destruct (result (user u x (Some event))) as [[| |v]|t];
      rewrite Hs, IH, !logs_cons; reflexivity.
Qed.

Lemma runMiddleware_tame (d : nat) (b : bid) (event : string)
    (x : payload) (gs ms : list nat) (w : World) :
  Forall silent_callback gs -> Forall silent_callback ms ->
  middlewares b "*" w = map User gs ->
  middlewares b event w = map User ms ->
  runMiddleware user emit_ (S d) b event x w
  = Some (logs (mw_trace user (global_middleware_error_msg event) event
                  gs x
                ++ mw_trace user (middleware_error_msg event) event ms
                     (chain_payload user event gs x)) w,
          Normal (chain_payload user event ms
                    (chain_payload user event gs x))).
Proof.
  intros Tg Tm Hg Hm. unfold runMiddleware, bind.
  rewrite Hg, (run_chain_tame _ _ _ _ _ _ Tg).
  change (middlewares b event (logs ?es w)) with (middlewares b event w).
  rewrite Hm, (run_chain_tame _ _ _ _ _ _ Tm), logs_app. reflexivity.
Qed.

Lemma turn_tame (b : bid) (event : string) (p : payload) (u d : nat)
    (K : M unit) (w : World) :
  silent_callback u -> handler_returns (the_bus b w) ->
  match invoke user emit_ (S d) (User u) p None w with
  | None => None
  | Some (w1, Normal _) => K w1
  | Some (w1, Throw error) =>
      (recover emit_ b event (User u) error ;;; K) w1
  end = K (delivered user b event p w (User u)).
Proof.
  intros Hu Hh. rewrite invoke_user_tame by exact Hu.
  unfold delivered, settled.
  destruct (result (user u p None)) as [r|t]; [reflexivity|].
  unfold bind. rewrite recover_returns; [reflexivity | exact Hh].
Qed.

(** [forEach] over a stretch of silent callbacks in a set that their turns
    leave alone. *)
Lemma walk_tame (b : bid) (event : string) (p : payload)
    (rd : World -> JsSet.t) (l : JsSet.t) (Keeps : World -> Prop) :
  (forall w, Keeps w -> rd w = l /\ handler_returns (the_bus b w)) ->
  (forall w u, Keeps w -> Keeps (delivered user b event p w (User u))) ->
  forall (prefix : JsSet.t) (us : list nat) (rest : JsSet.t)
         (i steps : nat) (w : World),
    skipn i l = prefix ++ rest ->
    JsSet.elements prefix = map User us -> Forall silent_callback us ->
    Keeps w -> List.length prefix + 1 <= steps ->
    callListeners user emit_ steps b rd i p event w
    = callListeners user emit_ (steps - List.length prefix) b rd
        (i + List.length prefix) p event
        (fold_left (delivered user b event p) (map User us) w).
Proof.
  intros HK HD.
  induction prefix as [|a prefix IH]; intros us rest i steps w Hs He Ht Kw Hn.
  - destruct us; [|discriminate He]. simpl.
    rewrite Nat.sub_0_r, Nat.add_0_r. reflexivity.
  - destruct (HK w Kw) as (Hr & Hh).
    destruct (skipn_cons_nth _ _ _ _ Hs) as [Hnth Hs'].
    destruct steps as [|[|d]]; simpl in Hn; try lia.
    rewrite callListeners_S, Hr, Hnth.
    cbn [List.length]. rewrite Nat.add_succ_r.
    change (S (S d) - S (List.length prefix))
      with (S d - List.length prefix).
    destruct a as [f|].
    + destruct us as [|u us]; [discriminate He|].
      simpl in He. inversion He as [[Ef Eus]]. subst f.
      inversion Ht as [|u0 us0 Tu Tus]; subst.
      rewrite (turn_tame b event p u d _ w Tu Hh).
      rewrite (IH us rest (S i) (S d) _ Hs' Eus Tus (HD w u Kw)) by lia.
      reflexivity.
    + rewrite (IH us rest (S i) (S d) w Hs' He Ht Kw) by lia. reflexivity.
Qed.

Lemma walk_end (b : bid) (event : string) (p : payload)
    (rd : World -> JsSet.t) (i steps : nat) (w : World) :
  nth_error (rd w) i = None ->
  callListeners user emit_ steps b rd i p event w = Some (w, Normal tt).
Proof. intros H. destruct steps; simpl; rewrite H; reflexivity. Qed.

(** The emission when the listener [u] acts: the callbacks [pre] before
    it, its own turn with what it does, and the callbacks [post] that the
    set then holds after it. *)
Definition acted (b : bid) (e : string) (p : payload) (pre : list nat)
    (u : nat) (post : list nat) (act : World -> World) (w : World)
  : World :=
  fold_left (delivered user b e p) (map User post)
    (settled b e (User u) (result (user u p None))
       (act (log (Invoked (User u) p None)
               (fold_left (delivered user b e p) (map User pre) w)))).

(** What the action of the listener must leave alone, and the set
    [raw'] it leaves. *)
Definition acts_on (b : bid) (e : string) (p : payload) (u : nat)
    (act : World -> World) (raw' : JsSet.t) (w : World) : Prop :=
  forall w0,
    same_registry w w0 ->
    let w1 := act (log (Invoked (User u) p None) w0) in
    fns w1 = fns w0 /\
    trace w1 = trace w0 ++ [Invoked (User u) p None] /\
    errorHandler (the_bus b w1) = errorHandler (the_bus b w0) /\
    live_listeners b e w1 = raw' /\
    JsSet.elements (once_listeners b e w1) = [].

Lemma walk_acting (n : nat) (b : bid) (e : string) (p : payload)
    (pre : list nat) (u : nat) (post : list nat) (act : World -> World)
    (r1 r2 raw' r2' : JsSet.t) (w : World) :
  Forall silent_callback pre -> Forall silent_callback post ->
  handler_returns (the_bus b w) ->
  live_listeners b e w = r1 ++ Some (User u) :: r2 ->
  JsSet.elements r1 = map User pre ->
  (forall w0, run_actions emit_ (acts (user u p None)) w0
              = Some (act w0, Normal tt)) ->
  acts_on b e p u act raw' w ->
  skipn (S (List.length r1)) raw' = r2' ->
  JsSet.elements r2' = map User post ->
  List.length r1 + List.length r2' + 3 <= n ->
  callListeners user emit_ n b (live_listeners b e) 0 p e w
  = Some (acted b e p pre u post act w, Normal tt).
Proof.
  intros Tpre Tpost Hh Hl E1 Hact Hon Hs2 E2 Hn.
  (* the callbacks before [u] *)
  rewrite (walk_tame b e p (live_listeners b e) (live_listeners b e w)
             (same_registry w)
             ltac:(intros w' Kw;
                   destruct (same_registry_reads b e w w' Kw)
                     as (L & _ & _ & H' & _);
                   exact (conj L (H' Hh)))
             ltac:(intros w' u' Kw;
                   exact (same_registry_trans _ _ _ Kw
                            (same_registry_user user b e p u' w')))
             r1 pre (Some (User u) :: r2) 0 n w
             Hl E1 Tpre (same_registry_refl w))
    by lia.
  set (w3 := fold_left (delivered user b e p) (map User pre) w).
  assert (S3 : same_registry w w3) by apply same_registry_users.
  destruct (same_registry_reads b e w w3 S3) as (L3 & _ & _ & H3 & _).
  (* the turn of [u] *)
  destruct (n - List.length r1) as [|[|d]] eqn:En; try lia.
  rewrite callListeners_S, L3, Hl.
  rewrite nth_error_app2, Nat.add_0_l, Nat.sub_diag by apply Nat.le_refl.
  cbn [nth_error].
  change (invoke user emit_ (S d) (User u) p None w3)
    with (perform emit_ (user u p None) (log (Invoked (User u) p None) w3)).
  unfold perform, bind. rewrite Hact.
  destruct (Hon w3 S3) as (F4 & T4 & H4 & L4 & O4).
  set (w4 := act (log (Invoked (User u) p None) w3)) in *.
  assert (Hh4 : handler_returns (the_bus b w4))
    by (unfold handler_returns; rewrite H4; exact (H3 Hh)).
  set (w5 := settled b e (User u) (result (user u p None)) w4).
  assert (S5 : same_registry w4 w5) by apply same_registry_settled.
  assert (K5 : callListeners user emit_ (S d) b (live_listeners b e)
                 (S (List.length r1)) p e w5
               = Some (fold_left (delivered user b e p) (map User post) w5,
                       Normal tt)).
  { destruct (same_registry_reads b e w4 w5 S5) as (L5 & _ & _ & H5 & _).
    rewrite (walk_tame b e p (live_listeners b e) raw' (same_registry w5)
               ltac:(intros w' Kw;
                     destruct (same_registry_reads b e w5 w' Kw)
                       as (L & _ & _ & H' & _);
                     rewrite L, L5;
                     exact (conj L4 (H' (H5 Hh4))))
               ltac:(intros w' u' Kw;
                     exact (same_registry_trans _ _ _ Kw
                              (same_registry_user user b e p u' w')))
               r2' post [] (S (List.length r1)) (S d) w5
               ltac:(rewrite app_nil_r; exact Hs2)
               E2 Tpost (same_registry_refl w5))
      by lia.
    apply walk_end.
    pose proof (same_registry_users user b e p post w5) as S6.
    destruct (same_registry_reads b e w5 _ S6) as (L6 & _).
    rewrite L6, L5, L4. apply nth_error_None.
    assert (List.length r2' = List.length raw' - S (List.length r1))
      by (rewrite <- Hs2; apply length_skipn).
    lia. }
  unfold acted. fold w3 w4 w5.
  destruct (result (user u p None)) as [r|t] eqn:Er.
  - exact K5.
  - unfold bind.
    rewrite (recover_returns emit_ b e (User u) t w4 Hh4).
    exact K5.
Qed.

End Acting.

Lemma entries_of_callbacks user (heap heap' : list closure)
    (h : option (thrown -> string -> fid -> behaviour)) (e : string)
    (p : payload) (us : list nat) :
  flat_map (listener_entries user heap h e p) (map User us)
  = flat_map (listener_entries user heap' h e p) (map User us).
Proof.
  induction us as [|u us IH]; [reflexivity|]. simpl. rewrite IH.
  reflexivity.
Qed.

Lemma acts_on_later (b : bid) (e : string) (p : payload) (u : nat)
    (act : World -> World) (raw' : JsSet.t) (w w2 : World) :
  same_registry w w2 ->
  acts_on b e p u act raw' w -> acts_on b e p u act raw' w2.
Proof.
  intros S2 H w0 S0. apply H.
  exact (same_registry_trans _ _ _ S2 S0).
Qed.

(** What the emission leaves when [u] has acted: the trace of every
    callback that was called, and the set as [u] left it. *)
Lemma acted_spec user (b : bid) (e : string) (p : payload)
    (pre : list nat) (u : nat) (post : list nat) (act : World -> World)
    (raw' : JsSet.t) (w : World) :
  acts_on b e p u act raw' w ->
  let w' := acted user b e p pre u post act w in
  trace w'
  = trace w
    ++ flat_map (listener_entries user (fns w) (errorHandler (the_bus b w))
                   e p)
         (map User (pre ++ u :: post)) /\
  live_listeners b e w' = raw' /\
  JsSet.elements (once_listeners b e w') = [].
Proof.
  intros Hon w'. unfold w', acted.
  set (w3 := fold_left (delivered user b e p) (map User pre) w).
  assert (S3 : same_registry w w3) by apply same_registry_users.
  destruct (Hon w3 S3) as (F4 & T4 & H4 & L4 & O4).
  set (w4 := act (log (Invoked (User u) p None) w3)) in *.
  set (w5 := settled b e (User u) (result (user u p None)) w4).
  assert (S5 : same_registry w4 w5) by apply same_registry_settled.
  pose proof (same_registry_users user b e p post w5) as S6.
  destruct (same_registry_reads b e w4 w5 S5) as (L5 & O5 & _).
  destruct (same_registry_reads b e w5 _ S6) as (L6 & O6 & _).
  assert (F3 : fns w3 = fns w) by apply S3.
  assert (H3 : errorHandler (the_bus b w3) = errorHandler (the_bus b w))
    by apply S3.
  assert (F5 : fns w5 = fns w4) by apply S5.
  assert (H5 : errorHandler (the_bus b w5) = errorHandler (the_bus b w4))
    by apply S5.
  split; [|split].
  - rewrite trace_fold. unfold w5. rewrite trace_settled, T4.
    unfold w3 at 1. rewrite trace_fold.
    fold w5. rewrite H5, H4, H3.
    rewrite (entries_of_callbacks user (fns w5) (fns w)).
    rewrite map_app, flat_map_app. cbn [map flat_map listener_entries].
    rewrite <- !app_assoc. reflexivity.
  - rewrite L6, L5. exact L4.
  - rewrite O6, O5. exact O4.
Qed.

Lemma emit_acting user (n : nat) (b : bid) (e : string) (x : payload)
    (gs ms pre : list nat) (u : nat) (post : list nat)
    (act : World -> World) (r1 r2 raw' r2' : JsSet.t) (w : World) :
  Forall (silent_callback user) gs ->
  Forall (silent_callback user) ms ->
  Forall (silent_callback user) pre ->
  Forall (silent_callback user) post ->
  handler_returns (the_bus b w) ->
  middlewares b "*" w = map User gs ->
  middlewares b e w = map User ms ->
  live_listeners b e w = r1 ++ Some (User u) :: r2 ->
  JsSet.elements r1 = map User pre ->
  (forall y w0, run_actions (emit user n) (acts (user u y None)) w0
                = Some (act w0, Normal tt)) ->
  acts_on b e (chain_payload user e ms (chain_payload user e gs x))
    u act raw' w ->
  skipn (S (List.length r1)) raw' = r2' ->
  JsSet.elements r2' = map User post ->
  List.length r1 + List.length r2' + 3 <= n ->
  emit user (S n) b e x w
  = Some (acted user b e
            (chain_payload user e ms (chain_payload user e gs x))
            pre u post act
            (upd_bus b (count_emission e)
               (logs (mw_trace user (global_middleware_error_msg e) e gs x
                      ++ mw_trace user (middleware_error_msg e) e ms
                           (chain_payload user e gs x)) w)),
          Normal true).
Proof.
  intros Tg Tm Tpre Tpost Hh Hg Hm Hl E1 Hact Hon Hs2 E2 Hn.
  destruct n as [|d]; [lia|].
  change (emit user (S (S d)) b e x w)
    with (emit_body user (emit user (S d)) (S d) b e x w).
  unfold emit_body. unfold bind at 1.
  rewrite (runMiddleware_tame user (emit user (S d)) d b e x gs ms w
             Tg Tm Hg Hm).
  set (p := chain_payload user e ms (chain_payload user e gs x)) in *.
  set (es := mw_trace user (global_middleware_error_msg e) e gs x
             ++ mw_trace user (middleware_error_msg e) e ms
                  (chain_payload user e gs x)).
  rewrite bind_modify.
  set (w2 := upd_bus b (count_emission e) (logs es w)).
  pose proof (same_registry_counted b e es w) as S2. fold w2 in S2.
  destruct (same_registry_reads b e w w2 S2) as (L2 & _ & _ & H2 & _).
  pose proof (acts_on_later b e p u act raw' w w2 S2 Hon) as Hon2.
  assert (Hl2 : live_listeners b e w2 = r1 ++ Some (User u) :: r2)
    by (rewrite L2; exact Hl).
  unfold bind at 1. unfold call_regular.
  assert (G : exists ll, JsMap.get (events (the_bus b w2)) e = Some ll /\
                         ll = live_listeners b e w2).
  { unfold live_listeners in *.
    destruct (JsMap.get (events (the_bus b w2)) e) as [ll|] eqn:G.
    - exists ll. split; reflexivity.
    - destruct r1; discriminate Hl2. }
  destruct G as (ll & G & Ell). rewrite G, Ell.
  assert (Z : Nat.ltb 0 (JsSet.size (live_listeners b e w2)) = true).
  { apply Nat.ltb_lt. unfold JsSet.size.
    rewrite Hl2, elements_app, length_app. simpl. lia. }
  rewrite Z. unfold bind at 1.
  rewrite (walk_acting user (emit user (S d)) (S d) b e p pre u post act
             r1 r2 raw' r2' w2 Tpre Tpost (H2 Hh) Hl2 E1 (Hact p) Hon2
             Hs2 E2 Hn).
  unfold ret at 1. unfold bind at 1.
  destruct (acted_spec user b e p pre u post act raw' w2 Hon2)
    as (_ & _ & O6).
  set (w6 := acted user b e p pre u post act w2) in *.
  assert (D : drain_once user (emit user (S d)) (S d) b e p w6
              = Some (w6, Normal false)).
  { unfold drain_once, once_listeners in *.
    destruct (JsMap.get (onceEvents (the_bus b w6)) e) as [l|];
      [|reflexivity].
    unfold JsSet.size. rewrite O6. reflexivity. }
  rewrite D. reflexivity.
Qed.

Lemma split_elements (raw : JsSet.t) (A : list fid) (f : fid)
    (B : list fid) :
  JsSet.elements raw = A ++ f :: B ->
  exists r1 r2, raw = r1 ++ Some f :: r2 /\
                JsSet.elements r1 = A /\ JsSet.elements r2 = B.
Proof.
  revert A. induction raw as [|[g|] raw IH]; intros A H; simpl in H.
  - destruct A; discriminate H.
  - destruct A as [|a A]; simpl in H; injection H as Hg Hr.
    + subst g. exists [], raw.
      split; [reflexivity|]. split; [reflexivity | exact Hr].
    + subst g. destruct (IH A Hr) as (r1 & r2 & Er & E1 & E2).
      exists (Some a :: r1), r2. rewrite Er. simpl. rewrite E1.
      split; [reflexivity|]. split; [reflexivity | exact E2].
  - destruct (IH A H) as (r1 & r2 & Er & E1 & E2).
    exists (None :: r1), r2. rewrite Er.
    split; [reflexivity|]. split; [exact E1 | exact E2].
Qed.

Lemma skipn_after {A : Type} (l1 : list A) (a : A) (l2 : list A) :
  skipn (S (List.length l1)) (l1 ++ a :: l2) = l2.
Proof. induction l1 as [|b l1 IH]; [reflexivity | exact IH]. Qed.

Lemma elements_delete_users (r : JsSet.t) (v : nat) :
  forall us, JsSet.elements r = map User us ->
             JsSet.elements (JsSet.delete r (User v))
             = map User (filter (fun u' => negb (Nat.eqb v u')) us).
Proof.
  unfold JsSet.delete. induction r as [|[g|] r IH]; intros us H; simpl in *.
  - destruct us; [reflexivity | discriminate H].
  - destruct us as [|u us]; [discriminate H|]. simpl in H.
    inversion H as [[Eg Er]]. subst g. simpl.
    destruct (Nat.eqb v u); simpl; rewrite (IH us Er); reflexivity.
  - exact (IH us H).
Qed.

Lemma acts_on_off (b : bid) (e : string) (p : payload) (u v : nat)
    (raw : JsSet.t) (w : World) :
  b < List.length (buses w) ->
  live_listeners b e w = raw ->
  JsSet.elements (once_listeners b e w) = [] ->
  acts_on b e p u (off b e (VFun (User v)))
    (JsSet.delete raw (User v)) w.
Proof.
  intros Hb Hl Ho w0 S0.
  destruct (same_registry_reads b e w w0 S0) as (L0 & O0 & _).
  destruct S0 as (F0 & B0 & _). cbv zeta.
  split; [reflexivity|]. split; [reflexivity|].
  split; [rewrite handler_off; reflexivity|].
  assert (T : the_bus b (off b e (VFun (User v))
                           (log (Invoked (User u) p None) w0))
              = bus_off e (User v) (the_bus b w0)).
  { unfold off. rewrite the_bus_upd_bus, Nat.eqb_refl.
    change (buses (log ?x ?w1)) with (buses w1). rewrite B0.
    apply Nat.ltb_lt in Hb. rewrite Hb. reflexivity. }
  unfold live_listeners, once_listeners. rewrite T.
  destruct (registered_bus_off (the_bus b w0) e e (User v)) as [G1 G2].
  rewrite String.eqb_refl in G1, G2. split.
  - etransitivity; [exact G1|]. f_equal.
    change (registered e (the_bus b w0)) with (live_listeners b e w0).
    rewrite L0. exact Hl.
  - etransitivity; [apply f_equal; exact G2|].
    apply elements_delete_nil.
    change (registered_once e (the_bus b w0))
      with (once_listeners b e w0).
    rewrite O0. exact Ho.
Qed.

Lemma acts_on_on (b : bid) (e : string) (p : payload) (u v : nat)
    (r : bool) (raw : JsSet.t) (w : World) :
  b < List.length (buses w) ->
  live_listeners b e w = raw ->
  JsSet.elements (once_listeners b e w) = [] ->
  acts_on b e p u (fun w0 => fst (on b e (VFun (User v)) r w0))
    (JsSet.add raw (User v)) w.
Proof.
  intros Hb Hl Ho w0 S0.
  destruct (same_registry_reads b e w w0 S0) as (L0 & O0 & _).
  destruct S0 as (F0 & B0 & _). cbv zeta. cbn [on fst].
  split; [reflexivity|]. split; [reflexivity|].
  split.
  { rewrite handler_upd_bus; [reflexivity|].
    intros s. apply registry_bus_on. }
  assert (T : the_bus b (upd_bus b (bus_on e (User v) r)
                           (log (Invoked (User u) p None) w0))
              = bus_on e (User v) r (the_bus b w0)).
  { rewrite the_bus_upd_bus, Nat.eqb_refl.
    change (buses (log ?x ?w1)) with (buses w1). rewrite B0.
    apply Nat.ltb_lt in Hb. rewrite Hb. reflexivity. }
  unfold live_listeners, once_listeners. rewrite T.
  destruct (registered_bus_on (the_bus b w0) e e (User v) r) as [G1 G2].
  rewrite String.eqb_refl in G1. split.
  - etransitivity; [exact G1|]. f_equal.
    change (registered e (the_bus b w0)) with (live_listeners b e w0).
    rewrite L0. exact Hl.
  - etransitivity; [apply f_equal; exact G2|].
    change (registered_once e (the_bus b w0))
      with (once_listeners b e w0).
    rewrite O0. exact Ho.
Qed.



(** ** Who is called *)

Lemma mw_trace_invoked user (msg event : string) (us : list nat)
    (x : payload) (f : fid) (y : payload) (ev : option string) :
  In (Invoked f y ev) (mw_trace user msg event us x) ->
  ev = Some event /\ exists u, f = User u /\ In u us.
Proof.
  revert x. induction us as [|u us IH]; intros x H; simpl in H; [destruct H|].
  destruct H as [H|H].
  - inversion H; subst. split; [reflexivity|]. exists u. split; [|left];
      reflexivity.
  - apply in_app_or in H. destruct H as [H|H].
    + destruct (result (user u x (Some event))) as [r|t]; [destruct H|].
      destruct H as [H|[]]. discriminate H.
    + destruct (IH _ H) as (E & u' & Ef & Hin).
      split; [exact E|]. exists u'. split; [exact Ef | right; exact Hin].
Qed.

Lemma outcome_not_invoked
    (h : option (thrown -> string -> fid -> behaviour)) (event : string)
    (l : fid) (res : completion jsret) (f : fid) (y : payload)
    (ev : option string) :
  ~ In (Invoked f y ev) (outcome_entries h event l res).
Proof.
  destruct res as [r|t]; simpl; [tauto|].
  intros [H|[]]. destruct h; discriminate H.
Qed.

Lemma entries_invoked user (heap : list closure)
    (h : option (thrown -> string -> fid -> behaviour)) (event : string)
    (p : payload) (l f : fid) (y : payload) (ev : option string) :
  In (Invoked f y ev) (listener_entries user heap h event p l) ->
  ev = None /\
  (f = l \/
   exists k wb we, l = Internal k /\
                   nth_error heap k = Some (OnceWrapper wb we f)).
Proof.
  unfold listener_entries. destruct l as [u|k].
  - intros [H|H]; [|destruct (outcome_not_invoked _ _ _ _ _ _ _ H)].
    inversion H; subst. split; [reflexivity | left; reflexivity].
  - destruct (nth_error heap k) as [[wb we [u|j]| | |]|] eqn:Ek;
      try (intros H; destruct H; fail).
    intros [H|[H|H]]; [| |destruct (outcome_not_invoked _ _ _ _ _ _ _ H)].
    + inversion H; subst. split; [reflexivity | left; reflexivity].
    + inversion H; subst. split; [reflexivity|]. right.
      exists k, wb, we. split; [reflexivity | exact Ek].
Qed.

End Model.

(** * The class at work

    Sessions on payloads that are numbers. *)

Definition silent : nat -> nat -> option string -> @behaviour nat :=
  fun _ _ _ => mkBehaviour [] (Normal RetUndefined).

Definition quiet_handler : thrown -> string -> fid -> @behaviour nat :=
  fun _ _ _ => mkBehaviour [] (Normal RetUndefined).

Definition failing_handler : thrown -> string -> fid -> @behaviour nat :=
  fun _ _ _ => mkBehaviour [] (Throw (JsError "handler failed")).

(** Callback 0 throws an [Error], 1 returns its argument plus one, 2 returns
    nothing, the others throw a string. *)
Definition mixed (u : nat) (x : nat) (ev : option string) : @behaviour nat :=
  match u with
  | 0 => mkBehaviour [] (Throw (JsError "boom"))
  | 1 => mkBehaviour [] (Normal (RetVal (x + 1)))
  | 2 => mkBehaviour [] (Normal RetUndefined)
  | _ => mkBehaviour [] (Throw (JsOther "late"))
  end.

(** Callback 0 subscribes callback 1 with [once] on the event it listens
    to. *)
Definition resubscribing (u : nat) (x : nat) (ev : option string)
  : @behaviour nat :=
  match u with
  | 0 => mkBehaviour [AOnce 0 "e" (Callback 1) false] (Normal RetUndefined)
  | _ => mkBehaviour [] (Normal RetUndefined)
  end.

Definition one_bus : @World nat := mkWorld [new_bus false None] [] [] [] [] [].

Definition once_then_off : list (@op nat) :=
  [ONew false None;
   OOnce 0 "e" (Callback 0) false;
   OListenerCount 0 "e";
   OOff 0 "e" (Callback 0);
   OListenerCount 0 "e";
   OEmit 0 "e" 7].

Definition wait_then_timeout : list (@op nat) :=
  [ONew false None;
   OListenerCount 0 "ready";
   OWaitFor 0 "ready" (Some 10%Z);
   OTimeout 0;
   OSettled (HPromise 0);
   OListenerCount 0 "ready";
   OEmit 0 "ready" 7].

Definition wait_then_emit : list (@op nat) :=
  [ONew false None;
   OWaitFor 0 "ready" (Some 10%Z);
   OEmit 0 "ready" 7;
   OSettled (HPromise 0);
   OTimeout 0;
   OSettled (HPromise 0);
   OListenerCount 0 "ready"].

Definition throwing_middleware : list (@op nat) :=
  [ONew false (Some quiet_handler);
   OUse 0 "e" (Callback 0);
   OOn 0 "e" (Callback 2) false;
   OEmit 0 "e" 7;
   OMetricsState (HMetrics 0)].

Definition throwing_handler : list (@op nat) :=
  [ONew false (Some failing_handler);
   OOn 0 "e" (Callback 0) false;
   OOn 0 "e" (Callback 2) false;
   OEmit 0 "e" 7].

Definition staging : list (@op nat) :=
  [ONew true (Some quiet_handler);
   OUse 0 "*" (Callback 2);
   OUse 0 "*" (Callback 1);
   OUse 0 "e" (Callback 0);
   OUse 0 "e" (Callback 1);
   OOn 0 "e" (Callback 0) false;
   OOn 0 "e" (Callback 2) true;
   OOnce 0 "e" (Callback 3) false].

(** The world [staging] builds: two wildcard middleware, two on "e", two
    persistent listeners and a once-listener on "e". *)
Definition stage : @World nat :=
  mkWorld
    [mkBus [("e", [Some (User 0); Some (User 2)])]
           [("e", [Some (Internal 0)])]
           [User 2]
           (mkState 0 None 3 0)
           [("eventRate", ComputedTotalEventsEmitted);
            ("errorRate", ComputedErrorCount)]
           [("*", [User 2; User 1]); ("e", [User 0; User 1])]
           (Some quiet_handler)]
    [OnceWrapper 0 "e" (User 3)] [] [] [] [].

Definition the_trace {A : Type} (r : option (@World nat * A))
  : list (@entry nat) :=
  match r with
  | Some (w, _) => trace w
  | None => []
  end.

Lemma staging_builds_stage :
  option_map fst (run mixed 5 staging start) = Some stage.
Proof. reflexivity. Qed.

Lemma no_calls_mixed : no_calls mixed.
Proof. intros [|[|[|u]]] x ev; reflexivity. Qed.

Lemma handler_returns_stage : handler_returns (the_bus 0 stage).
Proof.
  simpl. intros err e l. split; [reflexivity | eexists; reflexivity].
Qed.

Lemma plain_stage (f : fid) :
  In f (JsSet.elements (once_listeners 0 "e" stage)) -> plain stage f.
Proof.
  intros [<-|[]]. exists 0, "e", 3. reflexivity.
Qed.

(** C2, as the code has it.  On a fresh bus, [once("e", f)] followed by
    [off("e", f)] with the same callback f leaves [listenerCount("e")] at
    1, and the next [emit("e", 7)] calls the wrapper and through it f.  In
    every state, [off(E, f)] with a callback of the caller leaves in the
    once-set of E the wrapper that [once] has put there: the set holds the
    wrapper, [off] deletes by identity, and the [_originalListener] that
    [once] stores on the wrapper is never read. *)
Theorem off_with_original_callback_keeps_once_registration :
  option_map snd (run silent 5 once_then_off start)
  = Some [Normal (RHandle (HBus 0));
          Normal (RHandle (HUnsubscribe 0 "e" (Internal 0)));
          Normal (RNumber 1);
          Normal RVoid;
          Normal (RNumber 1);
          Normal (RBool true)]
  /\ the_trace (run silent 5 once_then_off start)
     = [Invoked (Internal 0) 7 None; Invoked (User 0) 7 None]
  /\ forall (s : @Bus nat) event u k reactive,
       exists l,
         JsMap.get
           (onceEvents
              (bus_off event (User u)
                 (bus_once event (Internal k) reactive s))) event = Some l
         /\ JsSet.has l (Internal k) = true.
Proof.
  refine (conj _ (conj _ _)); [reflexivity | reflexivity |].
  intros s event u k reactive. apply once_survives_off. reflexivity.
Qed.

(** C1, as the code has it.  On a fresh bus, [waitFor("ready", 10)] whose
    timer fires before any emission rejects the promise with
    "Timeout waiting for event: ready", but the listener stays:
    [listenerCount("ready")] was 0 before [waitFor], is 1 after the timer
    fired, and the next [emit("ready", 7)] calls the wrapper and the
    listener of [waitFor].  In every state the timer callback rejects with
    the message that names the event, and in every state the [off] it
    makes, with the listener, leaves in the once-set the wrapper that
    [once] made around that listener.  When the emission comes first the
    timer is cleared, the promise is fulfilled with the payload, the
    listener is gone and the timer callback no longer runs. *)
Theorem waitFor_timeout_rejects_and_keeps_listener :
  option_map snd (run silent 5 wait_then_timeout start)
  = Some [Normal (RHandle (HBus 0));
          Normal (RNumber 0);
          Normal (RHandle (HPromise 0));
          Normal RVoid;
          Normal (RPromise
                    (Some (Rejected
                             (JsError "Timeout waiting for event: ready"))));
          Normal (RNumber 1);
          Normal (RBool true)]
  /\ the_trace (run silent 5 wait_then_timeout start)
     = [Invoked (Internal 1) 7 None; Invoked (Internal 0) 7 None]
  /\ (forall b event q (w : @World nat),
        nth_error
          (promises
             (fireTimer (List.length (timers w))
                (fst (waitFor b event (Some (Z.pos q)) w))))
          (snd (waitFor b event (Some (Z.pos q)) w))
        = Some (Rejected
                  (JsError ("Timeout waiting for event: " ++ event)%string)))
  /\ (forall (s : @Bus nat) event j reactive,
        exists l,
          JsMap.get
            (onceEvents
               (bus_off event (Internal j)
                  (bus_once event (Internal (S j)) reactive s))) event
          = Some l
          /\ JsSet.has l (Internal (S j)) = true)
  /\ option_map snd (run silent 5 wait_then_emit start)
     = Some [Normal (RHandle (HBus 0));
             Normal (RHandle (HPromise 0));
             Normal (RBool true);
             Normal (RPromise (Some (Fulfilled 7)));
             Normal RVoid;
             Normal (RPromise (Some (Fulfilled 7)));
             Normal (RNumber 0)]
  /\ option_map (fun r => map t_state (timers (fst r)))
       (run silent 5 wait_then_emit start)
     = Some [Cleared].
Proof.
  refine (conj _ (conj _ (conj _ (conj _ (conj _ _)))));
    try reflexivity.
  - intros b event q w. apply timeout_rejects.
  - intros s event j reactive. apply once_survives_off.
    simpl. apply Nat.eqb_neq. apply Nat.neq_succ_diag_r.
Qed.


Definition nested : nat -> nat -> option string -> @behaviour nat :=
  fun u x _ =>
    match u with
    | 0 => mkBehaviour [AEmit 0 "inner" x; AOn 0 "e" NotCallable false]
             (Normal RetUndefined)
    | _ => mkBehaviour [] (Throw (JsOther "inner failed"))
    end.

Definition nesting : list (@op nat) :=
  [ONew false (Some quiet_handler);
   OOn 0 "e" (Callback 0) false;
   OOn 0 "inner" (Callback 1) false].

(** The world [nesting] builds: on "e" a listener that emits "inner" and
    then passes [on] something that is not a function, on "inner" a
    listener that throws. *)
Definition nest : @World nat :=
  mkWorld
    [mkBus [("e", [Some (User 0)]); ("inner", [Some (User 1)])]
           [] [] (mkState 0 None 2 0) [] [] (Some quiet_handler)]
    [] [] [] [] [].

Lemma nesting_builds_nest :
  option_map fst (run nested 3 nesting start) = Some nest.
Proof. reflexivity. Qed.



Definition on_then_unsubscribe : list (@op nat) :=
  [ONew false None;
   OOn 0 "e" (Callback 0) false;
   OCall (HUnsubscribe 0 "e" (User 0));
   OEventNames 0;
   OListenerCount 0 "e";
   OHasListeners 0 "e"].

(** On a fresh bus, with [off] and with the closure that [on] returned. *)
Lemma off_leaves_empty_event_listed_witness :
  (let s' := bus_off "e" (User 0)
               (bus_on "e" (User 0) false (@new_bus nat false None)) in
   eventNames s' = ["e"] /\ In "e" (eventNames s') /\
   listenerCount "e" s' = 0 /\ hasListeners "e" s' = false) /\
  option_map snd (run silent 1 on_then_unsubscribe start)
  = Some [Normal (RHandle (HBus 0));
          Normal (RHandle (HUnsubscribe 0 "e" (User 0)));
          Normal RVoid;
          Normal (RStrings ["e"]);
          Normal (RNumber 0);
          Normal (RBool false)].
Proof.
  destruct (off_leaves_empty_event_listed
              (@new_bus nat false None) "e" (User 0) false eq_refl)
    as (H1 & H2 & H3 & _).
  exact (conj (conj eq_refl (conj H1 (conj H2 H3))) eq_refl).
Defined.

Definition waiting : @World nat :=
  fst (waitFor 0 "other" (Some 10%Z) one_bus).

Definition after_waiting : list (@op nat) :=
  [OTimeout 0; OTimeout 1; OSettled (HPromise 1); OEmit 0 "other" 3;
   OTimeout 0; OTimeout 1].


(** [emit("e", 7)] on [stage] drains the once-listener: three listeners
    before, two after, one after a further [off]. *)
Lemma activeListeners_is_the_sum_of_sizes_witness :
  (exists w' c,
      emit mixed 8 0 "e" 7 stage = Some (w', c) /\
      Forall metrics_ok (buses w') /\
      map (fun s => activeListeners (reactiveState s)) (buses w') = [2]) /\
  (exists w' rs,
      run mixed 8 (staging ++ [OEmit 0 "e" 7; OOff 0 "e" (Callback 2)]) start
      = Some (w', rs) /\
      Forall metrics_ok (buses w') /\
      map (fun s => activeListeners (reactiveState s)) (buses w') = [1]).
Proof.
  destruct (@activeListeners_is_the_sum_of_sizes nat)
    as (_ & _ & _ & _ & _ & He & Hr).
  assert (K : consistent stage).
  { apply (Hr mixed 5 staging stage
             [Normal (RHandle (HBus 0));
              Normal (RHandle (HUnregister 0 "*" (User 2)));
              Normal (RHandle (HUnregister 0 "*" (User 1)));
              Normal (RHandle (HUnregister 0 "e" (User 0)));
              Normal (RHandle (HUnregister 0 "e" (User 1)));
              Normal (RHandle (HUnsubscribe 0 "e" (User 0)));
              Normal (RHandle (HUnsubscribe 0 "e" (User 2)));
              Normal (RHandle (HUnsubscribe 0 "e" (Internal 0)))]).
    reflexivity. }
  split.
  - eexists. eexists. split; [vm_compute; reflexivity|]. split.
    + eapply (He mixed 8 0 "e" 7 stage); [exact K|].
      vm_compute. reflexivity.
    + reflexivity.
  - eexists. eexists. split; [vm_compute; reflexivity|]. split.
    + eapply (Hr mixed 8
                (staging ++ [OEmit 0 "e" 7; OOff 0 "e" (Callback 2)])).
      vm_compute. reflexivity.
    + reflexivity.
Defined.

Definition subscribed : @World nat :=
  fst (once 0 "e" (VFun (User 0)) false one_bus).

Lemma never_emits_resubscribing : never_emits resubscribing.
Proof.
  intros [|u] x ev a H.
  - destruct H as [<-|[]]. reflexivity.
  - destruct H.
Qed.

Lemma settled_heap_subscribed : settled_heap 1 subscribed.
Proof.
  refine (conj _ (conj _ (conj _ (conj _ _)))).
  - intros [|[|b]] s e l f Hb He; try discriminate Hb.
    injection Hb as <-. destruct He.
  - intros [|[|b]] s e l f Hb He; try discriminate Hb.
    injection Hb as <-. destruct He.
  - intros [|[|j]] b e l H; try discriminate H.
    injection H as _ _ <-. exact I.
  - intros [|[|j]] tb te H; discriminate H.
  - intros [|[|b]] s h err e l a Hb Hh; try discriminate Hb.
    injection Hb as <-. discriminate Hh.
Qed.

Lemma old_subscribed (f : fid) :
  In f (JsSet.elements (once_listeners 0 "e" subscribed)) -> old 1 f.
Proof.
  intros [<-|[]]. exact (Nat.lt_0_succ 0).
Qed.



(** ** Registrations, streams and promises on [stage] *)

Definition staged : list (completion (@retval nat)) :=
  [Normal (RHandle (HBus 0));
   Normal (RHandle (HUnregister 0 "*" (User 2)));
   Normal (RHandle (HUnregister 0 "*" (User 1)));
   Normal (RHandle (HUnregister 0 "e" (User 0)));
   Normal (RHandle (HUnregister 0 "e" (User 1)));
   Normal (RHandle (HUnsubscribe 0 "e" (User 0)));
   Normal (RHandle (HUnsubscribe 0 "e" (User 2)));
   Normal (RHandle (HUnsubscribe 0 "e" (Internal 0)))].

Lemma staging_runs : run mixed 5 staging start = Some (stage, staged).
Proof. reflexivity. Qed.

Lemma keyed_stage : keyed (the_bus 0 stage).
Proof.
  split; simpl; (constructor; [intros [] | constructor]).
Qed.

Lemma calm_stage : calm mixed 0 "e" [2; 1] [0; 1] stage.
Proof.
  split; [exact no_calls_mixed|]. split; [exact handler_returns_stage|].
  split; [reflexivity|]. split; [reflexivity|]. split.
  - intros f [<-|[<-|[]]]; exact I.
  - intros f [<-|[]]. exists (OnceWrapper 0 "e" (User 3)).
    split; [reflexivity | exact I].
Qed.

(** [stage] with a stream and a waiting promise on "e". *)
Definition studio : @World nat :=
  fst (waitFor 0 "e" (Some 10%Z) (fst (stream 0 "e" stage))).

Lemma calm_studio : calm mixed 0 "e" [2; 1] [0; 1] studio.
Proof.
  split; [exact no_calls_mixed|]. split; [exact handler_returns_stage|].
  split; [reflexivity|]. split; [reflexivity|]. split.
  - intros f [<-|[<-|[<-|[]]]]; try exact I.
    exists (StreamListener 0). split; [reflexivity | exact I].
  - intros f [<-|[<-|[]]].
    + exists (OnceWrapper 0 "e" (User 3)). split; [reflexivity | exact I].
    + exists (OnceWrapper 0 "e" (Internal 2)). split; [reflexivity|].
      exists (WaitListener (Some 0) 0). split; [reflexivity | exact I].
Qed.

(** The callback 1 is not registered for "e" on [stage]: [on] then [off]
    leaves the two persistent listeners and the once-wrapper. *)
Lemma on_then_off_restores_registrations_witness :
  let s := the_bus 0 stage in
  let s' := bus_off "e" (User 1) (bus_on "e" (User 1) true s) in
  JsSet.elements (registered "e" s') = [User 0; User 2] /\
  registered_once "e" s' = [Some (Internal 0)] /\
  listenerCount "e" s' = 3 /\
  hasListeners "e" s' = true /\
  middleware s' = middleware s.
Proof.
  destruct (on_then_off_restores_registrations
              (the_bus 0 stage) "e" (User 1) true eq_refl eq_refl)
    as (A & B & C & D & E).
  exact (conj (A "e") (conj (B "e") (conj (C "e") (conj (D "e") E)))).
Defined.

Lemma off_of_unregistered_changes_nothing_witness :
  let s := the_bus 0 stage in
  events (bus_off "e" (User 1) s) = events s /\
  onceEvents (bus_off "e" (User 1) s) = onceEvents s /\
  middleware (bus_off "e" (User 1) s) = middleware s /\
  eventNames (bus_off "e" (User 1) s) = ["e"] /\
  listenerCount "e" (bus_off "e" (User 1) s) = 3.
Proof.
  destruct (off_of_unregistered_changes_nothing
              (the_bus 0 stage) "e" (User 1) eq_refl eq_refl)
    as (A & B & C & D & E).
  exact (conj A (conj B (conj C (conj D (E "e"))))).
Defined.

(** [removeAllListeners("e")] on [stage], which [staging] builds. *)
Lemma removeAllListeners_forgets_the_event_witness :
  (let s' := removeAllListeners (Some "e") (the_bus 0 stage) in
   listenerCount "e" s' = 0 /\
   hasListeners "e" s' = false /\
   ~ In "e" (eventNames s') /\
   middleware s' = middleware (the_bus 0 stage)) /\
  Forall keyed (buses stage).
Proof.
  destruct (@removeAllListeners_forgets_the_event nat) as [H1 H2].
  split.
  - destruct (H1 (the_bus 0 stage) "e") as (A & B & C & _ & E);
      [discriminate | exact keyed_stage |].
    exact (conj A (conj B (conj C E))).
  - exact (H2 mixed 5 staging stage staged staging_runs).
Defined.

Lemma returned_closures_undo_registrations_witness :
  (exists h w1 w2,
      exec mixed 5 (OOnce 0 "e" (Callback 1) false) stage
      = Some (w1, Normal (RHandle h)) /\
      exec mixed 5 (OCall h) w1 = Some (w2, Normal RVoid) /\
      same_listeners stage w2) /\
  (exists h w1 w2,
      exec mixed 5 (OPipe 0 "e" 0 (Some "f")) stage
      = Some (w1, Normal (RHandle h)) /\
      exec mixed 5 (OCall h) w1 = Some (w2, Normal RVoid) /\
      same_listeners stage w2) /\
  (exists h w1 w2,
      exec mixed 5 (OStream 0 "e") stage = Some (w1, Normal (RHandle h)) /\
      exec mixed 5 (OStreamDestroy h) w1 = Some (w2, Normal RVoid) /\
      same_listeners stage w2).
Proof.
  exact (returned_closures_undo_registrations
           mixed 5 staging stage staged 0 "e" 1 false 0 (Some "f")
           staging_runs).
Defined.




(** An emission with two throwing listeners and [destroy] on [stage]. *)
Lemma counters_never_decrease_witness :
  exists w' rs,
    run mixed 8 [OEmit 0 "e" 7; ODestroy 0] stage = Some (w', rs) /\
    map (fun s => errorCount (reactiveState s)) (buses w') = [2] /\
    (forall b s,
        nth_error (buses stage) b = Some s ->
        exists s',
          nth_error (buses w') b = Some s' /\
          errorHandler s' = errorHandler s /\
          totalEventsEmitted (reactiveState s)
          <= totalEventsEmitted (reactiveState s') /\
          errorCount (reactiveState s) <= errorCount (reactiveState s')) /\
    (forall c st,
        nth_error (cells stage) c = Some st ->
        exists st',
          nth_error (cells w') c = Some st' /\ s_count st <= s_count st').
Proof.
  eexists. eexists. split; [vm_compute; reflexivity|].
  split; [reflexivity|].
  eapply (counters_never_decrease mixed 8 [OEmit 0 "e" 7; ODestroy 0] stage).
  vm_compute. reflexivity.
Defined.

Lemma metrics_total_is_the_sum_over_eventNames_witness :
  exec mixed 5 (OMetricsTotalListeners (HMetrics 0)) stage
  = Some (stage, Normal (RNumber 3)) /\
  activeListeners (reactiveState (the_bus 0 stage)) = 3.
Proof.
  exact (metrics_total_is_the_sum_over_eventNames
           mixed 5 staging stage staged 0 staging_runs).
Defined.


(** [stage] and a second, fresh bus that is piped into it. *)
Definition relay : @World nat := fst (construct false None stage).

Lemma calm_relay : calm mixed 0 "e" [2; 1] [0; 1] relay.
Proof.
  split; [exact no_calls_mixed|]. split; [exact handler_returns_stage|].
  split; [reflexivity|]. split; [reflexivity|]. split.
  - intros f [<-|[<-|[]]]; exact I.
  - intros f [<-|[]]. exists (OnceWrapper 0 "e" (User 3)).
    split; [reflexivity | exact I].
Qed.



(** ** Listeners that act while they are called *)

(** Four callbacks on "e": 1, 0, 2 and 3, in this order. *)
Definition crowd : @World nat :=
  fst (on 0 "e" (VFun (User 3)) false
         (fst (on 0 "e" (VFun (User 2)) false
                 (fst (on 0 "e" (VFun (User 0)) false
                         (fst (on 0 "e" (VFun (User 1)) false
                                 one_bus))))))).

(** Callback 0 unsubscribes callback 2. *)
Definition unsubscribing (u : nat) (x : nat) (ev : option string)
  : @behaviour nat :=
  match u with
  | 0 => mkBehaviour [AOff 0 "e" (Callback 2)] (Normal RetUndefined)
  | _ => mkBehaviour [] (Normal RetUndefined)
  end.

(** Callback 0 subscribes callback 4. *)
Definition subscribing (u : nat) (x : nat) (ev : option string)
  : @behaviour nat :=
  match u with
  | 0 => mkBehaviour [AOn 0 "e" (Callback 4) false] (Normal RetUndefined)
  | _ => mkBehaviour [] (Normal RetUndefined)
  end.




